(** * ChessMaster engine: board, static exchange evaluation, transposition
      table, draw rules, time limits and null-move pruning.

    A shallow embedding of the C++ sources.  Fixed-width integers are
    integers of [Z] with their wrap-around written out; bitboards are
    64-bit values handled with [Z.land], [Z.lor], [Z.lxor], [Z.shiftl],
    [Z.shiftr] and [Z.testbit]; C arrays are lists read and written by
    index; the [std::vector] of [StateInfo] is a list whose last element
    is [state()].  Assertions ([assert], [high_assert]) are compiled out,
    as in a release build. *)

From Stdlib Require Import ZArith Lia Bool List String Ascii.
From stdpp Require Import base list.

Local Open Scope Z_scope.

(* ===================================================================== *)
(** ** Utils/Types.h : fixed-width integers *)
(* ===================================================================== *)

Module Int.
Definition u8 (z : Z) : Z := z mod 256.
Definition u16 (z : Z) : Z := z mod 65536.
Definition u32 (z : Z) : Z := z mod 4294967296.
Definition u64 (z : Z) : Z := Z.land z (Z.ones 64).
Definition i8 (z : Z) : Z := (z + 128) mod 256 - 128.
Definition i16 (z : Z) : Z := (z + 32768) mod 65536 - 32768.
Definition i32 (z : Z) : Z := (z + 2147483648) mod 4294967296 - 2147483648.
Definition i64 (z : Z) : Z :=
  (z + 9223372036854775808) mod 18446744073709551616 - 9223372036854775808.

Definition INT64_MAX : Z := 9223372036854775807.
Definition INT32_MAX : Z := 2147483647.
Definition UINT64_MAX : Z := 18446744073709551615.

(** C++ integer division truncates towards zero. *)
Definition cdiv (a b : Z) : Z := Z.quot a b.
End Int.

(** Array cells: [a[i]] and [a[i] = v]. *)
Definition rd {A} `{Inhabited A} (l : list A) (i : Z) : A := l !!! Z.to_nat i.
Definition wr {A} (l : list A) (i : Z) (v : A) : list A := <[Z.to_nat i := v]> l.

(* ===================================================================== *)
(** ** Chess/Defs.h *)
(* ===================================================================== *)

Module Color.
Inductive t : Set := BLACK | WHITE.

Definition toZ (c : t) : Z := match c with BLACK => 0 | WHITE => 1 end.

Definition fromFENChar (ch : ascii) : t :=
  if Ascii.eqb ch "w" then WHITE else BLACK.

(** [Color(m_value ^ 1)] *)
Definition getOpposite (c : t) : t :=
  match c with BLACK => WHITE | WHITE => BLACK end.

Definition eqb (a b : t) : bool :=
  match a, b with BLACK, BLACK | WHITE, WHITE => true | _, _ => false end.

Definition iter : list t := [BLACK; WHITE].
End Color.

#[global] Instance Color_eq_dec : EqDecision Color.t.
Proof. solve_decision. Defined.

Module PieceType.
Definition NONE : Z := 0.
Definition PAWN : Z := 1.
Definition KNIGHT : Z := 2.
Definition BISHOP : Z := 3.
Definition ROOK : Z := 4.
Definition QUEEN : Z := 5.
Definition KING : Z := 6.
Definition VALUES_COUNT : Z := 7.
End PieceType.

Module Piece.
Definition NONE : Z := 0.
Definition PAWN_BLACK : Z := 2.
Definition PAWN_WHITE : Z := 3.
Definition KNIGHT_BLACK : Z := 4.
Definition KNIGHT_WHITE : Z := 5.
Definition BISHOP_BLACK : Z := 6.
Definition BISHOP_WHITE : Z := 7.
Definition ROOK_BLACK : Z := 8.
Definition ROOK_WHITE : Z := 9.
Definition QUEEN_BLACK : Z := 10.
Definition QUEEN_WHITE : Z := 11.
Definition KING_BLACK : Z := 12.
Definition KING_WHITE : Z := 13.
Definition VALUES_COUNT : Z := 14.

(** [Piece(color, pt)] is [u8(color) | (u8(pt) << 1)]. *)
Definition make (color : Color.t) (pt : Z) : Z :=
  Int.u8 (Z.lor (Color.toZ color) (Z.shiftl pt 1)).

Definition fromFENChar (ch : ascii) : Z :=
  if Ascii.eqb ch "P" then PAWN_WHITE
  else if Ascii.eqb ch "N" then KNIGHT_WHITE
  else if Ascii.eqb ch "B" then BISHOP_WHITE
  else if Ascii.eqb ch "R" then ROOK_WHITE
  else if Ascii.eqb ch "Q" then QUEEN_WHITE
  else if Ascii.eqb ch "K" then KING_WHITE
  else if Ascii.eqb ch "p" then PAWN_BLACK
  else if Ascii.eqb ch "n" then KNIGHT_BLACK
  else if Ascii.eqb ch "b" then BISHOP_BLACK
  else if Ascii.eqb ch "r" then ROOK_BLACK
  else if Ascii.eqb ch "q" then QUEEN_BLACK
  else if Ascii.eqb ch "k" then KING_BLACK
  else NONE.

(** [Color::Value(m_value & 1)] *)
Definition getColor (p : Z) : Color.t :=
  if Z.land p 1 =? 1 then Color.WHITE else Color.BLACK.

(** [PieceType::Value(m_value >> 1)] *)
Definition getType (p : Z) : Z := Z.shiftr p 1.
End Piece.

Module File.
Definition A : Z := 0.
Definition C : Z := 2.
Definition G : Z := 6.
Definition H : Z := 7.
(** [File(ch - 'a')], the difference stored in a [u8]. *)
Definition fromFENChar (ch : ascii) : Z :=
  Int.u8 (Z.of_nat (nat_of_ascii ch) - 97).
Definition iter : list Z := [0; 1; 2; 3; 4; 5; 6; 7].
End File.

Module Rank.
Definition R1 : Z := 0.
Definition R3 : Z := 2.
Definition R7 : Z := 6.
Definition R8 : Z := 7.
(** [Rank(ch - '1')] *)
Definition fromFENChar (ch : ascii) : Z :=
  Int.u8 (Z.of_nat (nat_of_ascii ch) - 49).
(** [Rank(rank ^ (0x7 * color.getOpposite()))] *)
Definition makeRelativeRank (color : Color.t) (rank : Z) : Z :=
  Z.lxor rank (7 * Color.toZ (Color.getOpposite color)).
Definition distance (a b : Z) : Z := Z.abs (a - b).
End Rank.

Module Direction.
Inductive t : Set :=
  UP | LEFT | UPLEFT | UPRIGHT | DOWNLEFT | DOWNRIGHT | RIGHT | DOWN.

Definition toZ (d : t) : Z :=
  match d with
  | UP => 0 | LEFT => 1 | UPLEFT => 2 | UPRIGHT => 3
  | DOWNLEFT => 4 | DOWNRIGHT => 5 | RIGHT => 6 | DOWN => 7
  end.

(** [Direction(0x7 & ~m_value)] *)
Definition getOpposite (d : t) : t :=
  match d with
  | UP => DOWN | LEFT => RIGHT | UPLEFT => DOWNRIGHT | UPRIGHT => DOWNLEFT
  | DOWNLEFT => UPRIGHT | DOWNRIGHT => UPLEFT | RIGHT => LEFT | DOWN => UP
  end.

Definition makeRelativeDirection (color : Color.t) (dir : t) : t :=
  match color with Color.BLACK => getOpposite dir | Color.WHITE => dir end.

Definition iter : list t :=
  [UP; LEFT; UPLEFT; UPRIGHT; DOWNLEFT; DOWNRIGHT; RIGHT; DOWN].
End Direction.

Module Square.
Definition A1 : Z := 0.
Definition B1 : Z := 1.
Definition C1 : Z := 2.
Definition D1 : Z := 3.
Definition E1 : Z := 4.
Definition F1 : Z := 5.
Definition G1 : Z := 6.
Definition H1 : Z := 7.
Definition A8 : Z := 56.
Definition B8 : Z := 57.
Definition C8 : Z := 58.
Definition D8 : Z := 59.
Definition E8 : Z := 60.
Definition F8 : Z := 61.
Definition G8 : Z := 62.
Definition H8 : Z := 63.
Definition VALUES_COUNT : Z := 64.
Definition NO_POS : Z := 65.

(** [Square(file, rank)] is [file | u8(rank << 3)]. *)
Definition make (file rank : Z) : Z := Z.lor file (Int.u8 (Z.shiftl rank 3)).

Definition getRank (sq : Z) : Z := Z.shiftr sq 3.
Definition getFile (sq : Z) : Z := Z.land sq 7.

Definition tolower (ch : ascii) : ascii :=
  let n := nat_of_ascii ch in
  if (65 <=? n)%nat && (n <=? 90)%nat then ascii_of_nat (n + 32) else ch.

Definition fromChars (f r : ascii) : Z :=
  make (File.fromFENChar (tolower f)) (Rank.fromFENChar r).

(** [Square(sq ^ (0x38 * color.getOpposite()))] *)
Definition makeRelativeSquare (color : Color.t) (sq : Z) : Z :=
  Z.lxor sq (56 * Color.toZ (Color.getOpposite color)).

Definition getOpposite (sq : Z) : Z := Z.lxor sq 56.
Definition mirrorByFile (sq : Z) : Z := Z.lxor sq 7.

Definition forward (sq value : Z) : Z := Int.u8 (sq + value).
Definition backward (sq value : Z) : Z := Int.u8 (sq - value).

Definition shift (sq : Z) (dir : Direction.t) : Z :=
  match dir with
  | Direction.UP => Int.u8 (sq + 8)
  | Direction.DOWN => Int.u8 (sq - 8)
  | Direction.LEFT => Int.u8 (sq - 1)
  | Direction.RIGHT => Int.u8 (sq + 1)
  | Direction.UPRIGHT => Int.u8 (sq + 9)
  | Direction.UPLEFT => Int.u8 (sq + 7)
  | Direction.DOWNRIGHT => Int.u8 (sq - 7)
  | Direction.DOWNLEFT => Int.u8 (sq - 9)
  end.

(** [s_distance[a][b]], filled by [Square::init]. *)
Definition distance (a b : Z) : Z :=
  Z.max (Rank.distance (getRank a) (getRank b))
        (Z.abs (getFile a - getFile b)).

Definition iter : list Z := map Z.of_nat (seq 0 64).
End Square.

Module Castle.
Inductive t : Set := QUEEN_CASTLE | KING_CASTLE | BOTH_CASTLE | CASTLE_DONE.

Definition getBitMaskFor (castle : t) (color : Color.t) : Z :=
  match color, castle with
  | Color.BLACK, QUEEN_CASTLE => 1
  | Color.BLACK, KING_CASTLE => 2
  | Color.BLACK, BOTH_CASTLE => 3
  | Color.BLACK, CASTLE_DONE => 16
  | Color.WHITE, QUEEN_CASTLE => 4
  | Color.WHITE, KING_CASTLE => 8
  | Color.WHITE, BOTH_CASTLE => 12
  | Color.WHITE, CASTLE_DONE => 32
  end.

Definition hasCastleRight (rights : Z) (castle : t) (color : Color.t) : bool :=
  let mask := getBitMaskFor castle color in
  Z.land rights mask =? mask.

Definition hasAnyCastleRight (rights : Z) : bool :=
  let mask := Z.lor (getBitMaskFor BOTH_CASTLE Color.BLACK)
                    (getBitMaskFor BOTH_CASTLE Color.WHITE) in
  negb (Z.land rights mask =? 0).

Definition castleChange : list Z :=
  [ 4; 0; 0; 0; 12; 0; 0; 8;
    0; 0; 0; 0; 0; 0; 0; 0;
    0; 0; 0; 0; 0; 0; 0; 0;
    0; 0; 0; 0; 0; 0; 0; 0;
    0; 0; 0; 0; 0; 0; 0; 0;
    0; 0; 0; 0; 0; 0; 0; 0;
    0; 0; 0; 0; 0; 0; 0; 0;
    1; 0; 0; 0; 3; 0; 0; 2 ].

(** [s_castleRightMasks[sq] = ~castleChange[sq]] as a [u8]. *)
Definition getCastleChangeMask (sq : Z) : Z :=
  Z.lxor (rd castleChange sq) 255.

Definition bitMaskFromFENChar (ch : ascii) : Z :=
  if Ascii.eqb ch "K" then getBitMaskFor KING_CASTLE Color.WHITE
  else if Ascii.eqb ch "Q" then getBitMaskFor QUEEN_CASTLE Color.WHITE
  else if Ascii.eqb ch "k" then getBitMaskFor KING_CASTLE Color.BLACK
  else if Ascii.eqb ch "q" then getBitMaskFor QUEEN_CASTLE Color.BLACK
  else 0.
End Castle.

(* ===================================================================== *)
(** ** Chess/Move.h *)
(* ===================================================================== *)

Module MoveType.
Definition SIMPLE : Z := 0.
Definition PROMOTION : Z := 1.
Definition ENPASSANT : Z := 2.
Definition CASTLE : Z := 3.
End MoveType.

(** A move is its 32-bit word: the 16-bit [m_data] in the low half, the
    ordering score [m_value] in the high half (zero when constructed). *)
Module Move.
Definition make2 (from to : Z) : Z :=
  Int.u32 (Z.lor from (Z.shiftl to 6)).

Definition make (from to mt promotedPiece : Z) : Z :=
  Int.u32 (Z.lor (Z.lor (Z.lor from (Z.shiftl to 6))
    (Int.u32 (Z.shiftl (Int.u32 (promotedPiece - PieceType.KNIGHT)) 12)))
    (Z.shiftl mt 14)).

Definition makeNullMove : Z := 0.
Definition getData (m : Z) : Z := Z.land m 65535.
Definition isNullMove (m : Z) : bool := getData m =? 0.
Definition getFrom (m : Z) : Z := Z.land (getData m) 63.
Definition getTo (m : Z) : Z := Z.land (Z.shiftr (getData m) 6) 63.
Definition getPromotedPiece (m : Z) : Z :=
  Z.land (Z.shiftr (getData m) 12) 3 + PieceType.KNIGHT.
Definition getMoveType (m : Z) : Z := Z.land (Z.shiftr (getData m) 14) 3.
(** [operator==] compares [m_data] only. *)
Definition eqb (a b : Z) : bool := getData a =? getData b.
End Move.

(* ===================================================================== *)
(** ** Utils/BitUtils.h and Chess/BitBoard.h, BitBoard.cpp *)
(* ===================================================================== *)

Module BitBoard.
Definition EMPTY : Z := 0.
Definition FILE_A : Z := 0x0101010101010101.
Definition RANK_1 : Z := 0xff.

Definition fromFile (file : Z) : Z := Int.u64 (Z.shiftl FILE_A file).
Definition fromRank (rank : Z) : Z := Int.u64 (Z.shiftl RANK_1 (Z.shiftl rank 3)).
Definition fromSquare (sq : Z) : Z := Int.u64 (Z.shiftl 1 sq).
Definition fromSquares (sqs : list Z) : Z :=
  fold_left (fun acc sq => Z.lor acc (Int.u64 (Z.shiftl 1 sq))) sqs EMPTY.

Definition test (bb sq : Z) : bool := negb (Z.land bb (fromSquare sq) =? 0).
Definition b_not (bb : Z) : Z := Z.ldiff (Z.ones 64) bb.
Definition set (bb sq : Z) : Z := Z.lor bb (fromSquare sq).
Definition clear (bb sq : Z) : Z := Z.land bb (b_not (fromSquare sq)).
(** [move(from, to)] : [m_value ^= (1 << from) | (1 << to)] *)
Definition move (bb from to : Z) : Z :=
  Z.lxor bb (Z.lor (fromSquare from) (fromSquare to)).

(** [bit_utils::leastSignificantBit], i.e. [std::countr_zero]: the number
    of zero bits below the lowest set one, 64 when there is none. *)
Fixpoint countr_zero (fuel : nat) (i : Z) (value : Z) : Z :=
  match fuel with
  | O => i
  | S fuel' => if Z.testbit value i then i else countr_zero fuel' (i + 1) value
  end.

Definition lsb (bb : Z) : Z := countr_zero 64 0 bb.

(** [pop()] returns the least significant square and erases it with
    [m_value &= (m_value - 1)]. *)
Definition pop (bb : Z) : Z * Z := (lsb bb, Z.land bb (bb - 1)).

Definition hasMoreThanOne (bb : Z) : bool := negb (Z.land bb (bb - 1) =? 0).

(** [BB_FOR_EACH(sq, bb)] : the squares visited, in visiting order. *)
Fixpoint squares_loop (fuel : nat) (bb : Z) : list Z :=
  match fuel with
  | O => []
  | S fuel' =>
      if bb =? 0 then []
      else let '(sq, bb') := pop bb in sq :: squares_loop fuel' bb'
  end.

Definition squares (bb : Z) : list Z := squares_loop 64 bb.

Definition shift (bb : Z) (dir : Direction.t) : Z :=
  match dir with
  | Direction.UP => Int.u64 (Z.shiftl bb 8)
  | Direction.DOWN => Z.shiftr bb 8
  | Direction.LEFT => Z.land (Z.shiftr bb 1) (b_not (fromFile File.H))
  | Direction.RIGHT => Z.land (Int.u64 (Z.shiftl bb 1)) (b_not (fromFile File.A))
  | Direction.UPRIGHT => Z.land (Int.u64 (Z.shiftl bb 9)) (b_not (fromFile File.A))
  | Direction.UPLEFT => Z.land (Int.u64 (Z.shiftl bb 7)) (b_not (fromFile File.H))
  | Direction.DOWNRIGHT => Z.land (Z.shiftr bb 7) (b_not (fromFile File.A))
  | Direction.DOWNLEFT => Z.land (Z.shiftr bb 9) (b_not (fromFile File.H))
  end.

Definition pawnAttackedSquares (side : Color.t) (bb : Z) : Z :=
  match side with
  | Color.WHITE => Z.lor (shift bb Direction.UPLEFT) (shift bb Direction.UPRIGHT)
  | Color.BLACK => Z.lor (shift bb Direction.DOWNLEFT) (shift bb Direction.DOWNRIGHT)
  end.

(** [slidingAttack]: walk every ray of the piece until the board edge or
    the first occupied square (included). *)
Fixpoint slide (fuel : nat) (dir : Direction.t) (occupied bb result : Z) : Z :=
  match fuel with
  | O => result
  | S fuel' =>
      let bb := shift bb dir in
      if bb =? 0 then result
      else
        let result := Z.lor result bb in
        if negb (Z.land occupied bb =? 0) then result
        else slide fuel' dir occupied bb result
  end.

Definition slidingAttack (pt sq occupied : Z) : Z :=
  if pt =? PieceType.ROOK then
    fold_left (fun result dir => slide 8 dir occupied (fromSquare sq) result)
      [Direction.UP; Direction.DOWN; Direction.RIGHT; Direction.LEFT] EMPTY
  else if pt =? PieceType.BISHOP then
    fold_left (fun result dir => slide 8 dir occupied (fromSquare sq) result)
      [Direction.UPLEFT; Direction.DOWNLEFT; Direction.UPRIGHT; Direction.DOWNRIGHT] EMPTY
  else EMPTY.

(** [initMagicBitBoards]: the relevant-occupancy mask of a square, and the
    table, which holds [slidingAttack(pt, s, b)] at index
    [parallelExtract(b, mask)] for every subset [b] of the mask. *)
Definition magicMask (pt s : Z) : Z :=
  let edges :=
    Z.lor
      (Z.land (Z.lor RANK_1 (fromRank Rank.R8)) (b_not (fromRank (Square.getRank s))))
      (Z.land (Z.lor FILE_A (fromFile File.H)) (b_not (fromFile (Square.getFile s)))) in
  Z.land (slidingAttack pt s 0) (b_not edges).

(** [m.attacks[m.computeIndex(occ)]]: the entry written for the subset
    [occ & mask], the only one with that index. *)
Definition magicLookup (pt sq occ : Z) : Z :=
  slidingAttack pt sq (Z.land occ (magicMask pt sq)).

(** [s_directionBits[sq][dir]], from the loops of [BitBoard::init]. *)
Fixpoint ray (fuel : nat) (step : Z) (inside : Z -> bool) (j acc : Z) : Z :=
  match fuel with
  | O => acc
  | S fuel' =>
      if inside j then ray fuel' step inside (j + step) (Z.lor acc (Z.shiftl 1 j))
      else acc
  end.

Definition directionBits (sq : Z) (dir : Direction.t) : Z :=
  match dir with
  | Direction.UP => ray 8 8 (fun j => j <? 64) (sq + 8) 0
  | Direction.DOWN => ray 8 (-8) (fun j => j >=? 0) (sq - 8) 0
  | Direction.LEFT => ray 8 (-1) (fun j => Z.land j 7 <? 7) (sq - 1) 0
  | Direction.RIGHT => ray 8 1 (fun j => Z.land j 7 >? 0) (sq + 1) 0
  | Direction.UPRIGHT => ray 8 9 (fun j => (j <? 64) && (Z.land j 7 >? 0)) (sq + 9) 0
  | Direction.DOWNRIGHT => ray 8 (-7) (fun j => (j >=? 0) && (Z.land j 7 >? 0)) (sq - 7) 0
  | Direction.DOWNLEFT => ray 8 (-9) (fun j => (j >=? 0) && (Z.land j 7 <? 7)) (sq - 9) 0
  | Direction.UPLEFT => ray 8 7 (fun j => (j <? 64) && (Z.land j 7 <? 7)) (sq + 7) 0
  end.

(** [s_betweenBits[a][b]]: the last assignment of the direction loop, then
    the bit of [b] itself OR-ed in. *)
Definition betweenBits (a b : Z) : Z :=
  Z.lor
    (fold_left (fun acc dir =>
       if Z.testbit (directionBits a dir) b
       then Z.land (directionBits a dir) (b_not (directionBits b dir))
       else acc) Direction.iter 0)
    (Int.u64 (Z.shiftl 1 b)).

Definition alignedBits (a b : Z) : Z :=
  fold_left (fun acc dir =>
    if Z.testbit (directionBits a dir) b
    then Z.lor (Z.lor (directionBits a dir) (directionBits a (Direction.getOpposite dir)))
               (fromSquare a)
    else acc) Direction.iter 0.

Definition areAligned (a b c : Z) : bool :=
  negb (Z.land (alignedBits a b) (Int.u64 (Z.shiftl 1 c)) =? 0).

Definition pawnAttacks (color : Color.t) (sq : Z) : Z :=
  pawnAttackedSquares color (fromSquare sq).

Definition kingAttacks (sq : Z) : Z :=
  fold_left (fun acc dir => Z.lor acc (shift (fromSquare sq) dir)) Direction.iter 0.

Definition knightAttacks (sq : Z) : Z :=
  let sqBB := fromSquare sq in
  let s2 d1 d2 := shift (shift sqBB d1) d2 in
  Z.lor (Z.lor (Z.lor (Z.lor (Z.lor (Z.lor (Z.lor
    (s2 Direction.UP Direction.UPLEFT)
    (s2 Direction.UP Direction.UPRIGHT))
    (s2 Direction.LEFT Direction.UPLEFT))
    (s2 Direction.LEFT Direction.DOWNLEFT))
    (s2 Direction.RIGHT Direction.UPRIGHT))
    (s2 Direction.RIGHT Direction.DOWNRIGHT))
    (s2 Direction.DOWN Direction.DOWNLEFT))
    (s2 Direction.DOWN Direction.DOWNRIGHT).

(** [s_pieceAttacks[pt][sq]]; rows NONE and PAWN stay zero. *)
Definition pseudoAttacks (pt sq : Z) : Z :=
  if pt =? PieceType.KING then kingAttacks sq
  else if pt =? PieceType.KNIGHT then knightAttacks sq
  else if pt =? PieceType.BISHOP then magicLookup PieceType.BISHOP sq EMPTY
  else if pt =? PieceType.ROOK then magicLookup PieceType.ROOK sq EMPTY
  else if pt =? PieceType.QUEEN then
    Z.lor (magicLookup PieceType.BISHOP sq EMPTY) (magicLookup PieceType.ROOK sq EMPTY)
  else 0.

Definition attacksOf (pt sq occ : Z) : Z :=
  if pt =? PieceType.BISHOP then magicLookup PieceType.BISHOP sq occ
  else if pt =? PieceType.ROOK then magicLookup PieceType.ROOK sq occ
  else if pt =? PieceType.QUEEN then
    Z.lor (magicLookup PieceType.ROOK sq occ) (magicLookup PieceType.BISHOP sq occ)
  else pseudoAttacks pt sq.

Definition castlingInternalSquares (color : Color.t) (castle : Castle.t) : Z :=
  match color, castle with
  | Color.WHITE, Castle.QUEEN_CASTLE => fromSquares [Square.B1; Square.C1; Square.D1]
  | Color.WHITE, Castle.KING_CASTLE => fromSquares [Square.F1; Square.G1]
  | Color.WHITE, Castle.BOTH_CASTLE =>
      fromSquares [Square.B1; Square.C1; Square.D1; Square.F1; Square.G1]
  | Color.BLACK, Castle.QUEEN_CASTLE => fromSquares [Square.B8; Square.C8; Square.D8]
  | Color.BLACK, Castle.KING_CASTLE => fromSquares [Square.F8; Square.G8]
  | Color.BLACK, Castle.BOTH_CASTLE =>
      fromSquares [Square.B8; Square.C8; Square.D8; Square.F8; Square.G8]
  | _, Castle.CASTLE_DONE => 0
  end.
End BitBoard.


(* ===================================================================== *)
(** ** Chess/Score.h *)
(* ===================================================================== *)

Module Material.
Definition MIN : Z := 8.
Definition RANGE : Z := 64.
Definition MAX : Z := MIN + RANGE.

Definition MATERIAL_VALUES : list Z := [0; 1; 3; 3; 5; 10; 0].
Definition materialOf (pt : Z) : Z := rd MATERIAL_VALUES pt.
End Material.

(** [Score]: a middlegame and an endgame [Value] (both [i16]); the
    arithmetic is component-wise and each component wraps. *)
Record Score : Set := mkScore { middlegame : Z; endgame : Z }.

#[global] Instance Score_inhabited : Inhabited Score := populate (mkScore 0 0).

Module ScoreOps.
Definition zero : Score := mkScore 0 0.
Definition add (a b : Score) : Score :=
  mkScore (Int.i16 (middlegame a + middlegame b)) (Int.i16 (endgame a + endgame b)).
Definition sub (a b : Score) : Score :=
  mkScore (Int.i16 (middlegame a - middlegame b)) (Int.i16 (endgame a - endgame b)).
End ScoreOps.

(* ===================================================================== *)
(** ** Engine/Scores.h, Scores.cpp *)
(* ===================================================================== *)

Module scores.
Definition S (mg eg : Z) : Score := mkScore mg eg.
Definition Zs : Score := mkScore 0 0.

Definition PIECE_VALUE : list Score :=
  [ Zs; S 100 130; S 320 360; S 350 390; S 550 650; S 1050 1150; Zs ].

(** The static initialiser of [PST]: for every piece type the first 32
    cells of the white row, all other cells zero. *)
Definition PST_init_white (pt : Z) : list Score :=
  if pt =? PieceType.PAWN then
    [ Zs; Zs; Zs; Zs;
      S 20 40; S 20 45; S 16 45; S 25 45;
      S 11 25; S 10 25; S 10 25; S 18 25;
      S 3 15; S 2 15; S 6 15; S 15 15;
      S 0 10; S 0 10; S 4 10; S 12 10;
      S 3 5; S 4 5; S (-4) 5; S 0 5;
      S (-2) 0; S (-3) 0; S 4 0; S (-12) 0;
      Zs; Zs; Zs; Zs ]
  else if pt =? PieceType.KNIGHT then
    [ S (-65) (-40); S (-40) (-20); S (-22) (-20); S (-15) (-15);
      S (-45) (-30); S (-15) (-9); S 7 2; S 10 5;
      S (-20) (-14); S 3 2; S 15 10; S 26 17;
      S (-12) (-8); S 10 5; S 24 15; S 40 23;
      S (-15) (-10); S 5 5; S 20 15; S 36 23;
      S (-30) (-20); S 0 2; S 12 10; S 23 17;
      S (-45) (-30); S (-16) (-9); S 2 2; S 8 5;
      S (-60) (-40); S (-25) (-20); S (-22) (-20); S (-25) (-15) ]
  else if pt =? PieceType.BISHOP then
    [ S (-15) (-20); S (-14) (-15); S (-9) (-10); S (-15) (-10);
      S (-10) (-15); S 5 10; S 2 5; S (-2) 0;
      S (-5) (-10); S 7 5; S 5 10; S 8 5;
      S 0 (-10); S (-5) 0; S 10 5; S 15 10;
      S 0 (-10); S (-5) 0; S 10 5; S 15 10;
      S 10 (-10); S 5 5; S 5 10; S 9 5;
      S 5 (-15); S 20 10; S 3 5; S 0 0;
      S (-5) (-20); S (-12) (-15); S 1 (-10); S (-10) (-10) ]
  else if pt =? PieceType.ROOK then
    [ S (-12) (-1); S (-10) 0; S (-4) 0; S (-1) 0;
      S (-8) 0; S 4 0; S 5 0; S 5 0;
      S (-15) 0; S (-2) 0; S (-5) 0; S (-5) 0;
      S (-20) 0; S (-5) 0; S (-10) 0; S (-20) 0;
      S (-20) 0; S (-5) 0; S (-10) 0; S (-20) 0;
      S (-15) 0; S (-2) 0; S (-5) 0; S (-5) 0;
      S (-8) 0; S 0 0; S 1 0; S 12 0;
      S (-10) (-1); S (-8) 0; S 2 0; S 20 0 ]
  else if pt =? PieceType.QUEEN then
    [ S (-8) (-20); S (-10) (-15); S (-10) (-10); S 0 (-5);
      S 0 (-15); S 0 (-9); S 0 0; S 10 0;
      S 0 (-10); S 0 0; S 0 5; S 6 6;
      S 0 (-5); S 0 3; S 4 10; S 3 12;
      S 0 (-5); S 0 3; S 4 10; S 4 12;
      S 0 (-10); S 0 0; S 0 5; S 0 6;
      S 0 (-15); S 0 (-9); S 0 0; S 0 0;
      S (-8) (-20); S (-8) (-15); S (-5) (-10); S 0 (-5) ]
  else if pt =? PieceType.KING then
    [ S (-70) (-60); S (-70) (-45); S (-75) (-40); S (-80) (-35);
      S (-80) (-45); S (-80) (-25); S (-85) (-20); S (-85) (-15);
      S (-80) (-40); S (-80) (-20); S (-85) (-5); S (-85) 0;
      S (-70) (-35); S (-70) (-15); S (-70) 0; S (-70) 10;
      S (-55) (-35); S (-55) (-15); S (-60) 0; S (-65) 10;
      S (-40) (-40); S (-45) (-20); S (-45) (-5); S (-50) 0;
      S (-5) (-45); S (-5) (-25); S (-25) (-20); S (-30) (-15);
      S 25 (-60); S 35 (-45); S 7 (-40); S (-5) (-35) ]
  else [].

Definition PST_static : list (list Score) :=
  map (fun piece : Z =>
         let row := if Z.land piece 1 =? 1
                    then PST_init_white (Piece.getType piece) else [] in
         row ++ replicate (64 - length row) Zs)
      (map Z.of_nat (seq 0 14)).

(** [initScores], second loop: spread the 32 cells over both colours
    and both board halves, adding the piece value. *)
Definition initPST : list (list Score) :=
  fold_left (fun (pst : list (list Score)) (pt : Z) =>
    let white := Piece.make Color.WHITE pt in
    let black := Piece.make Color.BLACK pt in
    let tmp := take 32 (rd pst white) in
    fold_left (fun (pst : list (list Score)) (i : Z) =>
      let rank := Z.shiftr i 2 in
      let file := Z.land i 3 in
      let sqB := Square.make file rank in
      let sqW := Square.getOpposite sqB in
      let score := ScoreOps.add (rd tmp i) (rd PIECE_VALUE pt) in
      let pst := wr pst white (wr (rd pst white) (Square.mirrorByFile sqW) score) in
      let pst := wr pst white (wr (rd pst white) sqW score) in
      let pst := wr pst black (wr (rd pst black) (Square.mirrorByFile sqB) score) in
      wr pst black (wr (rd pst black) sqB score))
      (map Z.of_nat (seq 0 32)) pst)
    (map Z.of_nat (seq 0 7)) PST_static.

Definition PST_table : list (list Score) := Eval vm_compute in initPST.

Definition PST (piece sq : Z) : Score := rd (rd PST_table piece) sq.

(** [initScores], first loop. *)
Definition SIMPLIFIED_PIECE_VALUES (piece : Z) : Z :=
  let score := rd PIECE_VALUE (Piece.getType piece) in
  Int.i16 (Int.cdiv (middlegame score + endgame score) 2).
End scores.

(** Constants that live in Engine/Scores.h, namespace [engine]. *)
Module engine.
Definition MAX_DEPTH : Z := 99.
Definition INF : Z := 31000.
Definition MATE : Z := 30000.
Definition SURE_WIN : Z := 20000.

Definition isMateValue (value : Z) : bool :=
  ((value >? MATE - MAX_DEPTH * 2) && (value <=? MATE))
  || ((value <? MAX_DEPTH * 2 - MATE) && (value >=? - MATE)).
End engine.

(* ===================================================================== *)
(** ** Chess/Zobrist.h *)
(* ===================================================================== *)

(** The key tables are declared in Zobrist.h and defined elsewhere; they
    are taken as they come.  The two sentinels are given in the header. *)
Record ZobristKeys : Type := mkZobristKeys {
  zPIECE : Z -> Z -> Z;
  zSIDE : Color.t -> Z;
  zEP : Z -> Z;
  zCASTLING : Z -> Z }.

Module zobrist.
Definition MOVE_KEY : Z := 0x54ca3eb5b5f3cb5b.
Definition NULL_MOVE_KEY : Z := 0x08d9bc25bebf91b1.
End zobrist.

(* ===================================================================== *)
(** ** Chess/Board.h : the data *)
(* ===================================================================== *)

(** Cells of the two-element arrays indexed by a colour. *)
Definition rdc {A} `{Inhabited A} (l : list A) (c : Color.t) : A := rd l (Color.toZ c).
Definition wrc {A} (l : list A) (c : Color.t) (v : A) : list A := wr l (Color.toZ c) v.

Record StateInfo : Set := mkStateInfo {
  checkBlockers : list Z;     (* [Color::VALUES_COUNT] *)
  pinners : list Z;           (* [Color::VALUES_COUNT] *)
  checkGivers : Z;
  hash : Z;
  lastRepetition : Z;
  movesFromNull : Z;
  ep : Z;
  captured : Z;
  fiftyRule : Z;
  castleRight : Z }.

(** The default member initialisers of [StateInfo]. *)
Definition StateInfo_default : StateInfo :=
  mkStateInfo [BitBoard.EMPTY; BitBoard.EMPTY] [BitBoard.EMPTY; BitBoard.EMPTY]
    BitBoard.EMPTY 0 0 0 Square.NO_POS Piece.NONE 0 0.

#[global] Instance StateInfo_inhabited : Inhabited StateInfo := populate StateInfo_default.

Definition set_checkBlockers (st : StateInfo) (v : list Z) : StateInfo :=
  mkStateInfo v (pinners st) (checkGivers st) (hash st) (lastRepetition st)
    (movesFromNull st) (ep st) (captured st) (fiftyRule st) (castleRight st).
Definition set_pinners (st : StateInfo) (v : list Z) : StateInfo :=
  mkStateInfo (checkBlockers st) v (checkGivers st) (hash st) (lastRepetition st)
    (movesFromNull st) (ep st) (captured st) (fiftyRule st) (castleRight st).
Definition set_checkGivers (st : StateInfo) (v : Z) : StateInfo :=
  mkStateInfo (checkBlockers st) (pinners st) v (hash st) (lastRepetition st)
    (movesFromNull st) (ep st) (captured st) (fiftyRule st) (castleRight st).
Definition set_hash (st : StateInfo) (v : Z) : StateInfo :=
  mkStateInfo (checkBlockers st) (pinners st) (checkGivers st) v (lastRepetition st)
    (movesFromNull st) (ep st) (captured st) (fiftyRule st) (castleRight st).
Definition set_lastRepetition (st : StateInfo) (v : Z) : StateInfo :=
  mkStateInfo (checkBlockers st) (pinners st) (checkGivers st) (hash st) v
    (movesFromNull st) (ep st) (captured st) (fiftyRule st) (castleRight st).
Definition set_movesFromNull (st : StateInfo) (v : Z) : StateInfo :=
  mkStateInfo (checkBlockers st) (pinners st) (checkGivers st) (hash st) (lastRepetition st)
    v (ep st) (captured st) (fiftyRule st) (castleRight st).
Definition set_ep (st : StateInfo) (v : Z) : StateInfo :=
  mkStateInfo (checkBlockers st) (pinners st) (checkGivers st) (hash st) (lastRepetition st)
    (movesFromNull st) v (captured st) (fiftyRule st) (castleRight st).
Definition set_captured (st : StateInfo) (v : Z) : StateInfo :=
  mkStateInfo (checkBlockers st) (pinners st) (checkGivers st) (hash st) (lastRepetition st)
    (movesFromNull st) (ep st) v (fiftyRule st) (castleRight st).
Definition set_fiftyRule (st : StateInfo) (v : Z) : StateInfo :=
  mkStateInfo (checkBlockers st) (pinners st) (checkGivers st) (hash st) (lastRepetition st)
    (movesFromNull st) (ep st) (captured st) v (castleRight st).
Definition set_castleRight (st : StateInfo) (v : Z) : StateInfo :=
  mkStateInfo (checkBlockers st) (pinners st) (checkGivers st) (hash st) (lastRepetition st)
    (movesFromNull st) (ep st) (captured st) (fiftyRule st) v.

Record Board : Set := mkBoard {
  m_board : list Z;             (* Piece m_board[64] *)
  m_pieces : list Z;            (* BitBoard m_pieces[Piece::VALUES_COUNT] *)
  m_piecesByColor : list Z;     (* BitBoard m_piecesByColor[2] *)
  m_states : list StateInfo;    (* std::vector<StateInfo> *)
  m_material : list Z;          (* i32 m_material[2] *)
  m_score : list Score;         (* Score m_score[2] *)
  m_moveCount : Z;              (* u32 *)
  m_side : Color.t }.

Definition set_m_board (b : Board) (v : list Z) : Board :=
  mkBoard v (m_pieces b) (m_piecesByColor b) (m_states b) (m_material b)
    (m_score b) (m_moveCount b) (m_side b).
Definition set_m_pieces (b : Board) (v : list Z) : Board :=
  mkBoard (m_board b) v (m_piecesByColor b) (m_states b) (m_material b)
    (m_score b) (m_moveCount b) (m_side b).
Definition set_m_piecesByColor (b : Board) (v : list Z) : Board :=
  mkBoard (m_board b) (m_pieces b) v (m_states b) (m_material b)
    (m_score b) (m_moveCount b) (m_side b).
Definition set_m_states (b : Board) (v : list StateInfo) : Board :=
  mkBoard (m_board b) (m_pieces b) (m_piecesByColor b) v (m_material b)
    (m_score b) (m_moveCount b) (m_side b).
Definition set_m_material (b : Board) (v : list Z) : Board :=
  mkBoard (m_board b) (m_pieces b) (m_piecesByColor b) (m_states b) v
    (m_score b) (m_moveCount b) (m_side b).
Definition set_m_score (b : Board) (v : list Score) : Board :=
  mkBoard (m_board b) (m_pieces b) (m_piecesByColor b) (m_states b) (m_material b)
    v (m_moveCount b) (m_side b).
Definition set_m_moveCount (b : Board) (v : Z) : Board :=
  mkBoard (m_board b) (m_pieces b) (m_piecesByColor b) (m_states b) (m_material b)
    (m_score b) v (m_side b).
Definition set_m_side (b : Board) (v : Color.t) : Board :=
  mkBoard (m_board b) (m_pieces b) (m_piecesByColor b) (m_states b) (m_material b)
    (m_score b) (m_moveCount b) v.

(** [Board::Board()] *)
Definition Board_new : Board :=
  mkBoard (replicate 64 Piece.NONE) (replicate 14 BitBoard.EMPTY)
    (replicate 2 BitBoard.EMPTY) [StateInfo_default] [0; 0]
    [ScoreOps.zero; ScoreOps.zero] 1 Color.WHITE.

(** [m_states.back()], [m_states.pop_back()], [m_states.emplace_back()] and
    assignment through the reference returned by [state()]. *)
Definition state (b : Board) : StateInfo := List.last (m_states b) StateInfo_default.
Definition pop_back (b : Board) : Board := set_m_states b (removelast (m_states b)).
Definition emplace_back (b : Board) (st : StateInfo) : Board :=
  set_m_states b (m_states b ++ [st]).
Definition set_state (b : Board) (st : StateInfo) : Board :=
  set_m_states b (removelast (m_states b) ++ [st]).

(** *** Getters *)

Definition byPiece (b : Board) (piece : Z) : Z := rd (m_pieces b) piece.
Definition byColor (b : Board) (c : Color.t) : Z := rdc (m_piecesByColor b) c.
Definition materialByColor (b : Board) (c : Color.t) : Z := rdc (m_material b) c.
Definition scoreByColor (b : Board) (c : Color.t) : Score := rdc (m_score b) c.

Definition allPieces (b : Board) : Z :=
  Z.lor (byColor b Color.WHITE) (byColor b Color.BLACK).
Definition byPieceType (b : Board) (pt : Z) : Z :=
  Z.lor (byPiece b (Piece.make Color.WHITE pt)) (byPiece b (Piece.make Color.BLACK pt)).
Definition pawns (b : Board) (c : Color.t) : Z := byPiece b (Piece.make c PieceType.PAWN).
Definition knights (b : Board) (c : Color.t) : Z := byPiece b (Piece.make c PieceType.KNIGHT).
Definition bishops (b : Board) (c : Color.t) : Z := byPiece b (Piece.make c PieceType.BISHOP).
Definition rooks (b : Board) (c : Color.t) : Z := byPiece b (Piece.make c PieceType.ROOK).
Definition queens (b : Board) (c : Color.t) : Z := byPiece b (Piece.make c PieceType.QUEEN).
Definition rooksAndQueens (b : Board) (c : Color.t) : Z := Z.lor (rooks b c) (queens b c).
Definition bishopsAndQueens (b : Board) (c : Color.t) : Z := Z.lor (bishops b c) (queens b c).
Definition king (b : Board) (c : Color.t) : Z :=
  BitBoard.lsb (byPiece b (Piece.make c PieceType.KING)).

Definition isInCheck (b : Board) : bool := negb (checkGivers (state b) =? BitBoard.EMPTY).

Definition hasNonPawns (b : Board) (c : Color.t) : bool :=
  negb (Z.lxor (Z.lxor (byColor b c) (byPiece b (Piece.make c PieceType.PAWN)))
               (byPiece b (Piece.make c PieceType.KING)) =? BitBoard.EMPTY).

(** *** Attack queries *)

(** [computeAttackersOf<Side>(sq, occ)]: [Side] is the attacking colour. *)
Definition computeAttackersOf_occ (b : Board) (side : Color.t) (sq occ : Z) : Z :=
  let OppositeSide := Color.getOpposite side in
  Z.lor (Z.lor (Z.lor (Z.lor (Z.lor
    (Z.land (BitBoard.pawnAttacks OppositeSide sq) (byPiece b (Piece.make side PieceType.PAWN)))
    (Z.land (BitBoard.attacksOf PieceType.KNIGHT sq occ) (byPiece b (Piece.make side PieceType.KNIGHT))))
    (Z.land (BitBoard.attacksOf PieceType.BISHOP sq occ) (byPiece b (Piece.make side PieceType.BISHOP))))
    (Z.land (BitBoard.attacksOf PieceType.ROOK sq occ) (byPiece b (Piece.make side PieceType.ROOK))))
    (Z.land (BitBoard.attacksOf PieceType.QUEEN sq occ) (byPiece b (Piece.make side PieceType.QUEEN))))
    (Z.land (BitBoard.attacksOf PieceType.KING sq occ) (byPiece b (Piece.make side PieceType.KING))).

Definition computeAttackersOf (b : Board) (side : Color.t) (sq : Z) : Z :=
  computeAttackersOf_occ b side sq (allPieces b).

Definition computeAllAttackersOf (b : Board) (sq occ : Z) : Z :=
  Z.lor (computeAttackersOf_occ b Color.BLACK sq occ)
        (computeAttackersOf_occ b Color.WHITE sq occ).

Definition computeAttacksOf (piece sq occ : Z) : Z :=
  let pt := Piece.getType piece in
  if pt =? PieceType.NONE then BitBoard.EMPTY
  else if pt =? PieceType.PAWN then BitBoard.pawnAttacks (Piece.getColor piece) sq
  else if (PieceType.KNIGHT <=? pt) && (pt <=? PieceType.KING)
       then BitBoard.attacksOf pt sq occ
  else BitBoard.EMPTY.

(** *** Internal state update *)

(** [updateInternalState(side)]: blockers of [side]'s king and the pinners
    of the other colour. *)
Definition updateInternalState_side (b : Board) (side : Color.t) : Board :=
  let kingSq := king b side in
  let b := set_state b (set_checkBlockers (state b) (wrc (checkBlockers (state b)) side 0)) in
  let opp := Color.getOpposite side in
  let snipers :=
    Z.lor (Z.land (BitBoard.pseudoAttacks PieceType.BISHOP kingSq) (bishopsAndQueens b opp))
          (Z.land (BitBoard.pseudoAttacks PieceType.ROOK kingSq) (rooksAndQueens b opp)) in
  let occupancy := Z.lxor (allPieces b) snipers in
  fold_left (fun (b : Board) (sq : Z) =>
      let bb := Z.land (BitBoard.betweenBits kingSq sq) occupancy in
      if negb (bb =? 0) && negb (BitBoard.hasMoreThanOne bb) then
        let st := state b in
        let st := set_checkBlockers st
                    (wrc (checkBlockers st) side (Z.lor (rdc (checkBlockers st) side) bb)) in
        let st :=
          if negb (Z.land bb (byColor b side) =? 0)
          then set_pinners st (wrc (pinners st) opp (BitBoard.set (rdc (pinners st) opp) sq))
          else st in
        set_state b st
      else b)
    (BitBoard.squares snipers) b.

Definition updateInternalState (b : Board) : Board :=
  let b := set_state b (set_checkGivers (state b)
             (computeAttackersOf b (Color.getOpposite (m_side b)) (king b (m_side b)))) in
  let b := updateInternalState_side b Color.WHITE in
  updateInternalState_side b Color.BLACK.

Definition initInternalState (b : Board) : Board :=
  let b := set_state b (set_checkGivers (state b)
             (computeAttackersOf b (Color.getOpposite (m_side b)) (king b (m_side b)))) in
  updateInternalState b.

(** [pushNextState]: a fresh element that inherits the castling rights and
    the hash, and counts one more move. *)
Definition pushNextState (b : Board) : Board :=
  let b' := emplace_back b StateInfo_default in
  let prev := rd (m_states b') (Z.of_nat (length (m_states b')) - 2) in
  let result := state b' in
  let result := set_castleRight result (castleRight prev) in
  let result := set_fiftyRule result (Int.u8 (fiftyRule prev + 1)) in
  let result := set_movesFromNull result (Int.u32 (movesFromNull prev + 1)) in
  let result := set_hash result (hash prev) in
  set_state b' result.

(** *** Changing the board *)

(** One assignment each: [m_board[sq] = p], [m_pieces[p] ^= change],
    [m_pieces[p].set(sq)], [m_score[side] += s], ... *)
Definition upd_state (b : Board) (f : StateInfo -> StateInfo) : Board :=
  set_state b (f (state b)).
Definition board_put (b : Board) (sq p : Z) : Board :=
  set_m_board b (wr (m_board b) sq p).
Definition pieces_xor (b : Board) (piece change : Z) : Board :=
  set_m_pieces b (wr (m_pieces b) piece (Z.lxor (rd (m_pieces b) piece) change)).
Definition pieces_set (b : Board) (piece sq : Z) : Board :=
  set_m_pieces b (wr (m_pieces b) piece (BitBoard.set (rd (m_pieces b) piece) sq)).
Definition pieces_clear (b : Board) (piece sq : Z) : Board :=
  set_m_pieces b (wr (m_pieces b) piece (BitBoard.clear (rd (m_pieces b) piece) sq)).
Definition color_xor (b : Board) (c : Color.t) (change : Z) : Board :=
  set_m_piecesByColor b (wrc (m_piecesByColor b) c (Z.lxor (rdc (m_piecesByColor b) c) change)).
Definition color_set (b : Board) (c : Color.t) (sq : Z) : Board :=
  set_m_piecesByColor b (wrc (m_piecesByColor b) c (BitBoard.set (rdc (m_piecesByColor b) c) sq)).
Definition color_clear (b : Board) (c : Color.t) (sq : Z) : Board :=
  set_m_piecesByColor b (wrc (m_piecesByColor b) c (BitBoard.clear (rdc (m_piecesByColor b) c) sq)).
Definition score_add (b : Board) (c : Color.t) (s : Score) : Board :=
  set_m_score b (wrc (m_score b) c (ScoreOps.add (rdc (m_score b) c) s)).
Definition score_sub (b : Board) (c : Color.t) (s : Score) : Board :=
  set_m_score b (wrc (m_score b) c (ScoreOps.sub (rdc (m_score b) c) s)).
Definition material_add (b : Board) (c : Color.t) (v : Z) : Board :=
  set_m_material b (wrc (m_material b) c (Int.i32 (rdc (m_material b) c + v))).
Definition material_sub (b : Board) (c : Color.t) (v : Z) : Board :=
  set_m_material b (wrc (m_material b) c (Int.i32 (rdc (m_material b) c - v))).

Definition change_of (from to : Z) : Z :=
  Z.lor (BitBoard.fromSquare from) (BitBoard.fromSquare to).

Definition addPiece (side : Color.t) (piece to : Z) (b : Board) : Board :=
  let b := board_put b to piece in
  let b := pieces_set b piece to in
  let b := color_set b side to in
  let b := score_add b side (scores.PST piece to) in
  material_add b side (Material.materialOf (Piece.getType piece)).

Definition movePieceWithCapture (side : Color.t) (piece from to : Z) (b : Board)
  : Board * Z :=
  let OppositeSide := Color.getOpposite side in
  let change := change_of from to in
  let captured := rd (m_board b) to in
  let b := board_put b from Piece.NONE in
  let b := board_put b to piece in
  let b := pieces_xor b piece change in
  let b := color_xor b side change in
  let b := score_add b side (ScoreOps.sub (scores.PST piece to) (scores.PST piece from)) in
  let b :=
    if negb (captured =? Piece.NONE) then
      let b := pieces_clear b captured to in
      let b := color_clear b OppositeSide to in
      let b := score_sub b OppositeSide (scores.PST captured to) in
      material_sub b OppositeSide (Material.materialOf (Piece.getType captured))
    else b in
  (b, captured).

Definition unmovePieceWithCapture (side : Color.t) (piece captured from to : Z)
  (b : Board) : Board :=
  let OppositeSide := Color.getOpposite side in
  let change := change_of from to in
  let b := board_put b to captured in
  let b := board_put b from piece in
  let b := pieces_xor b piece change in
  let b := color_xor b side change in
  let b := score_sub b side (ScoreOps.sub (scores.PST piece to) (scores.PST piece from)) in
  if negb (captured =? Piece.NONE) then
    let b := pieces_set b captured to in
    let b := color_set b OppositeSide to in
    let b := score_add b OppositeSide (scores.PST captured to) in
    material_add b OppositeSide (Material.materialOf (Piece.getType captured))
  else b.

Definition enpassantCapturedSq (side : Color.t) (to : Z) : Z :=
  match side with
  | Color.WHITE => Square.backward to 8
  | Color.BLACK => Square.forward to 8
  end.

Definition doEnpassant (side : Color.t) (IsDoing : bool) (from to : Z) (b : Board) : Board :=
  let OppositeSide := Color.getOpposite side in
  let OurPawn := Piece.make side PieceType.PAWN in
  let OppositePawn := Piece.make OppositeSide PieceType.PAWN in
  let change := change_of from to in
  let capturedSq := enpassantCapturedSq side to in
  if IsDoing then
    let b := board_put b to OurPawn in
    let b := board_put b from Piece.NONE in
    let b := board_put b capturedSq Piece.NONE in
    let b := pieces_xor b OurPawn change in
    let b := color_xor b side change in
    let b := score_add b side (ScoreOps.sub (scores.PST OurPawn to) (scores.PST OurPawn from)) in
    let b := pieces_clear b OppositePawn capturedSq in
    let b := color_clear b OppositeSide capturedSq in
    let b := score_sub b OppositeSide (scores.PST OppositePawn capturedSq) in
    material_sub b OppositeSide (Material.materialOf PieceType.PAWN)
  else
    let b := board_put b from OurPawn in
    let b := board_put b to Piece.NONE in
    let b := board_put b capturedSq OppositePawn in
    let b := pieces_xor b OurPawn change in
    let b := color_xor b side change in
    let b := score_sub b side (ScoreOps.sub (scores.PST OurPawn to) (scores.PST OurPawn from)) in
    let b := pieces_set b OppositePawn capturedSq in
    let b := color_set b OppositeSide capturedSq in
    let b := score_add b OppositeSide (scores.PST OppositePawn capturedSq) in
    material_add b OppositeSide (Material.materialOf PieceType.PAWN).

Definition promotionMaterial (promoted : Z) : Z :=
  Material.materialOf (Piece.getType promoted) - Material.materialOf PieceType.PAWN.

Definition promotePawn (side : Color.t) (IsDoing : bool) (promoted from to : Z)
  (b : Board) : Board :=
  let OurPawn := Piece.make side PieceType.PAWN in
  let change := change_of from to in
  if IsDoing then
    let b := board_put b from Piece.NONE in
    let b := board_put b to promoted in
    let b := pieces_clear b OurPawn from in
    let b := pieces_set b promoted to in
    let b := color_xor b side change in
    let b := score_add b side (ScoreOps.sub (scores.PST promoted to) (scores.PST OurPawn from)) in
    material_add b side (promotionMaterial promoted)
  else
    let b := board_put b to Piece.NONE in
    let b := board_put b from OurPawn in
    let b := pieces_set b OurPawn from in
    let b := pieces_clear b promoted to in
    let b := color_xor b side change in
    let b := score_sub b side (ScoreOps.sub (scores.PST promoted to) (scores.PST OurPawn from)) in
    material_sub b side (promotionMaterial promoted).

Definition promotePawnWithCapture (side : Color.t) (promoted from to : Z) (b : Board)
  : Board * Z :=
  let OppositeSide := Color.getOpposite side in
  let OurPawn := Piece.make side PieceType.PAWN in
  let change := change_of from to in
  let captured := rd (m_board b) to in
  let b := board_put b from Piece.NONE in
  let b := board_put b to promoted in
  let b := pieces_clear b OurPawn from in
  let b := pieces_set b promoted to in
  let b := color_xor b side change in
  let b := score_add b side (ScoreOps.sub (scores.PST promoted to) (scores.PST OurPawn from)) in
  let b := material_add b side (promotionMaterial promoted) in
  let b :=
    if negb (captured =? Piece.NONE) then
      let b := pieces_clear b captured to in
      let b := color_clear b OppositeSide to in
      let b := score_sub b OppositeSide (scores.PST captured to) in
      material_sub b OppositeSide (Material.materialOf (Piece.getType captured))
    else b in
  (b, captured).

Definition unpromotePawnWithCapture (side : Color.t) (promoted captured from to : Z)
  (b : Board) : Board :=
  let OppositeSide := Color.getOpposite side in
  let OurPawn := Piece.make side PieceType.PAWN in
  let change := change_of from to in
  let b := board_put b to captured in
  let b := board_put b from OurPawn in
  let b := pieces_set b OurPawn from in
  let b := pieces_clear b promoted to in
  let b := color_xor b side change in
  let b := score_sub b side (ScoreOps.sub (scores.PST promoted to) (scores.PST OurPawn from)) in
  let b := material_sub b side (promotionMaterial promoted) in
  if negb (captured =? Piece.NONE) then
    let b := pieces_set b captured to in
    let b := color_set b OppositeSide to in
    let b := score_add b OppositeSide (scores.PST captured to) in
    material_add b OppositeSide (Material.materialOf (Piece.getType captured))
  else b.

(** The rook squares of a castling, as [(ROOK_FROM, ROOK_TO)]. *)
Definition castlingRookSquares (side : Color.t) (IsDoing kingSide : bool) : Z * Z :=
  let rel := Square.makeRelativeSquare side in
  if kingSide
  then (rel (if IsDoing then Square.H1 else Square.F1),
        rel (if IsDoing then Square.F1 else Square.H1))
  else (rel (if IsDoing then Square.A1 else Square.D1),
        rel (if IsDoing then Square.D1 else Square.A1)).

Definition doCastling (side : Color.t) (IsDoing : bool) (from to : Z) (b : Board) : Board :=
  let OurRook := Piece.make side PieceType.ROOK in
  let OurKing := Piece.make side PieceType.KING in
  let kingFrom := if IsDoing then from else to in
  let kingTo := if IsDoing then to else from in
  let changeKing := change_of from to in
  let '(ROOK_FROM, ROOK_TO) :=
    castlingRookSquares side IsDoing (Square.getFile to =? File.G) in
  let changeRook := BitBoard.fromSquares [ROOK_FROM; ROOK_TO] in
  let ourChange := Z.lor changeKing changeRook in
  let b := board_put b kingFrom Piece.NONE in
  let b := board_put b kingTo OurKing in
  let b := board_put b ROOK_FROM Piece.NONE in
  let b := board_put b ROOK_TO OurRook in
  let b := pieces_xor b OurKing changeKing in
  let b := pieces_xor b OurRook changeRook in
  let b := color_xor b side ourChange in
  score_add b side
    (ScoreOps.sub
       (ScoreOps.add
          (ScoreOps.sub (scores.PST OurKing kingTo) (scores.PST OurKing kingFrom))
          (scores.PST OurRook ROOK_TO))
       (scores.PST OurRook ROOK_FROM)).

(** The repetition scan of [makeMove]: from index [size - 5] downwards in
    steps of two while [i >= to]; the index of the first state with the
    current hash. *)
Fixpoint repetitionScan (fuel : nat) (states : list StateInfo) (current to i : Z)
  : option Z :=
  match fuel with
  | O => None
  | S fuel' =>
      if i >=? to then
        if hash (rd states i) =? current then Some i
        else repetitionScan fuel' states current to (i - 2)
      else None
  end.

Definition updateRepetition (b : Board) : Board :=
  let st := state b in
  let ply := Z.min (fiftyRule st) (Int.i32 (movesFromNull st)) in
  if ply >=? 4 then
    let size := Z.of_nat (length (m_states b)) in
    match repetitionScan (length (m_states b)) (m_states b) (hash st) (size - ply) (size - 5) with
    | Some i => set_state b (set_lastRepetition st (size - i))
    | None => b
    end
  else b.

Section WithZobrist.
Context (zk : ZobristKeys).

(** [Board::makeMove<Side>] *)
Definition makeMove_side (Side : Color.t) (m : Z) (b : Board) : Board :=
  let b := pushNextState b in
  let from := Move.getFrom m in
  let to := Move.getTo m in
  let mt := Move.getMoveType m in
  let piece := rd (m_board b) from in
  let b := upd_state b (fun st => set_ep st Square.NO_POS) in
  let b := set_m_moveCount b (Int.u32 (m_moveCount b + 1)) in
  let b := set_m_side b (Color.getOpposite Side) in
  let b := upd_state b (fun st => set_hash st (Z.lxor (hash st) zobrist.MOVE_KEY)) in
  let updateCastle (b : Board) (sq : Z) :=
    upd_state b (fun st => set_castleRight st
                   (Z.land (castleRight st) (Castle.getCastleChangeMask sq))) in
  let b :=
    if mt =? MoveType.SIMPLE then
      let '(b, cap) := movePieceWithCapture Side piece from to b in
      let b := upd_state b (fun st => set_captured st cap) in
      let b :=
        if negb (cap =? Piece.NONE) then
          let b := upd_state b (fun st => set_hash st (Z.lxor (hash st) (zPIECE zk cap to))) in
          upd_state b (fun st => set_fiftyRule st 0)
        else if piece =? Piece.make Side PieceType.PAWN then
          let b := upd_state b (fun st => set_fiftyRule st 0) in
          if Square.distance from to =? 2 then
            upd_state b (fun st => set_ep st
              (match Side with
               | Color.WHITE => Square.forward from 8
               | Color.BLACK => Square.backward from 8
               end))
          else b
        else b in
      let b := upd_state b (fun st => set_hash st
                 (Z.lxor (hash st) (Z.lxor (zPIECE zk piece from) (zPIECE zk piece to)))) in
      let b := updateCastle b from in
      updateCastle b to
    else if mt =? MoveType.PROMOTION then
      let promoted := Piece.make Side (Move.getPromotedPiece m) in
      let b :=
        if negb (to - from =? (match Side with Color.WHITE => 8 | Color.BLACK => -8 end)) then
          let '(b, cap) := promotePawnWithCapture Side promoted from to b in
          let b := upd_state b (fun st => set_captured st cap) in
          if negb (cap =? Piece.NONE) then
            upd_state b (fun st => set_hash st (Z.lxor (hash st) (zPIECE zk cap to)))
          else b
        else promotePawn Side true promoted from to b in
      let b := upd_state b (fun st => set_hash st
                 (Z.lxor (hash st)
                    (Z.lxor (zPIECE zk (Piece.make Side PieceType.PAWN) from)
                            (zPIECE zk (Piece.make Side (Move.getPromotedPiece m)) to)))) in
      let b := upd_state b (fun st => set_fiftyRule st 0) in
      let b := updateCastle b from in
      updateCastle b to
    else if mt =? MoveType.ENPASSANT then
      let OurPawn := Piece.make Side PieceType.PAWN in
      let b := doEnpassant Side true from to b in
      let b := upd_state b (fun st => set_fiftyRule st 0) in
      upd_state b (fun st => set_hash st
        (Z.lxor (hash st) (Z.lxor (zPIECE zk OurPawn from) (zPIECE zk OurPawn to))))
    else if mt =? MoveType.CASTLE then
      let OurKing := Piece.make Side PieceType.KING in
      let OurRook := Piece.make Side PieceType.ROOK in
      let b := updateCastle b from in
      let b := upd_state b (fun st => set_castleRight st
                 (Z.lor (castleRight st) (Castle.getBitMaskFor Castle.CASTLE_DONE Side))) in
      let b := doCastling Side true from to b in
      let b := upd_state b (fun st => set_hash st
                 (Z.lxor (hash st) (Z.lxor (zPIECE zk OurKing from) (zPIECE zk OurKing to)))) in
      let '(ROOK_FROM, ROOK_TO) :=
        castlingRookSquares Side true (Square.getFile to =? File.G) in
      upd_state b (fun st => set_hash st
        (Z.lxor (hash st) (Z.lxor (zPIECE zk OurRook ROOK_FROM) (zPIECE zk OurRook ROOK_TO))))
    else b in
  let b := updateInternalState b in
  updateRepetition b.

Definition makeMove (m : Z) (b : Board) : Board :=
  match m_side b with
  | Color.BLACK => makeMove_side Color.BLACK m b
  | Color.WHITE => makeMove_side Color.WHITE m b
  end.

Definition makeNullMove (b : Board) : Board :=
  let b := set_m_side b (Color.getOpposite (m_side b)) in
  let b := pushNextState b in
  let b := upd_state b (fun st => set_hash st (Z.lxor (hash st) zobrist.NULL_MOVE_KEY)) in
  let b := upd_state b (fun st => set_movesFromNull st 0) in
  updateInternalState b.

Definition computeHash (b : Board) : Z :=
  Z.lxor (Z.lxor (Z.lxor (hash (state b)) (zSIDE zk (m_side b)))
    (if negb (ep (state b) =? Square.NO_POS)
     then zEP zk (Square.getFile (ep (state b))) else 0))
    (zCASTLING zk (castleRight (state b))).
End WithZobrist.

(** [Board::unmakeMove<Side>]: [Side] is the colour that made the move. *)
Definition unmakeMove_side (Side : Color.t) (m : Z) (b : Board) : Board :=
  let cap := captured (state b) in
  let b := pop_back b in
  let b := set_m_moveCount b (Int.u32 (m_moveCount b - 1)) in
  let b := set_m_side b Side in
  let from := Move.getFrom m in
  let to := Move.getTo m in
  let mt := Move.getMoveType m in
  let piece := rd (m_board b) to in
  if mt =? MoveType.SIMPLE then unmovePieceWithCapture Side piece cap from to b
  else if mt =? MoveType.PROMOTION then
    let promoted := Piece.make Side (Move.getPromotedPiece m) in
    if negb (cap =? Piece.NONE)
    then unpromotePawnWithCapture Side promoted cap from to b
    else promotePawn Side false promoted from to b
  else if mt =? MoveType.ENPASSANT then doEnpassant Side false from to b
  else if mt =? MoveType.CASTLE then doCastling Side false from to b
  else b.

Definition unmakeMove (m : Z) (b : Board) : Board :=
  match m_side b with
  | Color.BLACK => unmakeMove_side Color.WHITE m b
  | Color.WHITE => unmakeMove_side Color.BLACK m b
  end.

Definition unmakeNullMove (b : Board) : Board :=
  let b := set_m_side b (Color.getOpposite (m_side b)) in
  pop_back b.

(** *** Game result *)

Definition lowMaterialDraw (b : Board) : bool :=
  if negb (byPieceType b PieceType.PAWN =? BitBoard.EMPTY) then false
  else if (materialByColor b Color.WHITE <? 5) && (materialByColor b Color.BLACK <? 5)
  then true
  else false.

Definition fiftyRuleDraw (b : Board) : bool := fiftyRule (state b) >=? 100.

Definition repetitionDraw (b : Board) (ply : Z) : bool :=
  let lastRep := lastRepetition (state b) in
  if negb (lastRep =? 0) then
    if negb (ply =? 0) then true
    else negb (lastRepetition
                 (rd (m_states b) (Z.of_nat (length (m_states b)) - lastRep)) =? 0)
  else false.

Definition isDraw (b : Board) (ply : Z) : bool :=
  lowMaterialDraw b || fiftyRuleDraw b || repetitionDraw b ply.

(* ===================================================================== *)
(** ** Board.cpp : legality, static exchange evaluation *)
(* ===================================================================== *)

Fixpoint castlePathSafe (fuel : nat) (b : Board) (step from sq : Z) : bool :=
  match fuel with
  | O => true
  | S fuel' =>
      if sq =? from then true
      else if negb (computeAttackersOf b (Color.getOpposite (m_side b)) sq =? 0) then false
      else castlePathSafe fuel' b step from (Square.forward sq step)
  end.

Definition isLegal (b : Board) (m : Z) : bool :=
  let from := Move.getFrom m in
  let to := Move.getTo m in
  let mt := Move.getMoveType m in
  let side := m_side b in
  let opp := Color.getOpposite side in
  let blockerRule :=
    negb (BitBoard.test (rdc (checkBlockers (state b)) side) from)
    || BitBoard.areAligned from to (king b side) in
  if mt =? MoveType.SIMPLE then
    if Piece.getType (rd (m_board b) from) =? PieceType.KING then
      computeAttackersOf_occ b opp to
        (Z.lxor (allPieces b) (BitBoard.fromSquare from)) =? 0
    else blockerRule
  else if mt =? MoveType.PROMOTION then blockerRule
  else if mt =? MoveType.ENPASSANT then
    let kingSq := king b side in
    let capturedSq := enpassantCapturedSq side to in
    let occ := Z.lor (Z.lxor (Z.lxor (allPieces b) (BitBoard.fromSquare from))
                             (BitBoard.fromSquare capturedSq))
                     (BitBoard.fromSquare to) in
    (Z.land (BitBoard.attacksOf PieceType.ROOK kingSq occ) (rooksAndQueens b opp) =? 0)
    && (Z.land (BitBoard.attacksOf PieceType.BISHOP kingSq occ) (bishopsAndQueens b opp) =? 0)
  else if mt =? MoveType.CASTLE then
    let step := if Square.getFile to =? File.G then Int.u8 (-1) else 1 in
    castlePathSafe 256 b step from to
  else false.

(** The state of the exchange loop of [SEE]. *)
Record SeeState : Set := mkSeeState {
  see_side : Color.t;
  see_occ : Z;
  see_attackers : Z;
  see_result : Z;
  see_nextLoss : Z;
  see_modifier : Z;
  see_values : list Z;        (* Value valuesArr[36] *)
  see_i : Z }.

Definition bishopXray (b : Board) (to occ : Z) : Z :=
  Z.land (BitBoard.attacksOf PieceType.BISHOP to occ)
         (Z.lor (bishopsAndQueens b Color.WHITE) (bishopsAndQueens b Color.BLACK)).
Definition rookXray (b : Board) (to occ : Z) : Z :=
  Z.land (BitBoard.attacksOf PieceType.ROOK to occ)
         (Z.lor (rooksAndQueens b Color.WHITE) (rooksAndQueens b Color.BLACK)).

(** One capture by the piece standing on the lowest square of [bb]:
    [result += modifier * nextLoss; nextLoss = ...; valuesArr[++i] = result;
     occ.clear(b.lsb())]. *)
Definition seeCapture (s : SeeState) (side : Color.t) (attackers modifier bb lossOf : Z)
  : SeeState :=
  let result := Int.i16 (see_result s + modifier * see_nextLoss s) in
  let i := see_i s + 1 in
  mkSeeState side (BitBoard.clear (see_occ s) (BitBoard.lsb bb)) attackers result
    (scores.SIMPLIFIED_PIECE_VALUES lossOf) modifier (wr (see_values s) i result) i.

Fixpoint seeLoop (fuel : nat) (b : Board) (to : Z) (s : SeeState) : SeeState :=
  match fuel with
  | O => s
  | S fuel' =>
      let side := Color.getOpposite (see_side s) in
      let occ := see_occ s in
      let attackers := Z.land (see_attackers s) occ in
      let currentAttackers := Z.land attackers (byColor b side) in
      let currentAttackers :=
        if negb (Z.land occ (rdc (pinners (state b)) (Color.getOpposite side)) =? 0)
        then Z.land currentAttackers (BitBoard.b_not (rdc (checkBlockers (state b)) side))
        else currentAttackers in
      if currentAttackers =? 0 then s
      else
        let modifier := Int.i8 (- see_modifier s) in
        let withX (s' : SeeState) (x : Z) : SeeState :=
          mkSeeState (see_side s') (see_occ s') (Z.lor (see_attackers s') x)
            (see_result s') (see_nextLoss s') (see_modifier s') (see_values s') (see_i s') in
        let bp := Z.land currentAttackers (byPiece b (Piece.make side PieceType.PAWN)) in
        if negb (bp =? 0) then
          let s' := seeCapture s side attackers modifier bp Piece.PAWN_WHITE in
          seeLoop fuel' b to (withX s' (bishopXray b to (see_occ s')))
        else
        let bn := Z.land currentAttackers (byPiece b (Piece.make side PieceType.KNIGHT)) in
        if negb (bn =? 0) then
          seeLoop fuel' b to (seeCapture s side attackers modifier bn Piece.KNIGHT_WHITE)
        else
        let bbi := Z.land currentAttackers (bishops b side) in
        if negb (bbi =? 0) then
          let s' := seeCapture s side attackers modifier bbi Piece.BISHOP_WHITE in
          seeLoop fuel' b to (withX s' (bishopXray b to (see_occ s')))
        else
        let br := Z.land currentAttackers (rooks b side) in
        if negb (br =? 0) then
          let s' := seeCapture s side attackers modifier br Piece.ROOK_WHITE in
          seeLoop fuel' b to (withX s' (rookXray b to (see_occ s')))
        else
        let bq := Z.land currentAttackers (queens b side) in
        if negb (bq =? 0) then
          let s' := seeCapture s side attackers modifier bq Piece.QUEEN_WHITE in
          seeLoop fuel' b to
            (withX s' (Z.lor (bishopXray b to (see_occ s')) (rookXray b to (see_occ s'))))
        else
        (* King: the last capture, possible only when the other side has no
           attacker left. *)
        if Z.land (Z.land attackers (byColor b (Color.getOpposite side))) occ =? BitBoard.EMPTY
        then
          let bk := Z.land currentAttackers (byPiece b (Piece.make side PieceType.KING)) in
          let result :=
            if negb (bk =? 0) then Int.i16 (see_result s + modifier * see_nextLoss s)
            else see_result s in
          let i := see_i s + 1 in
          mkSeeState side occ attackers result (see_nextLoss s) modifier
            (wr (see_values s) i result) i
        else
          mkSeeState side occ attackers (see_result s) (see_nextLoss s) modifier
            (see_values s) (see_i s)
  end.

(** The closing loop: [for (; i > 0; --i)] with alternating min and max. *)
Fixpoint seeFold (fuel : nat) (values : list Z) (i : Z) : list Z :=
  match fuel with
  | O => values
  | S fuel' =>
      if i >? 0 then
        let v :=
          if Z.land i 1 =? 1
          then Z.min (rd values (i - 1)) (rd values i)
          else Z.max (rd values (i - 1)) (rd values i) in
        seeFold fuel' (wr values (i - 1) v) (i - 1)
      else values
  end.

Definition SEE (b : Board) (m : Z) : Z :=
  let to := Move.getTo m in
  let from := Move.getFrom m in
  let occ := allPieces b in
  let mt := Move.getMoveType m in
  let prep : option (Z * Z * Z) :=      (* result, nextLoss, occ *)
    if mt =? MoveType.PROMOTION then
      let nextLoss :=
        scores.SIMPLIFIED_PIECE_VALUES (Piece.make Color.WHITE (Move.getPromotedPiece m)) in
      Some (Int.i16 (scores.SIMPLIFIED_PIECE_VALUES (rd (m_board b) to) + nextLoss
                     - scores.SIMPLIFIED_PIECE_VALUES Piece.PAWN_WHITE),
            nextLoss, BitBoard.clear occ from)
    else if mt =? MoveType.SIMPLE then
      Some (scores.SIMPLIFIED_PIECE_VALUES (rd (m_board b) to),
            scores.SIMPLIFIED_PIECE_VALUES (rd (m_board b) from),
            BitBoard.clear occ from)
    else if mt =? MoveType.ENPASSANT then
      let capturedSq := Square.make (Square.getFile to) (Square.getRank from) in
      Some (scores.SIMPLIFIED_PIECE_VALUES Piece.PAWN_WHITE,
            scores.SIMPLIFIED_PIECE_VALUES Piece.PAWN_WHITE,
            BitBoard.clear (BitBoard.clear occ capturedSq) from)
    else None in                         (* CASTLE: return 0 *)
  match prep with
  | None => 0
  | Some (result, nextLoss, occ) =>
      let s0 := mkSeeState (m_side b) occ (computeAllAttackersOf b to occ)
                  result nextLoss 1 (result :: replicate 35 0) 0 in
      let s := seeLoop 64 b to s0 in
      rd (seeFold 36 (see_values s) (see_i s)) 0
  end.

(* ===================================================================== *)
(** ** Board.cpp : move generation *)
(* ===================================================================== *)

Module movegen.
Inductive GenerationMode : Set := ALL_MOVES | CAPTURES | CHECK_EVASIONS | QUIET_CHECKS.

Definition eqb (a b : GenerationMode) : bool :=
  match a, b with
  | ALL_MOVES, ALL_MOVES | CAPTURES, CAPTURES
  | CHECK_EVASIONS, CHECK_EVASIONS | QUIET_CHECKS, QUIET_CHECKS => true
  | _, _ => false
  end.
End movegen.

(** [emplace<PROMOTION>] of the queen and, outside CAPTURES mode, of the
    three under-promotions, for a pawn arriving on [sq] from [sq.shift(back)]. *)
Definition emitPromotions (Mode : movegen.GenerationMode) (back : Direction.t) (sq : Z)
  : list Z :=
  let from := Square.shift sq back in
  Move.make from sq MoveType.PROMOTION PieceType.QUEEN ::
  (if negb (movegen.eqb Mode movegen.CAPTURES) then
     [ Move.make from sq MoveType.PROMOTION PieceType.ROOK;
       Move.make from sq MoveType.PROMOTION PieceType.BISHOP;
       Move.make from sq MoveType.PROMOTION PieceType.KNIGHT ]
   else []).

Definition generatePieceMoves (Side : Color.t) (Mode : movegen.GenerationMode) (PT : Z)
  (b : Board) (allPieces trg : Z) : list Z :=
  let OpponentSide := Color.getOpposite Side in
  let opponentKingAttacks :=
    if movegen.eqb Mode movegen.QUIET_CHECKS
    then computeAttacksOf (Piece.make Side PT) (king b OpponentSide) allPieces
    else BitBoard.EMPTY in
  flat_map (fun sq =>
      let attacks := Z.land (BitBoard.attacksOf PT sq allPieces) trg in
      let attacks :=
        if movegen.eqb Mode movegen.QUIET_CHECKS
           && negb (BitBoard.test (rdc (checkBlockers (state b)) OpponentSide) sq)
        then Z.land attacks opponentKingAttacks else attacks in
      map (fun to => Move.make2 sq to) (BitBoard.squares attacks))
    (BitBoard.squares (byPiece b (Piece.make Side PT))).

(** [Board::generateMoves<Side, Mode>]: the moves appended to the list. *)
Definition generateMoves_side (Side : Color.t) (Mode : movegen.GenerationMode) (b : Board)
  : list Z :=
  let isMode := movegen.eqb Mode in
  let OpponentSide := Color.getOpposite Side in
  let rel := Direction.makeRelativeDirection Side in
  let Up := rel Direction.UP in
  let UpRight := rel Direction.UPRIGHT in
  let UpLeft := rel Direction.UPLEFT in
  let Down := rel Direction.DOWN in
  let DownRight := rel Direction.DOWNRIGHT in
  let DownLeft := rel Direction.DOWNLEFT in
  let Rank3BB := BitBoard.fromRank (Rank.makeRelativeRank Side Rank.R3) in
  let Rank7BB := BitBoard.fromRank (Rank.makeRelativeRank Side Rank.R7) in
  let st := state b in
  let friendlyPieces := byColor b Side in
  let enemyPieces :=
    if isMode movegen.CHECK_EVASIONS then checkGivers st else byColor b OpponentSide in
  let allPieces := allPieces b in
  let emptySquares := BitBoard.b_not allPieces in
  let kingSq := king b Side in
  let opponentKingSq := king b OpponentSide in
  let trg :=
    if isMode movegen.CAPTURES then enemyPieces
    else if isMode movegen.CHECK_EVASIONS
      then BitBoard.betweenBits kingSq (BitBoard.lsb (checkGivers st))
    else if isMode movegen.QUIET_CHECKS then BitBoard.b_not allPieces
    else BitBoard.b_not friendlyPieces in
  (* King *)
  let kingPart :=
    if negb (isMode movegen.QUIET_CHECKS)
       || BitBoard.test (rdc (checkBlockers st) OpponentSide) kingSq then
      let attacks :=
        Z.land (BitBoard.attacksOf PieceType.KING kingSq allPieces)
               (if negb (isMode movegen.CHECK_EVASIONS) then trg
                else BitBoard.b_not friendlyPieces) in
      let attacks :=
        if isMode movegen.QUIET_CHECKS
        then Z.land attacks (BitBoard.b_not (BitBoard.pseudoAttacks PieceType.QUEEN opponentKingSq))
        else attacks in
      map (fun sq => Move.make2 kingSq sq) (BitBoard.squares attacks)
    else [] in
  if isMode movegen.CHECK_EVASIONS && BitBoard.hasMoreThanOne (checkGivers st)
  then kingPart                    (* double check: only the king moves *)
  else
  (* Pawns *)
  let bb := byPiece b (Piece.make Side PieceType.PAWN) in
  let promotablePawns := Z.land bb Rank7BB in
  let nonPromotablePawns := Z.lxor bb promotablePawns in
  let promotions :=
    if negb (isMode movegen.QUIET_CHECKS) && negb (promotablePawns =? 0) then
      let upPromotions := Z.land (BitBoard.shift promotablePawns Up) emptySquares in
      let upLeftPromotions := Z.land (BitBoard.shift promotablePawns UpLeft) enemyPieces in
      let upRightPromotions := Z.land (BitBoard.shift promotablePawns UpRight) enemyPieces in
      let upPromotions :=
        if isMode movegen.CHECK_EVASIONS then Z.land upPromotions trg else upPromotions in
      flat_map (emitPromotions Mode Down) (BitBoard.squares upPromotions)
      ++ flat_map (emitPromotions Mode DownRight) (BitBoard.squares upLeftPromotions)
      ++ flat_map (emitPromotions Mode DownLeft) (BitBoard.squares upRightPromotions)
    else [] in
  let pawnCaptures :=
    if negb (isMode movegen.QUIET_CHECKS) && negb (nonPromotablePawns =? 0) then
      let upLeftCaptures := Z.land (BitBoard.shift nonPromotablePawns UpLeft) enemyPieces in
      let upRightCaptures := Z.land (BitBoard.shift nonPromotablePawns UpRight) enemyPieces in
      map (fun sq => Move.make2 (Square.shift sq DownRight) sq) (BitBoard.squares upLeftCaptures)
      ++ map (fun sq => Move.make2 (Square.shift sq DownLeft) sq) (BitBoard.squares upRightCaptures)
      ++ (if negb (ep st =? Square.NO_POS) then
            let epCapture :=
              Z.land bb (BitBoard.pawnAttackedSquares OpponentSide (BitBoard.fromSquare (ep st))) in
            map (fun from => Move.make from (ep st) MoveType.ENPASSANT PieceType.KNIGHT)
                (BitBoard.squares epCapture)
          else [])
    else [] in
  let quietPawnMoves :=
    if negb (isMode movegen.CAPTURES) then
      let singlePawnPush := Z.land (BitBoard.shift nonPromotablePawns Up) emptySquares in
      let doublePawnPush :=
        Z.land (BitBoard.shift (Z.land singlePawnPush Rank3BB) Up) emptySquares in
      let '(singlePawnPush, doublePawnPush) :=
        if isMode movegen.CHECK_EVASIONS then
          (Z.land singlePawnPush trg, Z.land doublePawnPush trg)
        else if isMode movegen.QUIET_CHECKS then
          let pawnToKingAttacks := BitBoard.pawnAttacks OpponentSide opponentKingSq in
          let pawnsBlockingCheck :=
            Z.land (rdc (checkBlockers st) OpponentSide)
                   (BitBoard.b_not (BitBoard.fromFile (Square.getFile opponentKingSq))) in
          let pawnsBlockingCheck := BitBoard.shift pawnsBlockingCheck Up in
          (Z.land singlePawnPush (Z.lor pawnToKingAttacks pawnsBlockingCheck),
           Z.land doublePawnPush (Z.lor pawnToKingAttacks (BitBoard.shift pawnsBlockingCheck Up)))
        else (singlePawnPush, doublePawnPush) in
      map (fun sq => Move.make2 (Square.shift sq Down) sq) (BitBoard.squares singlePawnPush)
      ++ map (fun sq => Move.make2 (Square.shift (Square.shift sq Down) Down) sq)
             (BitBoard.squares doublePawnPush)
    else [] in
  (* Pieces: knight, bishop, rook, queen *)
  let pieceMoves :=
    generatePieceMoves Side Mode PieceType.KNIGHT b allPieces trg
    ++ generatePieceMoves Side Mode PieceType.BISHOP b allPieces trg
    ++ generatePieceMoves Side Mode PieceType.ROOK b allPieces trg
    ++ generatePieceMoves Side Mode PieceType.QUEEN b allPieces trg in
  (* Castlings *)
  let castlings :=
    if isMode movegen.ALL_MOVES then
      (if Castle.hasCastleRight (castleRight st) Castle.KING_CASTLE Side
          && (Z.land (BitBoard.castlingInternalSquares Side Castle.KING_CASTLE) allPieces =? 0)
       then [Move.make kingSq (Square.make File.G (Rank.makeRelativeRank Side Rank.R1))
               MoveType.CASTLE PieceType.KNIGHT]
       else [])
      ++
      (if Castle.hasCastleRight (castleRight st) Castle.QUEEN_CASTLE Side
          && (Z.land (BitBoard.castlingInternalSquares Side Castle.QUEEN_CASTLE) allPieces =? 0)
       then [Move.make kingSq (Square.make File.C (Rank.makeRelativeRank Side Rank.R1))
               MoveType.CASTLE PieceType.KNIGHT]
       else [])
    else [] in
  kingPart ++ promotions ++ pawnCaptures ++ quietPawnMoves ++ pieceMoves ++ castlings.

(** [Board::generateMoves<Mode>(moves)]: QUIET_CHECKS appends to the list,
    the other modes clear it first and switch to evasions when in check. *)
Definition generateMoves (Mode : movegen.GenerationMode) (b : Board) (moves : list Z)
  : list Z :=
  match Mode with
  | movegen.QUIET_CHECKS => moves ++ generateMoves_side (m_side b) movegen.QUIET_CHECKS b
  | movegen.CHECK_EVASIONS => generateMoves_side (m_side b) movegen.CHECK_EVASIONS b
  | _ =>
      if isInCheck b then generateMoves_side (m_side b) movegen.CHECK_EVASIONS b
      else generateMoves_side (m_side b) Mode b
  end.

(** *** Moves from text *)

Definition char_at (s : string) (i : Z) : ascii :=
  match String.get (Z.to_nat i) s with Some c => c | None => zero end.

Definition size (s : string) : Z := Z.of_nat (String.length s).

(** The loop of [makeMoveFromString] over the generated moves. *)
Fixpoint matchMove (b : Board) (str : string) (from to : Z) (moves : list Z) : Z :=
  match moves with
  | [] => Move.makeNullMove
  | m :: rest =>
      if (Move.getFrom m =? from) && (Move.getTo m =? to) then
        if negb (isLegal b m) then Move.makeNullMove
        else if Move.getMoveType m =? MoveType.PROMOTION then
          let promoted :=
            if size str >? 4 then Piece.getType (Piece.fromFENChar (char_at str 4))
            else PieceType.KNIGHT in
          Move.make from to MoveType.PROMOTION promoted
        else m
      else matchMove b str from to rest
  end.

Definition makeMoveFromString (b : Board) (str : string) : Z :=
  if (size str <? 4) && negb (String.eqb str "0-0") then Move.makeNullMove
  else
    let side := m_side b in
    let '(from, to) :=
      if String.eqb str "0-0" then
        (Square.makeRelativeSquare side Square.E1, Square.makeRelativeSquare side Square.G1)
      else if String.eqb str "0-0-0" then
        (Square.makeRelativeSquare side Square.E1, Square.makeRelativeSquare side Square.C1)
      else
        (Square.fromChars (char_at str 0) (char_at str 1),
         Square.fromChars (char_at str 2) (char_at str 3)) in
    if negb (BitBoard.test (byColor b side) from)
       || BitBoard.test (byColor b side) to
       || (from =? to)
    then Move.makeNullMove
    else matchMove b str from to (generateMoves movegen.ALL_MOVES b []).

(* ===================================================================== *)
(** ** Utils/StringUtils.h and Board::fromFEN *)
(* ===================================================================== *)

Module str_utils.
Definition isDigit (ch : ascii) : bool :=
  let n := nat_of_ascii ch in (48 <=? n)%nat && (n <=? 57)%nat.

Definition digit (ch : ascii) : Z := Z.of_nat (nat_of_ascii ch) - 48.

(** [fromString<T>(str, i)] for an unsigned [T] of [2^bits] values: the
    number read and the final value of the index. *)
Fixpoint fromString_loop (fuel : nat) (modulus : Z) (str : string) (i result : Z)
  : Z * Z :=
  match fuel with
  | O => (result, i)
  | S fuel' =>
      if i <? size str then
        if negb (isDigit (char_at str i)) then (result, i)
        else
          let result := (result * 10) mod modulus in
          let result := (result + digit (char_at str i) mod modulus) mod modulus in
          if result >=? (modulus - 1) / 10 then (result, i)
          else fromString_loop fuel' modulus str (i + 1) result
      else (result, i)
  end.

Definition fromString (modulus : Z) (str : string) (i : Z) : Z * Z :=
  if size str =? 0 then (0, i)
  else fromString_loop (S (String.length str)) modulus str i 0.
End str_utils.

Section FromFEN.
Context (zk : ZobristKeys).

(** The piece-placement loop.  The result is [None] when an unknown piece
    letter is met, otherwise the board, the square and the index reached. *)
Fixpoint parsePlacement (fuel : nat) (fen : string) (result : Board) (sq i : Z)
  : option (Board * Z * Z) :=
  match fuel with
  | O => Some (result, sq, i)
  | S fuel' =>
      if (i <? size fen) && negb (Ascii.eqb (char_at fen i) " ") then
        let ch := char_at fen i in
        if str_utils.isDigit ch then
          parsePlacement fuel' fen result (Int.u8 (sq + str_utils.digit ch)) (i + 1)
        else if Ascii.eqb ch "/" then
          parsePlacement fuel' fen result
            (Square.make File.A (Int.u8 (Square.getRank (Square.backward sq 1) - 1)))
            (i + 1)
        else
          let piece := Piece.fromFENChar ch in
          if piece =? Piece.NONE then None
          else
            let c := Piece.getColor piece in
            let result := board_put result sq piece in
            let result := pieces_set result piece sq in
            let result := color_set result c sq in
            let result := material_add result c (Material.materialOf (Piece.getType piece)) in
            let result := score_add result c (scores.PST piece sq) in
            let result := upd_state result (fun st =>
                            set_hash st (Z.lxor (hash st) (zPIECE zk piece sq))) in
            parsePlacement fuel' fen result (Square.forward sq 1) (i + 1)
      else Some (result, sq, i)
  end.

Fixpoint parseCastling (fuel : nat) (fen : string) (result : Board) (i : Z) : Board * Z :=
  match fuel with
  | O => (result, i)
  | S fuel' =>
      if (i <? size fen) && negb (Ascii.eqb (char_at fen i) " ") then
        let castleMask := Castle.bitMaskFromFENChar (char_at fen i) in
        parseCastling fuel' fen
          (upd_state result (fun st => set_castleRight st (Z.lor (castleRight st) castleMask)))
          (i + 1)
      else (result, i)
  end.

(** [Board::fromFEN(fen, success)].  The second argument is the value the
    caller's [success] variable holds before the call, the second
    component of the result the value it holds afterwards: the paths that
    return without assigning it leave it as it was. *)
Definition fromFEN (fen : string) (success : bool) : Board * bool :=
  let result := Board_new in
  (* Pieces *)
  match parsePlacement (S (String.length fen)) fen result Square.A8 0 with
  | None => (result, false)
      (* the board returned on this path is the partly filled one; only the
         flag matters to the callers *)
  | Some (result, _, i) =>
      let i := i + 1 in
      if i >=? size fen then (result, false)
      else
        (* Side to move *)
        let result := set_m_side result (Color.fromFENChar (char_at fen i)) in
        let i := i + 1 in
        let result := upd_state result (fun st =>
                        set_hash st (Z.lxor (hash st) (zSIDE zk (m_side result)))) in
        if i >=? size fen - 1 then (result, success)
        else
          (* Castling rights *)
          let i := i + 1 in
          let '(result, i) :=
            if negb (Ascii.eqb (char_at fen i) "-")
            then parseCastling (S (String.length fen)) fen result i
            else (result, i + 1) in
          if i >=? size fen - 1 then (result, success)
          else
            (* En passant square *)
            let i := i + 1 in
            let epField : option (Board * Z) :=
              if negb (Ascii.eqb (char_at fen i) "-") then
                if i >=? size fen - 1 then None
                else Some (upd_state result (fun st =>
                             set_ep st (Square.fromChars (char_at fen i) (char_at fen (i + 1)))),
                           i + 1)
              else Some (result, i) in
            match epField with
            | None => (result, false)
            | Some (result, i) =>
                let i := i + 1 in
                if i >=? size fen - 1 then (result, success)
                else
                  (* Fifty rule *)
                  let i := i + 1 in
                  let '(fifty, i) := str_utils.fromString 256 fen i in
                  let result := upd_state result (fun st => set_fiftyRule st fifty) in
                  let i := i + 1 in
                  if i >=? size fen then (result, success)
                  else
                    (* Move count *)
                    let '(fenMoveCount, _) := str_utils.fromString 4294967296 fen i in
                    let result :=
                      set_m_moveCount result
                        (Int.u32 ((if negb (fenMoveCount =? 0)
                                   then 2 * (fenMoveCount - 1) else 0)
                                  + Color.toZ (Color.getOpposite (m_side result)))) in
                    (* Internal initialising *)
                    (initInternalState result, true)
            end
  end.

Definition makeInitialPosition (garbage : bool) : Board :=
  fst (fromFEN "rnbqkbnr/pppppppp/8/8/8/8/PPPPPPPP/RNBQKBNR w KQkq -" garbage).
End FromFEN.


(* ===================================================================== *)
(** ** Engine/TranspositionTable.h *)
(* ===================================================================== *)

Module EntryType.
Definition NON_PV : Z := 0.
Definition PV : Z := 1.
Definition EXACT : Z := 2.     (* 0b010 *)
Definition BETA : Z := 4.      (* 0b100 *)
Definition ALPHA : Z := 6.     (* 0b110 *)
End EntryType.

Module TT.
Record TableEntry : Set := mkTableEntry {
  hash : Z;      (* Hash, 8 bytes *)
  move : Z;      (* u16 *)
  value : Z;     (* Value *)
  age : Z;       (* u16 *)
  depth : Z;     (* u8 *)
  type : Z }.    (* EntryType, u8 *)

Definition isPvNode (e : TableEntry) : bool := negb (Z.land (type e) EntryType.PV =? 0).
Definition getBoundType (e : TableEntry) : Z := Z.land (type e) 6.

Record TableEntryCluster : Set := mkCluster {
  mainEntry : TableEntry;
  auxEntry : TableEntry }.

(** The static members [s_table], [s_tableSize], [s_rootAge]. *)
Record Table : Set := mkTable {
  s_table : list TableEntryCluster;
  s_tableSize : Z;
  s_rootAge : Z }.

Definition zeroEntry : TableEntry := mkTableEntry 0 0 0 0 0 0.
Definition zeroCluster : TableEntryCluster := mkCluster zeroEntry zeroEntry.

#[global] Instance cluster_inhabited : Inhabited TableEntryCluster := populate zeroCluster.

(** [DEFAULT_TABLE_SIZE], the size of the table in bytes, and
    [sizeof(TableEntryCluster)]: two entries of 16 bytes each, as the
    static assertions of the header say. *)
Definition DEFAULT_TABLE_SIZE : Z := 64 * 1024 * 1024.
Definition sizeof_TableEntryCluster : Z := 2 * 16.

(** The statics as they are defined in TranspositionTable.cpp, before
    [init]: [s_table = nullptr], [s_tableSize = 0], [s_rootAge = 0]. *)
Definition unallocated : Table := mkTable [] 0 0.

(** [TranspositionTable::init] (TranspositionTable.cpp): [malloc] of
    [DEFAULT_TABLE_SIZE] bytes, [memset] to 0, and
    [s_tableSize = DEFAULT_TABLE_SIZE / sizeof(TableEntryCluster)], that
    is 2097152 clusters whose entries are all zero; [s_rootAge] is not
    touched. *)
Definition init (t : Table) : Table :=
  mkTable (replicate (Z.to_nat (DEFAULT_TABLE_SIZE / sizeof_TableEntryCluster)) zeroCluster)
          (DEFAULT_TABLE_SIZE / sizeof_TableEntryCluster) (s_rootAge t).

Definition setRootAge (t : Table) (a : Z) : Table :=
  mkTable (s_table t) (s_tableSize t) a.

Definition cluster (t : Table) (h : Z) : TableEntryCluster :=
  rd (s_table t) (h mod s_tableSize t).

Definition probe (t : Table) (h : Z) : option TableEntry :=
  let entry := cluster t h in
  if hash (mainEntry entry) =? h then Some (mainEntry entry)
  else if hash (auxEntry entry) =? h then Some (auxEntry entry)
  else None.

(** The test that decides whether the main entry is replaced. *)
Definition replacesMain (t : Table) (main : TableEntry) (ty dep : Z) : bool :=
  (type main =? 0)
  || (age main <=? s_rootAge t)
  || (dep >? depth main)
  || ((dep =? depth main)
      && (Z.land ty EntryType.PV >=? Z.land (type main) EntryType.PV)
      && (Z.land ty 0x110 <=? getBoundType main)).

(** The adjustment of a mate value before it is stored. *)
Definition fixMateValueForStore (v ply : Z) : Z :=
  if engine.isMateValue v then
    if v >? engine.MATE - 2 * engine.MAX_DEPTH
    then Int.i16 (v + ply) else Int.i16 (v - ply)
  else v.

Definition tryRecord (ty h mv v a dep ply : Z) (t : Table) : Table :=
  let idx := h mod s_tableSize t in
  let entry := rd (s_table t) idx in
  let main := mainEntry entry in
  if replacesMain t main ty dep then
    let v := fixMateValueForStore v ply in
    mkTable (wr (s_table t) idx (mkCluster (mkTableEntry h mv v a dep ty) (auxEntry entry)))
            (s_tableSize t) (s_rootAge t)
  else if negb (hash main =? h) then
    mkTable (wr (s_table t) idx (mkCluster main (mkTableEntry h mv v a dep ty)))
            (s_tableSize t) (s_rootAge t)
  else t.
End TT.

(* ===================================================================== *)
(** ** Engine/Limits.h, Limits.cpp *)
(* ===================================================================== *)

Record Limits : Set := mkLimits {
  m_softBreak : Z;           (* time_t *)
  m_hardBreak : Z;
  m_start : Z;
  m_timeControlMoves : Z;    (* u32 *)
  m_movesMade : Z;           (* i32 *)
  m_baseTime : Z;            (* time_t *)
  m_incTime : Z;
  m_depthLimit : Z;
  m_nodesLimit : Z }.

Module LimitsOps.
(** The declaration defaults of the class. *)
Definition initial : Limits :=
  mkLimits Int.INT64_MAX Int.INT64_MAX 0 0 0 60000 3000 99 Int.UINT64_MAX.

Definition setBreaks (l : Limits) (start soft hard : Z) : Limits :=
  mkLimits soft hard start (m_timeControlMoves l) (m_movesMade l) (m_baseTime l)
    (m_incTime l) (m_depthLimit l) (m_nodesLimit l).

(** [time_t(ms * 0.9)] and [time_t(ms * 0.95)]: the product is taken in
    double precision and truncated.  For a time of less than 2^49 ms the
    rounding of the product never crosses an integer, so the result is
    the truncated exact quotient. *)
Definition times_0_9 (ms : Z) : Z := Int.cdiv (ms * 9) 10.
Definition times_0_95 (ms : Z) : Z := Int.cdiv (ms * 19) 20.

Definition conventionalPerMove (l : Limits) (msLeft : Z) : Z :=
  if negb (msLeft =? 0) then
    Z.min (Int.i64 (Int.cdiv msLeft (Int.u32 (m_timeControlMoves l - m_movesMade l))
                    + m_incTime l)) msLeft
  else Int.i64 (Int.cdiv (m_baseTime l) (m_timeControlMoves l) + m_incTime l).

Definition GAME_LENGTH_FACTOR : Z := 40.

Definition incrementalPerMove (l : Limits) (msLeft : Z) : Z :=
  if negb (msLeft =? 0) then
    Z.min (Int.i64 (m_incTime l + Int.cdiv msLeft GAME_LENGTH_FACTOR)) msLeft
  else Int.i64 (m_incTime l + Int.cdiv (m_baseTime l) GAME_LENGTH_FACTOR).

Definition exactPerMove (l : Limits) (msLeft : Z) : Z :=
  if negb (msLeft =? 0) then msLeft else m_incTime l.

Definition computeConventionalTimeLimits (l : Limits) (msLeft : Z) : Limits :=
  let msPerMove := conventionalPerMove l msLeft in
  setBreaks l (m_start l)
    (Int.i64 (m_start l + Int.cdiv msPerMove 2))
    (Int.i64 (m_start l + times_0_9 msPerMove)).

Definition computeIncrementalTimeLimits (l : Limits) (msLeft : Z) : Limits :=
  let msPerMove := incrementalPerMove l msLeft in
  setBreaks l (m_start l)
    (Int.i64 (m_start l + Int.cdiv msPerMove 2))
    (Int.i64 (m_start l + times_0_9 msPerMove)).

Definition computeExactTimePerMove (l : Limits) (msLeft : Z) : Limits :=
  let msForMove := exactPerMove l msLeft in
  setBreaks l (m_start l)
    (Int.i64 (m_start l + times_0_9 msForMove))
    (Int.i64 (m_start l + times_0_95 msForMove)).

(** [Limits::reset(msLeft)].  [now] is what [timeNow()] returns and
    [playingAgainstSelf] the flag [options::g_isPlayingAgainstSelf]. *)
Definition reset (now : Z) (playingAgainstSelf : bool) (msLeft : Z) (l : Limits)
  : Limits :=
  let DELAY_FIX := 0 in
  let l := setBreaks l (Int.i64 (now - DELAY_FIX)) (m_softBreak l) (m_hardBreak l) in
  let l :=
    if negb (m_timeControlMoves l =? 0) && negb (m_baseTime l =? 0)
    then computeConventionalTimeLimits l msLeft
    else if negb (m_baseTime l =? 0) then computeIncrementalTimeLimits l msLeft
    else if negb (m_incTime l =? 0) then computeExactTimePerMove l msLeft
    else l in
  if playingAgainstSelf then
    let computedSoftLimit := (m_softBreak l - m_start l) mod 2 ^ 64 in
    let computedHardLimit := (m_hardBreak l - m_start l) mod 2 ^ 64 in
    setBreaks l (m_start l)
      (Int.i64 (m_start l + Z.max (computedSoftLimit / 10) 100))
      (Int.i64 (m_start l + Z.max (computedHardLimit / 10) 100))
  else l.
End LimitsOps.

(* ===================================================================== *)
(** ** Engine/Search.cpp : the transposition-table probe, the prunings that
       precede the move loop, and the final record *)
(* ===================================================================== *)

Module NodeType.
Inductive t : Set := NON_PV | PV.
Definition toZ (nt : t) : Z := match nt with NON_PV => 0 | PV => 1 end.
End NodeType.

(** The value read back from an entry: [Fix the mate distance]. *)
Definition fixMateValueForProbe (v ply : Z) : Z :=
  if engine.isMateValue v then
    if v >? engine.MATE - 2 * engine.MAX_DEPTH then Int.i16 (v - ply)
    else if v <? - engine.MATE + 2 * engine.MAX_DEPTH then Int.i16 (v + ply)
    else v
  else v.

(** The cut-off taken from a found entry: [Some v] when [search] returns
    [v] at once, [None] when it goes on. *)
Definition tableCutoff (NT : NodeType.t) (entry : TT.TableEntry)
  (alpha beta depth ply : Z) : option Z :=
  if (TT.depth entry >=? depth) && negb (ply =? 0)
     && (TT.isPvNode entry || negb (NodeType.toZ NT =? NodeType.toZ NodeType.PV)) then
    let v := fixMateValueForProbe (TT.value entry) ply in
    let bound := TT.getBoundType entry in
    if bound =? EntryType.EXACT then Some v
    else if bound =? EntryType.ALPHA then (if v <=? alpha then Some alpha else None)
    else if bound =? EntryType.BETA then (if v >=? beta then Some beta else None)
    else None
  else None.

(** The type handed to [tryRecord]: [EntryType(u8(entryType) | u8(NT))]. *)
Definition recordedType (entryType : Z) (NT : NodeType.t) : Z :=
  Z.lor (Int.u8 entryType) (NodeType.toZ NT).

(** The call that closes [search]: the age is the move count cut to 16
    bits, the depth is cut to 8 bits. *)
Definition recordSearchResult (zk : ZobristKeys) (NT : NodeType.t) (entryType : Z)
  (b : Board) (bestMove alpha depth ply : Z) (t : TT.Table) : TT.Table :=
  TT.tryRecord (recordedType entryType NT) (computeHash zk b) (Move.getData bestMove)
    alpha (Int.u16 (m_moveCount b)) (Int.u8 depth) ply t.

Module SearchConst.
Definition MIN_NULLMOVE_DEPTH : Z := 2.
Definition NULLMOVE_DEPTH_REDUCTION_BASE : Z := 3.
Definition MIN_NULLMOVE_VERIFICATION_DEPTH : Z := 5.
Definition NULLMOVE_HIGH_DEPTH_DENOMINATOR : Z := 5.
Definition NULLMOVE_BETA_DIFFERENCE_DENOMINATOR : Z := 300.
Definition FUTILITY_MARGIN : list Z := [0; 50; 200; 400; 700].
End SearchConst.

(** The depth reduction of the null-move search. *)
Definition nullMoveReduction (depth staticEval beta : Z) : Z :=
  let R := SearchConst.NULLMOVE_DEPTH_REDUCTION_BASE
           + Int.cdiv (depth - SearchConst.MIN_NULLMOVE_DEPTH)
                      SearchConst.NULLMOVE_HIGH_DEPTH_DENOMINATOR
           + Z.max (Int.cdiv (staticEval - beta)
                             SearchConst.NULLMOVE_BETA_DIFFERENCE_DENOMINATOR) 0 in
  if R <? 0 then 0 else R.

Section Prunings.
(** Everything the recursive calls read and write besides the board
    (transposition table, history, principal variations, node counter,
    stop flag) is a state of type [World]; the recursive calls and the
    evaluation are the functions below. *)
Context {World : Type}.
Context (zk : ZobristKeys).
Context (search_NON_PV : Board -> Z -> Z -> Z -> Z -> World -> Z * World).
Context (quiescence : NodeType.t -> Board -> Z -> Z -> Z -> Z -> World -> Z * World).
Context (eval : Board -> Z).
Context (g_mustStop : World -> bool).

(** The null-move step, entered with the static evaluation at hand:
    [Some v] when [search] returns [v], [None] when it goes on to the
    move loop. *)
Definition nullMovePruning (b : Board) (alpha beta depth ply staticEval : Z) (w : World)
  : option Z * World :=
  if (staticEval >=? beta)
     && (depth >=? SearchConst.MIN_NULLMOVE_DEPTH)
     && hasNonPawns b (m_side b) then
    let R := nullMoveReduction depth staticEval beta in
    let b1 := makeNullMove b in
    let '(r, w) := search_NON_PV b1 (Int.i16 (- beta)) (Int.i16 (- beta + 1))
                     (depth - R) (ply + 1) w in
    let tmp := Int.i16 (- r) in
    let b2 := unmakeNullMove b1 in
    if g_mustStop w then (Some alpha, w)
    else if tmp >=? beta then
      let tmp := if engine.isMateValue tmp then beta else tmp in
      if depth >=? SearchConst.MIN_NULLMOVE_VERIFICATION_DEPTH then
        let '(verification, w) :=
          search_NON_PV b2 (Int.i16 (beta - 1)) beta (depth - R) ply w in
        if verification >=? beta then (Some tmp, w) else (None, w)
      else (Some tmp, w)
    else (None, w)
  else (None, w).

(** [PRUNINGS AND REDUCTIONS]: futility pruning, then the null move. *)
Definition prunings (NT : NodeType.t) (b : Board) (alpha beta depth ply : Z) (w : World)
  : option Z * World :=
  let inCheck := isInCheck b in
  if negb (NodeType.toZ NT =? NodeType.toZ NodeType.PV) && negb inCheck then
    let staticEval := eval b in
    let futility : option (option Z * World) :=
      if depth <=? 4 then
        let margin := rd SearchConst.FUTILITY_MARGIN depth in
        if staticEval <=? alpha - margin then
          let '(v, w) := quiescence NodeType.PV b alpha beta ply 0 w in
          Some (Some v, w)
        else if staticEval >=? beta + margin then Some (Some beta, w)
        else None
      else None in
    match futility with
    | Some r => r
    | None => nullMovePruning b alpha beta depth ply staticEval w
    end
  else (None, w).
End Prunings.

(** [Limits::isHardLimitBroken] and [Limits::isNodesLimitBroken]; the
    clock is read by the caller. *)
Definition isHardLimitBroken (l : Limits) (timeNow : Z) : bool := timeNow >=? m_hardBreak l.
Definition isNodesLimitBroken (l : Limits) (nodes : Z) : bool := nodes >? m_nodesLimit l.

Section SearchHead.
(** The globals of Search.cpp that [search] reads and writes before the
    prunings, as parts of the state [World]: the stop flag, the node
    counter, the limits and the clock, the pending input, the principal
    variations and the transposition table. *)
Context {World : Type}.
Context (zk : ZobristKeys).
Context (search_NON_PV : Board -> Z -> Z -> Z -> Z -> World -> Z * World).
Context (quiescence : NodeType.t -> Board -> Z -> Z -> Z -> Z -> World -> Z * World).
Context (eval : Board -> Z).
Context (g_mustStop : World -> bool).
Context (set_g_mustStop : World -> World).
Context (g_nodesCount : World -> Z).
Context (g_limits : World -> Limits).
Context (timeNow : World -> Z).
Context (checkInput : World -> World).
Context (clear_PV : Z -> World -> World).
Context (s_table : World -> TT.Table).

(** [Checking limits and input]: [None] when a limit is broken and the
    search must stop, else the state after the look at the input. *)
Definition pollLimits (w : World) : option World :=
  if Z.land (g_nodesCount w) 0x1ff =? 0 then
    if isHardLimitBroken (g_limits w) (timeNow w)
       || isNodesLimitBroken (g_limits w) (g_nodesCount w) then None
    else if Z.land (g_nodesCount w) 0x1fff =? 0 then Some (checkInput w)
    else Some w
  else Some w.

(** [MATE DISTANCE PRUNING]: the bounds of a non-PV node. *)
Definition mateDistanceBounds (NT : NodeType.t) (alpha beta ply : Z) : Z * Z :=
  match NT with
  | NodeType.PV => (alpha, beta)
  | NodeType.NON_PV =>
      (Z.max alpha (Int.i16 (- engine.MATE + ply)), Z.min beta (Int.i16 (engine.MATE - ply)))
  end.

(** [TRANSPOSITION TABLE]: the value returned from the table, if any. *)
Definition probeCutoff (NT : NodeType.t) (b : Board) (alpha beta depth ply : Z) (w : World)
  : option Z :=
  match TT.probe (s_table w) (computeHash zk b) with
  | Some entry => tableCutoff NT entry alpha beta depth ply
  | None => None
  end.

(** [search<NT>] from its entry to the end of the prunings: [Some v]
    when it returns [v], [None] when it goes on to internal iterative
    deepening and the moves. *)
Definition searchHead (NT : NodeType.t) (b : Board) (alpha beta depth ply : Z) (w : World)
  : option Z * World :=
  if depth <=? 0 then
    let '(v, w) := quiescence NT b alpha beta ply 0 w in (Some v, w)
  else if g_mustStop w then (Some alpha, w)
  else
    match pollLimits w with
    | None => (Some alpha, set_g_mustStop w)
    | Some w =>
        let w := clear_PV ply w in
        if isDraw b ply then (Some 0, w)
        else if ply >? engine.MAX_DEPTH then (Some alpha, w)
        else
          let '(alpha, beta) := mateDistanceBounds NT alpha beta ply in
          if negb (NodeType.toZ NT =? NodeType.toZ NodeType.PV) && (alpha >=? beta)
          then (Some alpha, w)
          else
            match probeCutoff NT b alpha beta depth ply w with
            | Some v => (Some v, w)
            | None =>
                prunings search_NON_PV quiescence eval g_mustStop NT b alpha beta depth ply w
            end
    end.
End SearchHead.

(* ===================================================================== *)
(** * Properties *)
(* ===================================================================== *)

(** ** Transposition table: the replacement rule *)

(** Every entry type the search produces is below 16, and for such a type
    the mask [0x110] selects no bit: the bound comparison of
    [replacesMain] holds whatever the two bounds are. *)
Lemma land_0x110_small (ty : Z) : 0 <= ty < 16 -> Z.land ty 0x110 = 0.
Proof.
  intros H.
  assert (Hc : forallb (fun t => Z.land t 0x110 =? 0) (map Z.of_nat (seq 0 16)) = true)
    by (vm_compute; reflexivity).
  rewrite forallb_forall in Hc.
  apply Z.eqb_eq, Hc, in_map_iff.
  exists (Z.to_nat ty). split; [lia | apply in_seq; lia].
Qed.

Lemma getBoundType_nonneg (e : TT.TableEntry) : 0 <= TT.getBoundType e.
Proof.
  unfold TT.getBoundType. apply Z.land_nonneg. right. lia.
Qed.

(** What the test really computes for the types in use. *)
Lemma replacesMain_without_bound (t : TT.Table) (main : TT.TableEntry) (ty dep : Z) :
  0 <= ty < 16 ->
  TT.replacesMain t main ty dep =
    (TT.type main =? 0)
    || (TT.age main <=? TT.s_rootAge t)
    || (dep >? TT.depth main)
    || ((dep =? TT.depth main)
        && (Z.land ty EntryType.PV >=? Z.land (TT.type main) EntryType.PV)).
Proof.
  intros H. unfold TT.replacesMain. rewrite (land_0x110_small ty H).
  pose proof (getBoundType_nonneg main) as Hb.
  replace (0 <=? TT.getBoundType main) with true by (symmetry; apply Z.leb_le; exact Hb).
  now rewrite andb_true_r.
Qed.

Definition C5_table : TT.Table :=
  TT.mkTable [TT.mkCluster (TT.mkTableEntry 8 0 10 10 5 EntryType.EXACT) TT.zeroEntry] 1 3.

(** C5 (the code departs from the rule): a stored EXACT entry of depth 5,
    not empty and younger than the root, is overwritten by a new ALPHA
    record of the same depth and the same PV status, although ALPHA is the
    looser bound; by the rule the record belonged to the auxiliary entry,
    which stays untouched. *)
Theorem C5_tryRecord_ignores_bound :
  let main := TT.mainEntry (TT.cluster C5_table 9) in
  let t' := TT.tryRecord EntryType.ALPHA 9 0 20 10 5 0 C5_table in
  (* none of the four reasons of the rule applies *)
  TT.type main <> 0
  /\ ~ TT.age main <= TT.s_rootAge C5_table
  /\ ~ 5 > TT.depth main
  /\ ~ (5 = TT.depth main
        /\ Z.land EntryType.ALPHA EntryType.PV >= Z.land (TT.type main) EntryType.PV
        /\ Z.land EntryType.ALPHA 6 <= TT.getBoundType main)
  (* and still the main entry is replaced, the auxiliary one is not written *)
  /\ TT.mainEntry (TT.cluster t' 9) = TT.mkTableEntry 9 0 20 10 5 EntryType.ALPHA
  /\ TT.auxEntry (TT.cluster t' 9) = TT.zeroEntry.
Proof.
  cbv zeta. repeat split; try (vm_compute; congruence); try reflexivity.
  intros (_ & _ & H). vm_compute in H. apply H. reflexivity.
Qed.

(** ** Transposition table: mate values *)

Lemma i16_small (z : Z) : -32768 <= z < 32768 -> Int.i16 z = z.
Proof.
  intros H. unfold Int.i16. rewrite Z.mod_small; lia.
Qed.

Lemma isMateValue_true (v : Z) :
  engine.isMateValue v = true <->
  (engine.MATE - 198 < v <= engine.MATE) \/ (- engine.MATE <= v < 198 - engine.MATE).
Proof.
  unfold engine.isMateValue, engine.MATE, engine.MAX_DEPTH.
  rewrite orb_true_iff, !andb_true_iff. lia.
Qed.

(** When the record lands in the main entry, the two adjustments compose:
    a score [MATE - n] found at ply [p] reads back at ply [p'] as
    [MATE - (n + (p' - p))], and likewise for the side that is mated. *)
(** Decide the integer comparisons of the goal, one after the other. *)
Ltac zcmp :=
  repeat match goal with
  | |- context [?a >? ?b] => destruct (Z.gtb_spec a b); try lia
  | |- context [?a <? ?b] => destruct (Z.ltb_spec a b); try lia
  | |- context [?a >=? ?b] => destruct (Z.geb_spec a b); try lia
  | |- context [?a <=? ?b] => destruct (Z.leb_spec a b); try lia
  | |- context [?a =? ?b] => destruct (Z.eqb_spec a b); try lia
  end.

Lemma mate_value_store_probe_win (n p p' : Z) :
  0 <= p <= n -> n < 198 -> 0 <= p' < 198 ->
  fixMateValueForProbe (TT.fixMateValueForStore (engine.MATE - n) p) p'
  = engine.MATE - (n + (p' - p)).
Proof.
  intros Hp Hn Hp'.
  unfold TT.fixMateValueForStore, fixMateValueForProbe.
  assert (H1 : engine.isMateValue (engine.MATE - n) = true)
    by (apply isMateValue_true; unfold engine.MATE; lia).
  rewrite H1.
  unfold engine.MATE, engine.MAX_DEPTH in *.
  destruct (Z.gtb_spec (30000 - n) (30000 - 2 * 99)); [| lia].
  rewrite i16_small by lia.
  assert (H2 : engine.isMateValue (30000 - n + p) = true)
    by (apply isMateValue_true; unfold engine.MATE; lia).
  rewrite H2.
  destruct (Z.gtb_spec (30000 - n + p) (30000 - 2 * 99)); [| lia].
  rewrite i16_small by lia. lia.
Qed.

Lemma mate_value_store_probe_loss (n p p' : Z) :
  0 <= p <= n -> n < 198 -> 0 <= p' < 198 ->
  fixMateValueForProbe (TT.fixMateValueForStore (- engine.MATE + n) p) p'
  = - engine.MATE + (n + (p' - p)).
Proof.
  intros Hp Hn Hp'.
  unfold TT.fixMateValueForStore, fixMateValueForProbe.
  assert (H1 : engine.isMateValue (- engine.MATE + n) = true)
    by (apply isMateValue_true; unfold engine.MATE; lia).
  rewrite H1.
  unfold engine.MATE, engine.MAX_DEPTH in *.
  change (Z.opp 30000) with (-30000) in *.
  destruct (Z.gtb_spec (- 30000 + n) (30000 - 2 * 99)); [lia |].
  rewrite i16_small by lia.
  assert (H2 : engine.isMateValue (- 30000 + n - p) = true)
    by (apply isMateValue_true; unfold engine.MATE; lia).
  rewrite H2.
  destruct (Z.gtb_spec (- 30000 + n - p) (30000 - 2 * 99)); [lia |].
  destruct (Z.ltb_spec (- 30000 + n - p) (- 30000 + 2 * 99)); [| lia].
  rewrite i16_small by lia. lia.
Qed.

Definition C7_table : TT.Table :=
  TT.mkTable [TT.mkCluster (TT.mkTableEntry 2 0 0 5 50 EntryType.EXACT) TT.zeroEntry] 1 0.

(** C7 (the code departs from the claim): a record that goes to the
    auxiliary entry stores its value without the ply offset.  The score
    [MATE - 10] found at ply 4 is kept as [MATE - 10]; probed at ply 6 it
    reads [MATE - 16], where the mate distance shifted by [6 - 4] is
    [MATE - 12], the value the main-entry path gives. *)
Theorem C7_aux_entry_mate_value_not_offset :
  let t' := TT.tryRecord EntryType.EXACT 3 0 (engine.MATE - 10) 5 4 4 C7_table in
  TT.probe t' 3 = Some (TT.mkTableEntry 3 0 (engine.MATE - 10) 5 4 EntryType.EXACT)
  /\ TT.auxEntry (TT.cluster t' 3) = TT.mkTableEntry 3 0 (engine.MATE - 10) 5 4 EntryType.EXACT
  /\ fixMateValueForProbe (engine.MATE - 10) 6 = engine.MATE - 16
  /\ fixMateValueForProbe (TT.fixMateValueForStore (engine.MATE - 10) 4) 6 = engine.MATE - 12
  /\ tableCutoff NodeType.NON_PV (TT.mkTableEntry 3 0 (engine.MATE - 10) 5 4 EntryType.EXACT)
       (-100) 100 4 6 = Some (engine.MATE - 16).
Proof.
  cbv zeta. repeat split; vm_compute; reflexivity.
Qed.

(** ** Transposition table: a type of zero marks a never-used entry *)

(** The bound a search node ends with: [entryType] starts as ALPHA and is
    only ever assigned EXACT or BETA. *)
Definition isBound (e : Z) : Prop :=
  e = EntryType.EXACT \/ e = EntryType.BETA \/ e = EntryType.ALPHA.

(** The slot a call of [tryRecord] writes, as (cluster index, auxiliary?). *)
Definition writtenSlot (ty h dep : Z) (t : TT.Table) : list (Z * bool) :=
  let idx := h mod TT.s_tableSize t in
  let main := TT.mainEntry (rd (TT.s_table t) idx) in
  if TT.replacesMain t main ty dep then [(idx, false)]
  else if negb (TT.hash main =? h) then [(idx, true)]
  else [].

Definition slot (t : TT.Table) (i : Z) (aux : bool) : TT.TableEntry :=
  let c := rd (TT.s_table t) i in
  if aux then TT.auxEntry c else TT.mainEntry c.

(** The tables the engine can reach, with the slots written so far: the
    table is allocated, the root age is set at the start of every search,
    and every node of [search] ends with one [tryRecord]. *)
Inductive Reachable : TT.Table -> list (Z * bool) -> Prop :=
| Reachable_init (t : TT.Table) :
    Reachable (TT.init t) []
| Reachable_setRootAge (t : TT.Table) (ws : list (Z * bool)) (a : Z) :
    Reachable t ws -> Reachable (TT.setRootAge t a) ws
| Reachable_tryRecord (t : TT.Table) (ws : list (Z * bool))
    (e : Z) (NT : NodeType.t) (h mv v a dep ply : Z) :
    Reachable t ws -> isBound e ->
    Reachable (TT.tryRecord (recordedType e NT) h mv v a dep ply t)
              (writtenSlot (recordedType e NT) h dep t ++ ws).

Lemma recordedType_nonzero (e : Z) (NT : NodeType.t) :
  isBound e -> recordedType e NT <> 0 /\ 2 <= recordedType e NT <= 7.
Proof.
  intros [-> | [-> | ->]]; destruct NT; vm_compute; intuition congruence.
Qed.

Lemma rd_wr_eq {A} `{Inhabited A} (l : list A) (i : Z) (v : A) :
  0 <= i < Z.of_nat (length l) -> rd (wr l i v) i = v.
Proof.
  intros Hi. unfold rd, wr.
  apply list_lookup_total_correct, list_lookup_insert_eq. lia.
Qed.

Lemma rd_wr_ne {A} `{Inhabited A} (l : list A) (i j : Z) (v : A) :
  0 <= i -> 0 <= j -> i <> j -> rd (wr l i v) j = rd l j.
Proof.
  intros Hi Hj Hne. unfold rd, wr.
  rewrite !list_lookup_total_alt, list_lookup_insert_ne; [reflexivity | lia].
Qed.

Lemma length_wr {A} (l : list A) (i : Z) (v : A) : length (wr l i v) = length l.
Proof. unfold wr. apply length_insert. Qed.

(** [init] makes a table of 2097152 clusters. *)
Lemma init_size : TT.DEFAULT_TABLE_SIZE / TT.sizeof_TableEntryCluster = 2097152.
Proof. reflexivity. Qed.

Lemma init_size_pos : 0 < TT.DEFAULT_TABLE_SIZE / TT.sizeof_TableEntryCluster.
Proof. rewrite init_size. reflexivity. Qed.

Lemma tryRecord_shape (ty h mv v a dep ply : Z) (t : TT.Table) :
  TT.s_tableSize (TT.tryRecord ty h mv v a dep ply t) = TT.s_tableSize t
  /\ length (TT.s_table (TT.tryRecord ty h mv v a dep ply t)) = length (TT.s_table t).
Proof.
  unfold TT.tryRecord.
  destruct (TT.replacesMain _ _ _ _); [| destruct (negb _)]; cbn; rewrite ?length_wr; auto.
Qed.

Lemma Reachable_shape (t : TT.Table) (ws : list (Z * bool)) :
  Reachable t ws ->
  0 < TT.s_tableSize t /\ Z.of_nat (length (TT.s_table t)) = TT.s_tableSize t.
Proof.
  induction 1 as [t | t ws a _ IH | t ws e NT h mv v a dep ply _ IH Hb].
  - unfold TT.init. cbn [TT.s_table TT.s_tableSize]. rewrite length_replicate.
    pose proof init_size_pos as Hs.
    generalize dependent (TT.DEFAULT_TABLE_SIZE / TT.sizeof_TableEntryCluster).
    intros n Hs. lia.
  - exact IH.
  - destruct (tryRecord_shape (recordedType e NT) h mv v a dep ply t) as [-> ->]. exact IH.
Qed.

(** The effect of one record on any slot of the table. *)
Lemma tryRecord_slot (ty h mv v a dep ply : Z) (t : TT.Table) (i : Z) (aux : bool) :
  0 < TT.s_tableSize t -> Z.of_nat (length (TT.s_table t)) = TT.s_tableSize t ->
  0 <= i < TT.s_tableSize t ->
  (In (i, aux) (writtenSlot ty h dep t)
   /\ TT.type (slot (TT.tryRecord ty h mv v a dep ply t) i aux) = ty)
  \/ (~ In (i, aux) (writtenSlot ty h dep t)
      /\ slot (TT.tryRecord ty h mv v a dep ply t) i aux = slot t i aux).
Proof.
  intros Hs Hl Hi.
  assert (Hidx : 0 <= h mod TT.s_tableSize t < Z.of_nat (length (TT.s_table t)))
    by (rewrite Hl; apply Z.mod_pos_bound; lia).
  unfold writtenSlot, TT.tryRecord, slot.
  set (idx := h mod TT.s_tableSize t) in *.
  destruct (TT.replacesMain t (TT.mainEntry (rd (TT.s_table t) idx)) ty dep).
  - cbn [TT.s_table]. destruct (Z.eq_dec i idx) as [-> | Hne].
    + rewrite rd_wr_eq by exact Hidx. destruct aux; cbn.
      * right. split; [intros [Hc | []]; congruence | reflexivity].
      * left. split; [now left | reflexivity].
    + rewrite rd_wr_ne by lia. right. split; [| reflexivity].
      intros [Hc | []]. congruence.
  - destruct (negb (TT.hash (TT.mainEntry (rd (TT.s_table t) idx)) =? h)).
    + cbn [TT.s_table]. destruct (Z.eq_dec i idx) as [-> | Hne].
      * rewrite rd_wr_eq by exact Hidx. destruct aux; cbn.
        -- left. split; [now left | reflexivity].
        -- right. split; [intros [Hc | []]; congruence | reflexivity].
      * rewrite rd_wr_ne by lia. right. split; [| reflexivity].
        intros [Hc | []]. congruence.
    + right. split; [intros [] | reflexivity].
Qed.

Lemma slot_init (t : TT.Table) (i : Z) (aux : bool) : slot (TT.init t) i aux = TT.zeroEntry.
Proof.
  unfold slot, TT.init, rd. cbn [TT.s_table].
  generalize (Z.to_nat (TT.DEFAULT_TABLE_SIZE / TT.sizeof_TableEntryCluster)). intros size.
  destruct (decide (Z.to_nat i < size)%nat) as [Hlt | Hge].
  - rewrite (list_lookup_total_correct _ _ TT.zeroCluster)
      by (apply lookup_replicate_2; exact Hlt).
    now destruct aux.
  - rewrite list_lookup_total_alt, (lookup_ge_None_2 _ (Z.to_nat i))
      by (rewrite length_replicate; lia).
    now destruct aux.
Qed.

(** C10: every type the search hands to [tryRecord] carries a bound bit and
    is therefore not zero; on every table the engine can reach, a slot has
    a non-zero type exactly when some record was written to it, and a slot
    of type zero still is the never-used entry of the fresh table. *)
Theorem C10_zero_type_iff_never_used (t : TT.Table) (ws : list (Z * bool)) :
  Reachable t ws ->
  (forall (e : Z) (NT : NodeType.t), isBound e -> recordedType e NT <> 0)
  /\ forall (i : Z) (aux : bool), 0 <= i < TT.s_tableSize t ->
       (TT.type (slot t i aux) <> 0 <-> In (i, aux) ws)
       /\ (TT.type (slot t i aux) = 0 -> slot t i aux = TT.zeroEntry).
Proof.
  intros Hr. split; [intros e NT Hb; apply recordedType_nonzero, Hb |].
  induction Hr as [t | t ws a Hr IH | t ws e NT h mv v a dep ply Hr IH Hb];
    intros i aux Hi.
  - rewrite slot_init. cbn. split; [split; [congruence | intros []] | reflexivity].
  - apply (IH i aux Hi).
  - destruct (Reachable_shape t ws Hr) as [Hs Hl].
    destruct (tryRecord_shape (recordedType e NT) h mv v a dep ply t) as [Hsz _].
    rewrite Hsz in Hi. destruct (IH i aux Hi) as [IH1 IH2].
    destruct (recordedType_nonzero e NT Hb) as [Hnz _].
    destruct (tryRecord_slot (recordedType e NT) h mv v a dep ply t i aux Hs Hl Hi)
      as [[Hin Hty] | [Hnin Heq]].
    + rewrite Hty. split; [split; [intros _; apply in_or_app; now left | intros _; exact Hnz]
                          | intros Hz; contradiction].
    + rewrite Heq. split; [| exact IH2].
      rewrite IH1. split; [intros Hw; apply in_or_app; now right |].
      intros Hw. apply in_app_or in Hw. destruct Hw as [Hw | Hw]; [contradiction | exact Hw].
Qed.

(** The table after [init], the root age set for a search and the record
    of a node: hash 5, depth 3, a PV node that ended with the bound
    BETA. *)
Definition C10_table : TT.Table :=
  TT.tryRecord (recordedType EntryType.BETA NodeType.PV) 5 0 0 1 3 0
    (TT.setRootAge (TT.init TT.unallocated) 1).

Definition C10_written : list (Z * bool) :=
  writtenSlot (recordedType EntryType.BETA NodeType.PV) 5 3
    (TT.setRootAge (TT.init TT.unallocated) 1) ++ [].

Lemma C10_witness :
  (TT.type (slot C10_table 5 false) <> 0 <-> In (5, false) C10_written)
  /\ (TT.type (slot C10_table 5 false) = 0 -> slot C10_table 5 false = TT.zeroEntry).
Proof.
  refine (proj2 (C10_zero_type_iff_never_used _ _
            (Reachable_tryRecord (TT.setRootAge (TT.init TT.unallocated) 1) []
               EntryType.BETA NodeType.PV 5 0 0 1 3 0
               (Reachable_setRootAge _ _ 1 (Reachable_init TT.unallocated)) _)) 5 false _).
  - right; left; reflexivity.
  - unfold C10_table.
    rewrite (proj1 (tryRecord_shape _ _ _ _ _ _ _ _)).
    unfold TT.setRootAge, TT.init. cbn [TT.s_tableSize]. rewrite init_size. lia.
Defined.

(** The slot the record went to is the main entry of cluster 5, and it
    now holds the type BETA with the PV bit. *)
Remark C10_table_slot :
  C10_written = [(5, false)] /\ TT.type (slot C10_table 5 false) = 5.
Proof. split; lazy; reflexivity. Qed.

(* ===================================================================== *)
(** ** Limits: the time budget of a move *)
(* ===================================================================== *)

Lemma i64_small (z : Z) : - 2 ^ 63 <= z < 2 ^ 63 -> Int.i64 z = z.
Proof.
  intros H. unfold Int.i64. rewrite Z.mod_small; lia.
Qed.

Definition C8_limits : Limits :=
  mkLimits Int.INT64_MAX Int.INT64_MAX 0 0 0 60000 3000 99 Int.UINT64_MAX.

(** C8, as stated, fails: with a base time of 60 s, an increment of 3 s and
    100 ms left on the clock, the budget is not [3000 + 100/40 = 3002] ms
    but the 100 ms that are left, so the soft break is [start + 50], not
    [start + 1501]. *)
Lemma C8_counterexample :
  ~ (forall (now T : Z) (l : Limits),
       m_timeControlMoves l = 0 -> m_baseTime l <> 0 ->
       m_softBreak (LimitsOps.reset now false T l)
       = now + Int.cdiv (m_incTime l + Int.cdiv T 40) 2).
Proof.
  intros H. specialize (H 1000 100 C8_limits eq_refl). vm_compute in H.
  assert (Hne : 60000 <> 0) by lia. specialize (H Hne). congruence.
Qed.

(** The range in which no [time_t] computation wraps. *)
Definition timeInRange (z : Z) : Prop := 0 <= z < 2 ^ 40.

Lemma reset_start (now : Z) (self : bool) (T : Z) (l : Limits) :
  timeInRange now -> m_start (LimitsOps.reset now self T l) = now.
Proof.
  intros Hn. unfold timeInRange in Hn. unfold LimitsOps.reset.
  assert (Hs : Int.i64 (now - 0) = now) by (rewrite i64_small; lia).
  destruct self; repeat (match goal with |- context [if ?c then _ else _] => destruct c end);
    cbn; exact Hs.
Qed.

(** C8 (amended): in the incremental regime the budget of a move is
    [increment + T/40] capped by the time left [T] (when [T] is 0, the
    increment plus a fortieth of the base time), the soft break is
    [start + perMove/2] and the hard break [start + 0.9 * perMove]; in the
    exact regime the budget is [T] (the increment when [T] is 0), with the
    breaks at [start + 0.9 * perMove] and [start + 0.95 * perMove]; when
    the engine plays itself each of the two distances to [start] is divided
    by ten and raised to 100 ms at least.  Divisions are integer divisions
    and the products by 0.9 and 0.95 are truncated. *)
Theorem C8_reset_budget (now T : Z) (l : Limits) :
  timeInRange now -> timeInRange T -> timeInRange (m_baseTime l) -> timeInRange (m_incTime l) ->
  m_timeControlMoves l = 0 ->
  let perMoveInc :=
    if T =? 0 then m_incTime l + m_baseTime l / 40 else Z.min (m_incTime l + T / 40) T in
  let perMoveExact := if T =? 0 then m_incTime l else T in
  (* incremental regime *)
  (m_baseTime l <> 0 ->
     m_softBreak (LimitsOps.reset now false T l) = now + perMoveInc / 2
     /\ m_hardBreak (LimitsOps.reset now false T l) = now + perMoveInc * 9 / 10
     /\ m_softBreak (LimitsOps.reset now true T l) = now + Z.max (perMoveInc / 2 / 10) 100
     /\ m_hardBreak (LimitsOps.reset now true T l) = now + Z.max (perMoveInc * 9 / 10 / 10) 100)
  (* exact time per move *)
  /\ (m_baseTime l = 0 -> m_incTime l <> 0 ->
     m_softBreak (LimitsOps.reset now false T l) = now + perMoveExact * 9 / 10
     /\ m_hardBreak (LimitsOps.reset now false T l) = now + perMoveExact * 19 / 20
     /\ m_softBreak (LimitsOps.reset now true T l) = now + Z.max (perMoveExact * 9 / 10 / 10) 100
     /\ m_hardBreak (LimitsOps.reset now true T l) = now + Z.max (perMoveExact * 19 / 20 / 10) 100).
Proof.
  unfold timeInRange. intros Hn HT Hb Hi Hc. cbv zeta.
  assert (Hpow : 2 ^ 40 = 1099511627776) by reflexivity.
  assert (Hpow63 : 2 ^ 63 = 9223372036854775808) by reflexivity.
  assert (Hpow64 : 2 ^ 64 = 18446744073709551616) by reflexivity.
  rewrite Hpow in *.
  assert (Hq : forall a b, 0 <= a -> 0 < b -> Int.cdiv a b = a / b)
    by (intros a b Ha Hb'; unfold Int.cdiv; apply Z.quot_div_nonneg; lia).
  assert (Hstart : Int.i64 (now - 0) = now) by (rewrite i64_small; rewrite ?Hpow63; lia).
  split.
  - intros Hbase.
    unfold LimitsOps.reset, LimitsOps.setBreaks. cbn [m_timeControlMoves m_baseTime m_incTime
      m_start m_softBreak m_hardBreak m_movesMade m_depthLimit m_nodesLimit].
    rewrite Hc. cbn [Z.eqb negb andb].
    destruct (Z.eqb_spec (m_baseTime l) 0) as [He | _]; [contradiction |]. cbn [negb].
    unfold LimitsOps.computeIncrementalTimeLimits, LimitsOps.setBreaks,
      LimitsOps.incrementalPerMove, LimitsOps.times_0_9, LimitsOps.GAME_LENGTH_FACTOR.
    cbn [m_timeControlMoves m_baseTime m_incTime
      m_start m_softBreak m_hardBreak m_movesMade m_depthLimit m_nodesLimit].
    rewrite Hstart.
    set (pm := if T =? 0 then m_incTime l + m_baseTime l / 40 else Z.min (m_incTime l + T / 40) T).
    assert (Hpm : (if negb (T =? 0)
                   then Z.min (Int.i64 (m_incTime l + Int.cdiv T 40)) T
                   else Int.i64 (m_incTime l + Int.cdiv (m_baseTime l) 40)) = pm).
    { subst pm. rewrite !Hq by lia.
      assert (0 <= T / 40 <= T) by (split; [apply Z.div_pos; lia | apply Z.div_le_upper_bound; lia]).
      assert (0 <= m_baseTime l / 40 <= m_baseTime l)
        by (split; [apply Z.div_pos; lia | apply Z.div_le_upper_bound; lia]).
      destruct (T =? 0); cbn [negb]; rewrite i64_small; rewrite ?Hpow63; lia. }
    rewrite Hpm.
    assert (Hpmr : 0 <= pm < 2 * 1099511627776).
    { subst pm.
      assert (0 <= T / 40 <= T) by (split; [apply Z.div_pos; lia | apply Z.div_le_upper_bound; lia]).
      assert (0 <= m_baseTime l / 40 <= m_baseTime l)
        by (split; [apply Z.div_pos; lia | apply Z.div_le_upper_bound; lia]).
      destruct (T =? 0); lia. }
    rewrite !Hq by lia.
    assert (H2 : 0 <= pm / 2 <= pm)
      by (split; [apply Z.div_pos; lia | apply Z.div_le_upper_bound; lia]).
    assert (H9 : 0 <= pm * 9 / 10 <= pm)
      by (split; [apply Z.div_pos; lia | apply Z.div_le_upper_bound; lia]).
    rewrite !(i64_small (now + _)) by (rewrite Hpow63; lia).
    replace (now + pm / 2 - now) with (pm / 2) by lia.
    replace (now + pm * 9 / 10 - now) with (pm * 9 / 10) by lia.
    rewrite !Z.mod_small by (rewrite Hpow64; lia).
    assert (0 <= pm / 2 / 10 <= pm)
      by (split; [apply Z.div_pos; lia | apply Z.div_le_upper_bound; lia]).
    assert (0 <= pm * 9 / 10 / 10 <= pm)
      by (split; [apply Z.div_pos; lia | apply Z.div_le_upper_bound; lia]).
    rewrite !(i64_small (now + _)) by (rewrite Hpow63; lia).
    repeat split; reflexivity.
  - intros Hbase Hinc.
    unfold LimitsOps.reset, LimitsOps.setBreaks. cbn [m_timeControlMoves m_baseTime m_incTime
      m_start m_softBreak m_hardBreak m_movesMade m_depthLimit m_nodesLimit].
    rewrite Hc, Hbase. cbn [Z.eqb negb andb].
    destruct (Z.eqb_spec (m_incTime l) 0) as [He | _]; [contradiction |]. cbn [negb].
    unfold LimitsOps.computeExactTimePerMove, LimitsOps.setBreaks,
      LimitsOps.exactPerMove, LimitsOps.times_0_9, LimitsOps.times_0_95.
    cbn [m_timeControlMoves m_baseTime m_incTime
      m_start m_softBreak m_hardBreak m_movesMade m_depthLimit m_nodesLimit].
    rewrite Hstart.
    set (pm := if T =? 0 then m_incTime l else T).
    assert (Hpm : (if negb (T =? 0) then T else m_incTime l) = pm)
      by (subst pm; destruct (T =? 0); reflexivity).
    rewrite Hpm.
    assert (Hpmr : 0 <= pm < 1099511627776) by (subst pm; destruct (T =? 0); lia).
    rewrite !Hq by lia.
    assert (H9 : 0 <= pm * 9 / 10 <= pm)
      by (split; [apply Z.div_pos; lia | apply Z.div_le_upper_bound; lia]).
    assert (H19 : 0 <= pm * 19 / 20 <= pm)
      by (split; [apply Z.div_pos; lia | apply Z.div_le_upper_bound; lia]).
    rewrite !(i64_small (now + _)) by (rewrite Hpow63; lia).
    replace (now + pm * 9 / 10 - now) with (pm * 9 / 10) by lia.
    replace (now + pm * 19 / 20 - now) with (pm * 19 / 20) by lia.
    rewrite !Z.mod_small by (rewrite Hpow64; lia).
    assert (0 <= pm * 9 / 10 / 10 <= pm)
      by (split; [apply Z.div_pos; lia | apply Z.div_le_upper_bound; lia]).
    assert (0 <= pm * 19 / 20 / 10 <= pm)
      by (split; [apply Z.div_pos; lia | apply Z.div_le_upper_bound; lia]).
    rewrite !(i64_small (now + _)) by (rewrite Hpow63; lia).
    repeat split; reflexivity.
Qed.

Lemma C8_witness :
  m_softBreak (LimitsOps.reset 1000 false 100 C8_limits) = 1000 + 100 / 2
  /\ m_hardBreak (LimitsOps.reset 1000 false 100 C8_limits) = 1000 + 100 * 9 / 10
  /\ m_softBreak (LimitsOps.reset 1000 true 100 C8_limits) = 1000 + 100
  /\ m_hardBreak (LimitsOps.reset 1000 true 100 C8_limits) = 1000 + 100.
Proof.
  assert (Hr : forall z, 0 <= z < 2 ^ 40 -> timeInRange z) by (intros z H; exact H).
  refine (proj1 (C8_reset_budget 1000 100 C8_limits _ _ _ _ _) _);
    try (apply Hr; vm_compute; split; [discriminate | reflexivity]).
  - reflexivity.
  - vm_compute. discriminate.
Defined.

(* ===================================================================== *)
(** ** Board: making and unmaking a null move *)
(* ===================================================================== *)

Lemma removelast_snoc {A} (l : list A) (x : A) : removelast (l ++ [x]) = l.
Proof. apply removelast_last. Qed.

Lemma states_set_state (b : Board) (st : StateInfo) :
  removelast (m_states (set_state b st)) = removelast (m_states b).
Proof. unfold set_state. cbn. apply removelast_snoc. Qed.

Lemma states_upd_state (b : Board) (f : StateInfo -> StateInfo) :
  removelast (m_states (upd_state b f)) = removelast (m_states b).
Proof. apply states_set_state. Qed.

(** What an operation leaves alone when it only rewrites the top state. *)
Definition sameButTop (b b' : Board) : Prop :=
  m_board b' = m_board b /\ m_pieces b' = m_pieces b
  /\ m_piecesByColor b' = m_piecesByColor b
  /\ removelast (m_states b') = removelast (m_states b)
  /\ m_material b' = m_material b /\ m_score b' = m_score b
  /\ m_moveCount b' = m_moveCount b /\ m_side b' = m_side b.

Lemma sameButTop_refl (b : Board) : sameButTop b b.
Proof. repeat split. Qed.

Lemma sameButTop_trans (a b c : Board) :
  sameButTop a b -> sameButTop b c -> sameButTop a c.
Proof.
  unfold sameButTop. intros (?&?&?&?&?&?&?&?) (?&?&?&?&?&?&?&?).
  repeat split; congruence.
Qed.

Lemma sameButTop_set_state (b : Board) (st : StateInfo) : sameButTop b (set_state b st).
Proof. repeat split. apply states_set_state. Qed.

Lemma sameButTop_fold {A} (f : Board -> A -> Board) (l : list A) (b : Board) :
  (forall b x, sameButTop b (f b x)) -> sameButTop b (fold_left f l b).
Proof.
  intros Hf. revert b. induction l as [| x l IH]; intros b; cbn.
  - apply sameButTop_refl.
  - eapply sameButTop_trans; [apply Hf | apply IH].
Qed.

Lemma sameButTop_updateInternalState_side (b : Board) (c : Color.t) :
  sameButTop b (updateInternalState_side b c).
Proof.
  unfold updateInternalState_side.
  eapply sameButTop_trans; [apply sameButTop_set_state |].
  apply sameButTop_fold. intros b' sq.
  destruct (_ && _); [apply sameButTop_set_state | apply sameButTop_refl].
Qed.

Lemma sameButTop_updateInternalState (b : Board) : sameButTop b (updateInternalState b).
Proof.
  unfold updateInternalState.
  eapply sameButTop_trans; [apply sameButTop_set_state |].
  eapply sameButTop_trans; apply sameButTop_updateInternalState_side.
Qed.

Lemma sameButTop_updateRepetition (b : Board) : sameButTop b (updateRepetition b).
Proof.
  unfold updateRepetition. destruct (_ >=? 4); [| apply sameButTop_refl].
  destruct (repetitionScan _ _ _ _ _); [apply sameButTop_set_state | apply sameButTop_refl].
Qed.

Lemma pushNextState_states (b : Board) :
  removelast (m_states (pushNextState b)) = m_states b.
Proof.
  unfold pushNextState. rewrite states_set_state. unfold emplace_back. cbn.
  apply removelast_snoc.
Qed.

Lemma Board_eta (b : Board) :
  b = mkBoard (m_board b) (m_pieces b) (m_piecesByColor b) (m_states b)
        (m_material b) (m_score b) (m_moveCount b) (m_side b).
Proof. now destruct b. Qed.

Lemma getOpposite_involutive (c : Color.t) : Color.getOpposite (Color.getOpposite c) = c.
Proof. now destruct c. Qed.

Lemma pop_back_sameButTop (b b' : Board) :
  sameButTop b b' -> pop_back b' = pop_back b.
Proof.
  destruct b, b'. unfold sameButTop, pop_back, set_m_states. cbn.
  intros (-> & -> & -> & -> & -> & -> & -> & ->). reflexivity.
Qed.

Lemma pop_back_pushNextState (b : Board) : pop_back (pushNextState b) = b.
Proof.
  rewrite (pop_back_sameButTop (emplace_back b StateInfo_default))
    by (unfold pushNextState; apply sameButTop_set_state).
  destruct b. unfold pop_back, emplace_back, set_m_states. cbn.
  now rewrite removelast_snoc.
Qed.

Lemma sameButTop_upd_state (b : Board) (f : StateInfo -> StateInfo) :
  sameButTop b (upd_state b f).
Proof. apply sameButTop_set_state. Qed.

(** A null move is undone exactly, on every board. *)
Lemma unmakeNullMove_makeNullMove (b : Board) : unmakeNullMove (makeNullMove b) = b.
Proof.
  unfold makeNullMove, unmakeNullMove.
  set (b1 := set_m_side b (Color.getOpposite (m_side b))).
  match goal with |- context [updateInternalState ?x] => set (b2 := x) end.
  assert (H : sameButTop (pushNextState b1) (updateInternalState b2)).
  { subst b2.
    eapply sameButTop_trans; [apply sameButTop_upd_state |].
    eapply sameButTop_trans; [apply sameButTop_upd_state |].
    apply sameButTop_updateInternalState. }
  assert (Hside : m_side (updateInternalState b2) = Color.getOpposite (m_side b)).
  { destruct H as (_ & _ & _ & _ & _ & _ & _ & ->).
    unfold pushNextState, set_state, emplace_back. cbn. reflexivity. }
  rewrite Hside, getOpposite_involutive.
  transitivity (set_m_side (pop_back (updateInternalState b2)) (m_side b));
    [now destruct (updateInternalState b2) |].
  rewrite (pop_back_sameButTop _ _ H), pop_back_pushNextState.
  subst b1. now destruct b.
Qed.

(* ===================================================================== *)
(** ** Search: null-move pruning *)
(* ===================================================================== *)

(** A search oracle that returns 100 below the window it is given and logs
    the depth it is called with. *)
Definition loggingSearch (b : Board) (alpha beta depth ply : Z) (w : list Z) : Z * list Z :=
  (alpha - 100, w ++ [depth]).

Definition C4_board : Board :=
  fst (fromFEN (mkZobristKeys (fun _ _ => 0) (fun _ => 0) (fun _ => 0) (fun _ => 0))
         "4k3/8/8/8/8/8/8/R3K3 w - - 0 1" false).

(** The node of the claim in the rook ending: ply 1, depth 5, bounds 0
    and 100, static evaluation 400; nothing stops the search, no limit
    is set, the table holds no record. *)
Definition C4_node : option Z * list Z :=
  searchHead (mkZobristKeys (fun _ _ => 0) (fun _ => 0) (fun _ => 0) (fun _ => 0))
    loggingSearch (fun _ _ _ _ _ _ w => (0, w)) (fun _ => 400) (fun _ => false)
    (fun w => w) (fun _ => 1) (fun _ => LimitsOps.initial) (fun _ => 0) (fun w => w)
    (fun _ w => w) (fun _ => TT.mkTable [TT.zeroCluster] 1 0)
    NodeType.NON_PV C4_board 0 100 5 1 [].

(** C4, as stated, fails: at depth 5 with a static evaluation 300 above
    beta the null move and its verification are searched at depth
    [5 - 4], while the reduction of the claim,
    [3 + (5-2)/5 + min(0, 300/300) = 3], gives depth 2. *)
Lemma C4_counterexample :
  snd C4_node
    <> [5 - (3 + (5 - 2) / 5 + Z.min 0 ((400 - 100) / 300));
        5 - (3 + (5 - 2) / 5 + Z.min 0 ((400 - 100) / 300))].
Proof. vm_compute. congruence. Qed.

Section NullMove.
  Context {World : Type}.
  Context (search_NON_PV : Board -> Z -> Z -> Z -> Z -> World -> Z * World).
  Context (quiescence : NodeType.t -> Board -> Z -> Z -> Z -> Z -> World -> Z * World).
  Context (eval : Board -> Z).
  Context (g_mustStop : World -> bool).

(** The outcome of the null-move step as the amended claim words it. *)
Definition nullMoveOutcome (b : Board) (alpha beta depth ply staticEval : Z) (w : World)
  : option Z * World :=
  let R := 3 + (depth - 2) / 5 + Z.max 0 ((staticEval - beta) / 300) in
  let '(r, w1) := search_NON_PV (makeNullMove b) (- beta) (- beta + 1) (depth - R) (ply + 1) w in
  let failHigh := Int.i16 (- r) in
  if g_mustStop w1 then (Some alpha, w1)
  else if failHigh >=? beta then
    let returned := if engine.isMateValue failHigh then beta else failHigh in
    if depth >=? 5 then
      let '(verification, w2) := search_NON_PV b (beta - 1) beta (depth - R) ply w1 in
      if verification >=? beta then (Some returned, w2) else (None, w2)
    else (Some returned, w1)
  else (None, w1).

Lemma nullMovePruning_outcome (b : Board) (alpha beta depth ply staticEval : Z) (w : World) :
  staticEval >= beta -> depth >= 2 -> hasNonPawns b (m_side b) = true ->
  - engine.INF <= beta <= engine.INF ->
  nullMovePruning search_NON_PV g_mustStop b alpha beta depth ply staticEval w
  = nullMoveOutcome b alpha beta depth ply staticEval w.
Proof.
  intros He Hd Hnp Hb.
  unfold nullMovePruning, nullMoveOutcome.
  destruct (Z.geb_spec staticEval beta) as [_ | Hlt]; [| lia].
  unfold SearchConst.MIN_NULLMOVE_DEPTH, SearchConst.MIN_NULLMOVE_VERIFICATION_DEPTH.
  destruct (Z.geb_spec depth 2) as [_ | Hlt]; [| lia].
  rewrite Hnp. cbn [andb].
  rewrite unmakeNullMove_makeNullMove.
  assert (HR : nullMoveReduction depth staticEval beta
               = 3 + (depth - 2) / 5 + Z.max 0 ((staticEval - beta) / 300)).
  { unfold nullMoveReduction, SearchConst.NULLMOVE_DEPTH_REDUCTION_BASE,
      SearchConst.MIN_NULLMOVE_DEPTH, SearchConst.NULLMOVE_HIGH_DEPTH_DENOMINATOR,
      SearchConst.NULLMOVE_BETA_DIFFERENCE_DENOMINATOR, Int.cdiv.
    rewrite !Z.quot_div_nonneg by lia.
    assert (0 <= (depth - 2) / 5) by (apply Z.div_pos; lia).
    assert (0 <= (staticEval - beta) / 300) by (apply Z.div_pos; lia).
    destruct (Z.ltb_spec (3 + (depth - 2) / 5 + Z.max ((staticEval - beta) / 300) 0) 0); lia. }
  rewrite HR.
  unfold engine.INF in Hb.
  rewrite !i16_small by lia.
  reflexivity.
Qed.

(** The prunings of a non-PV node that is not in check and that futility
    pruning does not leave come down to the null-move step. *)
Lemma prunings_null_move (b : Board) (alpha beta depth ply : Z) (w : World) :
  isInCheck b = false ->
  eval b >= beta -> depth >= 2 -> hasNonPawns b (m_side b) = true ->
  - engine.INF <= beta <= engine.INF ->
  (depth <= 4 ->
     alpha - rd SearchConst.FUTILITY_MARGIN depth < eval b
     /\ eval b < beta + rd SearchConst.FUTILITY_MARGIN depth) ->
  prunings search_NON_PV quiescence eval g_mustStop NodeType.NON_PV b alpha beta depth ply w
  = nullMoveOutcome b alpha beta depth ply (eval b) w.
Proof.
  intros Hchk He Hd Hnp Hb Hfut.
  pose proof (nullMovePruning_outcome b alpha beta depth ply (eval b) w He Hd Hnp Hb) as Hnull.
  unfold prunings. rewrite Hchk. cbn [NodeType.toZ Z.eqb negb andb]. cbv zeta.
  destruct (Z.leb_spec depth 4) as [Hle | Hgt]; [| exact Hnull].
  destruct (Hfut Hle) as [H1 H2].
  destruct (Z.leb_spec (eval b) (alpha - rd SearchConst.FUTILITY_MARGIN depth)); [lia |].
  destruct (Z.geb_spec (eval b) (beta + rd SearchConst.FUTILITY_MARGIN depth)); [lia |].
  exact Hnull.
Qed.

  Context (zk : ZobristKeys).
  Context (set_g_mustStop : World -> World).
  Context (g_nodesCount : World -> Z).
  Context (g_limits : World -> Limits).
  Context (timeNow : World -> Z).
  Context (checkInput : World -> World).
  Context (clear_PV : Z -> World -> World).
  Context (s_table : World -> TT.Table).

(** C4 (amended): [search] at a non-PV node of depth at least 2 and ply
    from 0 to [MAX_DEPTH] that gets as far as the prunings: the search is
    not stopped and the poll of the limits ([w0] is the state after it)
    does not stop it, the position is no draw, the bounds after
    mate-distance pruning, [alpha' = max(alpha, -MATE + ply)] and
    [beta' = min(beta, MATE - ply)], leave a window, the transposition
    table gives no cut-off, the side to move is not in check and futility
    pruning does not leave the node.  When the static evaluation is at
    least [beta'] and the side to move has a piece besides pawns and
    king, a null move is searched in the window [(-beta', -beta' + 1)] at
    depth [depth - R] and ply [ply + 1] with
    [R = 3 + (depth-2)/5 + max(0, (staticEval-beta')/300)].  If the
    search was stopped meanwhile [alpha'] is returned; otherwise a result
    of at least [beta'] (replaced by [beta'] when it is a mate score) is
    returned at once below depth 5, and from depth 5 on only when the
    verification search of the position itself, window
    [(beta' - 1, beta')], same reduced depth, same ply, also reaches
    [beta']; in every other case the search goes on to the moves. *)
Theorem C4_null_move_pruning (b : Board) (alpha beta depth ply : Z) (w w0 : World) :
  let alpha' := Z.max alpha (- engine.MATE + ply) in
  let beta' := Z.min beta (engine.MATE - ply) in
  depth >= 2 -> 0 <= ply <= engine.MAX_DEPTH ->
  g_mustStop w = false ->
  pollLimits g_nodesCount g_limits timeNow checkInput w = Some w0 ->
  isDraw b ply = false ->
  alpha' < beta' ->
  probeCutoff zk s_table NodeType.NON_PV b alpha' beta' depth ply (clear_PV ply w0) = None ->
  isInCheck b = false ->
  (depth <= 4 ->
     alpha' - rd SearchConst.FUTILITY_MARGIN depth < eval b
     /\ eval b < beta' + rd SearchConst.FUTILITY_MARGIN depth) ->
  eval b >= beta' -> hasNonPawns b (m_side b) = true ->
  searchHead zk search_NON_PV quiescence eval g_mustStop set_g_mustStop g_nodesCount
    g_limits timeNow checkInput clear_PV s_table NodeType.NON_PV b alpha beta depth ply w
  = nullMoveOutcome b alpha' beta' depth ply (eval b) (clear_PV ply w0).
Proof.
  intros alpha' beta' Hd Hply Hstop Hpoll Hdraw Hwin Htab Hchk Hfut He Hnp.
  unfold engine.MAX_DEPTH in Hply.
  unfold searchHead.
  destruct (Z.leb_spec depth 0) as [Hle | _]; [lia |].
  rewrite Hstop, Hpoll, Hdraw.
  destruct (Z.gtb_spec ply engine.MAX_DEPTH) as [Hgt | _];
    [unfold engine.MAX_DEPTH in Hgt; lia |].
  unfold mateDistanceBounds.
  assert (E1 : Int.i16 (- engine.MATE + ply) = - engine.MATE + ply)
    by (apply i16_small; unfold engine.MATE; lia).
  assert (E2 : Int.i16 (engine.MATE - ply) = engine.MATE - ply)
    by (apply i16_small; unfold engine.MATE; lia).
  rewrite E1, E2. fold alpha' beta'.
  cbn [NodeType.toZ Z.eqb negb andb].
  destruct (Z.geb_spec alpha' beta') as [Hge | _]; [lia |].
  rewrite Htab.
  apply prunings_null_move; try assumption.
  subst alpha' beta'. unfold engine.INF, engine.MATE in *. lia.
Qed.
End NullMove.

Lemma C4_witness :
  C4_node
  = nullMoveOutcome loggingSearch (fun _ => false) C4_board
      (Z.max 0 (- engine.MATE + 1)) (Z.min 100 (engine.MATE - 1)) 5 1 400 [].
Proof.
  unfold C4_node.
  apply (C4_null_move_pruning loggingSearch (fun _ _ _ _ _ _ w => (0, w)) (fun _ => 400)
           (fun _ => false)
           (mkZobristKeys (fun _ _ => 0) (fun _ => 0) (fun _ => 0) (fun _ => 0))
           (fun w => w) (fun _ => 1) (fun _ => LimitsOps.initial) (fun _ => 0) (fun w => w)
           (fun _ w => w) (fun _ => TT.mkTable [TT.zeroCluster] 1 0)
           C4_board 0 100 5 1 [] []).
  - vm_compute. discriminate.
  - vm_compute. split; discriminate.
  - reflexivity.
  - vm_compute. reflexivity.
  - vm_compute. reflexivity.
  - vm_compute. reflexivity.
  - vm_compute. reflexivity.
  - vm_compute. reflexivity.
  - intros H. exfalso. vm_compute in H. apply H. reflexivity.
  - vm_compute. discriminate.
  - vm_compute. reflexivity.
Defined.

(* ===================================================================== *)
(** ** Static exchange evaluation *)
(* ===================================================================== *)

(** The body of the engine's own SEE test: load the position, read the
    move from its text, evaluate the exchange. *)
Definition seeOfText (zk : ZobristKeys) (fen mv : string) : Z :=
  let b := fst (fromFEN zk fen false) in
  SEE b (makeMoveFromString b mv).

Lemma SEE_castle (b : Board) (m : Z) :
  Move.getMoveType m = MoveType.CASTLE -> SEE b m = 0.
Proof.
  intros H. unfold SEE. rewrite H. reflexivity.
Qed.

(** C2: the simplified piece values are the midpoints of the middlegame
    and endgame piece values (P=115, N=340, B=370, R=600, Q=1100, for both
    colours); SEE is 0 for every castling move; and the ten positions of
    the list evaluate to the stated values. *)
Theorem C2_SEE_values :
  (forall piece : Z, 0 <= piece < Piece.VALUES_COUNT ->
     scores.SIMPLIFIED_PIECE_VALUES piece
     = (middlegame (rd scores.PIECE_VALUE (Piece.getType piece))
        + endgame (rd scores.PIECE_VALUE (Piece.getType piece))) / 2)
  /\ map scores.SIMPLIFIED_PIECE_VALUES
       [Piece.PAWN_WHITE; Piece.KNIGHT_WHITE; Piece.BISHOP_WHITE; Piece.ROOK_WHITE;
        Piece.QUEEN_WHITE; Piece.PAWN_BLACK; Piece.KNIGHT_BLACK; Piece.BISHOP_BLACK;
        Piece.ROOK_BLACK; Piece.QUEEN_BLACK]
     = [115; 340; 370; 600; 1100; 115; 340; 370; 600; 1100]
  /\ (forall (b : Board) (m : Z), Move.getMoveType m = MoveType.CASTLE -> SEE b m = 0)
  /\ forall zk : ZobristKeys,
       seeOfText zk "8/8/5R2/8/8/1kb5/8/2K5 b - - 0 1" "c3f6" = 600
       /\ seeOfText zk "8/2k5/3b4/4n3/6N1/8/5K2/8 w - - 0 1" "g4e5" = 0
       /\ seeOfText zk "k7/3q4/8/8/3Q4/4K3/8/8 b - - 0 1" "d7d4" = 0
       /\ seeOfText zk "k7/3q4/4n3/8/3Q4/4K3/8/8 b - - 0 1" "d7d4" = 1100
       /\ seeOfText zk "1k6/5n2/8/4p3/3P4/8/1B6/2K5 w - - 0 1" "d4e5" = 115
       /\ seeOfText zk "2r3k1/2r5/2r5/8/8/2R5/2R5/2R3K1 w - - 0 1" "c3c6" = 600
       /\ seeOfText zk "6k1/7p/8/8/8/8/2Q5/6K1 w - - 0 1" "c2h7" = 115 - 1100
       /\ seeOfText zk "8/3P4/8/8/8/k7/8/1K6 w - - 0 1" "d7d8r" = 600 - 115
       /\ seeOfText zk "2n5/3P4/8/8/8/k7/8/1K6 w - - 0 1" "d7c8n" = 2 * 340 - 115
       /\ seeOfText zk "rnbqkbnr/pp1ppppp/8/8/2pPP3/5P2/PPP3PP/RNBQKBNR b KQkq d3 0 1" "c4d3" = 0.
Proof.
  split; [| split; [| split]].
  - intros piece Hp.
    assert (Hall : forallb (fun p =>
              scores.SIMPLIFIED_PIECE_VALUES p
              =? (middlegame (rd scores.PIECE_VALUE (Piece.getType p))
                  + endgame (rd scores.PIECE_VALUE (Piece.getType p))) / 2)
              (map Z.of_nat (seq 0 14)) = true) by (vm_compute; reflexivity).
    rewrite forallb_forall in Hall. apply Z.eqb_eq, Hall, in_map_iff.
    exists (Z.to_nat piece). unfold Piece.VALUES_COUNT in Hp.
    split; [lia | apply in_seq; lia].
  - vm_compute. reflexivity.
  - exact SEE_castle.
  - intros zk. repeat split; vm_compute; reflexivity.
Qed.

Lemma C2_witness :
  SEE C4_board (Move.make Square.E1 Square.C1 MoveType.CASTLE PieceType.KNIGHT) = 0.
Proof.
  apply (proj1 (proj2 (proj2 C2_SEE_values))). vm_compute. reflexivity.
Defined.

(* ===================================================================== *)
(** ** fromFEN *)
(* ===================================================================== *)

(** White king on e1, black rook on e2 giving check, black king on e8;
    the text stops after the en-passant field. *)
Definition C3_fen : string := "4k3/8/8/8/8/8/4r3/4K3 w - -".

(** C3 (the code departs from the claim): on a well-formed FEN that stops
    after the en-passant field, [fromFEN] returns before it assigns
    [success] and before [initInternalState].  With a caller whose flag
    held [true] the call reads as a success, yet [checkGivers] is empty
    although the rook on e2 attacks the king on e1; with a flag that held
    [false] the same well-formed text reads as a failure.  The complete
    text of the same position does set the flag and finds the check. *)
Theorem C3_truncated_FEN_skips_internal_state (zk : ZobristKeys) :
  snd (fromFEN zk C3_fen true) = true
  /\ checkGivers (state (fst (fromFEN zk C3_fen true))) = BitBoard.EMPTY
  /\ isInCheck (fst (fromFEN zk C3_fen true)) = false
  /\ computeAttackersOf (fst (fromFEN zk C3_fen true)) Color.BLACK
       (king (fst (fromFEN zk C3_fen true)) Color.WHITE) = BitBoard.fromSquare 12
  /\ snd (fromFEN zk C3_fen false) = false
  /\ snd (fromFEN zk (C3_fen ++ " 0 1") false) = true
  /\ checkGivers (state (fst (fromFEN zk (C3_fen ++ " 0 1") false))) = BitBoard.fromSquare 12.
Proof.
  repeat split; vm_compute; reflexivity.
Qed.

(* ===================================================================== *)
(** ** Draw rules *)
(* ===================================================================== *)

(** The first two reasons for a draw, in the words of the specification. *)
Definition insufficientMaterial (b : Board) : Prop :=
  byPieceType b PieceType.PAWN = BitBoard.EMPTY
  /\ materialByColor b Color.WHITE <= 4 /\ materialByColor b Color.BLACK <= 4.

Definition fiftyMoveRuleReached (b : Board) : Prop := 100 <= fiftyRule (state b).

(** The state in which the current position occurred last, by the
    distance [makeMove] has recorded. *)
Definition lastOccurrence (b : Board) : StateInfo :=
  rd (m_states b) (Z.of_nat (length (m_states b)) - lastRepetition (state b)).

(** What [repetitionDraw] reads: the scan of [makeMove] has recorded an
    earlier state for the current one, and one for that earlier state
    too. *)
Definition repetitionRecorded (b : Board) : Prop := lastRepetition (state b) <> 0.
Definition repetitionRecordedTwice (b : Board) : Prop :=
  lastRepetition (state b) <> 0 /\ lastRepetition (lastOccurrence b) <> 0.

(** [isDraw] by the counters it reads.  Whether a recorded repetition
    is a repetition of the position, and whether every repetition is
    recorded, is the matter of the scan, below. *)
Lemma isDraw_by_counters (b : Board) (ply : Z) :
  0 <= ply ->
  isDraw b ply = true <->
    insufficientMaterial b \/ fiftyMoveRuleReached b
    \/ (if ply >? 0 then repetitionRecorded b else repetitionRecordedTwice b).
Proof.
  intros Hply.
  unfold isDraw, lowMaterialDraw, fiftyRuleDraw, repetitionDraw,
    insufficientMaterial, fiftyMoveRuleReached, repetitionRecorded, repetitionRecordedTwice,
    lastOccurrence.
  rewrite !orb_true_iff.
  assert (H1 : (if negb (byPieceType b PieceType.PAWN =? BitBoard.EMPTY) then false
                else if (materialByColor b Color.WHITE <? 5) && (materialByColor b Color.BLACK <? 5)
                     then true else false) = true
               <-> byPieceType b PieceType.PAWN = BitBoard.EMPTY
                   /\ materialByColor b Color.WHITE <= 4 /\ materialByColor b Color.BLACK <= 4).
  { destruct (Z.eqb_spec (byPieceType b PieceType.PAWN) BitBoard.EMPTY) as [-> | Hne]; cbn [negb].
    - destruct (Z.ltb_spec (materialByColor b Color.WHITE) 5);
        destruct (Z.ltb_spec (materialByColor b Color.BLACK) 5); cbn [andb];
        split; intros; try discriminate; try lia; intuition lia.
    - split; [discriminate | intros [Hc _]; contradiction]. }
  assert (H2 : (fiftyRule (state b) >=? 100) = true <-> 100 <= fiftyRule (state b))
    by (destruct (Z.geb_spec (fiftyRule (state b)) 100); split; intros; try discriminate; lia).
  rewrite H1, H2.
  assert (H3 : (if negb (lastRepetition (state b) =? 0)
                then if negb (ply =? 0) then true
                     else negb (lastRepetition
                                  (rd (m_states b)
                                     (Z.of_nat (length (m_states b)) - lastRepetition (state b)))
                                =? 0)
                else false) = true
               <-> (if ply >? 0 then lastRepetition (state b) <> 0
                    else lastRepetition (state b) <> 0
                         /\ lastRepetition
                              (rd (m_states b)
                                 (Z.of_nat (length (m_states b)) - lastRepetition (state b))) <> 0)).
  { destruct (Z.eqb_spec (lastRepetition (state b)) 0) as [He | Hne]; cbn [negb].
    - destruct (ply >? 0); split; try discriminate; intuition congruence.
    - destruct (Z.gtb_spec ply 0) as [Hgt | Hle].
      + destruct (Z.eqb_spec ply 0); [lia |]. cbn [negb]. intuition.
      + destruct (Z.eqb_spec ply 0); [| lia]. cbn [negb].
        destruct (Z.eqb_spec (lastRepetition
          (rd (m_states b) (Z.of_nat (length (m_states b)) - lastRepetition (state b)))) 0);
          cbn [negb]; split; intros; try discriminate; intuition congruence. }
  rewrite H3. tauto.
Qed.

(** What a recorded repetition means: the scan of [makeMove] stops only
    on an earlier state with the hash of the new one, an even number of
    plies back and within the window, and records the distance to it. *)
Lemma repetitionScan_sound (fuel : nat) (states : list StateInfo) (current to i j : Z) :
  repetitionScan fuel states current to i = Some j ->
  to <= j <= i /\ hash (rd states j) = current /\ exists k : Z, 0 <= k /\ i - j = 2 * k.
Proof.
  revert i. induction fuel as [| fuel IH]; intros i; cbn; [discriminate |].
  destruct (Z.geb_spec i to) as [Hge | Hlt]; [| discriminate].
  destruct (Z.eqb_spec (hash (rd states i)) current) as [He | Hne].
  - intros [= <-]. split; [lia | split; [exact He | exists 0; lia]].
  - intros H. destruct (IH _ H) as (Hr & Hh & k & Hk & Hd).
    split; [lia | split; [exact Hh | exists (k + 1); lia]].
Qed.

Lemma state_set_state (b : Board) (st : StateInfo) : state (set_state b st) = st.
Proof. unfold state, set_state. cbn. apply last_last. Qed.

Lemma updateRepetition_records_equal_hash (b : Board) :
  lastRepetition (state b) = 0 ->
  lastRepetition (state (updateRepetition b)) <> 0 ->
  exists j : Z,
    lastRepetition (state (updateRepetition b)) = Z.of_nat (length (m_states b)) - j
    /\ j <= Z.of_nat (length (m_states b)) - 5
    /\ hash (rd (m_states b) j) = hash (state b).
Proof.
  intros H0. unfold updateRepetition.
  destruct (_ >=? 4); [| intros H; contradiction].
  destruct (repetitionScan _ _ _ _ _) as [j |] eqn:Hs; [| intros H; contradiction].
  intros _. apply repetitionScan_sound in Hs. destruct Hs as (Hr & Hh & _).
  exists j. rewrite state_set_state. cbn. split; [reflexivity | split; [lia | exact Hh]].
Qed.

(** The window of the scan: a repetition is recorded only for a state
    between four and [ply - 1] plies back, [ply] being the smaller of
    the fifty-rule counter and the moves since the last null move.  The
    state [ply] plies back, the first of the reversible sequence, is
    never compared. *)
Lemma updateRepetition_window (b : Board) :
  lastRepetition (state b) = 0 ->
  lastRepetition (state (updateRepetition b)) <> 0 ->
  5 <= lastRepetition (state (updateRepetition b))
    <= Z.min (fiftyRule (state b)) (Int.i32 (movesFromNull (state b))).
Proof.
  intros H0. unfold updateRepetition.
  destruct (_ >=? 4); [| intros H; contradiction].
  destruct (repetitionScan _ _ _ _ _) as [j |] eqn:Hs; [| intros H; contradiction].
  intros _. apply repetitionScan_sound in Hs. destruct Hs as (Hr & _ & _).
  rewrite state_set_state. cbn. lia.
Qed.

(** After exactly four reversible plies the scan compares nothing. *)
Lemma updateRepetition_after_four_plies (b : Board) :
  Z.min (fiftyRule (state b)) (Int.i32 (movesFromNull (state b))) = 4 ->
  updateRepetition b = b.
Proof.
  intros H. unfold updateRepetition. rewrite H. cbn [Z.geb Z.compare Pos.compare Pos.compare_cont].
  destruct (length (m_states b)) as [| n] eqn:E; [reflexivity |].
  cbn [repetitionScan].
  destruct (Z.geb_spec (Z.of_nat (S n) - 5) (Z.of_nat (S n) - 4)) as [Hge | _]; [lia |].
  reflexivity.
Qed.

(** The position as the rules compare it: placement, side to move,
    castling rights and en-passant square. *)
Definition samePosition (a b : Board) : Prop :=
  m_board a = m_board b /\ m_side a = m_side b
  /\ castleRight (state a) = castleRight (state b) /\ ep (state a) = ep (state b).

(** A game given by the texts of its moves, as the driver plays it. *)
Definition playText (zk : ZobristKeys) (b : Board) (mv : string) : Board :=
  makeMove zk (makeMoveFromString b mv) b.

Definition playTexts (zk : ZobristKeys) (mvs : list string) (b : Board) : Board :=
  fold_left (playText zk) mvs b.

Definition startPosition (zk : ZobristKeys) : Board :=
  fst (fromFEN zk "rnbqkbnr/pppppppp/8/8/8/8/PPPPPPPP/RNBQKBNR w KQkq - 0 1" false).

(** Both king's knights go out and come back. *)
Definition knightsOutAndBack : list string :=
  ["g1f3"%string; "g8f6"%string; "f3g1"%string; "f6g8"%string].

Definition C6_keys : ZobristKeys :=
  mkZobristKeys (fun p sq => 7919 * (p * 64 + sq) + 104729) (fun c => 1000003 + Color.toZ c)
    (fun f => 2000003 + f) (fun c => 3000017 + c).

(** C6 (the code departs from the claim): the scan for repetitions
    stops one state short of its window, so the repetition of the first
    position of a reversible sequence is not seen.  After the knights
    have gone out and come back the start position stands on the board
    again, with the same side to move, rights and hash, yet no
    repetition is recorded and [isDraw] is false at every ply, in the
    search too.  After the same four moves once more the position stands
    for the third time: the scan finds its second occurrence only, and
    [isDraw(0)] is still false; it becomes true after the fourth
    occurrence. *)
Theorem C6_first_repetition_is_missed :
  (forall b : Board,
     Z.min (fiftyRule (state b)) (Int.i32 (movesFromNull (state b))) = 4 ->
     updateRepetition b = b)
  /\ (forall zk : ZobristKeys,
        let b0 := startPosition zk in
        let b4 := playTexts zk knightsOutAndBack b0 in
        samePosition b4 b0
        /\ m_pieces b4 = m_pieces b0
        /\ fiftyRule (state b4) = 4 /\ movesFromNull (state b4) = 4
        /\ lastRepetition (state b4) = 0
        /\ forall ply : Z, isDraw b4 ply = false)
  /\ (let b0 := startPosition C6_keys in
      let b4 := playTexts C6_keys knightsOutAndBack b0 in
      let b8 := playTexts C6_keys knightsOutAndBack b4 in
      let b12 := playTexts C6_keys knightsOutAndBack b8 in
      hash (state b4) = hash (state b0) /\ hash (state b8) = hash (state b0)
      /\ samePosition b8 b0
      /\ lastRepetition (state b8) = 5
      /\ isDraw b8 1 = true /\ isDraw b8 0 = false
      /\ isDraw b12 0 = true).
Proof.
  split; [exact updateRepetition_after_four_plies |].
  split.
  - intros zk. cbv zeta. unfold samePosition.
    repeat split; vm_compute; reflexivity.
  - cbv zeta. unfold samePosition. repeat split; vm_compute; reflexivity.
Qed.

(* ===================================================================== *)
(** ** Board: the consistency of a position and pseudo-legal moves *)
(* ===================================================================== *)

Definition isPieceCode (p : Z) : bool := (2 <=? p) && (p <? 14).

Definition pieceCodes : list Z := map Z.of_nat (seq 2 12).

(** Invariant 3 on one square: the square-to-piece array and the
    bitboards by piece and by colour say the same. *)
Definition squareConsistent (b : Board) (sq : Z) : bool :=
  let p := rd (m_board b) sq in
  ((p =? Piece.NONE) || isPieceCode p)
  && forallb (fun q => Bool.eqb (Z.testbit (byPiece b q) sq) (p =? q)) pieceCodes
  && forallb (fun c => Bool.eqb (Z.testbit (byColor b c) sq)
                         (isPieceCode p && Color.eqb (Piece.getColor p) c)) Color.iter.

Definition inU64 (z : Z) : bool := (0 <=? z) && (z <? 2 ^ 64).
Definition inU32 (z : Z) : bool := (0 <=? z) && (z <? 2 ^ 32).
Definition inI32 (z : Z) : bool := (- 2 ^ 31 <=? z) && (z <? 2 ^ 31).
Definition inI16 (z : Z) : bool := (- 2 ^ 15 <=? z) && (z <? 2 ^ 15).

(** Every member holds a value of its C++ type. *)
Definition wellTyped (b : Board) : bool :=
  (length (m_board b) =? 64)%nat
  && (length (m_pieces b) =? 14)%nat
  && (length (m_piecesByColor b) =? 2)%nat
  && (length (m_material b) =? 2)%nat
  && (length (m_score b) =? 2)%nat
  && forallb inU64 (m_pieces b)
  && forallb inU64 (m_piecesByColor b)
  && forallb inI32 (m_material b)
  && forallb (fun s => inI16 (middlegame s) && inI16 (endgame s)) (m_score b)
  && inU32 (m_moveCount b).

Definition boardInvariant (b : Board) : bool :=
  wellTyped b && forallb (squareConsistent b) Square.iter.

(** What the generator guarantees of a move, as far as making and
    unmaking it is concerned: a piece of the side to move leaves [from]
    for another square that holds no piece of its own; a promotion is made
    by a pawn, straight onto an empty square or diagonally onto an enemy
    piece; an en-passant capture is made by a pawn onto an empty square
    with the enemy pawn on the board behind it; a castling moves the king from its
    home square to the g- or c-file with the rook on its corner and the
    squares they land on empty. *)
Definition pseudoLegal (b : Board) (m : Z) : bool :=
  let from := Move.getFrom m in
  let to := Move.getTo m in
  let mt := Move.getMoveType m in
  let side := m_side b in
  let opp := Color.getOpposite side in
  let piece := rd (m_board b) from in
  let target := rd (m_board b) to in
  let enemy (p : Z) := isPieceCode p && Color.eqb (Piece.getColor p) opp in
  negb (from =? to)
  && isPieceCode piece && Color.eqb (Piece.getColor piece) side
  && (if mt =? MoveType.SIMPLE then (target =? Piece.NONE) || enemy target
      else if mt =? MoveType.PROMOTION then
        (piece =? Piece.make side PieceType.PAWN)
        && (if to - from =? (match side with Color.WHITE => 8 | Color.BLACK => -8 end)
            then target =? Piece.NONE else enemy target)
      else if mt =? MoveType.ENPASSANT then
        (piece =? Piece.make side PieceType.PAWN)
        && (target =? Piece.NONE)
        && (enpassantCapturedSq side to <? 64)
        && (rd (m_board b) (enpassantCapturedSq side to) =? Piece.make opp PieceType.PAWN)
      else
        (piece =? Piece.make side PieceType.KING)
        && (from =? Square.makeRelativeSquare side Square.E1)
        && ((to =? Square.makeRelativeSquare side Square.G1)
            || (to =? Square.makeRelativeSquare side Square.C1))
        && (target =? Piece.NONE)
        && (rd (m_board b) (fst (castlingRookSquares side true (Square.getFile to =? File.G)))
            =? Piece.make side PieceType.ROOK)
        && (rd (m_board b) (snd (castlingRookSquares side true (Square.getFile to =? File.G)))
            =? Piece.NONE)).

(** *** Arrays *)

Lemma wr_wr_same {A} (l : list A) (i : Z) (x y : A) : wr (wr l i x) i y = wr l i y.
Proof. unfold wr. apply list_insert_insert_eq. Qed.

Lemma wr_comm {A} (l : list A) (i j : Z) (x y : A) :
  0 <= i -> 0 <= j -> i <> j -> wr (wr l i x) j y = wr (wr l j y) i x.
Proof. intros Hi Hj Hne. unfold wr. apply list_insert_insert_ne. lia. Qed.

Lemma wr_rd_id {A} `{Inhabited A} (l : list A) (i : Z) (x : A) :
  0 <= i < Z.of_nat (length l) -> rd l i = x -> wr l i x = l.
Proof.
  intros Hi <-. unfold wr, rd. apply list_insert_id.
  apply list_lookup_lookup_total_lt. lia.
Qed.

Lemma wr_wr_back {A} `{Inhabited A} (l : list A) (i : Z) (x : A) :
  0 <= i < Z.of_nat (length l) -> wr (wr l i x) i (rd l i) = l.
Proof. intros Hi. rewrite wr_wr_same. now apply wr_rd_id. Qed.

(** *** Bitboards *)

Lemma fromSquare_pow (sq : Z) : 0 <= sq < 64 -> BitBoard.fromSquare sq = 2 ^ sq.
Proof.
  intros H. unfold BitBoard.fromSquare, Int.u64.
  rewrite Z.shiftl_1_l, Z.land_ones by lia.
  apply Z.mod_small. split; [apply Z.pow_nonneg; lia | apply Z.pow_lt_mono_r; lia].
Qed.

Lemma fromSquare_testbit (sq i : Z) :
  0 <= sq < 64 -> Z.testbit (BitBoard.fromSquare sq) i = (i =? sq).
Proof.
  intros H. rewrite fromSquare_pow by exact H.
  destruct (Z.eqb_spec i sq) as [-> | Hne].
  - apply Z.pow2_bits_true. lia.
  - apply Z.pow2_bits_false. lia.
Qed.

Lemma inU64_testbit_high (x i : Z) : inU64 x = true -> 64 <= i -> Z.testbit x i = false.
Proof.
  unfold inU64. rewrite andb_true_iff, Z.leb_le, Z.ltb_lt. intros [H0 H1] Hi.
  destruct (Z.eq_dec x 0) as [-> | Hx]; [apply Z.bits_0 |].
  apply Z.bits_above_log2; [lia |].
  assert (Z.log2 x < 64) by (apply Z.log2_lt_pow2; lia). lia.
Qed.

Lemma b_not_testbit (x i : Z) :
  Z.testbit (BitBoard.b_not x) i = (0 <=? i) && (i <? 64) && negb (Z.testbit x i).
Proof.
  unfold BitBoard.b_not. rewrite Z.ldiff_spec.
  destruct (Z.leb_spec 0 i) as [H0 | Hneg]; cbn [andb].
  - destruct (Z.ltb_spec i 64) as [Hlt | Hge]; cbn [andb].
    + now rewrite Z.ones_spec_low by lia.
    + now rewrite Z.ones_spec_high by lia.
  - now rewrite Z.testbit_neg_r by lia.
Qed.

Lemma set_clear (x sq : Z) :
  inU64 x = true -> 0 <= sq < 64 -> Z.testbit x sq = true ->
  BitBoard.set (BitBoard.clear x sq) sq = x.
Proof.
  intros Hx Hsq Hb. apply Z.bits_inj'. intros i Hi.
  unfold BitBoard.set, BitBoard.clear.
  rewrite Z.lor_spec, Z.land_spec, b_not_testbit, fromSquare_testbit by exact Hsq.
  destruct (Z.eqb_spec i sq) as [-> | Hne]; [now rewrite Hb, orb_true_r |].
  rewrite orb_false_r. cbn [negb]. rewrite andb_true_r.
  destruct (Z.leb_spec 0 i); [| lia]. cbn [andb].
  destruct (Z.ltb_spec i 64); [now rewrite andb_true_r |].
  rewrite (inU64_testbit_high x i Hx) by lia. reflexivity.
Qed.

Lemma clear_set (x sq : Z) :
  inU64 x = true -> 0 <= sq < 64 -> Z.testbit x sq = false ->
  BitBoard.clear (BitBoard.set x sq) sq = x.
Proof.
  intros Hx Hsq Hb. apply Z.bits_inj'. intros i Hi.
  unfold BitBoard.set, BitBoard.clear.
  rewrite Z.land_spec, Z.lor_spec, b_not_testbit, fromSquare_testbit by exact Hsq.
  destruct (Z.eqb_spec i sq) as [-> | Hne];
    [rewrite Hb; cbn [negb]; now rewrite !andb_false_r |].
  rewrite orb_false_r. cbn [negb]. rewrite andb_true_r.
  destruct (Z.leb_spec 0 i); [| lia]. cbn [andb].
  destruct (Z.ltb_spec i 64); [now rewrite andb_true_r |].
  rewrite (inU64_testbit_high x i Hx) by lia. reflexivity.
Qed.

Lemma lxor_lxor_same (x c : Z) : Z.lxor (Z.lxor x c) c = x.
Proof. now rewrite Z.lxor_assoc, Z.lxor_nilpotent, Z.lxor_0_r. Qed.

Lemma inU64_set (x sq : Z) : inU64 x = true -> 0 <= sq < 64 -> inU64 (BitBoard.set x sq) = true.
Proof.
  unfold inU64, BitBoard.set. rewrite !andb_true_iff, !Z.leb_le, !Z.ltb_lt.
  intros [H0 H1] Hsq. rewrite fromSquare_pow by exact Hsq.
  assert (Hp : 0 <= 2 ^ sq) by (apply Z.pow_nonneg; lia).
  split; [apply Z.lor_nonneg; lia |].
  destruct (Z.eq_dec (Z.lor x (2 ^ sq)) 0) as [-> | Hnz]; [reflexivity |].
  apply Z.log2_lt_pow2; [assert (0 <= Z.lor x (2 ^ sq)) by (apply Z.lor_nonneg; lia); lia |].
  rewrite Z.log2_lor by lia.
  assert (Z.log2 (2 ^ sq) = sq) by (apply Z.log2_pow2; lia).
  destruct (Z.eq_dec x 0) as [-> | Hx]; [cbn; lia |].
  assert (Z.log2 x < 64) by (apply Z.log2_lt_pow2; lia). lia.
Qed.

(** *** Wrapping arithmetic *)

Lemma i16_spec (z : Z) :
  exists k : Z, Int.i16 z = z + 65536 * k /\ -32768 <= Int.i16 z < 32768.
Proof.
  unfold Int.i16. exists (- ((z + 32768) / 65536)).
  pose proof (Z.div_mod (z + 32768) 65536 ltac:(lia)).
  pose proof (Z.mod_pos_bound (z + 32768) 65536 ltac:(lia)). lia.
Qed.

Lemma i32_spec (z : Z) :
  exists k : Z, Int.i32 z = z + 4294967296 * k /\ -2147483648 <= Int.i32 z < 2147483648.
Proof.
  unfold Int.i32. exists (- ((z + 2147483648) / 4294967296)).
  pose proof (Z.div_mod (z + 2147483648) 4294967296 ltac:(lia)).
  pose proof (Z.mod_pos_bound (z + 2147483648) 4294967296 ltac:(lia)). lia.
Qed.

Lemma u32_spec (z : Z) :
  exists k : Z, Int.u32 z = z + 4294967296 * k /\ 0 <= Int.u32 z < 4294967296.
Proof.
  unfold Int.u32. exists (- (z / 4294967296)).
  pose proof (Z.div_mod z 4294967296 ltac:(lia)).
  pose proof (Z.mod_pos_bound z 4294967296 ltac:(lia)). lia.
Qed.

(** Name the wrap-around of every [i16], [i32] and [u32] of the goal, then
    decide by linear arithmetic. *)
Ltac wrap_name z spec :=
  let k := fresh "k" in let Hk := fresh "Hk" in let Hr := fresh "Hr" in
  destruct spec as (k & Hk & Hr); generalize dependent z; intros.

Ltac wrap_lia :=
  repeat match goal with
  | |- context [Int.i16 ?z] => wrap_name (Int.i16 z) (i16_spec z)
  | _ : context [Int.i16 ?z] |- _ => wrap_name (Int.i16 z) (i16_spec z)
  | |- context [Int.i32 ?z] => wrap_name (Int.i32 z) (i32_spec z)
  | _ : context [Int.i32 ?z] |- _ => wrap_name (Int.i32 z) (i32_spec z)
  | |- context [Int.u32 ?z] => wrap_name (Int.u32 z) (u32_spec z)
  | _ : context [Int.u32 ?z] |- _ => wrap_name (Int.u32 z) (u32_spec z)
  end;
  lia.

Definition scoreInRange (s : Score) : Prop :=
  -32768 <= middlegame s < 32768 /\ -32768 <= endgame s < 32768.

Lemma score_sub_add (s d : Score) :
  scoreInRange s -> ScoreOps.sub (ScoreOps.add s d) d = s.
Proof.
  destruct s as [a e], d as [da de]. unfold scoreInRange, ScoreOps.sub, ScoreOps.add. cbn.
  intros [Ha He]. f_equal; wrap_lia.
Qed.

Lemma score_add_sub (s d : Score) :
  scoreInRange s -> ScoreOps.add (ScoreOps.sub s d) d = s.
Proof.
  destruct s as [a e], d as [da de]. unfold scoreInRange, ScoreOps.sub, ScoreOps.add. cbn.
  intros [Ha He]. f_equal; wrap_lia.
Qed.

(** The score change of a castling and of its undoing cancel. *)
Lemma score_castling (s kf kt rf rt : Score) :
  scoreInRange s ->
  ScoreOps.add
    (ScoreOps.add s (ScoreOps.sub (ScoreOps.add (ScoreOps.sub kt kf) rt) rf))
    (ScoreOps.sub (ScoreOps.add (ScoreOps.sub kf kt) rf) rt) = s.
Proof.
  destruct s as [a e], kf as [kf1 kf2], kt as [kt1 kt2], rf as [rf1 rf2], rt as [rt1 rt2].
  unfold scoreInRange, ScoreOps.sub, ScoreOps.add. cbn.
  intros [Ha He]. f_equal; wrap_lia.
Qed.

Lemma i32_sub_add (x v : Z) :
  -2147483648 <= x < 2147483648 -> Int.i32 (Int.i32 (x - v) + v) = x.
Proof. intros H. wrap_lia. Qed.

Lemma i32_add_sub (x v : Z) :
  -2147483648 <= x < 2147483648 -> Int.i32 (Int.i32 (x + v) - v) = x.
Proof. intros H. wrap_lia. Qed.

Lemma u32_inc_dec (x : Z) : 0 <= x < 4294967296 -> Int.u32 (Int.u32 (x + 1) - 1) = x.
Proof. intros H. wrap_lia. Qed.

(** *** Operations that only rewrite the top state, operations that only
        move pieces *)

(** Reduce the assignments to single cells and the record projections,
    innermost first. *)
Ltac board_simpl :=
  cbv [board_put pieces_xor pieces_set pieces_clear color_xor color_set
       color_clear score_add score_sub material_add material_sub
       set_m_board set_m_pieces set_m_piecesByColor set_m_states set_m_material
       set_m_score set_m_moveCount set_m_side
       m_board m_pieces m_piecesByColor m_states m_material m_score m_moveCount m_side
       fst snd].

Lemma sameButTop_eq (b b' : Board) :
  sameButTop b b' -> b' = set_m_states b (m_states b').
Proof.
  destruct b, b'. unfold sameButTop. board_simpl.
  intros (-> & -> & -> & _ & -> & -> & -> & ->). reflexivity.
Qed.

(** An operation on the pieces neither reads nor writes the state stack. *)
Definition PieceOnly (op : Board -> Board) : Prop :=
  forall (b : Board) (s : list StateInfo), op (set_m_states b s) = set_m_states (op b) s.

Ltac piece_only :=
  intros b s; destruct b;
  repeat (board_simpl;
          match goal with
          | |- context [if ?c then _ else _] => destruct c
          end);
  board_simpl; reflexivity.

Lemma PieceOnly_move (side : Color.t) (piece from to : Z) :
  PieceOnly (fun b => fst (movePieceWithCapture side piece from to b)).
Proof. cbv [PieceOnly movePieceWithCapture]. piece_only. Qed.

Lemma PieceOnly_promoteCapture (side : Color.t) (promoted from to : Z) :
  PieceOnly (fun b => fst (promotePawnWithCapture side promoted from to b)).
Proof. cbv [PieceOnly promotePawnWithCapture]. piece_only. Qed.

Lemma PieceOnly_promote (side : Color.t) (promoted from to : Z) :
  PieceOnly (promotePawn side true promoted from to).
Proof. cbv [PieceOnly promotePawn]. piece_only. Qed.

Lemma PieceOnly_enpassant (side : Color.t) (from to : Z) :
  PieceOnly (doEnpassant side true from to).
Proof. cbv [PieceOnly doEnpassant]. piece_only. Qed.

Lemma PieceOnly_castling (side : Color.t) (from to : Z) :
  PieceOnly (doCastling side true from to).
Proof.
  cbv [PieceOnly doCastling]. intros b s.
  destruct (castlingRookSquares side true (Square.getFile to =? File.G)) as [rf rt].
  destruct b. board_simpl. reflexivity.
Qed.

Lemma movePieceWithCapture_captured (side : Color.t) (piece from to : Z) (b : Board) :
  snd (movePieceWithCapture side piece from to b) = rd (m_board b) to.
Proof. reflexivity. Qed.

Lemma promotePawnWithCapture_captured (side : Color.t) (promoted from to : Z) (b : Board) :
  snd (promotePawnWithCapture side promoted from to b) = rd (m_board b) to.
Proof. reflexivity. Qed.

Lemma PieceOnly_states (op : Board -> Board) (b : Board) :
  PieceOnly op -> m_states (op b) = m_states b.
Proof.
  intros H. specialize (H b (m_states b)).
  replace (set_m_states b (m_states b)) with b in H by (now destruct b).
  rewrite H. reflexivity.
Qed.

(** The field [captured] of the top state through the later updates. *)
Lemma state_upd_state (b : Board) (f : StateInfo -> StateInfo) :
  state (upd_state b f) = f (state b).
Proof. apply state_set_state. Qed.

Lemma captured_fold {A} (f : Board -> A -> Board) (l : list A) (b : Board) :
  (forall b x, captured (state (f b x)) = captured (state b)) ->
  captured (state (fold_left f l b)) = captured (state b).
Proof.
  intros Hf. revert b. induction l as [| x l IH]; intros b; cbn; [reflexivity |].
  rewrite IH. apply Hf.
Qed.

Lemma captured_updateInternalState_side (b : Board) (c : Color.t) :
  captured (state (updateInternalState_side b c)) = captured (state b).
Proof.
  unfold updateInternalState_side.
  rewrite captured_fold.
  - now rewrite state_set_state.
  - intros b' sq. destruct (_ && _); [| reflexivity].
    rewrite state_set_state. destruct (negb _); reflexivity.
Qed.

Lemma captured_updateInternalState (b : Board) :
  captured (state (updateInternalState b)) = captured (state b).
Proof.
  unfold updateInternalState.
  rewrite !captured_updateInternalState_side. now rewrite state_set_state.
Qed.

Lemma captured_updateRepetition (b : Board) :
  captured (state (updateRepetition b)) = captured (state b).
Proof.
  unfold updateRepetition. destruct (_ >=? 4); [| reflexivity].
  destruct (repetitionScan _ _ _ _ _); [| reflexivity].
  now rewrite state_set_state.
Qed.

Lemma captured_pushNextState (b : Board) : captured (state (pushNextState b)) = Piece.NONE.
Proof.
  unfold pushNextState. rewrite state_set_state. cbn.
  unfold state, emplace_back. cbn. now rewrite last_last.
Qed.

Lemma sameButTop_pushNextState (b : Board) :
  pushNextState b = set_m_states b (m_states (pushNextState b))
  /\ removelast (m_states (pushNextState b)) = m_states b.
Proof.
  split; [| apply pushNextState_states].
  unfold pushNextState, set_state, emplace_back. destruct b. reflexivity.
Qed.

(** *** The shape of [makeMove]: the pieces moved, one more state *)

(** The board [F] is the board [X] with one more state on the stack. *)
Definition pushed (base : list StateInfo) (X F : Board) : Prop :=
  F = set_m_states X (m_states F) /\ removelast (m_states F) = base.

Lemma pushed_push (b : Board) : pushed (m_states b) b (pushNextState b).
Proof. apply sameButTop_pushNextState. Qed.

Lemma pushed_sameButTop (base : list StateInfo) (X F F' : Board) :
  sameButTop F F' -> pushed base X F -> pushed base X F'.
Proof.
  intros Hs [HF Hr]. split.
  - rewrite (sameButTop_eq _ _ Hs) at 1. rewrite HF. now destruct X.
  - destruct Hs as (_ & _ & _ & -> & _). exact Hr.
Qed.

Lemma pushed_op (op : Board -> Board) (base : list StateInfo) (X F : Board) :
  PieceOnly op -> pushed base X F -> pushed base (op X) (op F).
Proof.
  intros Hop [HF Hr].
  assert (Hs : m_states (op F) = m_states F) by (apply PieceOnly_states, Hop).
  split.
  - rewrite Hs. rewrite HF at 1. apply Hop.
  - now rewrite Hs.
Qed.

Lemma PieceOnly_set_m_side (c : Color.t) : PieceOnly (fun b => set_m_side b c).
Proof. intros b s. now destruct b. Qed.

Lemma PieceOnly_incMoveCount :
  PieceOnly (fun b => set_m_moveCount b (Int.u32 (m_moveCount b + 1))).
Proof. intros b s. now destruct b. Qed.


Lemma let_pair {A B C} (p : A * B) (f : A -> B -> C) :
  (let '(x, y) := p in f x y) = f (fst p) (snd p).
Proof. now destruct p. Qed.

Ltac pushed_step :=
  lazymatch goal with
  | |- pushed _ _ (upd_state _ _) =>
      eapply pushed_sameButTop; [apply sameButTop_upd_state |]
  | |- pushed _ _ (updateInternalState _) =>
      eapply pushed_sameButTop; [apply sameButTop_updateInternalState |]
  | |- pushed _ _ (updateRepetition _) =>
      eapply pushed_sameButTop; [apply sameButTop_updateRepetition |]
  | |- pushed _ _ (set_m_side _ ?c) =>
      apply (pushed_op (fun b => set_m_side b c)); [apply PieceOnly_set_m_side |]
  | |- pushed _ _ (set_m_moveCount ?F (Int.u32 (m_moveCount ?F + 1))) =>
      apply (pushed_op (fun b => set_m_moveCount b (Int.u32 (m_moveCount b + 1))));
      [apply PieceOnly_incMoveCount |]
  | |- pushed _ _ (fst (movePieceWithCapture ?s ?p ?f ?t _)) =>
      apply (pushed_op (fun b => fst (movePieceWithCapture s p f t b)));
      [apply PieceOnly_move |]
  | |- pushed _ _ (fst (promotePawnWithCapture ?s ?p ?f ?t _)) =>
      apply (pushed_op (fun b => fst (promotePawnWithCapture s p f t b)));
      [apply PieceOnly_promoteCapture |]
  | |- pushed _ _ (promotePawn ?s true ?p ?f ?t _) =>
      apply (pushed_op (promotePawn s true p f t)); [apply PieceOnly_promote |]
  | |- pushed _ _ (doEnpassant ?s true ?f ?t _) =>
      apply (pushed_op (doEnpassant s true f t)); [apply PieceOnly_enpassant |]
  | |- pushed _ _ (doCastling ?s true ?f ?t _) =>
      apply (pushed_op (doCastling s true f t)); [apply PieceOnly_castling |]
  | |- pushed _ _ (pushNextState _) => apply pushed_push
  | |- pushed _ _ (if ?c then _ else _) => destruct c
  | |- pushed _ _ (let '(x, y) := ?p in _) => rewrite let_pair
  end.

(** The board before the pieces move: one more move counted, the other
    side to move. *)
Definition movedOn (Side : Color.t) (b : Board) : Board :=
  set_m_side (set_m_moveCount b (Int.u32 (m_moveCount b + 1))) (Color.getOpposite Side).

(** The placement part of [makeMove<Side>]. *)
Definition applyMove (Side : Color.t) (m : Z) (b : Board) : Board :=
  let from := Move.getFrom m in
  let to := Move.getTo m in
  let mt := Move.getMoveType m in
  let piece := rd (m_board b) from in
  let b0 := movedOn Side b in
  if mt =? MoveType.SIMPLE then fst (movePieceWithCapture Side piece from to b0)
  else if mt =? MoveType.PROMOTION then
    let promoted := Piece.make Side (Move.getPromotedPiece m) in
    if negb (to - from =? (match Side with Color.WHITE => 8 | Color.BLACK => -8 end))
    then fst (promotePawnWithCapture Side promoted from to b0)
    else promotePawn Side true promoted from to b0
  else if mt =? MoveType.ENPASSANT then doEnpassant Side true from to b0
  else if mt =? MoveType.CASTLE then doCastling Side true from to b0
  else b0.

(** The piece [makeMove<Side>] records as captured. *)
Definition capturedBy (Side : Color.t) (m : Z) (b : Board) : Z :=
  let from := Move.getFrom m in
  let to := Move.getTo m in
  let mt := Move.getMoveType m in
  if mt =? MoveType.SIMPLE then rd (m_board b) to
  else if (mt =? MoveType.PROMOTION)
          && negb (to - from =? (match Side with Color.WHITE => 8 | Color.BLACK => -8 end))
  then rd (m_board b) to
  else Piece.NONE.

Lemma m_board_pushNextState (b : Board) : m_board (pushNextState b) = m_board b.
Proof. reflexivity. Qed.

Section MakeMoveShape.
Context (zk : ZobristKeys).

Lemma makeMove_side_pushed (Side : Color.t) (m : Z) (b : Board) :
  pushed (m_states b) (applyMove Side m b) (makeMove_side zk Side m b).
Proof.
  unfold makeMove_side, applyMove, movedOn. rewrite m_board_pushNextState.
  destruct (Move.getMoveType m =? MoveType.SIMPLE);
    [| destruct (Move.getMoveType m =? MoveType.PROMOTION);
       [| destruct (Move.getMoveType m =? MoveType.ENPASSANT);
          [| destruct (Move.getMoveType m =? MoveType.CASTLE)]]].
  - repeat pushed_step.
  - destruct (negb _); repeat pushed_step.
  - repeat pushed_step.
  - repeat pushed_step.
  - repeat pushed_step.
Qed.
End MakeMoveShape.

(** *** Undoing each placement *)

(** The invariant, cell by cell. *)
Record PiecesOK (b : Board) : Prop := {
  ok_len_board : length (m_board b) = 64%nat;
  ok_len_pieces : length (m_pieces b) = 14%nat;
  ok_len_color : length (m_piecesByColor b) = 2%nat;
  ok_len_material : length (m_material b) = 2%nat;
  ok_len_score : length (m_score b) = 2%nat;
  ok_pieces : forall q, 0 <= q < 14 -> inU64 (rd (m_pieces b) q) = true;
  ok_color : forall c, inU64 (rdc (m_piecesByColor b) c) = true;
  ok_material : forall c, -2147483648 <= rdc (m_material b) c < 2147483648;
  ok_score : forall c, scoreInRange (rdc (m_score b) c);
  ok_code : forall sq, 0 <= sq < 64 ->
    rd (m_board b) sq = Piece.NONE \/ isPieceCode (rd (m_board b) sq) = true;
  ok_bit_piece : forall sq q, 0 <= sq < 64 -> isPieceCode q = true ->
    Z.testbit (rd (m_pieces b) q) sq = (rd (m_board b) sq =? q);
  ok_bit_color : forall sq c, 0 <= sq < 64 ->
    Z.testbit (rdc (m_piecesByColor b) c) sq
    = isPieceCode (rd (m_board b) sq) && Color.eqb (Piece.getColor (rd (m_board b) sq)) c }.

Lemma rd_ext {A} `{Inhabited A} (l1 l2 : list A) :
  length l1 = length l2 ->
  (forall i, 0 <= i < Z.of_nat (length l2) -> rd l1 i = rd l2 i) -> l1 = l2.
Proof.
  intros Hlen Hrd. apply list_eq_same_length with (n := length l2); auto.
  intros i x y Hi Hx Hy.
  specialize (Hrd (Z.of_nat i) ltac:(lia)). unfold rd in Hrd.
  rewrite Nat2Z.id in Hrd.
  rewrite (list_lookup_total_correct _ _ _ Hx), (list_lookup_total_correct _ _ _ Hy) in Hrd.
  exact Hrd.
Qed.

Lemma rd_wr_same {A} `{Inhabited A} (l : list A) (j k : Z) (v : A) :
  j = k -> 0 <= j < Z.of_nat (length l) -> rd (wr l j v) k = v.
Proof. intros <-. apply rd_wr_eq. Qed.

Ltac rd_norm :=
  repeat first [ rewrite rd_wr_same by (rewrite ?length_wr; lia)
               | rewrite rd_wr_ne by lia ].

(** Compare an index with every index written. *)
Ltac arr_cases i :=
  repeat match goal with
  | |- context [wr _ ?j _] =>
      lazymatch goal with
      | _ : i = j |- _ => fail
      | _ : i <> j |- _ => fail
      | _ => destruct (Z.eq_dec i j)
      end
  end.

Ltac arr_ext :=
  apply rd_ext; [rewrite ?length_wr; reflexivity |];
  let i := fresh "i" in let Hi := fresh "Hi" in
  intros i Hi; arr_cases i; try (exfalso; lia); rd_norm.

Lemma isPieceCode_range (p : Z) : isPieceCode p = true -> 2 <= p < 14.
Proof. unfold isPieceCode. rewrite andb_true_iff, Z.leb_le, Z.ltb_lt. tauto. Qed.

Lemma isPieceCode_NONE : isPieceCode Piece.NONE = false.
Proof. reflexivity. Qed.

Lemma testbit_piece_at (b : Board) (sq : Z) :
  PiecesOK b -> 0 <= sq < 64 -> isPieceCode (rd (m_board b) sq) = true ->
  Z.testbit (rd (m_pieces b) (rd (m_board b) sq)) sq = true.
Proof. intros OK Hsq Hp. rewrite (ok_bit_piece b OK) by assumption. apply Z.eqb_refl. Qed.

Lemma testbit_piece_other (b : Board) (sq q : Z) :
  PiecesOK b -> 0 <= sq < 64 -> isPieceCode q = true -> rd (m_board b) sq <> q ->
  Z.testbit (rd (m_pieces b) q) sq = false.
Proof.
  intros OK Hsq Hq Hne. rewrite (ok_bit_piece b OK) by assumption. now apply Z.eqb_neq.
Qed.

Lemma testbit_color_at (b : Board) (sq : Z) (c : Color.t) :
  PiecesOK b -> 0 <= sq < 64 -> isPieceCode (rd (m_board b) sq) = true ->
  Piece.getColor (rd (m_board b) sq) = c ->
  Z.testbit (rdc (m_piecesByColor b) c) sq = true.
Proof.
  intros OK Hsq Hp Hc. rewrite (ok_bit_color b OK) by assumption.
  rewrite Hp, Hc. now destruct c.
Qed.

(** The facts of [PiecesOK] about single cells, then the members one by
    one. *)
Ltac cells OK b :=
  pose proof (ok_len_board b OK); pose proof (ok_len_pieces b OK);
  pose proof (ok_len_color b OK); pose proof (ok_len_material b OK);
  pose proof (ok_len_score b OK);
  pose proof (ok_pieces b OK);
  pose proof (ok_color b OK Color.WHITE); pose proof (ok_color b OK Color.BLACK);
  pose proof (ok_material b OK Color.WHITE); pose proof (ok_material b OK Color.BLACK);
  pose proof (ok_score b OK Color.WHITE); pose proof (ok_score b OK Color.BLACK).

Ltac open_board b :=
  destruct b as [bd pc cl st mt sc n c];
  cbn [m_board m_pieces m_piecesByColor m_states m_material m_score m_moveCount m_side] in *.

Ltac by_color := cbv [wrc rdc Color.toZ Color.getOpposite] in *.

Ltac u64_cell :=
  first [ assumption
        | match goal with
          | H : forall q : Z, _ -> inU64 _ = true |- _ => apply H; lia
          end ].

Ltac arr_done :=
  arr_ext; subst;
  rewrite ?lxor_lxor_same, ?score_sub_add, ?score_add_sub, ?i32_sub_add, ?i32_add_sub
    by assumption;
  try reflexivity;
  try (apply set_clear; [u64_cell | lia | assumption]);
  try (apply clear_set; [u64_cell | lia | assumption]).

Lemma enemy_ne (p q : Z) (side : Color.t) :
  Piece.getColor p = side -> Piece.getColor q = Color.getOpposite side -> p <> q.
Proof. intros Hp Hq ->. rewrite Hp in Hq. destruct side; discriminate. Qed.

Lemma unmove_move (side : Color.t) (from to : Z) (b : Board) :
  PiecesOK b -> 0 <= from < 64 -> 0 <= to < 64 -> from <> to ->
  isPieceCode (rd (m_board b) from) = true ->
  Piece.getColor (rd (m_board b) from) = side ->
  (rd (m_board b) to = Piece.NONE
   \/ (isPieceCode (rd (m_board b) to) = true
       /\ Piece.getColor (rd (m_board b) to) = Color.getOpposite side)) ->
  unmovePieceWithCapture side (rd (m_board b) from) (rd (m_board b) to) from to
    (fst (movePieceWithCapture side (rd (m_board b) from) from to b)) = b.
Proof.
  intros OK Hf Ht Hne Hp Hc Hcap. cells OK b.
  pose proof (isPieceCode_range _ Hp) as Hpr.
  assert (Hcap' : rd (m_board b) to = Piece.NONE
    \/ (2 <= rd (m_board b) to < 14 /\ rd (m_board b) from <> rd (m_board b) to
        /\ Z.testbit (rd (m_pieces b) (rd (m_board b) to)) to = true
        /\ Z.testbit (rdc (m_piecesByColor b) (Color.getOpposite side)) to = true)).
  { destruct Hcap as [? | [Hq Hqc]]; [now left | right].
    split; [now apply isPieceCode_range |].
    split; [now apply (enemy_ne _ _ side) |].
    split; [now apply testbit_piece_at | now apply testbit_color_at]. }
  clear Hcap OK. open_board b.
  cbv [unmovePieceWithCapture movePieceWithCapture]. board_simpl.
  destruct (Z.eqb_spec (rd bd to) Piece.NONE) as [E | E]; cbn [negb]; board_simpl;
    (destruct Hcap' as [? | (? & ? & ? & ?)]; [try contradiction | try contradiction]);
    f_equal; try reflexivity; destruct side; by_color; arr_done.
Qed.

Lemma make_PAWN (side : Color.t) : Piece.make side PieceType.PAWN = 2 + Color.toZ side.
Proof. now destruct side. Qed.

Lemma getColor_make_PAWN (side : Color.t) :
  Piece.getColor (Piece.make side PieceType.PAWN) = side.
Proof. now destruct side. Qed.

Lemma unpromote_promoteCapture (side : Color.t) (promoted from to : Z) (b : Board) :
  PiecesOK b -> 0 <= from < 64 -> 0 <= to < 64 -> from <> to ->
  rd (m_board b) from = Piece.make side PieceType.PAWN ->
  isPieceCode promoted = true -> Piece.getColor promoted = side ->
  promoted <> Piece.make side PieceType.PAWN ->
  (rd (m_board b) to = Piece.NONE
   \/ (isPieceCode (rd (m_board b) to) = true
       /\ Piece.getColor (rd (m_board b) to) = Color.getOpposite side)) ->
  unpromotePawnWithCapture side promoted (rd (m_board b) to) from to
    (fst (promotePawnWithCapture side promoted from to b)) = b.
Proof.
  intros OK Hf Ht Hne Hp Hq Hqc Hqp Hcap. cells OK b.
  pose proof (isPieceCode_range _ Hq) as Hqr.
  assert (Hpb : Z.testbit (rd (m_pieces b) (Piece.make side PieceType.PAWN)) from = true).
  { rewrite <- Hp. apply testbit_piece_at; auto. rewrite Hp. now destruct side. }
  assert (Hqb : Z.testbit (rd (m_pieces b) promoted) to = false).
  { apply testbit_piece_other; auto.
    destruct Hcap as [-> | [_ Hc]]; [unfold Piece.NONE; lia |].
    intros Heq. symmetry in Heq. revert Heq. now apply (enemy_ne _ _ side). }
  assert (Hcap' : rd (m_board b) to = Piece.NONE
    \/ (2 <= rd (m_board b) to < 14 /\ promoted <> rd (m_board b) to
        /\ Piece.make side PieceType.PAWN <> rd (m_board b) to
        /\ Z.testbit (rd (m_pieces b) (rd (m_board b) to)) to = true
        /\ Z.testbit (rdc (m_piecesByColor b) (Color.getOpposite side)) to = true)).
  { destruct Hcap as [? | [Hc Hcc]]; [now left | right].
    split; [now apply isPieceCode_range |].
    split; [now apply (enemy_ne _ _ side) |].
    split; [apply (enemy_ne _ _ side); auto using getColor_make_PAWN |].
    split; [now apply testbit_piece_at | now apply testbit_color_at]. }
  clear Hcap OK. rewrite make_PAWN in *. open_board b.
  cbv [unpromotePawnWithCapture promotePawnWithCapture]. rewrite !make_PAWN. board_simpl.
  destruct (Z.eqb_spec (rd bd to) Piece.NONE) as [E | E]; cbn [negb]; board_simpl;
    (destruct Hcap' as [? | (? & ? & ? & ? & ?)]; [try contradiction | try contradiction]);
    f_equal; try reflexivity; destruct side; by_color; arr_done; congruence.
Qed.

Lemma unpromote_promote (side : Color.t) (promoted from to : Z) (b : Board) :
  PiecesOK b -> 0 <= from < 64 -> 0 <= to < 64 -> from <> to ->
  rd (m_board b) from = Piece.make side PieceType.PAWN ->
  isPieceCode promoted = true ->
  promoted <> Piece.make side PieceType.PAWN ->
  rd (m_board b) to = Piece.NONE ->
  promotePawn side false promoted from to (promotePawn side true promoted from to b) = b.
Proof.
  intros OK Hf Ht Hne Hp Hq Hqp Hcap. cells OK b.
  pose proof (isPieceCode_range _ Hq) as Hqr.
  assert (Hpb : Z.testbit (rd (m_pieces b) (Piece.make side PieceType.PAWN)) from = true).
  { rewrite <- Hp. apply testbit_piece_at; auto. rewrite Hp. now destruct side. }
  assert (Hqb : Z.testbit (rd (m_pieces b) promoted) to = false).
  { apply testbit_piece_other; auto. rewrite Hcap. unfold Piece.NONE. lia. }
  clear OK. rewrite make_PAWN in *. open_board b.
  cbv [promotePawn]. rewrite !make_PAWN. board_simpl.
  f_equal; try reflexivity; destruct side; by_color; arr_done; congruence.
Qed.

Lemma undo_enpassant (side : Color.t) (from to : Z) (b : Board) :
  PiecesOK b -> 0 <= from < 64 -> 0 <= to < 64 -> from <> to ->
  0 <= enpassantCapturedSq side to < 64 ->
  rd (m_board b) from = Piece.make side PieceType.PAWN ->
  rd (m_board b) to = Piece.NONE ->
  rd (m_board b) (enpassantCapturedSq side to)
    = Piece.make (Color.getOpposite side) PieceType.PAWN ->
  doEnpassant side false from to (doEnpassant side true from to b) = b.
Proof.
  intros OK Hf Ht Hne. cbv [doEnpassant]. rewrite !make_PAWN.
  generalize (enpassantCapturedSq side to) as cs.
  intros cs Hcs Hp Hto Hc. cells OK b.
  assert (Hcb : Z.testbit (rd (m_pieces b) (2 + Color.toZ (Color.getOpposite side))) cs = true).
  { rewrite <- Hc. apply testbit_piece_at; auto. rewrite Hc. now destruct side. }
  assert (Hcc : Z.testbit (rdc (m_piecesByColor b) (Color.getOpposite side)) cs = true).
  { apply testbit_color_at; auto; rewrite Hc; now destruct side. }
  assert (cs <> from).
  { intros ->. rewrite Hp in Hc. destruct side; discriminate. }
  assert (cs <> to).
  { intros ->. rewrite Hto in Hc. destruct side; discriminate. }
  clear OK. open_board b. board_simpl.
  f_equal; try reflexivity; destruct side; by_color; arr_done; congruence.
Qed.

(** Evaluate the closed squares and pieces of a castling. *)
Ltac eval_head t :=
  let v := eval vm_compute in t in change t with v in *.

Ltac castle_consts :=
  repeat match goal with
  | |- context [castlingRookSquares ?s ?d ?k] => eval_head (castlingRookSquares s d k)
  | H : context [castlingRookSquares ?s ?d ?k] |- _ => eval_head (castlingRookSquares s d k)
  | |- context [Piece.make ?s ?p] => eval_head (Piece.make s p)
  | H : context [Piece.make ?s ?p] |- _ => eval_head (Piece.make s p)
  | |- context [BitBoard.fromSquares ?l] => eval_head (BitBoard.fromSquares l)
  | |- context [Square.makeRelativeSquare ?s ?q] => eval_head (Square.makeRelativeSquare s q)
  | H : context [Square.makeRelativeSquare ?s ?q] |- _ =>
      eval_head (Square.makeRelativeSquare s q)
  end.

Lemma undo_castling (side : Color.t) (from to : Z) (b : Board) :
  PiecesOK b ->
  from = Square.makeRelativeSquare side Square.E1 ->
  (to = Square.makeRelativeSquare side Square.G1
   \/ to = Square.makeRelativeSquare side Square.C1) ->
  rd (m_board b) from = Piece.make side PieceType.KING ->
  rd (m_board b) to = Piece.NONE ->
  rd (m_board b) (fst (castlingRookSquares side true (Square.getFile to =? File.G)))
    = Piece.make side PieceType.ROOK ->
  rd (m_board b) (snd (castlingRookSquares side true (Square.getFile to =? File.G)))
    = Piece.NONE ->
  doCastling side false from to (doCastling side true from to b) = b.
Proof.
  intros OK -> Hto Hk He Hr Hre. cells OK b. clear OK.
  cbv [doCastling].
  destruct side, Hto as [-> | ->]; castle_consts; cbn [fst snd] in *;
    open_board b; board_simpl; castle_consts;
    f_equal; try reflexivity; by_color; arr_done; try congruence;
    apply score_castling; assumption.
Qed.

(** An operation on the pieces neither reads nor writes the move counter
    and the side to move. *)
Definition SideFree (op : Board -> Board) : Prop :=
  forall (b : Board) (n : Z) (c : Color.t),
    op (set_m_side (set_m_moveCount b n) c) = set_m_side (set_m_moveCount (op b) n) c.

Ltac side_free :=
  intros b n c; destruct b;
  repeat (board_simpl;
          match goal with
          | |- context [if ?c then _ else _] => destruct c
          end);
  board_simpl; reflexivity.

Lemma SideFree_move (side : Color.t) (piece from to : Z) :
  SideFree (fun b => fst (movePieceWithCapture side piece from to b)).
Proof. cbv [SideFree movePieceWithCapture]. side_free. Qed.

Lemma SideFree_promoteCapture (side : Color.t) (promoted from to : Z) :
  SideFree (fun b => fst (promotePawnWithCapture side promoted from to b)).
Proof. cbv [SideFree promotePawnWithCapture]. side_free. Qed.

Lemma SideFree_promote (side : Color.t) (d : bool) (promoted from to : Z) :
  SideFree (promotePawn side d promoted from to).
Proof. cbv [SideFree promotePawn]. side_free. Qed.

Lemma SideFree_enpassant (side : Color.t) (d : bool) (from to : Z) :
  SideFree (doEnpassant side d from to).
Proof. cbv [SideFree doEnpassant]. side_free. Qed.

Lemma SideFree_castling (side : Color.t) (d : bool) (from to : Z) :
  SideFree (doCastling side d from to).
Proof.
  cbv [SideFree doCastling]. intros b n c.
  destruct (castlingRookSquares side d (Square.getFile to =? File.G)) as [rf rt].
  destruct b, d; board_simpl; reflexivity.
Qed.

Lemma SideFree_unmove (side : Color.t) (piece cap from to : Z) :
  SideFree (unmovePieceWithCapture side piece cap from to).
Proof. cbv [SideFree unmovePieceWithCapture]. side_free. Qed.

Lemma SideFree_unpromote (side : Color.t) (promoted cap from to : Z) :
  SideFree (unpromotePawnWithCapture side promoted cap from to).
Proof. cbv [SideFree unpromotePawnWithCapture]. side_free. Qed.

Lemma SideFree_board (op : Board -> Board) (b : Board) (n : Z) (c : Color.t) :
  SideFree op -> m_board (op (set_m_side (set_m_moveCount b n) c)) = m_board (op b).
Proof. intros H. now rewrite H. Qed.

Lemma setters_absorb (b : Board) (n n' : Z) (c c' : Color.t) :
  set_m_side (set_m_moveCount (set_m_side (set_m_moveCount b n) c) n') c'
  = set_m_side (set_m_moveCount b n') c'.
Proof. reflexivity. Qed.

Lemma setters_id (b : Board) : set_m_side (set_m_moveCount b (m_moveCount b)) (m_side b) = b.
Proof. now destruct b. Qed.

Lemma applyMove_states (Side : Color.t) (m : Z) (b : Board) :
  m_states (applyMove Side m b) = m_states b.
Proof.
  unfold applyMove.
  repeat match goal with |- context [if ?c then _ else _] => destruct c end.
  - exact (PieceOnly_states (fun b => fst (movePieceWithCapture _ _ _ _ b)) _
             (PieceOnly_move _ _ _ _)).
  - exact (PieceOnly_states (fun b => fst (promotePawnWithCapture _ _ _ _ b)) _
             (PieceOnly_promoteCapture _ _ _ _)).
  - exact (PieceOnly_states _ _ (PieceOnly_promote _ _ _ _)).
  - exact (PieceOnly_states _ _ (PieceOnly_enpassant _ _ _)).
  - exact (PieceOnly_states _ _ (PieceOnly_castling _ _ _)).
  - reflexivity.
Qed.

Section CapturedPiece.
Context (zk : ZobristKeys).

Lemma pop_back_makeMove_side (Side : Color.t) (m : Z) (b : Board) :
  pop_back (makeMove_side zk Side m b) = applyMove Side m b.
Proof.
  destruct (makeMove_side_pushed zk Side m b) as [HF Hrem].
  unfold pop_back. rewrite Hrem, HF.
  rewrite <- (applyMove_states Side m b).
  now destruct (applyMove Side m b).
Qed.

Lemma state_PieceOnly (op : Board -> Board) (b : Board) :
  PieceOnly op -> state (op b) = state b.
Proof. intros H. unfold state. now rewrite PieceOnly_states. Qed.

Lemma state_set_m_side (b : Board) (c : Color.t) : state (set_m_side b c) = state b.
Proof. reflexivity. Qed.

Lemma state_set_m_moveCount (b : Board) (n : Z) : state (set_m_moveCount b n) = state b.
Proof. reflexivity. Qed.

Lemma captured_set_hash (st : StateInfo) (v : Z) : captured (set_hash st v) = captured st.
Proof. reflexivity. Qed.
Lemma captured_set_castleRight (st : StateInfo) (v : Z) :
  captured (set_castleRight st v) = captured st.
Proof. reflexivity. Qed.
Lemma captured_set_fiftyRule (st : StateInfo) (v : Z) :
  captured (set_fiftyRule st v) = captured st.
Proof. reflexivity. Qed.
Lemma captured_set_ep (st : StateInfo) (v : Z) : captured (set_ep st v) = captured st.
Proof. reflexivity. Qed.
Lemma captured_set_captured (st : StateInfo) (v : Z) : captured (set_captured st v) = v.
Proof. reflexivity. Qed.

Ltac captured_step :=
  first [ rewrite captured_updateRepetition
        | rewrite captured_updateInternalState
        | rewrite state_upd_state; cbv beta;
          first [ rewrite captured_set_hash | rewrite captured_set_castleRight
                | rewrite captured_set_fiftyRule | rewrite captured_set_ep
                | rewrite captured_set_captured ]
        | rewrite state_set_m_side
        | rewrite state_set_m_moveCount
        | rewrite (state_PieceOnly (fun b => fst (movePieceWithCapture _ _ _ _ b)))
            by apply PieceOnly_move
        | rewrite (state_PieceOnly (fun b => fst (promotePawnWithCapture _ _ _ _ b)))
            by apply PieceOnly_promoteCapture
        | rewrite (state_PieceOnly (promotePawn _ true _ _ _)) by apply PieceOnly_promote
        | rewrite (state_PieceOnly (doEnpassant _ true _ _)) by apply PieceOnly_enpassant
        | rewrite (state_PieceOnly (doCastling _ true _ _)) by apply PieceOnly_castling
        | rewrite captured_pushNextState
        | match goal with
          | |- context [state (if ?c then _ else _)] => destruct c
          end ].

Lemma m_board_upd_state (b : Board) (f : StateInfo -> StateInfo) :
  m_board (upd_state b f) = m_board b.
Proof. reflexivity. Qed.

Lemma m_board_set_m_side (b : Board) (c : Color.t) : m_board (set_m_side b c) = m_board b.
Proof. reflexivity. Qed.

Lemma m_board_set_m_moveCount (b : Board) (n : Z) : m_board (set_m_moveCount b n) = m_board b.
Proof. reflexivity. Qed.

Ltac board_of :=
  rewrite ?movePieceWithCapture_captured, ?promotePawnWithCapture_captured,
    ?m_board_upd_state, ?m_board_set_m_side, ?m_board_set_m_moveCount,
    ?m_board_upd_state, ?m_board_pushNextState.

Lemma captured_makeMove_side (Side : Color.t) (m : Z) (b : Board) :
  captured (state (makeMove_side zk Side m b)) = capturedBy Side m b.
Proof.
  unfold makeMove_side, capturedBy.
  rewrite captured_updateRepetition, captured_updateInternalState.
  destruct (Move.getMoveType m =? MoveType.SIMPLE);
    [| destruct (Move.getMoveType m =? MoveType.PROMOTION);
       [| destruct (Move.getMoveType m =? MoveType.ENPASSANT);
          [| destruct (Move.getMoveType m =? MoveType.CASTLE)]]]; cbn [andb].
  - rewrite let_pair. repeat captured_step. all: board_of. all: reflexivity.
  - destruct (negb (Move.getTo m - Move.getFrom m =? _)).
    + rewrite let_pair. repeat captured_step. all: board_of. all: reflexivity.
    + repeat captured_step. all: reflexivity.
  - repeat captured_step. all: reflexivity.
  - destruct (castlingRookSquares _ _ _). repeat captured_step. all: reflexivity.
  - repeat captured_step. all: reflexivity.
Qed.
End CapturedPiece.

(** *** From the boolean invariant to the facts about cells *)

Lemma forallb_rd {A} `{Inhabited A} (P : A -> bool) (l : list A) (i : Z) :
  forallb P l = true -> 0 <= i < Z.of_nat (length l) -> P (rd l i) = true.
Proof.
  intros Hall Hi. rewrite forallb_forall in Hall. apply Hall.
  destruct (lookup_lt_is_Some_2 l (Z.to_nat i)) as [x Hx]; [lia |].
  unfold rd. rewrite (list_lookup_total_correct _ _ _ Hx).
  apply list_elem_of_In. eapply list_elem_of_lookup_2. exact Hx.
Qed.

Lemma In_Square_iter (sq : Z) : 0 <= sq < 64 -> In sq Square.iter.
Proof.
  intros H. unfold Square.iter. apply in_map_iff. exists (Z.to_nat sq).
  split; [lia | apply in_seq; lia].
Qed.

Lemma In_pieceCodes (q : Z) : isPieceCode q = true -> In q pieceCodes.
Proof.
  intros H. apply isPieceCode_range in H. unfold pieceCodes.
  apply in_map_iff. exists (Z.to_nat q). split; [lia | apply in_seq; lia].
Qed.

Lemma inI16_range (z : Z) : inI16 z = true -> -32768 <= z < 32768.
Proof. unfold inI16. rewrite andb_true_iff, Z.leb_le, Z.ltb_lt. lia. Qed.

Lemma inI32_range (z : Z) : inI32 z = true -> -2147483648 <= z < 2147483648.
Proof. unfold inI32. rewrite andb_true_iff, Z.leb_le, Z.ltb_lt. lia. Qed.

Lemma inU32_range (z : Z) : inU32 z = true -> 0 <= z < 4294967296.
Proof. unfold inU32. rewrite andb_true_iff, Z.leb_le, Z.ltb_lt. lia. Qed.

Lemma toZ_range (c : Color.t) : 0 <= Color.toZ c < 2.
Proof. destruct c; cbn; lia. Qed.

Lemma boardInvariant_PiecesOK (b : Board) :
  boardInvariant b = true -> PiecesOK b /\ 0 <= m_moveCount b < 4294967296.
Proof.
  unfold boardInvariant, wellTyped. rewrite !andb_true_iff, !Nat.eqb_eq.
  intros [[[[[[[[[[Hl1 Hl2] Hl3] Hl4] Hl5] Hp] Hc] Hm] Hs] Hn] Hsq].
  assert (Hsq' : forall sq, 0 <= sq < 64 -> squareConsistent b sq = true).
  { intros sq H. rewrite forallb_forall in Hsq. apply Hsq, In_Square_iter, H. }
  split; [| now apply inU32_range].
  pose proof toZ_range as Hz.
  constructor; try assumption.
  - intros q Hq. apply (forallb_rd inU64); [assumption | lia].
  - intros c. apply (forallb_rd inU64); [assumption | specialize (Hz c); lia].
  - intros c. apply inI32_range, (forallb_rd inI32); [assumption | specialize (Hz c); lia].
  - intros c.
    assert (Hc' := forallb_rd _ (m_score b) (Color.toZ c) Hs ltac:(specialize (Hz c); lia)).
    cbv beta in Hc'. apply andb_true_iff in Hc' as [H1 H2].
    split; now apply inI16_range.
  - intros sq H. specialize (Hsq' sq H). unfold squareConsistent in Hsq'.
    rewrite !andb_true_iff, orb_true_iff, Z.eqb_eq in Hsq'. tauto.
  - intros sq q H Hq. specialize (Hsq' sq H). unfold squareConsistent in Hsq'.
    rewrite !andb_true_iff in Hsq'. destruct Hsq' as [[_ Hq'] _].
    rewrite forallb_forall in Hq'. specialize (Hq' q (In_pieceCodes q Hq)).
    now apply eqb_prop in Hq'.
  - intros sq c H. specialize (Hsq' sq H). unfold squareConsistent in Hsq'.
    rewrite !andb_true_iff in Hsq'. destruct Hsq' as [_ Hc'].
    rewrite forallb_forall in Hc'.
    assert (Hin : In c Color.iter) by (destruct c; cbn; tauto).
    specialize (Hc' c Hin). now apply eqb_prop in Hc'.
Qed.

(** *** The fields of a move word *)

Lemma land_ones_range (x n : Z) : 0 <= n -> 0 <= Z.land x (Z.ones n) < 2 ^ n.
Proof. intros Hn. rewrite Z.land_ones by lia. apply Z.mod_pos_bound. lia. Qed.

Lemma getFrom_range (m : Z) : 0 <= Move.getFrom m < 64.
Proof. exact (land_ones_range _ 6 ltac:(lia)). Qed.

Lemma getTo_range (m : Z) : 0 <= Move.getTo m < 64.
Proof. exact (land_ones_range _ 6 ltac:(lia)). Qed.

Lemma getMoveType_range (m : Z) : 0 <= Move.getMoveType m < 4.
Proof. exact (land_ones_range _ 2 ltac:(lia)). Qed.

Lemma getPromotedPiece_range (m : Z) : 2 <= Move.getPromotedPiece m < 6.
Proof.
  unfold Move.getPromotedPiece, PieceType.KNIGHT.
  pose proof (land_ones_range (Z.shiftr (Move.getData m) 12) 2 ltac:(lia)) as H.
  change (Z.ones 2) with 3 in H. change (2 ^ 2) with 4 in H. lia.
Qed.

Lemma promoted_piece (side : Color.t) (pt : Z) :
  2 <= pt < 6 ->
  isPieceCode (Piece.make side pt) = true
  /\ Piece.getColor (Piece.make side pt) = side
  /\ Piece.make side pt <> Piece.make side PieceType.PAWN.
Proof.
  intros H.
  assert (Hpt : pt = 2 \/ pt = 3 \/ pt = 4 \/ pt = 5) by lia.
  destruct side, Hpt as [-> | [-> | [-> | ->]]]; repeat split; discriminate.
Qed.

Lemma enpassantCapturedSq_nonneg (side : Color.t) (to : Z) :
  0 <= enpassantCapturedSq side to.
Proof.
  unfold enpassantCapturedSq, Square.backward, Square.forward, Int.u8.
  destruct side; apply Z.mod_pos_bound; lia.
Qed.


Lemma moved_piece (side : Color.t) (piece from to : Z) (b : Board) :
  0 <= to < Z.of_nat (length (m_board b)) ->
  rd (m_board (fst (movePieceWithCapture side piece from to b))) to = piece.
Proof.
  intros Hto. cbv [movePieceWithCapture]. destruct b. board_simpl.
  destruct (negb _); board_simpl; apply rd_wr_eq; rewrite length_wr; exact Hto.
Qed.

(** Undo an operation that was done after counting the move. *)
Lemma undo_after_count (op unop : Board -> Board) (Side : Color.t) (b : Board) :
  SideFree op -> SideFree unop ->
  0 <= m_moveCount b < 4294967296 -> m_side b = Side ->
  unop (op b) = b ->
  unop (set_m_side
          (set_m_moveCount (op (movedOn Side b))
             (Int.u32 (m_moveCount (op (movedOn Side b)) - 1))) Side) = b.
Proof.
  intros Hop Hun Hn Hs Hid. unfold movedOn. rewrite Hop.
  change (m_moveCount (set_m_side (set_m_moveCount (op b) ?n) ?c)) with n.
  rewrite setters_absorb, Hun, Hid, u32_inc_dec by exact Hn.
  rewrite <- Hs. apply setters_id.
Qed.

Lemma Color_eqb_eq (a c : Color.t) : Color.eqb a c = true -> a = c.
Proof. destruct a, c; (reflexivity || discriminate). Qed.

Lemma enemy_spec (p : Z) (side : Color.t) :
  isPieceCode p && Color.eqb (Piece.getColor p) (Color.getOpposite side) = true ->
  isPieceCode p = true /\ Piece.getColor p = Color.getOpposite side.
Proof. rewrite andb_true_iff. intros [H1 H2]. split; [exact H1 | now apply Color_eqb_eq]. Qed.

Lemma m_board_framed (b : Board) (n : Z) (c : Color.t) :
  m_board (set_m_side (set_m_moveCount b n) c) = m_board b.
Proof. reflexivity. Qed.

Section RoundTrip.
Context (zk : ZobristKeys).

Lemma unmakeMove_side_makeMove_side (Side : Color.t) (m : Z) (b : Board) :
  PiecesOK b -> 0 <= m_moveCount b < 4294967296 -> m_side b = Side ->
  pseudoLegal b m = true ->
  unmakeMove_side Side m (makeMove_side zk Side m b) = b.
Proof.
  intros OK Hn Hs Hpl.
  unfold unmakeMove_side. cbv zeta.
  rewrite captured_makeMove_side, pop_back_makeMove_side.
  unfold pseudoLegal in Hpl. cbv zeta in Hpl. rewrite Hs in Hpl.
  rewrite !andb_true_iff in Hpl. destruct Hpl as [[[Hne Hp] Hc] Hcase].
  apply negb_true_iff, Z.eqb_neq in Hne. apply Color_eqb_eq in Hc.
  pose proof (getFrom_range m) as Hf. pose proof (getTo_range m) as Ht.
  pose proof (ok_len_board b OK) as Hlen.
  unfold applyMove, capturedBy. cbv zeta. fold (movedOn Side b).
  destruct (Move.getMoveType m =? MoveType.SIMPLE) eqn:E0.
  { (* a simple move *)
    rewrite m_board_framed, moved_piece
      by (change (m_board (movedOn Side b)) with (m_board b); lia).
    refine (undo_after_count
              (fun b => fst (movePieceWithCapture Side _ _ _ b))
              (unmovePieceWithCapture Side _ _ _ _) Side b
              (SideFree_move _ _ _ _) (SideFree_unmove _ _ _ _ _) Hn Hs _).
    apply unmove_move; auto.
    apply orb_true_iff in Hcase as [Hcase | Hcase];
      [left; now apply Z.eqb_eq | right; now apply enemy_spec]. }
  destruct (Move.getMoveType m =? MoveType.PROMOTION) eqn:E1.
  { (* a promotion *)
    apply andb_true_iff in Hcase as [Hpawn Hcase]. apply Z.eqb_eq in Hpawn.
    destruct (promoted_piece Side (Move.getPromotedPiece m) (getPromotedPiece_range m))
      as (Hq & Hqc & Hqp).
    cbn [andb].
    destruct (Move.getTo m - Move.getFrom m =? _) eqn:Edir; cbn [negb].
    - apply Z.eqb_eq in Hcase.
      change (Piece.NONE =? Piece.NONE) with true. cbn [negb].
      refine (undo_after_count (promotePawn Side true _ _ _)
                (promotePawn Side false _ _ _) Side b
                (SideFree_promote _ _ _ _ _) (SideFree_promote _ _ _ _ _) Hn Hs _).
      now apply unpromote_promote.
    - apply enemy_spec in Hcase. destruct Hcase as [Hcap Hcapc].
      assert (Hnn : (rd (m_board b) (Move.getTo m) =? Piece.NONE) = false).
      { apply Z.eqb_neq. apply isPieceCode_range in Hcap. unfold Piece.NONE. lia. }
      rewrite Hnn. cbn [negb].
      refine (undo_after_count
                (fun b => fst (promotePawnWithCapture Side _ _ _ b))
                (unpromotePawnWithCapture Side _ _ _ _) Side b
                (SideFree_promoteCapture _ _ _ _) (SideFree_unpromote _ _ _ _ _) Hn Hs _).
      apply unpromote_promoteCapture; auto. }
  destruct (Move.getMoveType m =? MoveType.ENPASSANT) eqn:E2.
  { (* an en-passant capture *)
    rewrite !andb_true_iff in Hcase. destruct Hcase as [[[Hpawn Hto] Hcs] Hcp].
    apply Z.eqb_eq in Hpawn, Hto, Hcp. apply Z.ltb_lt in Hcs.
    pose proof (enpassantCapturedSq_nonneg Side (Move.getTo m)).
    refine (undo_after_count (doEnpassant Side true _ _) (doEnpassant Side false _ _) Side b
              (SideFree_enpassant _ _ _ _) (SideFree_enpassant _ _ _ _) Hn Hs _).
    apply undo_enpassant; auto. }
  (* a castling *)
  assert (E3 : (Move.getMoveType m =? MoveType.CASTLE) = true).
  { apply Z.eqb_eq. apply Z.eqb_neq in E0, E1, E2. pose proof (getMoveType_range m).
    unfold MoveType.SIMPLE, MoveType.PROMOTION, MoveType.ENPASSANT, MoveType.CASTLE in *. lia. }
  rewrite E3.
  rewrite !andb_true_iff, orb_true_iff in Hcase.
  destruct Hcase as [[[[[Hking Hfrom] Hto] Hempty] Hrook] Hrto].
  rewrite !Z.eqb_eq in Hto. apply Z.eqb_eq in Hking, Hfrom, Hempty, Hrook, Hrto.
  refine (undo_after_count (doCastling Side true _ _) (doCastling Side false _ _) Side b
            (SideFree_castling _ _ _ _) (SideFree_castling _ _ _ _) Hn Hs _).
  now apply undo_castling.
Qed.

Lemma m_side_makeMove_side (Side : Color.t) (m : Z) (b : Board) :
  m_side (makeMove_side zk Side m b) = Color.getOpposite Side.
Proof.
  destruct (makeMove_side_pushed zk Side m b) as [HF _]. rewrite HF.
  change (m_side (set_m_states ?X ?s)) with (m_side X).
  unfold applyMove. cbv zeta. fold (movedOn Side b).
  repeat match goal with |- context [if ?c then _ else _] => destruct c end;
    unfold movedOn;
    first [ rewrite (SideFree_move _ _ _ _ b)
          | rewrite (SideFree_promoteCapture _ _ _ _ b)
          | rewrite (SideFree_promote _ _ _ _ _ b)
          | rewrite (SideFree_enpassant _ _ _ _ b)
          | rewrite (SideFree_castling _ _ _ _ b)
          | idtac ]; reflexivity.
Qed.

Theorem unmakeMove_makeMove (m : Z) (b : Board) :
  boardInvariant b = true -> pseudoLegal b m = true ->
  unmakeMove m (makeMove zk m b) = b.
Proof.
  intros Hinv Hpl. apply boardInvariant_PiecesOK in Hinv as [OK Hn].
  unfold unmakeMove, makeMove.
  destruct (m_side b) eqn:Hs; rewrite m_side_makeMove_side; cbn [Color.getOpposite];
    now apply unmakeMove_side_makeMove_side.
Qed.
End RoundTrip.

(** C1: for every position that satisfies the consistency invariant (every
    member holds a value of its type, and the square-to-piece array agrees
    with the bitboards by piece and by colour on every square) and every
    pseudo-legal move [m], [makeMove m] followed by [unmakeMove m] gives
    back the board itself.  The square-to-piece array, the bitboards, the
    material counters, the packed scores, the move counter, the side to
    move and the state stack are the members of the record, so all of them
    have their values of before, and the invariant holds again. *)
Theorem C1_make_unmake_restores (zk : ZobristKeys) (b : Board) (m : Z) :
  boardInvariant b = true -> pseudoLegal b m = true ->
  unmakeMove m (makeMove zk m b) = b
  /\ boardInvariant (unmakeMove m (makeMove zk m b)) = true.
Proof.
  intros Hinv Hpl.
  assert (H : unmakeMove m (makeMove zk m b) = b) by now apply unmakeMove_makeMove.
  split; [exact H | now rewrite H].
Qed.

(** The start position and the move e2-e4. *)
Definition C1_keys : ZobristKeys :=
  mkZobristKeys (fun p sq => p * 64 + sq + 1) (fun c => 1000 + Color.toZ c)
    (fun f => 2000 + f) (fun c => 3000 + c).

Definition C1_board : Board := makeInitialPosition C1_keys false.

Definition C1_move : Z := makeMoveFromString C1_board "e2e4".

Lemma C1_witness :
  unmakeMove C1_move (makeMove C1_keys C1_move C1_board) = C1_board
  /\ boardInvariant (unmakeMove C1_move (makeMove C1_keys C1_move C1_board)) = true.
Proof.
  apply C1_make_unmake_restores; vm_compute; reflexivity.
Defined.

(* ===================================================================== *)
(** ** Board::makeMoveFromString: a promotion without its letter *)
(* ===================================================================== *)

(** *** Bitboards as sets of squares *)

Lemma inU64_spec (x : Z) : inU64 x = true <-> 0 <= x < 2 ^ 64.
Proof. unfold inU64. rewrite andb_true_iff, Z.leb_le, Z.ltb_lt. tauto. Qed.

Lemma inU64_u64 (x : Z) : inU64 (Int.u64 x) = true.
Proof.
  apply inU64_spec. unfold Int.u64. rewrite Z.land_ones by lia.
  apply Z.mod_pos_bound. lia.
Qed.

Lemma u64_id (x : Z) : inU64 x = true -> Int.u64 x = x.
Proof.
  intros H. apply inU64_spec in H. unfold Int.u64. rewrite Z.land_ones by lia.
  now apply Z.mod_small.
Qed.

Lemma inU64_land_l (x y : Z) : inU64 x = true -> inU64 (Z.land x y) = true.
Proof.
  intros H. rewrite <- (u64_id x H). unfold Int.u64.
  rewrite <- Z.land_assoc, (Z.land_comm (Z.ones 64)), Z.land_assoc.
  apply inU64_u64.
Qed.

Lemma inU64_land_r (x y : Z) : inU64 y = true -> inU64 (Z.land x y) = true.
Proof. rewrite Z.land_comm. apply inU64_land_l. Qed.

Lemma inU64_shiftr (x n : Z) : inU64 x = true -> 0 <= n -> inU64 (Z.shiftr x n) = true.
Proof.
  rewrite !inU64_spec. intros [H0 H1] Hn. rewrite Z.shiftr_div_pow2 by lia.
  assert (0 < 2 ^ n) by (apply Z.pow_pos_nonneg; lia).
  split; [apply Z.div_pos; lia |].
  apply Z.le_lt_trans with x; [| lia]. apply Z.div_le_upper_bound; nia.
Qed.

Lemma test_testbit (bb sq : Z) : 0 <= sq < 64 -> BitBoard.test bb sq = Z.testbit bb sq.
Proof.
  intros Hsq. unfold BitBoard.test. rewrite fromSquare_pow by exact Hsq.
  destruct (Z.testbit bb sq) eqn:Hb.
  - apply negb_true_iff, Z.eqb_neq. intros H0.
    assert (Hc : Z.testbit (Z.land bb (2 ^ sq)) sq = true).
    { rewrite Z.land_spec, Hb, Z.pow2_bits_true by lia. reflexivity. }
    rewrite H0, Z.bits_0 in Hc. discriminate.
  - apply negb_false_iff, Z.eqb_eq. apply Z.bits_inj'. intros i Hi.
    rewrite Z.land_spec, Z.bits_0.
    destruct (Z.eq_dec i sq) as [-> | Hne]; [now rewrite Hb |].
    rewrite Z.pow2_bits_false by lia. apply andb_false_r.
Qed.

(** [countr_zero] stops at the first set bit. *)
Lemma countr_zero_spec (fuel : nat) (i v : Z) :
  i <= BitBoard.countr_zero fuel i v <= i + Z.of_nat fuel
  /\ (forall j, i <= j < BitBoard.countr_zero fuel i v -> Z.testbit v j = false)
  /\ (BitBoard.countr_zero fuel i v < i + Z.of_nat fuel ->
      Z.testbit v (BitBoard.countr_zero fuel i v) = true).
Proof.
  revert i. induction fuel as [| fuel IH]; intros i; cbn [BitBoard.countr_zero].
  - split; [lia |]. split; [intros j Hj; lia | lia].
  - destruct (Z.testbit v i) eqn:Hb.
    + split; [lia |]. split; [intros j Hj; lia | intros _; exact Hb].
    + destruct (IH (i + 1)) as (Hr & Hlow & Hhit).
      split; [lia |]. split.
      * intros j Hj. destruct (Z.eq_dec j i) as [-> | Hne]; [exact Hb | apply Hlow; lia].
      * intros Hlt. apply Hhit. lia.
Qed.

Lemma lsb_spec (bb : Z) :
  inU64 bb = true -> bb <> 0 ->
  0 <= BitBoard.lsb bb < 64 /\ Z.testbit bb (BitBoard.lsb bb) = true.
Proof.
  intros Hu Hnz. unfold BitBoard.lsb.
  destruct (countr_zero_spec 64 0 bb) as (Hr & Hlow & Hhit).
  assert (Hlt : BitBoard.countr_zero 64 0 bb < 64).
  { destruct (Z.eq_dec (BitBoard.countr_zero 64 0 bb) 64) as [E | E]; [| lia].
    exfalso. apply Hnz. apply Z.bits_inj'. intros j Hj. rewrite Z.bits_0.
    destruct (Z.lt_ge_cases j 64); [apply Hlow; lia | now apply inU64_testbit_high]. }
  split; [lia | apply Hhit; lia].
Qed.

Lemma squares_loop_sound (fuel : nat) (bb sq : Z) :
  inU64 bb = true -> In sq (BitBoard.squares_loop fuel bb) ->
  0 <= sq < 64 /\ Z.testbit bb sq = true.
Proof.
  revert bb. induction fuel as [| fuel IH]; intros bb Hu; cbn [BitBoard.squares_loop].
  - intros [].
  - destruct (Z.eqb_spec bb 0) as [| Hnz]; [intros [] |].
    unfold BitBoard.pop. intros [<- | Hin].
    + now apply lsb_spec.
    + apply IH in Hin; [| now apply inU64_land_l].
      destruct Hin as [Hr Hb]. split; [exact Hr |].
      rewrite Z.land_spec in Hb. now apply andb_true_iff in Hb.
Qed.

Lemma squares_sound (bb sq : Z) :
  inU64 bb = true -> In sq (BitBoard.squares bb) -> 0 <= sq < 64 /\ Z.testbit bb sq = true.
Proof. apply squares_loop_sound. Qed.

(** Whatever the bits, a square visited is at most 64. *)
Lemma squares_loop_range (fuel : nat) (bb sq : Z) :
  In sq (BitBoard.squares_loop fuel bb) -> 0 <= sq <= 64.
Proof.
  revert bb. induction fuel as [| fuel IH]; intros bb; cbn [BitBoard.squares_loop].
  - intros [].
  - destruct (bb =? 0); [intros [] |].
    unfold BitBoard.pop. intros [<- | Hin]; [| now apply IH in Hin].
    unfold BitBoard.lsb. destruct (countr_zero_spec 64 0 bb) as (Hr & _). lia.
Qed.

Lemma squares_range (bb sq : Z) : In sq (BitBoard.squares bb) -> 0 <= sq <= 64.
Proof. apply squares_loop_range. Qed.

(** A bit of a shifted board comes from the square one step back. *)
Lemma testbit_u64_shiftl (bb n sq : Z) :
  0 <= n -> 0 <= sq < 64 -> Z.testbit (Int.u64 (Z.shiftl bb n)) sq = true ->
  n <= sq /\ Z.testbit bb (sq - n) = true.
Proof.
  intros Hn Hsq. unfold Int.u64.
  rewrite Z.land_spec, Z.ones_spec_low, andb_true_r, Z.shiftl_spec by lia.
  intros Hb. destruct (Z.lt_ge_cases sq n); [| now split].
  rewrite Z.testbit_neg_r in Hb by lia. discriminate.
Qed.

Lemma testbit_shiftr (bb n sq : Z) :
  inU64 bb = true -> 0 <= n -> 0 <= sq < 64 -> Z.testbit (Z.shiftr bb n) sq = true ->
  sq + n < 64 /\ Z.testbit bb (sq + n) = true.
Proof.
  intros Hu Hn Hsq. rewrite Z.shiftr_spec by lia. intros Hb.
  destruct (Z.lt_ge_cases (sq + n) 64); [now split |].
  rewrite (inU64_testbit_high bb (sq + n) Hu) in Hb by lia. discriminate.
Qed.

Lemma shift_inv (bb : Z) (d : Direction.t) (sq : Z) :
  inU64 bb = true -> 0 <= sq < 64 -> Z.testbit (BitBoard.shift bb d) sq = true ->
  0 <= Square.shift sq (Direction.getOpposite d) < 64
  /\ Z.testbit bb (Square.shift sq (Direction.getOpposite d)) = true.
Proof.
  intros Hu Hsq.
  assert (Hmask : forall x y, Z.testbit (Z.land x y) sq = true -> Z.testbit x sq = true).
  { intros x y. rewrite Z.land_spec, andb_true_iff. tauto. }
  destruct d; cbn [BitBoard.shift Square.shift Direction.getOpposite]; unfold Int.u8;
    intros Hb;
    lazymatch type of Hb with
    | Z.testbit (Z.land _ (BitBoard.b_not _)) _ = true => apply Hmask in Hb
    | _ => idtac
    end;
    first [ apply testbit_u64_shiftl in Hb; [| lia | lia]
          | apply testbit_shiftr in Hb; [| assumption | lia | lia] ];
    destruct Hb as [Hr Hb]; rewrite Z.mod_small by lia; (split; [lia | exact Hb]).
Qed.

(** *** The move word *)

Lemma lor_lt_pow2 (a c n : Z) :
  0 <= n -> 0 <= a < 2 ^ n -> 0 <= c < 2 ^ n -> 0 <= Z.lor a c < 2 ^ n.
Proof.
  intros Hn Ha Hc.
  assert (H0 : 0 <= Z.lor a c) by (apply Z.lor_nonneg; lia).
  split; [exact H0 |].
  destruct (Z.eq_dec (Z.lor a c) 0) as [-> | Hnz]; [apply Z.pow_pos_nonneg; lia |].
  apply Z.log2_lt_pow2; [lia |]. rewrite Z.log2_lor by lia.
  assert (Hlog : forall x, 0 <= x < 2 ^ n -> x <> 0 -> Z.log2 x < n).
  { intros x Hx Hx0. apply Z.log2_lt_pow2; lia. }
  pose proof (Z.log2_nonneg a). pose proof (Z.log2_nonneg c).
  destruct (Z.eq_dec a 0) as [Ha0 | Ha0], (Z.eq_dec c 0) as [Hc0 | Hc0];
    try (pose proof (Hlog a Ha Ha0)); try (pose proof (Hlog c Hc Hc0)); try lia.
  - subst. exfalso. apply Hnz. reflexivity.
  - subst a. change (Z.log2 0) with 0 in *. lia.
  - subst c. change (Z.log2 0) with 0 in *. lia.
Qed.

(** [Move(from, to)] is a SIMPLE move. *)
Lemma make2_type (f t : Z) :
  0 <= f < 2 ^ 14 -> 0 <= t < 2 ^ 8 ->
  Move.getMoveType (Move.make2 f t) = MoveType.SIMPLE.
Proof.
  intros Hf Ht.
  assert (Hs : 0 <= Z.shiftl t 6 < 2 ^ 14).
  { rewrite Z.shiftl_mul_pow2 by lia. lia. }
  pose proof (lor_lt_pow2 f (Z.shiftl t 6) 14 ltac:(lia) Hf Hs) as Hl.
  unfold Move.getMoveType, Move.getData, Move.make2, Int.u32.
  rewrite Z.mod_small by lia.
  change 65535 with (Z.ones 16). rewrite Z.land_ones, Z.mod_small by lia.
  rewrite Z.shiftr_div_pow2, Z.div_small by lia. reflexivity.
Qed.

(** A move built with the type ENPASSANT or CASTLE is not a promotion,
    whatever its squares. *)
Lemma make_type_high (f t mt p : Z) :
  Z.testbit mt 1 = true ->
  Move.getMoveType (Move.make f t mt p) <> MoveType.PROMOTION.
Proof.
  intros Hmt Heq.
  assert (Hb : Z.testbit (Move.getMoveType (Move.make f t mt p)) 1 = true).
  { unfold Move.getMoveType, Move.getData, Move.make.
    rewrite Z.land_spec, Z.shiftr_spec, Z.land_spec by lia.
    unfold Int.u32 at 1. change 4294967296 with (2 ^ 32).
    rewrite Z.mod_pow2_bits_low by lia.
    rewrite !Z.lor_spec, (Z.shiftl_spec mt) by lia.
    change (1 + 14 - 14) with 1. rewrite Hmt, orb_true_r. reflexivity. }
  rewrite Heq in Hb. discriminate.
Qed.

Definition promotionWordOK (f t p : Z) : bool :=
  let m := Move.make f t MoveType.PROMOTION p in
  (Move.getFrom m =? f) && (Move.getTo m =? t)
  && (Move.getMoveType m =? MoveType.PROMOTION) && (Move.getPromotedPiece m =? p).

Lemma promotion_words :
  forallb (fun f => forallb (fun t => forallb (promotionWordOK f t) [2; 3; 4; 5])
                      Square.iter) Square.iter = true.
Proof. vm_compute. reflexivity. Qed.

(** The fields of a promotion are read back as they were written. *)
Lemma make_promotion_fields (f t p : Z) :
  0 <= f < 64 -> 0 <= t < 64 -> 2 <= p < 6 ->
  Move.getFrom (Move.make f t MoveType.PROMOTION p) = f
  /\ Move.getTo (Move.make f t MoveType.PROMOTION p) = t
  /\ Move.getMoveType (Move.make f t MoveType.PROMOTION p) = MoveType.PROMOTION
  /\ Move.getPromotedPiece (Move.make f t MoveType.PROMOTION p) = p.
Proof.
  intros Hf Ht Hp. pose proof promotion_words as H.
  rewrite forallb_forall in H. specialize (H f (In_Square_iter f Hf)).
  rewrite forallb_forall in H. specialize (H t (In_Square_iter t Ht)).
  rewrite forallb_forall in H.
  assert (Hin : In p [2; 3; 4; 5]) by (cbn; lia).
  specialize (H p Hin). unfold promotionWordOK in H.
  rewrite !andb_true_iff, !Z.eqb_eq in H. tauto.
Qed.

Lemma make2_from (f t : Z) :
  0 <= f < 64 -> 0 <= t <= 64 -> Move.getFrom (Move.make2 f t) = f.
Proof.
  intros Hf Ht. unfold Move.getFrom, Move.getData, Move.make2.
  assert (Hs : 0 <= Z.shiftl t 6 < 2 ^ 14) by (rewrite Z.shiftl_mul_pow2 by lia; lia).
  pose proof (lor_lt_pow2 f (Z.shiftl t 6) 14 ltac:(lia) ltac:(lia) Hs) as Hl.
  unfold Int.u32. rewrite Z.mod_small by lia.
  change 65535 with (Z.ones 16). rewrite (Z.land_ones _ 16), Z.mod_small by lia.
  apply Z.bits_inj'. intros i Hi.
  rewrite Z.land_spec, Z.lor_spec, Z.shiftl_spec by lia.
  change 63 with (Z.ones 6).
  destruct (Z.lt_ge_cases i 6).
  - rewrite Z.ones_spec_low, andb_true_r by lia.
    rewrite (Z.testbit_neg_r t (i - 6)) by lia. apply orb_false_r.
  - rewrite Z.ones_spec_high, andb_false_r by lia.
    symmetry. apply Z.bits_above_log2; [lia |].
    destruct (Z.eq_dec f 0) as [-> | Hnz]; [cbn; lia |].
    assert (Z.log2 f < 6) by (apply Z.log2_lt_pow2; lia). lia.
Qed.

(** *** The moves of the generator *)

Lemma inU64_b_not (x : Z) : inU64 (BitBoard.b_not x) = true.
Proof.
  unfold BitBoard.b_not. rewrite Z.ldiff_land. apply inU64_land_l. reflexivity.
Qed.

Lemma inU64_shift (bb : Z) (d : Direction.t) :
  inU64 bb = true -> inU64 (BitBoard.shift bb d) = true.
Proof.
  intros H. destruct d; cbn [BitBoard.shift];
    first [ apply inU64_u64
          | apply inU64_land_r, inU64_b_not
          | apply inU64_shiftr; [exact H | lia] ].
Qed.

Lemma lsb_range (bb : Z) : 0 <= BitBoard.lsb bb <= 64.
Proof. unfold BitBoard.lsb. destruct (countr_zero_spec 64 0 bb) as (H & _). lia. Qed.

Lemma Square_shift_range (sq : Z) (d : Direction.t) : 0 <= Square.shift sq d < 256.
Proof. destruct d; cbn [Square.shift]; unfold Int.u8; apply Z.mod_pos_bound; lia. Qed.

Definition nonPromotion (m : Z) : Prop := Move.getMoveType m <> MoveType.PROMOTION.

Lemma nonPromotion_make2 (f t : Z) :
  0 <= f < 256 -> 0 <= t <= 64 -> nonPromotion (Move.make2 f t).
Proof.
  intros Hf Ht. unfold nonPromotion. rewrite make2_type by lia. discriminate.
Qed.

(** A move of the king, a promotion of a pawn that stood one step back
    from its arrival square. *)
Definition kingMove (b : Board) (Side : Color.t) (m : Z) : Prop :=
  exists sq, 0 <= sq <= 64 /\ m = Move.make2 (king b Side) sq.

Definition promotionStep (Side : Color.t) (Mode : movegen.GenerationMode) (b : Board)
  (m : Z) : Prop :=
  exists f t pt : Z,
    m = Move.make f t MoveType.PROMOTION pt
    /\ 2 <= pt < 6 /\ 0 <= f < 64 /\ 0 <= t < 64
    /\ Z.testbit (byPiece b (Piece.make Side PieceType.PAWN)) f = true
    /\ (Z.testbit (BitBoard.b_not (allPieces b)) t = true
        \/ Z.testbit (if movegen.eqb Mode movegen.CHECK_EVASIONS
                      then checkGivers (state b)
                      else byColor b (Color.getOpposite Side)) t = true).

Ltac in_parts H :=
  repeat first
    [ apply in_app_or in H; destruct H as [H | H]
    | apply in_map_iff in H; destruct H as (? & <- & H)
    | apply in_flat_map in H; destruct H as (? & ? & H)
    | match type of H with
      | In _ (if ?c then _ else _) => destruct c
      | In _ [] => destruct H
      | In _ (_ :: _) => destruct H as [<- | H]
      | In _ (let '(_, _) := ?p in _) => destruct p
      end ].

Ltac sq_bounds :=
  repeat match goal with
  | H : In _ (BitBoard.squares _) |- _ => apply squares_range in H
  end;
  repeat match goal with
  | |- context [Square.shift ?sq ?d] =>
      lazymatch goal with
      | _ : 0 <= Square.shift sq d < 256 |- _ => fail
      | _ => pose proof (Square_shift_range sq d)
      end
  end;
  lia.

Lemma generatePieceMoves_nonPromotion (Side : Color.t) (Mode : movegen.GenerationMode)
  (PT : Z) (b : Board) (occ trg m : Z) :
  In m (generatePieceMoves Side Mode PT b occ trg) -> nonPromotion m.
Proof.
  unfold generatePieceMoves. intros H. in_parts H.
  apply nonPromotion_make2; sq_bounds.
Qed.

Lemma generateMoves_side_split (Side : Color.t) (Mode : movegen.GenerationMode) (b : Board) :
  inU64 (byPiece b (Piece.make Side PieceType.PAWN)) = true ->
  exists K P R : list Z,
    generateMoves_side Side Mode b = K ++ P ++ R
    /\ (forall x, In x K -> kingMove b Side x)
    /\ (forall x, In x P -> promotionStep Side Mode b x)
    /\ (forall x, In x R -> nonPromotion x).
Proof.
  intros Hu. unfold generateMoves_side.
  assert (Hking : forall (bb : Z) (x : Z),
            In x (map (fun sq => Move.make2 (king b Side) sq) (BitBoard.squares bb)) ->
            kingMove b Side x).
  { intros bb x H. apply in_map_iff in H as (sq & <- & H).
    exists sq. split; [now apply squares_range in H | reflexivity]. }
  assert (Hpromo : forall (d : Direction.t) (bb x : Z),
            In x (flat_map (emitPromotions Mode (Direction.getOpposite d))
                    (BitBoard.squares
                       (Z.land (BitBoard.shift
                          (Z.land (byPiece b (Piece.make Side PieceType.PAWN))
                             (BitBoard.fromRank (Rank.makeRelativeRank Side Rank.R7))) d) bb))) ->
            exists f t pt : Z,
              x = Move.make f t MoveType.PROMOTION pt
              /\ 2 <= pt < 6 /\ 0 <= f < 64 /\ 0 <= t < 64
              /\ Z.testbit (byPiece b (Piece.make Side PieceType.PAWN)) f = true
              /\ Z.testbit bb t = true).
  { intros d bb x H. apply in_flat_map in H as (sq & Hsq & H).
    apply squares_sound in Hsq; [| now apply inU64_land_l, inU64_shift, inU64_land_l].
    destruct Hsq as [Hr Hb]. rewrite Z.land_spec, andb_true_iff in Hb. destruct Hb as [Hb Hbb].
    apply shift_inv in Hb; [| now apply inU64_land_l | exact Hr].
    destruct Hb as [Hfr Hb]. rewrite Z.land_spec, andb_true_iff in Hb. destruct Hb as [Hb _].
    unfold emitPromotions in H.
    assert (Hx : exists pt, 2 <= pt < 6
              /\ x = Move.make (Square.shift sq (Direction.getOpposite d)) sq
                       MoveType.PROMOTION pt).
    { destruct H as [<- | H]; [exists PieceType.QUEEN; split; [unfold PieceType.QUEEN; lia | reflexivity] |].
      destruct (negb _); [| destruct H].
      destruct H as [<- | [<- | [<- | []]]];
        [exists PieceType.ROOK | exists PieceType.BISHOP | exists PieceType.KNIGHT];
        (split; [unfold PieceType.ROOK, PieceType.BISHOP, PieceType.KNIGHT; lia
                | reflexivity]). }
    destruct Hx as (pt & Hpt & ->).
    exists (Square.shift sq (Direction.getOpposite d)), sq, pt. auto 10. }
  assert (Hrel : forall d, Direction.makeRelativeDirection Side (Direction.getOpposite d)
                           = Direction.getOpposite (Direction.makeRelativeDirection Side d)).
  { intros d. destruct Side, d; reflexivity. }
  match goal with
  | |- exists K P R, (if ?c then ?k else ?k ++ ?p ++ ?r) = _ /\ _ =>
      destruct c; [exists k, [], [] | exists k, p, r]
  end.
  - split; [now rewrite !app_nil_r |].
    split; [| split; intros x []].
    intros x H. destruct (_ || _); [| destruct H]. now apply Hking in H.
  - split; [reflexivity |].
    split; [intros x H; destruct (_ || _); [| destruct H]; now apply Hking in H |].
    split.
    + intros x H. unfold promotionStep.
      destruct (_ && _); [| destruct H].
      change Direction.DOWN with (Direction.getOpposite Direction.UP) in H.
      change Direction.DOWNRIGHT with (Direction.getOpposite Direction.UPLEFT) in H.
      change Direction.DOWNLEFT with (Direction.getOpposite Direction.UPRIGHT) in H.
      rewrite !Hrel in H.
      destruct (movegen.eqb Mode movegen.CHECK_EVASIONS);
        (apply in_app_or in H; destruct H as [H | H];
         [| apply in_app_or in H; destruct H as [H | H]]);
        rewrite <- ?Z.land_assoc in H;
        apply Hpromo in H; destruct H as (f & t & pt & Hx & Hpt & Hf & Ht & Hb & Hbb);
        exists f, t, pt; rewrite ?Z.land_spec, ?andb_true_iff in Hbb; tauto.
    + intros x H. in_parts H;
        first [ apply nonPromotion_make2; sq_bounds | apply make_type_high; reflexivity ].
Qed.

(** *** Reading a move from its text *)

Lemma isLegal_ext (b : Board) (m m' : Z) :
  Move.getFrom m = Move.getFrom m' -> Move.getTo m = Move.getTo m' ->
  Move.getMoveType m = Move.getMoveType m' -> isLegal b m = isLegal b m'.
Proof. intros Hf Ht Hty. unfold isLegal. now rewrite Hf, Ht, Hty. Qed.

Definition matches (from to m : Z) : bool :=
  (Move.getFrom m =? from) && (Move.getTo m =? to).

Lemma matchMove_skip (b : Board) (str : string) (from to : Z) (l1 l2 : list Z) :
  (forall x, In x l1 -> matches from to x = false) ->
  matchMove b str from to (l1 ++ l2) = matchMove b str from to l2.
Proof.
  induction l1 as [| x l1 IH]; intros H; cbn [app matchMove]; [reflexivity |].
  fold (matches from to x). rewrite (H x) by now left.
  apply IH. intros y Hy. apply H. now right.
Qed.

Lemma matchMove_promotion (b : Board) (str : string) (from to : Z) (l1 l2 : list Z) :
  (exists x, In x l1 /\ matches from to x = true) ->
  (forall x, In x l1 -> matches from to x = true ->
     isLegal b x = true /\ Move.getMoveType x = MoveType.PROMOTION) ->
  matchMove b str from to (l1 ++ l2)
  = Move.make from to MoveType.PROMOTION
      (if size str >? 4 then Piece.getType (Piece.fromFENChar (char_at str 4))
       else PieceType.KNIGHT).
Proof.
  induction l1 as [| x l1 IH]; intros (y & Hy & Hm) Hall; [destruct Hy |].
  cbn [app matchMove]. fold (matches from to x).
  destruct (matches from to x) eqn:Hx.
  - destruct (Hall x (or_introl eq_refl) Hx) as [Hl Hty].
    rewrite Hl, Hty. reflexivity.
  - apply IH.
    + destruct Hy as [-> | Hy]; [congruence | now exists y].
    + intros z Hz. apply Hall. now right.
Qed.

Lemma String_eqb_length (s t : string) :
  String.length s <> String.length t -> String.eqb s t = false.
Proof.
  intros H. destruct (String.eqb s t) eqn:E; [| reflexivity].
  apply String.eqb_eq in E. now subst.
Qed.

(** *** What the bitboards say about the squares *)

Lemma piece_at (b : Board) (q sq : Z) :
  PiecesOK b -> 0 <= sq < 64 -> isPieceCode q = true ->
  Z.testbit (byPiece b q) sq = true -> rd (m_board b) sq = q.
Proof.
  intros OK Hsq Hq Hb. unfold byPiece in Hb.
  rewrite (ok_bit_piece b OK) in Hb by assumption. now apply Z.eqb_eq.
Qed.

Lemma color_bit_exclusive (b : Board) (side : Color.t) (sq : Z) :
  PiecesOK b -> 0 <= sq < 64 ->
  Z.testbit (byColor b (Color.getOpposite side)) sq = true ->
  Z.testbit (byColor b side) sq = false.
Proof.
  intros OK Hsq. unfold byColor. rewrite !(ok_bit_color b OK) by assumption.
  destruct (isPieceCode _); [| discriminate].
  destruct (Piece.getColor _), side; cbn; congruence.
Qed.

Lemma empty_not_own (b : Board) (side : Color.t) (sq : Z) :
  Z.testbit (BitBoard.b_not (allPieces b)) sq = true ->
  Z.testbit (byColor b side) sq = false.
Proof.
  rewrite b_not_testbit, !andb_true_iff, negb_true_iff. intros [_ H].
  unfold allPieces in H. rewrite Z.lor_spec, orb_false_iff in H.
  destruct side; tauto.
Qed.

Lemma king_square (b : Board) (side : Color.t) :
  PiecesOK b -> byPiece b (Piece.make side PieceType.KING) <> 0 ->
  0 <= king b side < 64 /\ rd (m_board b) (king b side) = Piece.make side PieceType.KING.
Proof.
  intros OK Hnz. unfold king.
  assert (Hu : inU64 (byPiece b (Piece.make side PieceType.KING)) = true).
  { apply (ok_pieces b OK). destruct side; cbv; split; congruence. }
  destruct (lsb_spec _ Hu Hnz) as [Hr Hb]. split; [exact Hr |].
  apply piece_at; auto. now destruct side.
Qed.

(** The pieces that give check are pieces of the other side. *)
Lemma attackers_are_pieces (b : Board) (c : Color.t) (sq occ t : Z) :
  PiecesOK b -> 0 <= t < 64 ->
  Z.testbit (computeAttackersOf_occ b c sq occ) t = true ->
  Z.testbit (byColor b c) t = true.
Proof.
  intros OK Ht. unfold computeAttackersOf_occ.
  rewrite !Z.lor_spec, !Z.land_spec, !orb_true_iff, !andb_true_iff.
  assert (H : forall pt, 1 <= pt <= 6 ->
            Z.testbit (byPiece b (Piece.make c pt)) t = true ->
            Z.testbit (byColor b c) t = true).
  { intros pt Hpt Hb.
    assert (Hcode : isPieceCode (Piece.make c pt) = true
                    /\ Piece.getColor (Piece.make c pt) = c).
    { assert (Hc : pt = 1 \/ pt = 2 \/ pt = 3 \/ pt = 4 \/ pt = 5 \/ pt = 6) by lia.
      destruct c; decompose [or] Hc; subst; split; reflexivity. }
    destruct Hcode as [Hq Hqc].
    apply piece_at in Hb; auto.
    unfold byColor. apply testbit_color_at; auto; rewrite Hb; assumption. }
  intros [[[[[[_ Hb] | [_ Hb]] | [_ Hb]] | [_ Hb]] | [_ Hb]] | [_ Hb]];
    (eapply H; [| exact Hb]); cbv; split; congruence.
Qed.

(** When the check givers are the attackers of the king, as
    [updateInternalState] computes them, none of them is a piece of the
    side to move. *)
Lemma checkers_not_own (b : Board) :
  PiecesOK b ->
  checkGivers (state b)
    = computeAttackersOf b (Color.getOpposite (m_side b)) (king b (m_side b)) ->
  Z.land (checkGivers (state b)) (byColor b (m_side b)) = 0.
Proof.
  intros OK ->. apply Z.bits_inj'. intros i Hi. rewrite Z.bits_0, Z.land_spec.
  destruct (Z.lt_ge_cases i 64) as [Hlt | Hge].
  - destruct (Z.testbit (computeAttackersOf _ _ _) i) eqn:Hb; [| reflexivity].
    apply attackers_are_pieces in Hb; [| exact OK | lia].
    rewrite (color_bit_exclusive b (m_side b) i OK) by (exact Hb || lia). reflexivity.
  - unfold byColor. rewrite (inU64_testbit_high _ i (ok_color b OK (m_side b)) Hge).
    apply andb_false_r.
Qed.

Lemma kingMove_nonPromotion (b : Board) (side : Color.t) (m : Z) :
  kingMove b side m -> nonPromotion m.
Proof.
  intros (sq & Hsq & ->). apply nonPromotion_make2; [| exact Hsq].
  pose proof (lsb_range (byPiece b (Piece.make side PieceType.KING))). unfold king. lia.
Qed.

(** C9: in a consistent position with the king of the side to move on the
    board and no piece of that side among the check givers, a text of four
    characters (no promotion letter) whose squares are those of a generated
    legal promotion is read by [makeMoveFromString] as the promotion to a
    KNIGHT on those squares. *)
Theorem C9_promotion_defaults_to_knight (b : Board) (str : string) (m : Z) :
  boardInvariant b = true ->
  byPiece b (Piece.make (m_side b) PieceType.KING) <> 0 ->
  Z.land (checkGivers (state b)) (byColor b (m_side b)) = 0 ->
  String.length str = 4%nat ->
  In m (generateMoves movegen.ALL_MOVES b []) ->
  Move.getFrom m = Square.fromChars (char_at str 0) (char_at str 1) ->
  Move.getTo m = Square.fromChars (char_at str 2) (char_at str 3) ->
  Move.getMoveType m = MoveType.PROMOTION ->
  isLegal b m = true ->
  makeMoveFromString b str
    = Move.make (Move.getFrom m) (Move.getTo m) MoveType.PROMOTION PieceType.KNIGHT
  /\ Move.getMoveType (makeMoveFromString b str) = MoveType.PROMOTION
  /\ Move.getPromotedPiece (makeMoveFromString b str) = PieceType.KNIGHT.
Proof.
  intros Hinv Hking Hchk Hlen Hin Hfrom Hto Hty Hleg.
  apply boardInvariant_PiecesOK in Hinv as [OK _].
  set (side := m_side b) in *.
  (* the list is the king's moves, the promotions and the rest *)
  assert (Hgen : exists Mode,
            generateMoves movegen.ALL_MOVES b [] = generateMoves_side side Mode b
            /\ (movegen.eqb Mode movegen.CHECK_EVASIONS = true
                \/ movegen.eqb Mode movegen.CHECK_EVASIONS = false)).
  { unfold generateMoves. fold side. destruct (isInCheck b);
      [exists movegen.CHECK_EVASIONS | exists movegen.ALL_MOVES]; auto. }
  destruct Hgen as (Mode & Hgen & _).
  assert (Hpu : inU64 (byPiece b (Piece.make side PieceType.PAWN)) = true).
  { apply (ok_pieces b OK). destruct side; cbv; split; congruence. }
  destruct (generateMoves_side_split side Mode b Hpu) as (K & P & R & Hsplit & HK & HP & HR).
  rewrite Hgen, Hsplit in Hin.
  assert (HinP : In m P).
  { apply in_app_or in Hin as [Hin | Hin];
      [exfalso; now apply (kingMove_nonPromotion b side m (HK m Hin)) |].
    apply in_app_or in Hin as [Hin | Hin]; [exact Hin |].
    exfalso. now apply (HR m Hin). }
  (* the squares of the move *)
  destruct (HP m HinP) as (f & t & pt & Hm & Hpt & Hf & Ht & Hpawn & Htarget).
  destruct (make_promotion_fields f t pt Hf Ht Hpt) as (Hmf & Hmt & _).
  rewrite <- Hm in Hmf, Hmt.
  assert (Hboard : rd (m_board b) f = Piece.make side PieceType.PAWN).
  { apply piece_at; auto. now destruct side. }
  assert (Hown : Z.testbit (byColor b side) f = true).
  { unfold byColor. apply testbit_color_at; auto; rewrite Hboard; now destruct side. }
  assert (Hfree : Z.testbit (byColor b side) t = false).
  { destruct Htarget as [He | He]; [now apply empty_not_own |].
    destruct (movegen.eqb Mode movegen.CHECK_EVASIONS);
      [| now apply color_bit_exclusive].
    assert (Hl : Z.testbit (Z.land (checkGivers (state b)) (byColor b side)) t = false)
      by (rewrite Hchk; apply Z.bits_0).
    rewrite Z.land_spec, He in Hl. exact Hl. }
  assert (Hne : f <> t) by (intros ->; congruence).
  destruct (king_square b side OK Hking) as [Hkr Hkb].
  assert (Hkf : king b side <> f).
  { intros E. rewrite E, Hboard in Hkb. destruct side; discriminate. }
  (* the text *)
  unfold makeMoveFromString. fold side.
  assert (Hsz : size str = 4) by (unfold size; lia).
  rewrite Hsz. change (4 <? 4) with false. cbn [andb].
  rewrite !String_eqb_length by (rewrite Hlen; discriminate).
  rewrite <- Hfrom, <- Hto, Hmf, Hmt.
  rewrite !test_testbit, Hown, Hfree by assumption.
  destruct (Z.eqb_spec f t) as [| _]; [contradiction |]. cbn [negb orb].
  rewrite Hgen, Hsplit, matchMove_skip.
  - rewrite (matchMove_promotion b str f t P R).
    + rewrite Hsz. change (4 >? 4) with false. cbv iota.
      destruct (make_promotion_fields f t PieceType.KNIGHT Hf Ht ltac:(cbv; split; congruence))
        as (_ & _ & H1 & H2).
      auto.
    + exists m. split; [exact HinP |]. unfold matches. now rewrite Hmf, Hmt, !Z.eqb_refl.
    + intros x Hx Hmx. unfold matches in Hmx.
      rewrite andb_true_iff, !Z.eqb_eq in Hmx. destruct Hmx as [Hxf Hxt].
      destruct (HP x Hx) as (f' & t' & pt' & -> & Hpt' & Hf' & Ht' & _).
      destruct (make_promotion_fields f' t' pt' Hf' Ht' Hpt') as (Hxf' & Hxt' & Hxty & _).
      split; [| exact Hxty].
      rewrite <- Hleg. apply isLegal_ext; congruence.
  - intros x Hx. destruct (HK x Hx) as (sq & Hsq & ->).
    unfold matches. rewrite make2_from by lia.
    destruct (Z.eqb_spec (king b side) f); [contradiction | reflexivity].
Qed.

(** White pawn on d7, white king on b1, black king on a3; the text d7d8. *)
Definition C9_board : Board :=
  fst (fromFEN C1_keys "8/3P4/8/8/8/k7/8/1K6 w - - 0 1" false).

Definition C9_move : Z := Move.make 51 59 MoveType.PROMOTION PieceType.QUEEN.

Lemma C9_witness :
  makeMoveFromString C9_board "d7d8"
    = Move.make (Move.getFrom C9_move) (Move.getTo C9_move) MoveType.PROMOTION
        PieceType.KNIGHT
  /\ Move.getMoveType (makeMoveFromString C9_board "d7d8") = MoveType.PROMOTION
  /\ Move.getPromotedPiece (makeMoveFromString C9_board "d7d8") = PieceType.KNIGHT.
Proof.
  apply (C9_promotion_defaults_to_knight C9_board "d7d8" C9_move);
    vm_compute; try reflexivity; try discriminate;
    repeat (first [left; reflexivity | right]).
Defined.

(* ===================================================================== *)
(** ** Board::generateMoves: the moves it yields can be made and unmade *)
(* ===================================================================== *)


(** *** The generated moves are pseudo-legal *)

(** What the top state must say for the generator to be right: the king
    of the side to move stands on the board; the check givers are pieces of the other side, and the
    squares between the king and the first of them hold no piece of the
    side to move; an en-passant square is empty with the pawn to capture
    behind it; a castling right means king and rook on their home
    squares. *)
Definition castleRightOK (b : Board) (castle : Castle.t) (corner : Z) : bool :=
  let side := m_side b in
  implb (Castle.hasCastleRight (castleRight (state b)) castle side)
    ((king b side =? Square.makeRelativeSquare side Square.E1)
     && (rd (m_board b) (Square.makeRelativeSquare side corner)
         =? Piece.make side PieceType.ROOK)).

Definition stateConsistent (b : Board) : bool :=
  let side := m_side b in
  let st := state b in
  negb (byPiece b (Piece.make side PieceType.KING) =? 0)
  && (Z.land (checkGivers st) (byColor b (Color.getOpposite side)) =? checkGivers st)
  && (Z.land (BitBoard.betweenBits (king b side) (BitBoard.lsb (checkGivers st)))
        (byColor b side) =? 0)
  && ((ep st =? Square.NO_POS)
      || ((0 <=? ep st) && (ep st <? 64)
          && (rd (m_board b) (ep st) =? Piece.NONE)
          && (enpassantCapturedSq side (ep st) <? 64)
          && (rd (m_board b) (enpassantCapturedSq side (ep st))
              =? Piece.make (Color.getOpposite side) PieceType.PAWN)))
  && castleRightOK b Castle.KING_CASTLE Square.H1
  && castleRightOK b Castle.QUEEN_CASTLE Square.A1.

(** A set of squares without a piece of the side to move. *)
Definition notOwn (b : Board) (bb : Z) : Prop :=
  forall t, 0 <= t < 64 -> Z.testbit bb t = true ->
    Z.testbit (byColor b (m_side b)) t = false.

Lemma notOwn_land_l (b : Board) (x y : Z) : notOwn b x -> notOwn b (Z.land x y).
Proof.
  intros H t Ht Hb. rewrite Z.land_spec, andb_true_iff in Hb. now apply H.
Qed.

Lemma notOwn_land_r (b : Board) (x y : Z) : notOwn b y -> notOwn b (Z.land x y).
Proof. rewrite Z.land_comm. apply notOwn_land_l. Qed.

Lemma notOwn_b_not_own (b : Board) : notOwn b (BitBoard.b_not (byColor b (m_side b))).
Proof.
  intros t Ht Hb. rewrite b_not_testbit, !andb_true_iff, negb_true_iff in Hb. tauto.
Qed.

Lemma notOwn_empty (b : Board) : notOwn b (BitBoard.b_not (allPieces b)).
Proof. intros t Ht Hb. now apply empty_not_own. Qed.

Lemma notOwn_enemy (b : Board) :
  PiecesOK b -> notOwn b (byColor b (Color.getOpposite (m_side b))).
Proof. intros OK t Ht Hb. now apply color_bit_exclusive. Qed.

Lemma notOwn_zero_land (b : Board) (bb : Z) :
  Z.land bb (byColor b (m_side b)) = 0 -> notOwn b bb.
Proof.
  intros H t Ht Hb.
  assert (Hl : Z.testbit (Z.land bb (byColor b (m_side b))) t = false)
    by (rewrite H; apply Z.bits_0).
  rewrite Z.land_spec, Hb in Hl. exact Hl.
Qed.

(** *** The conditions of [pseudoLegal], one kind of move at a time *)

Lemma own_square (b : Board) (sq : Z) :
  PiecesOK b -> 0 <= sq < 64 -> Z.testbit (byColor b (m_side b)) sq = true ->
  isPieceCode (rd (m_board b) sq) = true
  /\ Piece.getColor (rd (m_board b) sq) = m_side b.
Proof.
  intros OK Hsq Hb. unfold byColor in Hb. rewrite (ok_bit_color b OK) in Hb by assumption.
  apply andb_true_iff in Hb as [H1 H2]. split; [exact H1 | now apply Color_eqb_eq].
Qed.

Lemma free_square (b : Board) (sq : Z) :
  PiecesOK b -> 0 <= sq < 64 -> Z.testbit (byColor b (m_side b)) sq = false ->
  (rd (m_board b) sq =? Piece.NONE)
  || (isPieceCode (rd (m_board b) sq)
      && Color.eqb (Piece.getColor (rd (m_board b) sq)) (Color.getOpposite (m_side b)))
  = true.
Proof.
  intros OK Hsq Hb. unfold byColor in Hb. rewrite (ok_bit_color b OK) in Hb by assumption.
  destruct (ok_code b OK sq Hsq) as [-> | Hc]; [reflexivity |].
  rewrite Hc in *. cbn [andb] in *. apply orb_true_iff. right.
  destruct (Piece.getColor _), (m_side b); cbn in *; congruence.
Qed.

Lemma empty_square (b : Board) (sq : Z) :
  PiecesOK b -> 0 <= sq < 64 -> Z.testbit (BitBoard.b_not (allPieces b)) sq = true ->
  rd (m_board b) sq = Piece.NONE.
Proof.
  intros OK Hsq Hb.
  pose proof (empty_not_own b Color.WHITE sq Hb) as Hw.
  pose proof (empty_not_own b Color.BLACK sq Hb) as Hk.
  unfold byColor in Hw, Hk. rewrite (ok_bit_color b OK) in Hw, Hk by assumption.
  destruct (ok_code b OK sq Hsq) as [-> | Hc]; [reflexivity |].
  rewrite Hc in *. destruct (Piece.getColor _); discriminate.
Qed.

Lemma enemy_square (b : Board) (sq : Z) :
  PiecesOK b -> 0 <= sq < 64 ->
  Z.testbit (byColor b (Color.getOpposite (m_side b))) sq = true ->
  isPieceCode (rd (m_board b) sq)
  && Color.eqb (Piece.getColor (rd (m_board b) sq)) (Color.getOpposite (m_side b)) = true.
Proof.
  intros OK Hsq Hb. unfold byColor in Hb. now rewrite (ok_bit_color b OK) in Hb.
Qed.

Lemma pseudoLegal_simple (b : Board) (m : Z) :
  PiecesOK b ->
  Move.getMoveType m = MoveType.SIMPLE ->
  Z.testbit (byColor b (m_side b)) (Move.getFrom m) = true ->
  Z.testbit (byColor b (m_side b)) (Move.getTo m) = false ->
  pseudoLegal b m = true.
Proof.
  intros OK Hty Hf Ht.
  pose proof (getFrom_range m) as Hfr. pose proof (getTo_range m) as Htr.
  destruct (own_square b _ OK Hfr Hf) as [Hp Hc].
  unfold pseudoLegal. cbv zeta. rewrite Hty, Hp, Hc. cbn [andb].
  change (MoveType.SIMPLE =? MoveType.SIMPLE) with true. cbv iota.
  rewrite (free_square b _ OK Htr Ht).
  destruct (Z.eqb_spec (Move.getFrom m) (Move.getTo m)) as [E | E];
    [rewrite E in Hf; congruence |].
  now destruct (m_side b).
Qed.

Lemma own_pawn_square (b : Board) (sq : Z) :
  PiecesOK b -> 0 <= sq < 64 ->
  Z.testbit (byPiece b (Piece.make (m_side b) PieceType.PAWN)) sq = true ->
  rd (m_board b) sq = Piece.make (m_side b) PieceType.PAWN.
Proof. intros OK Hsq Hb. apply piece_at; auto. now destruct (m_side b). Qed.

Lemma pseudoLegal_promotion (b : Board) (m : Z) :
  PiecesOK b ->
  Move.getMoveType m = MoveType.PROMOTION ->
  Move.getFrom m <> Move.getTo m ->
  rd (m_board b) (Move.getFrom m) = Piece.make (m_side b) PieceType.PAWN ->
  (if Move.getTo m - Move.getFrom m
      =? (match m_side b with Color.WHITE => 8 | Color.BLACK => -8 end)
   then Z.testbit (BitBoard.b_not (allPieces b)) (Move.getTo m) = true
   else Z.testbit (byColor b (Color.getOpposite (m_side b))) (Move.getTo m) = true) ->
  pseudoLegal b m = true.
Proof.
  intros OK Hty Hne Hp Ht.
  pose proof (getTo_range m) as Htr.
  unfold pseudoLegal. cbv zeta. rewrite Hty, Hp.
  change (MoveType.PROMOTION =? MoveType.SIMPLE) with false.
  change (MoveType.PROMOTION =? MoveType.PROMOTION) with true. cbv iota.
  rewrite Z.eqb_refl.
  destruct (Z.eqb_spec (Move.getFrom m) (Move.getTo m)) as [| _]; [contradiction |].
  destruct (_ =? match m_side b with Color.BLACK => _ | Color.WHITE => _ end).
  - rewrite (empty_square b _ OK Htr Ht). now destruct (m_side b).
  - rewrite (enemy_square b _ OK Htr Ht). now destruct (m_side b).
Qed.

Lemma pseudoLegal_enpassant (b : Board) (m : Z) :
  Move.getMoveType m = MoveType.ENPASSANT ->
  Move.getFrom m <> Move.getTo m ->
  rd (m_board b) (Move.getFrom m) = Piece.make (m_side b) PieceType.PAWN ->
  rd (m_board b) (Move.getTo m) = Piece.NONE ->
  enpassantCapturedSq (m_side b) (Move.getTo m) < 64 ->
  rd (m_board b) (enpassantCapturedSq (m_side b) (Move.getTo m))
    = Piece.make (Color.getOpposite (m_side b)) PieceType.PAWN ->
  pseudoLegal b m = true.
Proof.
  intros Hty Hne Hp Ht Hcs Hc.
  unfold pseudoLegal. cbv zeta. rewrite Hty, Hp, Ht, Hc.
  change (MoveType.ENPASSANT =? MoveType.SIMPLE) with false.
  change (MoveType.ENPASSANT =? MoveType.PROMOTION) with false.
  change (MoveType.ENPASSANT =? MoveType.ENPASSANT) with true. cbv iota.
  rewrite !Z.eqb_refl.
  destruct (Z.eqb_spec (Move.getFrom m) (Move.getTo m)) as [| _]; [contradiction |].
  destruct (Z.ltb_spec (enpassantCapturedSq (m_side b) (Move.getTo m)) 64); [| lia].
  now destruct (m_side b).
Qed.

Lemma pseudoLegal_castle (b : Board) (m : Z) :
  Move.getMoveType m = MoveType.CASTLE ->
  Move.getFrom m = Square.makeRelativeSquare (m_side b) Square.E1 ->
  (Move.getTo m = Square.makeRelativeSquare (m_side b) Square.G1
   \/ Move.getTo m = Square.makeRelativeSquare (m_side b) Square.C1) ->
  rd (m_board b) (Move.getFrom m) = Piece.make (m_side b) PieceType.KING ->
  rd (m_board b) (Move.getTo m) = Piece.NONE ->
  rd (m_board b)
     (fst (castlingRookSquares (m_side b) true (Square.getFile (Move.getTo m) =? File.G)))
    = Piece.make (m_side b) PieceType.ROOK ->
  rd (m_board b)
     (snd (castlingRookSquares (m_side b) true (Square.getFile (Move.getTo m) =? File.G)))
    = Piece.NONE ->
  pseudoLegal b m = true.
Proof.
  intros Hty Hf Ht Hk He Hr Hre.
  unfold pseudoLegal. cbv zeta. rewrite Hty, Hk, He, Hr, Hre, Hf.
  change (MoveType.CASTLE =? MoveType.SIMPLE) with false.
  change (MoveType.CASTLE =? MoveType.PROMOTION) with false.
  change (MoveType.CASTLE =? MoveType.ENPASSANT) with false. cbv iota.
  rewrite !Z.eqb_refl.
  destruct Ht as [-> | ->]; destruct (m_side b); reflexivity.
Qed.

(** *** The move words of the generator *)

Definition wordOK (f t mt : Z) : bool :=
  let m := Move.make f t mt PieceType.KNIGHT in
  (Move.getFrom m =? f) && (Move.getTo m =? t) && (Move.getMoveType m =? mt).

Lemma special_words :
  forallb (fun f => forallb (fun t =>
      wordOK f t MoveType.ENPASSANT && wordOK f t MoveType.CASTLE
      && (Move.getFrom (Move.make2 f t) =? f) && (Move.getTo (Move.make2 f t) =? t)
      && (Move.getMoveType (Move.make2 f t) =? MoveType.SIMPLE))
    Square.iter) Square.iter = true.
Proof. vm_compute. reflexivity. Qed.

Lemma word_fields (f t : Z) :
  0 <= f < 64 -> 0 <= t < 64 ->
  (Move.getFrom (Move.make2 f t) = f /\ Move.getTo (Move.make2 f t) = t
   /\ Move.getMoveType (Move.make2 f t) = MoveType.SIMPLE)
  /\ (forall mt, mt = MoveType.ENPASSANT \/ mt = MoveType.CASTLE ->
        Move.getFrom (Move.make f t mt PieceType.KNIGHT) = f
        /\ Move.getTo (Move.make f t mt PieceType.KNIGHT) = t
        /\ Move.getMoveType (Move.make f t mt PieceType.KNIGHT) = mt).
Proof.
  intros Hf Ht. pose proof special_words as H.
  rewrite forallb_forall in H. specialize (H f (In_Square_iter f Hf)).
  rewrite forallb_forall in H. specialize (H t (In_Square_iter t Ht)).
  unfold wordOK in H. rewrite !andb_true_iff, !Z.eqb_eq in H.
  split; [tauto |]. intros mt [-> | ->]; tauto.
Qed.


Lemma own_bit_of_piece (b : Board) (pt sq : Z) :
  PiecesOK b -> 1 <= pt <= 6 -> 0 <= sq < 64 ->
  Z.testbit (byPiece b (Piece.make (m_side b) pt)) sq = true ->
  rd (m_board b) sq = Piece.make (m_side b) pt
  /\ Z.testbit (byColor b (m_side b)) sq = true.
Proof.
  intros OK Hpt Hsq Hb.
  assert (Hcode : isPieceCode (Piece.make (m_side b) pt) = true
                  /\ Piece.getColor (Piece.make (m_side b) pt) = m_side b).
  { assert (Hc : pt = 1 \/ pt = 2 \/ pt = 3 \/ pt = 4 \/ pt = 5 \/ pt = 6) by lia.
    destruct (m_side b); decompose [or] Hc; subst; split; reflexivity. }
  destruct Hcode as [Hq Hqc].
  assert (Hp : rd (m_board b) sq = Piece.make (m_side b) pt) by now apply piece_at.
  split; [exact Hp |].
  unfold byColor. apply testbit_color_at; auto; now rewrite Hp.
Qed.

Lemma inU64_byPiece (b : Board) (pt : Z) :
  PiecesOK b -> 1 <= pt <= 6 -> inU64 (byPiece b (Piece.make (m_side b) pt)) = true.
Proof.
  intros OK Hpt. apply (ok_pieces b OK).
  assert (Hc : pt = 1 \/ pt = 2 \/ pt = 3 \/ pt = 4 \/ pt = 5 \/ pt = 6) by lia.
  destruct (m_side b); decompose [or] Hc; subst; cbv; split; congruence.
Qed.

(** A simple move from a square of the side to move to a square that is
    not. *)
Lemma simple_move_ok (b : Board) (f t : Z) :
  PiecesOK b -> 0 <= f < 64 -> 0 <= t < 64 ->
  Z.testbit (byColor b (m_side b)) f = true ->
  Z.testbit (byColor b (m_side b)) t = false ->
  pseudoLegal b (Move.make2 f t) = true.
Proof.
  intros OK Hf Ht Hbf Hbt.
  destruct (word_fields f t Hf Ht) as [(H1 & H2 & H3) _].
  apply pseudoLegal_simple; auto; now rewrite ?H1, ?H2.
Qed.

Section Generator.
Context (b : Board) (OK : PiecesOK b).

Lemma king_moves_ok (bb m : Z) :
  byPiece b (Piece.make (m_side b) PieceType.KING) <> 0 ->
  inU64 bb = true -> notOwn b bb ->
  In m (map (fun sq => Move.make2 (king b (m_side b)) sq) (BitBoard.squares bb)) ->
  pseudoLegal b m = true.
Proof.
  intros Hk Hu Hn Hin. apply in_map_iff in Hin as (sq & <- & Hsq).
  apply squares_sound in Hsq as [Hr Hb]; [| exact Hu].
  destruct (king_square b (m_side b) OK Hk) as [Hkr Hkb].
  apply simple_move_ok; auto.
  unfold byColor. apply testbit_color_at; auto; rewrite Hkb; now destruct (m_side b).
Qed.

Lemma piece_moves_ok (Mode : movegen.GenerationMode) (PT occ trg m : Z) :
  2 <= PT <= 5 -> inU64 trg = true -> notOwn b trg ->
  In m (generatePieceMoves (m_side b) Mode PT b occ trg) -> pseudoLegal b m = true.
Proof.
  intros Hpt Hu Hn Hin. unfold generatePieceMoves in Hin.
  apply in_flat_map in Hin as (f & Hf & Hin).
  apply in_map_iff in Hin as (t & <- & Ht).
  apply squares_sound in Hf as [Hfr Hfb]; [| apply inU64_byPiece; [exact OK | lia]].
  apply own_bit_of_piece in Hfb as [_ Hfb]; [| exact OK | lia | exact Hfr].
  destruct (_ && _).
  - apply squares_sound in Ht as [Htr Htb];
      [| now apply inU64_land_l, inU64_land_r].
    apply simple_move_ok; auto. apply Hn; [exact Htr |].
    rewrite !Z.land_spec, !andb_true_iff in Htb. tauto.
  - apply squares_sound in Ht as [Htr Htb]; [| now apply inU64_land_r].
    apply simple_move_ok; auto. apply Hn; [exact Htr |].
    rewrite !Z.land_spec, !andb_true_iff in Htb. tauto.
Qed.

(** The square a pawn came from, one step against the direction. *)
Lemma step_back (X : Z) (d : Direction.t) (sq : Z) :
  inU64 X = true -> 0 <= sq < 64 -> Z.testbit (BitBoard.shift X d) sq = true ->
  0 <= Square.shift sq (Direction.getOpposite d) < 64
  /\ Z.testbit X (Square.shift sq (Direction.getOpposite d)) = true.
Proof. apply shift_inv. Qed.

Definition pawnsOnly (X : Z) : Prop :=
  inU64 X = true
  /\ forall f, Z.testbit X f = true ->
       Z.testbit (byPiece b (Piece.make (m_side b) PieceType.PAWN)) f = true.

Lemma pawn_step_ok (X : Z) (d : Direction.t) (bb m : Z) :
  pawnsOnly X -> notOwn b bb ->
  In m (map (fun sq => Move.make2 (Square.shift sq (Direction.getOpposite d)) sq)
          (BitBoard.squares (Z.land (BitBoard.shift X d) bb))) ->
  pseudoLegal b m = true.
Proof.
  intros [Hu HX] Hn Hin. apply in_map_iff in Hin as (sq & <- & Hsq).
  apply squares_sound in Hsq as [Hr Hb]; [| now apply inU64_land_l, inU64_shift].
  rewrite Z.land_spec, andb_true_iff in Hb. destruct Hb as [Hs Hbb].
  apply step_back in Hs as [Hfr Hfb]; [| exact Hu | exact Hr].
  apply HX, own_bit_of_piece in Hfb as [_ Hfb]; [| exact OK | cbv; split; congruence | exact Hfr].
  apply simple_move_ok; auto.
Qed.

Lemma pawn_double_ok (X : Z) (d : Direction.t) (e bb m : Z) :
  pawnsOnly X -> notOwn b bb ->
  In m (map (fun sq => Move.make2
                         (Square.shift (Square.shift sq (Direction.getOpposite d))
                            (Direction.getOpposite d)) sq)
          (BitBoard.squares
             (Z.land (BitBoard.shift (Z.land (BitBoard.shift X d) e) d) bb))) ->
  pseudoLegal b m = true.
Proof.
  intros [Hu HX] Hn Hin. apply in_map_iff in Hin as (sq & <- & Hsq).
  assert (Hu1 : inU64 (Z.land (BitBoard.shift X d) e) = true)
    by now apply inU64_land_l, inU64_shift.
  apply squares_sound in Hsq as [Hr Hb]; [| now apply inU64_land_l, inU64_shift].
  rewrite Z.land_spec, andb_true_iff in Hb. destruct Hb as [Hs Hbb].
  apply step_back in Hs as [Hmr Hmb]; [| exact Hu1 | exact Hr].
  rewrite !Z.land_spec, !andb_true_iff in Hmb. destruct Hmb as [Hmb _].
  apply step_back in Hmb as [Hfr Hfb]; [| exact Hu | exact Hmr].
  apply HX, own_bit_of_piece in Hfb as [_ Hfb]; [| exact OK | cbv; split; congruence | exact Hfr].
  apply simple_move_ok; auto.
Qed.
End Generator.


Definition dirOffset (d : Direction.t) : Z :=
  match d with
  | Direction.UP => 8 | Direction.DOWN => -8
  | Direction.LEFT => -1 | Direction.RIGHT => 1
  | Direction.UPRIGHT => 9 | Direction.UPLEFT => 7
  | Direction.DOWNRIGHT => -7 | Direction.DOWNLEFT => -9
  end.

Lemma back_offset (d : Direction.t) (sq : Z) :
  0 <= sq < 64 -> 0 <= Square.shift sq (Direction.getOpposite d) < 64 ->
  sq - Square.shift sq (Direction.getOpposite d) = dirOffset d.
Proof.
  intros Hsq. destruct d; cbn [Direction.getOpposite Square.shift dirOffset];
    unfold Int.u8; intros H;
    match type of H with
    | _ <= ?x mod 256 < _ =>
        pose proof (Z.div_mod x 256 ltac:(lia));
        pose proof (Z.mod_pos_bound x 256 ltac:(lia))
    end; lia.
Qed.

Section Generator2.
Context (b : Board) (OK : PiecesOK b).

Let side := m_side b.
Let pawns := byPiece b (Piece.make (m_side b) PieceType.PAWN).

Lemma promotion_moves_ok (Mode : movegen.GenerationMode) (d : Direction.t) (bb m : Z) :
  (dirOffset d = (match m_side b with Color.WHITE => 8 | Color.BLACK => -8 end)
   /\ (forall t, 0 <= t < 64 -> Z.testbit bb t = true ->
         Z.testbit (BitBoard.b_not (allPieces b)) t = true))
  \/ (dirOffset d <> (match m_side b with Color.WHITE => 8 | Color.BLACK => -8 end)
      /\ (forall t, 0 <= t < 64 -> Z.testbit bb t = true ->
            Z.testbit (byColor b (Color.getOpposite (m_side b))) t = true)) ->
  In m (flat_map (emitPromotions Mode (Direction.getOpposite d))
          (BitBoard.squares
             (Z.land (BitBoard.shift
                        (Z.land pawns
                           (BitBoard.fromRank (Rank.makeRelativeRank (m_side b) Rank.R7))) d)
                bb))) ->
  pseudoLegal b m = true.
Proof.
  intros Hd Hin. apply in_flat_map in Hin as (sq & Hsq & Hin).
  assert (Hpu : inU64 pawns = true) by (apply inU64_byPiece; [exact OK | unfold PieceType.PAWN; lia]).
  apply squares_sound in Hsq; [| now apply inU64_land_l, inU64_shift, inU64_land_l].
  destruct Hsq as [Hr Hb]. rewrite Z.land_spec, andb_true_iff in Hb. destruct Hb as [Hb Hbb].
  apply shift_inv in Hb; [| now apply inU64_land_l | exact Hr].
  destruct Hb as [Hfr Hb]. rewrite Z.land_spec, andb_true_iff in Hb. destruct Hb as [Hb _].
  pose proof (back_offset d sq Hr Hfr) as Hoff.
  set (f := Square.shift sq (Direction.getOpposite d)) in *.
  unfold emitPromotions in Hin. fold f in Hin.
  assert (Hx : exists pt, 2 <= pt < 6 /\ m = Move.make f sq MoveType.PROMOTION pt).
  { destruct Hin as [<- | Hin];
      [exists PieceType.QUEEN; split; [unfold PieceType.QUEEN; lia | reflexivity] |].
    destruct (negb _); [| destruct Hin].
    destruct Hin as [<- | [<- | [<- | []]]];
      [exists PieceType.ROOK | exists PieceType.BISHOP | exists PieceType.KNIGHT];
      (split; [unfold PieceType.ROOK, PieceType.BISHOP, PieceType.KNIGHT; lia
              | reflexivity]). }
  destruct Hx as (pt & Hpt & ->).
  destruct (make_promotion_fields f sq pt Hfr Hr Hpt) as (Hmf & Hmt & Hty & _).
  assert (Hboard : rd (m_board b) f = Piece.make (m_side b) PieceType.PAWN)
    by now apply own_pawn_square.
  apply pseudoLegal_promotion; rewrite ?Hmf, ?Hmt; auto.
  - intros E. rewrite E in Hboard.
    destruct Hd as [[_ Hd] | [_ Hd]]; specialize (Hd sq Hr Hbb).
    + rewrite (empty_square b sq OK Hr Hd) in Hboard. now destruct (m_side b).
    + apply enemy_square in Hd; auto. rewrite Hboard in Hd. now destruct (m_side b).
  - rewrite Hoff. destruct Hd as [[Hd Hbbs] | [Hd Hbbs]].
    + rewrite Hd, Z.eqb_refl. now apply Hbbs.
    + apply Z.eqb_neq in Hd. rewrite Hd. now apply Hbbs.
Qed.

Lemma enpassant_moves_ok (st_ep bb m : Z) :
  0 <= st_ep < 64 ->
  rd (m_board b) st_ep = Piece.NONE ->
  enpassantCapturedSq (m_side b) st_ep < 64 ->
  rd (m_board b) (enpassantCapturedSq (m_side b) st_ep)
    = Piece.make (Color.getOpposite (m_side b)) PieceType.PAWN ->
  In m (map (fun from => Move.make from st_ep MoveType.ENPASSANT PieceType.KNIGHT)
          (BitBoard.squares (Z.land pawns bb))) ->
  pseudoLegal b m = true.
Proof.
  intros Hep Hempty Hcs Hcap Hin. apply in_map_iff in Hin as (f & <- & Hf).
  assert (Hpu : inU64 pawns = true) by (apply inU64_byPiece; [exact OK | unfold PieceType.PAWN; lia]).
  apply squares_sound in Hf as [Hfr Hfb]; [| now apply inU64_land_l].
  rewrite Z.land_spec, andb_true_iff in Hfb. destruct Hfb as [Hfb _].
  assert (Hboard : rd (m_board b) f = Piece.make (m_side b) PieceType.PAWN)
    by now apply own_pawn_square.
  destruct (word_fields f st_ep Hfr Hep) as [_ Hw].
  destruct (Hw MoveType.ENPASSANT (or_introl eq_refl)) as (H1 & H2 & H3).
  apply pseudoLegal_enpassant; rewrite ?H1, ?H2; auto.
  intros E. rewrite E, Hempty in Hboard. now destruct (m_side b).
Qed.
End Generator2.


Lemma free_of_internal (b : Board) (mask sq : Z) :
  PiecesOK b -> Z.land mask (allPieces b) = 0 -> 0 <= sq < 64 ->
  Z.testbit mask sq = true -> rd (m_board b) sq = Piece.NONE.
Proof.
  intros OK Hland Hsq Hm. apply empty_square; auto.
  rewrite b_not_testbit.
  assert (Hl : Z.testbit (Z.land mask (allPieces b)) sq = false)
    by (rewrite Hland; apply Z.bits_0).
  rewrite Z.land_spec, Hm in Hl. cbn [andb] in Hl. rewrite Hl.
  destruct (Z.leb_spec 0 sq), (Z.ltb_spec sq 64); (reflexivity || lia).
Qed.

Lemma castle_move_ok (b : Board) (castle : Castle.t) (file corner : Z) :
  PiecesOK b ->
  (castle = Castle.KING_CASTLE /\ file = File.G /\ corner = Square.H1)
  \/ (castle = Castle.QUEEN_CASTLE /\ file = File.C /\ corner = Square.A1) ->
  byPiece b (Piece.make (m_side b) PieceType.KING) <> 0 ->
  Castle.hasCastleRight (castleRight (state b)) castle (m_side b) = true ->
  castleRightOK b castle corner = true ->
  Z.land (BitBoard.castlingInternalSquares (m_side b) castle) (allPieces b) = 0 ->
  pseudoLegal b (Move.make (king b (m_side b))
                   (Square.make file (Rank.makeRelativeRank (m_side b) Rank.R1))
                   MoveType.CASTLE PieceType.KNIGHT) = true.
Proof.
  intros OK Hc Hking Hright Hok Hfree.
  unfold castleRightOK in Hok. cbv zeta in Hok. rewrite Hright in Hok. cbn [implb] in Hok.
  apply andb_true_iff in Hok as [Hk Hrook]. apply Z.eqb_eq in Hk, Hrook.
  destruct (king_square b (m_side b) OK Hking) as [_ Hkb].
  rewrite Hk in *. clear Hk Hking Hright.
  assert (Hempty : forall sq, 0 <= sq < 64 ->
            Z.testbit (BitBoard.castlingInternalSquares (m_side b) castle) sq = true ->
            rd (m_board b) sq = Piece.NONE)
    by (intros sq; now apply free_of_internal).
  destruct (m_side b) eqn:Es;
    destruct Hc as [(-> & -> & ->) | (-> & -> & ->)];
    match goal with
    | |- pseudoLegal _ (Move.make ?f ?t _ _) = true =>
        let f' := eval vm_compute in f in
        let t' := eval vm_compute in t in
        change f with f' in *; change t with t' in *;
        destruct (word_fields f' t' ltac:(lia) ltac:(lia)) as [_ Hw];
        destruct (Hw MoveType.CASTLE (or_intror eq_refl)) as (H1 & H2 & H3)
    end;
    (apply pseudoLegal_castle; rewrite ?H1, ?H2, ?Es;
     [ exact H3 | reflexivity | (left; reflexivity) || (right; reflexivity)
     | exact Hkb | apply Hempty; [lia | reflexivity]
     | exact Hrook
     | match goal with
       | |- rd _ ?i = _ => let v := eval vm_compute in i in change i with v
       end; apply Hempty; [lia | reflexivity] ]).
Qed.


Lemma inU64_bits (z : Z) :
  (forall i, 64 <= i -> Z.testbit z i = false) -> inU64 z = true.
Proof.
  intros H. replace z with (Int.u64 z); [apply inU64_u64 |].
  unfold Int.u64. apply Z.bits_inj'. intros i Hi. rewrite Z.land_spec.
  destruct (Z.lt_ge_cases i 64).
  - rewrite Z.ones_spec_low by lia. apply andb_true_r.
  - rewrite Z.ones_spec_high, H by lia. reflexivity.
Qed.

Lemma inU64_lxor (x y : Z) : inU64 x = true -> inU64 y = true -> inU64 (Z.lxor x y) = true.
Proof.
  intros Hx Hy. apply inU64_bits. intros i Hi.
  now rewrite Z.lxor_spec, (inU64_testbit_high x i Hx), (inU64_testbit_high y i Hy).
Qed.

Lemma inU64_lor (x y : Z) : inU64 x = true -> inU64 y = true -> inU64 (Z.lor x y) = true.
Proof.
  intros Hx Hy. apply inU64_bits. intros i Hi.
  now rewrite Z.lor_spec, (inU64_testbit_high x i Hx), (inU64_testbit_high y i Hy).
Qed.

Lemma stateConsistent_spec (b : Board) :
  stateConsistent b = true ->
  byPiece b (Piece.make (m_side b) PieceType.KING) <> 0
  /\ (forall t, Z.testbit (checkGivers (state b)) t = true ->
        Z.testbit (byColor b (Color.getOpposite (m_side b))) t = true)
  /\ notOwn b (BitBoard.betweenBits (king b (m_side b)) (BitBoard.lsb (checkGivers (state b))))
  /\ (ep (state b) <> Square.NO_POS ->
        0 <= ep (state b) < 64
        /\ rd (m_board b) (ep (state b)) = Piece.NONE
        /\ enpassantCapturedSq (m_side b) (ep (state b)) < 64
        /\ rd (m_board b) (enpassantCapturedSq (m_side b) (ep (state b)))
           = Piece.make (Color.getOpposite (m_side b)) PieceType.PAWN)
  /\ castleRightOK b Castle.KING_CASTLE Square.H1 = true
  /\ castleRightOK b Castle.QUEEN_CASTLE Square.A1 = true.
Proof.
  unfold stateConsistent. cbv zeta. rewrite !andb_true_iff.
  intros [[[[[Hk Hcg] Hbt] Hep] Hck] Hcq].
  apply negb_true_iff, Z.eqb_neq in Hk. apply Z.eqb_eq in Hcg, Hbt.
  split; [exact Hk |]. split.
  { intros t Ht. rewrite <- Hcg, Z.land_spec in Ht. now apply andb_true_iff in Ht. }
  split; [now apply notOwn_zero_land |].
  split; [| split; assumption].
  intros Hne. apply orb_true_iff in Hep as [Hep | Hep];
    [apply Z.eqb_eq in Hep; contradiction |].
  rewrite !andb_true_iff, Z.leb_le, !Z.ltb_lt, !Z.eqb_eq in Hep. tauto.
Qed.

Lemma pawnsOnly_all (b : Board) :
  PiecesOK b -> pawnsOnly b (byPiece b (Piece.make (m_side b) PieceType.PAWN)).
Proof.
  intros OK. split; [| auto]. apply inU64_byPiece; [exact OK | unfold PieceType.PAWN; lia].
Qed.

Lemma pawnsOnly_nonPromotable (b : Board) (r : Z) :
  PiecesOK b ->
  pawnsOnly b (Z.lxor (byPiece b (Piece.make (m_side b) PieceType.PAWN))
                 (Z.land (byPiece b (Piece.make (m_side b) PieceType.PAWN)) r)).
Proof.
  intros OK. destruct (pawnsOnly_all b OK) as [Hu _]. split.
  - apply inU64_lxor; [exact Hu | now apply inU64_land_l].
  - intros f. rewrite Z.lxor_spec, Z.land_spec.
    destruct (Z.testbit (byPiece b _) f); [reflexivity | discriminate].
Qed.

Lemma inU64_byColor (b : Board) (c : Color.t) : PiecesOK b -> inU64 (byColor b c) = true.
Proof. intros OK. apply (ok_color b OK). Qed.

Lemma up_offset (side : Color.t) :
  dirOffset (Direction.makeRelativeDirection side Direction.UP)
  = match side with Color.WHITE => 8 | Color.BLACK => -8 end.
Proof. now destruct side. Qed.

Lemma diagonal_offset (side : Color.t) (d : Direction.t) :
  d = Direction.UPLEFT \/ d = Direction.UPRIGHT ->
  dirOffset (Direction.makeRelativeDirection side d)
  <> match side with Color.WHITE => 8 | Color.BLACK => -8 end.
Proof. intros [-> | ->]; destruct side; discriminate. Qed.

Lemma inU64_betweenBits (a c : Z) : inU64 (BitBoard.betweenBits a c) = true.
Proof.
  unfold BitBoard.betweenBits. apply inU64_lor; [| apply inU64_u64].
  assert (H : forall l acc, inU64 acc = true ->
            inU64 (fold_left (fun acc dir =>
                     if Z.testbit (BitBoard.directionBits a dir) c
                     then Z.land (BitBoard.directionBits a dir)
                            (BitBoard.b_not (BitBoard.directionBits c dir))
                     else acc) l acc) = true).
  { induction l as [| d l IH]; intros acc Hacc; cbn [fold_left]; [exact Hacc |].
    apply IH. destruct (Z.testbit _ c); [apply inU64_land_r, inU64_b_not | exact Hacc]. }
  now apply H.
Qed.

(** Bitboards of the generator: 64 bits, and free of the pieces of the
    side to move. *)
Ltac in_u64 :=
  lazymatch goal with
  | |- inU64 (BitBoard.b_not _) = true => apply inU64_b_not
  | |- inU64 (byColor _ _) = true => apply inU64_byColor; assumption
  | |- inU64 (BitBoard.betweenBits _ _) = true => apply inU64_betweenBits
  | |- inU64 (Int.u64 _) = true => apply inU64_u64
  | |- inU64 (BitBoard.shift _ _) = true => apply inU64_shift; in_u64
  | |- inU64 (Z.lxor _ _) = true => apply inU64_lxor; in_u64
  | |- inU64 (Z.land _ _) = true =>
      first [ apply inU64_land_r; solve [in_u64] | apply inU64_land_l; solve [in_u64] ]
  | |- inU64 (byPiece _ _) = true =>
      apply inU64_byPiece; [assumption | unfold PieceType.PAWN; lia]
  | |- inU64 _ = true => assumption
  end.

Ltac not_own :=
  lazymatch goal with
  | |- notOwn _ (BitBoard.b_not (byColor _ _)) => apply notOwn_b_not_own
  | |- notOwn _ (BitBoard.b_not (allPieces _)) => apply notOwn_empty
  | |- notOwn _ (byColor _ (Color.getOpposite _)) => apply notOwn_enemy; assumption
  | |- notOwn _ (Z.land _ _) =>
      first [ apply notOwn_land_l; solve [not_own] | apply notOwn_land_r; solve [not_own] ]
  | |- notOwn _ _ => assumption
  end.

Ltac pawns_only :=
  first [ apply pawnsOnly_nonPromotable; assumption | apply pawnsOnly_all; assumption ].

Ltac gen_split H :=
  repeat match type of H with
  | In _ (_ ++ _) => apply in_app_or in H; destruct H as [H | H]
  | In _ (if ?c then _ else _) => let E := fresh "E" in destruct c eqn:E
  | In _ (let '(_, _) := (if ?c then _ else _) in _) => destruct c
  | In _ (let '(_, _) := (_, _) in _) => cbv beta iota in H
  | In _ [] => destruct H
  end.

(** Decide the tests of the mode that are left in a part. *)
Ltac mode_cases H :=
  repeat match type of H with
  | context [movegen.eqb ?M ?x] => destruct (movegen.eqb M x)
  end;
  cbn [negb andb orb] in H; cbv beta iota in H;
  rewrite <- ?Z.land_assoc in H.

Ltac subset_bits :=
  let t := fresh "t" in let Ht := fresh "Ht" in let Hb := fresh "Hb" in
  intros t Ht Hb; rewrite ?Z.land_spec, ?andb_true_iff in Hb; first [tauto | auto].

Ltac gen_leaf OK Hking H :=
  lazymatch type of H with
  | In _ (map (fun sq => Move.make2 (king _ _) sq) _) =>
      refine (king_moves_ok _ OK _ _ Hking _ _ H); [in_u64 | not_own]
  | In _ (generatePieceMoves _ _ _ _ _ _) =>
      refine (piece_moves_ok _ OK _ _ _ _ _ _ _ _ H);
        [ unfold PieceType.KNIGHT, PieceType.BISHOP, PieceType.ROOK, PieceType.QUEEN; lia
        | in_u64 | not_own ]
  | In _ (map (fun sq => Move.make2 (Square.shift (Square.shift sq _) _) sq) _) =>
      refine (pawn_double_ok _ OK _ _ _ _ _ _ _ H); [pawns_only | not_own]
  | In _ (map (fun sq => Move.make2 (Square.shift sq _) sq) _) =>
      refine (pawn_step_ok _ OK _ _ _ _ _ _ H); [pawns_only | not_own]
  | In _ (flat_map (emitPromotions _ (Direction.getOpposite
                      (Direction.makeRelativeDirection _ Direction.UP))) _) =>
      refine (promotion_moves_ok _ OK _ _ _ _ (or_introl (conj (up_offset _) _)) H);
      subset_bits
  | In _ (flat_map (emitPromotions _ (Direction.getOpposite
                      (Direction.makeRelativeDirection _ Direction.UPLEFT))) _) =>
      refine (promotion_moves_ok _ OK _ _ _ _
                (or_intror (conj (diagonal_offset _ _ (or_introl eq_refl)) _)) H);
      subset_bits
  | In _ (flat_map (emitPromotions _ (Direction.getOpposite
                      (Direction.makeRelativeDirection _ Direction.UPRIGHT))) _) =>
      refine (promotion_moves_ok _ OK _ _ _ _
                (or_intror (conj (diagonal_offset _ _ (or_intror eq_refl)) _)) H);
      subset_bits
  | _ => idtac
  end.

Theorem generateMoves_side_pseudoLegal (b : Board) (Mode : movegen.GenerationMode) (m : Z) :
  PiecesOK b -> stateConsistent b = true ->
  In m (generateMoves_side (m_side b) Mode b) -> pseudoLegal b m = true.
Proof.
  intros OK Hst Hin.
  destruct (stateConsistent_spec b Hst) as (Hking & Hcg & Hbetween & Hep & Hck & Hcq).
  assert (Hcgn : notOwn b (checkGivers (state b))).
  { intros t Ht Hb. apply color_bit_exclusive; auto. }
  assert (Hcgu : inU64 (checkGivers (state b)) = true).
  { apply inU64_bits. intros i Hi.
    destruct (Z.testbit (checkGivers (state b)) i) eqn:Hb; [| reflexivity].
    apply Hcg in Hb. now rewrite (inU64_testbit_high _ i (inU64_byColor b _ OK) Hi) in Hb. }
  assert (Hrel : forall d, Direction.makeRelativeDirection (m_side b) (Direction.getOpposite d)
                     = Direction.getOpposite (Direction.makeRelativeDirection (m_side b) d)).
  { intros d. destruct (m_side b), d; reflexivity. }
  unfold generateMoves_side in Hin. gen_split Hin.
  all: change Direction.DOWN with (Direction.getOpposite Direction.UP) in Hin;
       change Direction.DOWNRIGHT with (Direction.getOpposite Direction.UPLEFT) in Hin;
       change Direction.DOWNLEFT with (Direction.getOpposite Direction.UPRIGHT) in Hin;
       rewrite ?Hrel in Hin; mode_cases Hin.
  all: try solve [gen_leaf OK Hking Hin].
  all: try match type of Hin with
       | In _ (map (fun from => Move.make from _ MoveType.ENPASSANT _) _) =>
           match goal with
           | Hne : negb (ep _ =? Square.NO_POS) = true |- _ =>
               apply negb_true_iff, Z.eqb_neq in Hne;
               destruct (Hep Hne) as (He1 & He2 & He3 & He4);
               exact (enpassant_moves_ok b OK _ _ m He1 He2 He3 He4 Hin)
           end
       end.
  all: destruct Hin as [<- | []].
  all: match goal with
       | Hc : Castle.hasCastleRight _ _ _ && _ = true |- _ =>
           apply andb_true_iff in Hc as [Hright Hfree]; apply Z.eqb_eq in Hfree
       end.
  all: first [ apply (castle_move_ok b Castle.KING_CASTLE File.G Square.H1); auto; fail
             | apply (castle_move_ok b Castle.QUEEN_CASTLE File.C Square.A1); auto ].
Qed.

(* ===================================================================== *)
(** ** Board: what the generator, makeMove and the null move guarantee *)
(* ===================================================================== *)

(** The generator is sound in every mode: in a position that satisfies the
    consistency invariant and whose top state agrees with the placement,
    every move it yields is pseudo-legal. *)
Lemma generateMoves_sound (b : Board) (Mode : movegen.GenerationMode) (moves : list Z) (m : Z) :
  boardInvariant b = true -> stateConsistent b = true ->
  In m (generateMoves Mode b moves) -> In m moves \/ pseudoLegal b m = true.
Proof.
  intros Hinv Hst Hin. apply boardInvariant_PiecesOK in Hinv as [OK _].
  unfold generateMoves in Hin. revert Hin.
  destruct Mode; try destruct (isInCheck b); intros Hin;
    try (right; exact (generateMoves_side_pseudoLegal b _ m OK Hst Hin)).
  all: apply in_app_or in Hin as [Hin | Hin]; [now left |].
  all: right; exact (generateMoves_side_pseudoLegal b _ m OK Hst Hin).
Qed.

(** X1: in a position that satisfies the consistency invariant and whose
    top state agrees with the placement (the check givers are enemy
    pieces with no own piece between them and the king, an en-passant
    square is empty with the enemy pawn in front of it, a castling right
    means king and rook on their home squares), every move
    [generateMoves] appends, in any mode, is pseudo-legal: a piece of the
    side to move leaves its square for a square that holds no piece of
    its own, and the special moves have their pawn, king and rook where
    they must be. *)
Theorem generateMoves_yields_pseudoLegal
  (b : Board) (Mode : movegen.GenerationMode) (moves : list Z) (m : Z) :
  boardInvariant b = true -> stateConsistent b = true ->
  In m (generateMoves Mode b moves) -> In m moves \/ pseudoLegal b m = true.
Proof. apply generateMoves_sound. Qed.

Lemma generateMoves_yields_pseudoLegal_witness :
  In C1_move [] \/ pseudoLegal C1_board C1_move = true.
Proof.
  apply (generateMoves_yields_pseudoLegal C1_board movegen.ALL_MOVES [] C1_move);
    vm_compute; try reflexivity.
  repeat (first [left; reflexivity | right]).
Defined.

(** X2: a generated move can always be taken back: in such a position,
    [makeMove] of a generated move followed by [unmakeMove] gives the
    board back, state stack included. *)
Theorem generated_move_is_unmade
  (zk : ZobristKeys) (b : Board) (Mode : movegen.GenerationMode) (m : Z) :
  boardInvariant b = true -> stateConsistent b = true ->
  In m (generateMoves Mode b []) ->
  unmakeMove m (makeMove zk m b) = b.
Proof.
  intros Hinv Hst Hin. apply unmakeMove_makeMove; [exact Hinv |].
  destruct (generateMoves_sound b Mode [] m Hinv Hst Hin) as [[] | H]. exact H.
Qed.

Lemma generated_move_is_unmade_witness :
  unmakeMove C1_move (makeMove C1_keys C1_move C1_board) = C1_board.
Proof.
  apply (generated_move_is_unmade C1_keys C1_board movegen.ALL_MOVES C1_move);
    vm_compute; try reflexivity.
  repeat (first [left; reflexivity | right]).
Defined.

(** The agreement of the state with the placement is needed: [fromFEN]
    accepts a castling right without a rook on the corner, the generator
    then yields the castling, and unmaking it leaves a rook on h1 that
    the bitboards do not know. *)
Definition rooklessCastle : Board :=
  fst (fromFEN C1_keys "4k3/8/8/8/8/8/8/4K3 w K - 0 1" false).

Remark castling_right_without_rook :
  let m := Move.make Square.E1 Square.G1 MoveType.CASTLE PieceType.KNIGHT in
  boardInvariant rooklessCastle = true
  /\ stateConsistent rooklessCastle = false
  /\ In m (generateMoves movegen.ALL_MOVES rooklessCastle [])
  /\ rd (m_board rooklessCastle) Square.H1 = Piece.NONE
  /\ rd (m_board (unmakeMove m (makeMove C1_keys m rooklessCastle))) Square.H1
     = Piece.ROOK_WHITE.
Proof.
  vm_compute. repeat split. repeat (first [left; reflexivity | right]).
Qed.

(** *** The fields of the top state that only [makeMove] writes *)

(** [updateInternalState] and [updateRepetition] write the check
    information and the repetition distance; the rest of the top state is
    the following. *)
Definition core (st : StateInfo) : Z * Z * Z * Z * Z * Z :=
  (hash st, movesFromNull st, ep st, captured st, fiftyRule st, castleRight st).

Lemma core_eq (st : StateInfo) (h n e c f r : Z) :
  core st = (h, n, e, c, f, r) ->
  hash st = h /\ movesFromNull st = n /\ ep st = e /\ captured st = c
  /\ fiftyRule st = f /\ castleRight st = r.
Proof. destruct st. unfold core. cbn. intros [= -> -> -> -> -> ->]. repeat split. Qed.

Lemma core_fold {A} (f : Board -> A -> Board) (l : list A) (b : Board) :
  (forall b x, core (state (f b x)) = core (state b)) ->
  core (state (fold_left f l b)) = core (state b).
Proof.
  intros Hf. revert b. induction l as [| x l IH]; intros b; cbn; [reflexivity |].
  rewrite IH. apply Hf.
Qed.

Lemma core_updateInternalState_side (b : Board) (c : Color.t) :
  core (state (updateInternalState_side b c)) = core (state b).
Proof.
  unfold updateInternalState_side.
  rewrite core_fold.
  - now rewrite state_set_state.
  - intros b' sq. destruct (_ && _); [| reflexivity].
    rewrite state_set_state. destruct (negb _); reflexivity.
Qed.

Lemma core_updateInternalState (b : Board) :
  core (state (updateInternalState b)) = core (state b).
Proof.
  unfold updateInternalState.
  rewrite !core_updateInternalState_side. now rewrite state_set_state.
Qed.

Lemma core_updateRepetition (b : Board) :
  core (state (updateRepetition b)) = core (state b).
Proof.
  unfold updateRepetition. destruct (_ >=? 4); [| reflexivity].
  destruct (repetitionScan _ _ _ _ _); [| reflexivity].
  now rewrite state_set_state.
Qed.

Lemma last_snoc_rd (l : list StateInfo) (d : StateInfo) :
  rd (l ++ [d]) (Z.of_nat (length (l ++ [d])) - 2) = List.last l d.
Proof.
  unfold rd. rewrite length_app. cbn [length].
  destruct l as [| x l] using rev_ind; [reflexivity |].
  rewrite last_last, length_app. cbn [length].
  replace (Z.to_nat (Z.of_nat (length l + 1 + 1) - 2)) with (length l) by lia.
  rewrite <- app_assoc. cbn. apply list_lookup_total_middle. reflexivity.
Qed.

(** The state [pushNextState] puts on the stack. *)
Lemma state_pushNextState (b : Board) :
  state (pushNextState b)
  = set_hash (set_movesFromNull (set_fiftyRule (set_castleRight StateInfo_default
      (castleRight (state b))) (Int.u8 (fiftyRule (state b) + 1)))
      (Int.u32 (movesFromNull (state b) + 1))) (hash (state b)).
Proof.
  unfold pushNextState. rewrite state_set_state.
  assert (Hprev : rd (m_states (emplace_back b StateInfo_default))
                    (Z.of_nat (length (m_states (emplace_back b StateInfo_default))) - 2)
                  = state b).
  { unfold emplace_back. cbn [m_states set_m_states]. apply last_snoc_rd. }
  rewrite Hprev.
  assert (Htop : state (emplace_back b StateInfo_default) = StateInfo_default).
  { unfold state, emplace_back. cbn [m_states set_m_states]. apply last_last. }
  rewrite Htop. reflexivity.
Qed.

Lemma placement_sameButTop (b b' : Board) :
  sameButTop b b' ->
  m_board b' = m_board b /\ m_pieces b' = m_pieces b
  /\ m_piecesByColor b' = m_piecesByColor b
  /\ m_material b' = m_material b /\ m_score b' = m_score b.
Proof. intros (?&?&?&?&?&?&?&?). repeat split; assumption. Qed.

(** X3: a null move is undone exactly, on every board; while it is made
    the other side is to move, the pieces, material and scores are
    untouched, and the new top state inherits the castling rights,
    counts one more half-move for the fifty-move rule, has no en-passant
    square, no move since the null move, and the hash of before with
    [NULL_MOVE_KEY] folded in. *)
Theorem null_move_is_undone (b : Board) :
  unmakeNullMove (makeNullMove b) = b
  /\ m_side (makeNullMove b) = Color.getOpposite (m_side b)
  /\ m_board (makeNullMove b) = m_board b
  /\ m_pieces (makeNullMove b) = m_pieces b
  /\ m_piecesByColor (makeNullMove b) = m_piecesByColor b
  /\ m_material (makeNullMove b) = m_material b
  /\ m_score (makeNullMove b) = m_score b
  /\ m_moveCount (makeNullMove b) = m_moveCount b
  /\ hash (state (makeNullMove b)) = Z.lxor (hash (state b)) zobrist.NULL_MOVE_KEY
  /\ movesFromNull (state (makeNullMove b)) = 0
  /\ ep (state (makeNullMove b)) = Square.NO_POS
  /\ fiftyRule (state (makeNullMove b)) = Int.u8 (fiftyRule (state b) + 1)
  /\ castleRight (state (makeNullMove b)) = castleRight (state b).
Proof.
  split; [apply unmakeNullMove_makeNullMove |].
  assert (Hs : sameButTop (pushNextState (set_m_side b (Color.getOpposite (m_side b))))
                 (makeNullMove b)).
  { unfold makeNullMove. cbv zeta.
    eapply sameButTop_trans; [apply sameButTop_upd_state |].
    eapply sameButTop_trans; [apply sameButTop_upd_state |].
    apply sameButTop_updateInternalState. }
  assert (Hc : core (state (makeNullMove b))
               = (Z.lxor (hash (state b)) zobrist.NULL_MOVE_KEY, 0, Square.NO_POS,
                  Piece.NONE, Int.u8 (fiftyRule (state b) + 1), castleRight (state b))).
  { unfold makeNullMove. cbv zeta.
    rewrite core_updateInternalState, !state_upd_state.
    rewrite state_pushNextState. reflexivity. }
  apply core_eq in Hc as (H1 & H2 & H3 & _ & H5 & H6).
  destruct Hs as (Hb & Hp & Hpc & _ & Hm & Hsc & Hn & Hsd).
  split; [exact Hsd |]. split; [exact Hb |]. split; [exact Hp |].
  split; [exact Hpc |]. split; [exact Hm |]. split; [exact Hsc |].
  split; [exact Hn |]. split; [exact H1 |]. split; [exact H2 |].
  split; [exact H3 |]. split; [exact H5 | exact H6].
Qed.

(** *** The state [makeMove] leaves on top of the stack *)

Ltac state_step :=
  first [ rewrite state_upd_state; cbv beta
        | rewrite state_set_m_side
        | rewrite state_set_m_moveCount
        | rewrite (state_PieceOnly (fun b => fst (movePieceWithCapture _ _ _ _ b)))
            by apply PieceOnly_move
        | rewrite (state_PieceOnly (fun b => fst (promotePawnWithCapture _ _ _ _ b)))
            by apply PieceOnly_promoteCapture
        | rewrite (state_PieceOnly (promotePawn _ true _ _ _)) by apply PieceOnly_promote
        | rewrite (state_PieceOnly (doEnpassant _ true _ _)) by apply PieceOnly_enpassant
        | rewrite (state_PieceOnly (doCastling _ true _ _)) by apply PieceOnly_castling
        | match goal with
          | |- context [state (if ?c then _ else _)] => destruct c
          end ].

(** The castling rights after a move: the rights of before, cut by the
    masks of the two squares; a castling cuts by the mask of the king's
    square and sets the flag that the side has castled. *)
Definition castleRightAfter (Side : Color.t) (m : Z) (rights : Z) : Z :=
  let from := Move.getFrom m in
  let to := Move.getTo m in
  let mt := Move.getMoveType m in
  if (mt =? MoveType.SIMPLE) || (mt =? MoveType.PROMOTION) then
    Z.land (Z.land rights (Castle.getCastleChangeMask from)) (Castle.getCastleChangeMask to)
  else if mt =? MoveType.ENPASSANT then rights
  else if mt =? MoveType.CASTLE then
    Z.lor (Z.land rights (Castle.getCastleChangeMask from))
          (Castle.getBitMaskFor Castle.CASTLE_DONE Side)
  else rights.

Section StateAfter.
Context (zk : ZobristKeys).

Lemma castleRight_core (b b' : Board) :
  core (state b') = core (state b) -> castleRight (state b') = castleRight (state b).
Proof. unfold core. now intros [= _ _ _ _ _ ->]. Qed.

Lemma castleRight_makeMove_side (Side : Color.t) (m : Z) (b : Board) :
  castleRight (state (makeMove_side zk Side m b))
  = castleRightAfter Side m (castleRight (state b)).
Proof.
  unfold makeMove_side, castleRightAfter. cbv zeta.
  rewrite (castleRight_core _ _ (core_updateRepetition _)).
  rewrite (castleRight_core _ _ (core_updateInternalState _)).
  destruct (Move.getMoveType m =? MoveType.SIMPLE);
    [| destruct (Move.getMoveType m =? MoveType.PROMOTION);
       [| destruct (Move.getMoveType m =? MoveType.ENPASSANT);
          [| destruct (Move.getMoveType m =? MoveType.CASTLE)]]]; cbn [orb].
  - rewrite let_pair. repeat state_step. all: rewrite state_pushNextState. all: reflexivity.
  - destruct (negb (Move.getTo m - Move.getFrom m =? _)).
    + rewrite let_pair. repeat state_step. all: rewrite state_pushNextState. all: reflexivity.
    + repeat state_step. all: rewrite state_pushNextState. all: reflexivity.
  - repeat state_step. all: rewrite state_pushNextState. all: reflexivity.
  - destruct (castlingRookSquares _ _ _). repeat state_step.
    all: rewrite state_pushNextState. all: reflexivity.
  - repeat state_step. all: rewrite state_pushNextState. all: reflexivity.
Qed.
End StateAfter.

(** The fifty-move counter and the en-passant square after a move. *)
Definition fiftyRuleAfter (Side : Color.t) (m : Z) (b : Board) : Z :=
  let from := Move.getFrom m in
  let to := Move.getTo m in
  let mt := Move.getMoveType m in
  if mt =? MoveType.SIMPLE then
    if negb (rd (m_board b) to =? Piece.NONE) then 0
    else if rd (m_board b) from =? Piece.make Side PieceType.PAWN then 0
    else Int.u8 (fiftyRule (state b) + 1)
  else if (mt =? MoveType.PROMOTION) || (mt =? MoveType.ENPASSANT) then 0
  else Int.u8 (fiftyRule (state b) + 1).

Definition epAfter (Side : Color.t) (m : Z) (b : Board) : Z :=
  let from := Move.getFrom m in
  let to := Move.getTo m in
  if (Move.getMoveType m =? MoveType.SIMPLE)
     && (rd (m_board b) to =? Piece.NONE)
     && (rd (m_board b) from =? Piece.make Side PieceType.PAWN)
     && (Square.distance from to =? 2)
  then match Side with
       | Color.WHITE => Square.forward from 8
       | Color.BLACK => Square.backward from 8
       end
  else Square.NO_POS.

(** The hash after a move: [MOVE_KEY] and the keys of the pieces that
    left or reached a square, as [makeMove] folds them in. *)
Definition hashAfter (zk : ZobristKeys) (Side : Color.t) (m : Z) (b : Board) : Z :=
  let from := Move.getFrom m in
  let to := Move.getTo m in
  let mt := Move.getMoveType m in
  let piece := rd (m_board b) from in
  let cap := rd (m_board b) to in
  let pawn := Piece.make Side PieceType.PAWN in
  let h := Z.lxor (hash (state b)) zobrist.MOVE_KEY in
  if mt =? MoveType.SIMPLE then
    Z.lxor (if negb (cap =? Piece.NONE) then Z.lxor h (zPIECE zk cap to) else h)
      (Z.lxor (zPIECE zk piece from) (zPIECE zk piece to))
  else if mt =? MoveType.PROMOTION then
    Z.lxor
      (if negb (to - from =? (match Side with Color.WHITE => 8 | Color.BLACK => -8 end))
          && negb (cap =? Piece.NONE)
       then Z.lxor h (zPIECE zk cap to) else h)
      (Z.lxor (zPIECE zk pawn from)
              (zPIECE zk (Piece.make Side (Move.getPromotedPiece m)) to))
  else if mt =? MoveType.ENPASSANT then
    Z.lxor h (Z.lxor (zPIECE zk pawn from) (zPIECE zk pawn to))
  else if mt =? MoveType.CASTLE then
    let rook := Piece.make Side PieceType.ROOK in
    let king := Piece.make Side PieceType.KING in
    let sqs := castlingRookSquares Side true (Square.getFile to =? File.G) in
    Z.lxor (Z.lxor h (Z.lxor (zPIECE zk king from) (zPIECE zk king to)))
           (Z.lxor (zPIECE zk rook (fst sqs)) (zPIECE zk rook (snd sqs)))
  else h.

Section StateAfter2.
Context (zk : ZobristKeys).

Lemma fiftyRule_core (b b' : Board) :
  core (state b') = core (state b) -> fiftyRule (state b') = fiftyRule (state b).
Proof. unfold core. now intros [= _ _ _ _ -> _]. Qed.

Lemma ep_core (b b' : Board) :
  core (state b') = core (state b) -> ep (state b') = ep (state b).
Proof. unfold core. now intros [= _ _ -> _ _ _]. Qed.

Lemma movesFromNull_core (b b' : Board) :
  core (state b') = core (state b) -> movesFromNull (state b') = movesFromNull (state b).
Proof. unfold core. now intros [= _ -> _ _ _ _]. Qed.

Ltac after_move :=
  destruct (Move.getMoveType _ =? MoveType.SIMPLE);
    [| destruct (Move.getMoveType _ =? MoveType.PROMOTION);
       [| destruct (Move.getMoveType _ =? MoveType.ENPASSANT);
          [| destruct (Move.getMoveType _ =? MoveType.CASTLE)]]];
  cbn [orb andb];
  [ rewrite let_pair
  | destruct (negb (Move.getTo _ - Move.getFrom _ =? _)); [rewrite let_pair |]
  | | destruct (castlingRookSquares _ _ _) | ];
  rewrite ?movePieceWithCapture_captured, ?promotePawnWithCapture_captured,
    ?m_board_upd_state, ?m_board_set_m_side, ?m_board_set_m_moveCount,
    ?m_board_upd_state, ?m_board_pushNextState;
  try match goal with
      | |- context [rd (m_board ?b) (Move.getTo ?m) =? Piece.NONE] =>
          destruct (rd (m_board b) (Move.getTo m) =? Piece.NONE)
      end;
  cbn [negb andb]; cbv iota;
  repeat state_step;
  rewrite ?state_pushNextState.

Lemma fiftyRule_makeMove_side (Side : Color.t) (m : Z) (b : Board) :
  fiftyRule (state (makeMove_side zk Side m b)) = fiftyRuleAfter Side m b.
Proof.
  unfold makeMove_side, fiftyRuleAfter. cbv zeta.
  rewrite (fiftyRule_core _ _ (core_updateRepetition _)).
  rewrite (fiftyRule_core _ _ (core_updateInternalState _)).
  rewrite m_board_pushNextState.
  after_move.
  all: try reflexivity.

Qed.

Lemma ep_makeMove_side (Side : Color.t) (m : Z) (b : Board) :
  ep (state (makeMove_side zk Side m b)) = epAfter Side m b.
Proof.
  unfold makeMove_side, epAfter. cbv zeta.
  rewrite (ep_core _ _ (core_updateRepetition _)).
  rewrite (ep_core _ _ (core_updateInternalState _)).
  rewrite m_board_pushNextState.
  after_move.
  all: reflexivity.
Qed.

Lemma movesFromNull_makeMove_side (Side : Color.t) (m : Z) (b : Board) :
  movesFromNull (state (makeMove_side zk Side m b))
  = Int.u32 (movesFromNull (state b) + 1).
Proof.
  unfold makeMove_side. cbv zeta.
  rewrite (movesFromNull_core _ _ (core_updateRepetition _)).
  rewrite (movesFromNull_core _ _ (core_updateInternalState _)).
  after_move.
  all: reflexivity.
Qed.

Lemma hash_core (b b' : Board) :
  core (state b') = core (state b) -> hash (state b') = hash (state b).
Proof. unfold core. now intros [= -> _ _ _ _ _]. Qed.

Lemma hash_makeMove_side (Side : Color.t) (m : Z) (b : Board) :
  hash (state (makeMove_side zk Side m b)) = hashAfter zk Side m b.
Proof.
  unfold makeMove_side, hashAfter. cbv zeta.
  rewrite (hash_core _ _ (core_updateRepetition _)).
  rewrite (hash_core _ _ (core_updateInternalState _)).
  rewrite m_board_pushNextState.
  after_move.
  all: reflexivity.
Qed.

Lemma makeMove_eq (m : Z) (b : Board) : makeMove zk m b = makeMove_side zk (m_side b) m b.
Proof. unfold makeMove. now destruct (m_side b). Qed.

Lemma m_moveCount_makeMove_side (Side : Color.t) (m : Z) (b : Board) :
  m_moveCount (makeMove_side zk Side m b) = Int.u32 (m_moveCount b + 1).
Proof.
  destruct (makeMove_side_pushed zk Side m b) as [HF _]. rewrite HF.
  change (m_moveCount (set_m_states ?X ?s)) with (m_moveCount X).
  unfold applyMove. cbv zeta.
  repeat match goal with |- context [if ?c then _ else _] => destruct c end;
    unfold movedOn;
    first [ rewrite (SideFree_move _ _ _ _ b)
          | rewrite (SideFree_promoteCapture _ _ _ _ b)
          | rewrite (SideFree_promote _ _ _ _ _ b)
          | rewrite (SideFree_enpassant _ _ _ _ b)
          | rewrite (SideFree_castling _ _ _ _ b)
          | idtac ]; reflexivity.
Qed.

Lemma set_state_top (b : Board) (st : StateInfo) : m_states (set_state b st) <> [].
Proof. unfold set_state. cbn. now destruct (removelast (m_states b)). Qed.

Lemma top_fold {A} (f : Board -> A -> Board) (l : list A) (b : Board) :
  (forall b x, m_states b <> [] -> m_states (f b x) <> []) ->
  m_states b <> [] -> m_states (fold_left f l b) <> [].
Proof.
  intros Hf. revert b. induction l as [| x l IH]; intros b Hb; cbn; [exact Hb |].
  apply IH, Hf, Hb.
Qed.

Lemma top_updateInternalState_side (b : Board) (c : Color.t) :
  m_states (updateInternalState_side b c) <> [].
Proof.
  unfold updateInternalState_side. apply top_fold; [| apply set_state_top].
  intros b' sq Hb'. destruct (_ && _); [apply set_state_top | exact Hb'].
Qed.

Lemma top_makeMove_side (Side : Color.t) (m : Z) (b : Board) :
  m_states (makeMove_side zk Side m b) <> [].
Proof.
  unfold makeMove_side. cbv zeta.
  match goal with |- m_states (updateRepetition ?X) <> [] =>
    assert (H : m_states X <> [])
      by (unfold updateInternalState; apply top_updateInternalState_side);
    generalize dependent X end.
  intros X HX. unfold updateRepetition.
  destruct (_ >=? 4); [| exact HX].
  destruct (repetitionScan _ _ _ _ _); [apply set_state_top | exact HX].
Qed.

Lemma m_states_makeMove_side (Side : Color.t) (m : Z) (b : Board) :
  m_states (makeMove_side zk Side m b)
  = m_states b ++ [state (makeMove_side zk Side m b)].
Proof.
  destruct (makeMove_side_pushed zk Side m b) as [_ Hrem].
  rewrite <- Hrem at 1. apply app_removelast_last, top_makeMove_side.
Qed.
End StateAfter2.

(** *** What a move does to the bookkeeping *)

(** X4: [makeMove] pushes exactly one state and leaves the states below
    as they were, hands the move to the other side, counts one more
    half-move (in 32 bits) and one more move since the last null move,
    and records as captured what stood on the target square of a simple
    move or of a capturing promotion. *)
Theorem makeMove_pushes_one_state (zk : ZobristKeys) (m : Z) (b : Board) :
  m_states (makeMove zk m b) = m_states b ++ [state (makeMove zk m b)]
  /\ m_side (makeMove zk m b) = Color.getOpposite (m_side b)
  /\ m_moveCount (makeMove zk m b) = Int.u32 (m_moveCount b + 1)
  /\ movesFromNull (state (makeMove zk m b)) = Int.u32 (movesFromNull (state b) + 1)
  /\ captured (state (makeMove zk m b)) = capturedBy (m_side b) m b.
Proof.
  rewrite makeMove_eq.
  split; [apply m_states_makeMove_side |].
  split; [apply m_side_makeMove_side |].
  split; [apply m_moveCount_makeMove_side |].
  split; [apply movesFromNull_makeMove_side | apply captured_makeMove_side].
Qed.

Lemma land_submask (x y k : Z) : Z.land (Z.land x y) k = k -> Z.land x k = k.
Proof.
  intros H. apply Z.bits_inj'. intros i Hi.
  apply (f_equal (fun z => Z.testbit z i)) in H.
  rewrite !Z.land_spec in *. destruct (Z.testbit x i), (Z.testbit y i), (Z.testbit k i);
    cbn in *; congruence.
Qed.

Lemma hasCastleRight_land (r x : Z) (castle : Castle.t) (c : Color.t) :
  Castle.hasCastleRight (Z.land r x) castle c = true ->
  Castle.hasCastleRight r castle c = true.
Proof.
  unfold Castle.hasCastleRight. cbv zeta. rewrite !Z.eqb_eq. apply land_submask.
Qed.

Lemma hasCastleRight_done (r : Z) (castle : Castle.t) (c side : Color.t) :
  castle <> Castle.CASTLE_DONE ->
  Castle.hasCastleRight (Z.lor r (Castle.getBitMaskFor Castle.CASTLE_DONE side)) castle c
  = Castle.hasCastleRight r castle c.
Proof.
  intros Hne. unfold Castle.hasCastleRight. cbv zeta.
  rewrite Z.land_lor_distr_l.
  replace (Z.land (Castle.getBitMaskFor Castle.CASTLE_DONE side)
             (Castle.getBitMaskFor castle c)) with 0
    by (destruct side, castle, c; try reflexivity; contradiction).
  now rewrite Z.lor_0_r.
Qed.

Lemma hasCastleRight_cut (r sq : Z) (castle : Castle.t) (c : Color.t) :
  Z.land (rd Castle.castleChange sq) (Castle.getBitMaskFor castle c) <> 0 ->
  Castle.hasCastleRight (Z.land r (Castle.getCastleChangeMask sq)) castle c = false.
Proof.
  intros Hcut. unfold Castle.hasCastleRight, Castle.getCastleChangeMask. cbv zeta.
  apply Z.eqb_neq. intros H. apply Hcut.
  apply Z.bits_inj'. intros i Hi. rewrite Z.bits_0, Z.land_spec.
  apply (f_equal (fun z => Z.testbit z i)) in H.
  rewrite !Z.land_spec, Z.lxor_spec in H.
  destruct (Z.testbit (rd Castle.castleChange sq) i) eqn:E1; [| reflexivity].
  destruct (Z.testbit (Castle.getBitMaskFor castle c) i) eqn:E2; [| reflexivity].
  assert (Hi8 : i < 8).
  { destruct (Z.lt_ge_cases i 8) as [Hlt | Hge]; [exact Hlt |].
    assert (Hm : Castle.getBitMaskFor castle c < 2 ^ 8) by (destruct castle, c; cbv; reflexivity).
    assert (Hm0 : 0 <= Castle.getBitMaskFor castle c) by (destruct castle, c; cbv; discriminate).
    rewrite (Z.bits_above_log2 _ i) in E2; [discriminate | exact Hm0 |].
    destruct (Z.eq_dec (Castle.getBitMaskFor castle c) 0) as [E | E];
      [rewrite E; cbn; lia |].
    apply Z.log2_lt_pow2 in Hm; lia. }
  assert (H255 : Z.testbit 255 i = true).
  { change 255 with (Z.ones 8). apply Z.ones_spec_low. lia. }
  rewrite H255 in H. destruct (Z.testbit r i); cbn in H; discriminate.
Qed.

Lemma castleChange_low (sq : Z) (c : Color.t) :
  0 <= sq < 64 ->
  Z.land (rd Castle.castleChange sq) (Castle.getBitMaskFor Castle.CASTLE_DONE c) = 0.
Proof.
  intros Hsq.
  assert (H : forallb (fun sq =>
                (Z.land (rd Castle.castleChange sq) 16 =? 0)
                && (Z.land (rd Castle.castleChange sq) 32 =? 0)) Square.iter = true)
    by (vm_compute; reflexivity).
  rewrite forallb_forall in H. specialize (H sq (In_Square_iter sq Hsq)).
  rewrite andb_true_iff, !Z.eqb_eq in H. destruct c; tauto.
Qed.

Lemma hasCastleRight_cut_l (r sq x : Z) (castle : Castle.t) (c : Color.t) :
  Z.land (rd Castle.castleChange sq) (Castle.getBitMaskFor castle c) <> 0 ->
  Castle.hasCastleRight (Z.land (Z.land r (Castle.getCastleChangeMask sq)) x) castle c = false.
Proof.
  intros Hcut. destruct (Castle.hasCastleRight _ castle c) eqn:E; [| reflexivity].
  apply hasCastleRight_land in E. now rewrite hasCastleRight_cut in E.
Qed.

Lemma hasCastleRight_cut_r (r sq x : Z) (castle : Castle.t) (c : Color.t) :
  Z.land (rd Castle.castleChange sq) (Castle.getBitMaskFor castle c) <> 0 ->
  Castle.hasCastleRight (Z.land (Z.land r x) (Castle.getCastleChangeMask sq)) castle c = false.
Proof.
  intros Hcut. rewrite <- Z.land_assoc, (Z.land_comm x), Z.land_assoc.
  now apply hasCastleRight_cut_l.
Qed.

(** The rights after a move, read off the table [castleChange]. *)
Lemma castleRight_cut_by_table (zk : ZobristKeys) (m : Z) (b : Board) :
  let before := castleRight (state b) in
  let after := castleRight (state (makeMove zk m b)) in
  (forall castle c, castle <> Castle.CASTLE_DONE ->
     Castle.hasCastleRight after castle c = true ->
     Castle.hasCastleRight before castle c = true)
  /\ (forall castle c,
        Move.getMoveType m <> MoveType.ENPASSANT ->
        Z.land (rd Castle.castleChange (Move.getFrom m)) (Castle.getBitMaskFor castle c) <> 0 ->
        Castle.hasCastleRight after castle c = false)
  /\ (forall castle c,
        Move.getMoveType m = MoveType.SIMPLE \/ Move.getMoveType m = MoveType.PROMOTION ->
        Z.land (rd Castle.castleChange (Move.getTo m)) (Castle.getBitMaskFor castle c) <> 0 ->
        Castle.hasCastleRight after castle c = false).
Proof.
  cbv zeta. rewrite makeMove_eq, castleRight_makeMove_side.
  pose proof (getMoveType_range m) as Hmt.
  unfold castleRightAfter. cbv zeta.
  unfold MoveType.SIMPLE, MoveType.PROMOTION, MoveType.ENPASSANT, MoveType.CASTLE.
  destruct (Z.eqb_spec (Move.getMoveType m) 0) as [E0 | E0];
    [| destruct (Z.eqb_spec (Move.getMoveType m) 1) as [E1 | E1];
       [| destruct (Z.eqb_spec (Move.getMoveType m) 2) as [E2 | E2];
          [| destruct (Z.eqb_spec (Move.getMoveType m) 3) as [E3 | E3]]]];
    cbn [orb]; try (exfalso; lia).
  - split; [| split].
    + intros castle c _ H. now apply hasCastleRight_land, hasCastleRight_land in H.
    + intros castle c _ H. now apply hasCastleRight_cut_l.
    + intros castle c _ H. now apply hasCastleRight_cut_r.
  - split; [| split].
    + intros castle c _ H. now apply hasCastleRight_land, hasCastleRight_land in H.
    + intros castle c _ H. now apply hasCastleRight_cut_l.
    + intros castle c _ H. now apply hasCastleRight_cut_r.
  - split; [| split].
    + intros castle c _ H. exact H.
    + intros castle c H. contradiction.
    + intros castle c [H | H]; lia.
  - split; [| split].
    + intros castle c Hne H. rewrite hasCastleRight_done in H by exact Hne.
      now apply hasCastleRight_land in H.
    + intros castle c _ H.
      destruct castle;
        try (rewrite hasCastleRight_done by discriminate; now apply hasCastleRight_cut).
      exfalso. apply H. apply castleChange_low, getFrom_range.
    + intros castle c [H | H]; lia.
Qed.

(** X5: castling rights are only ever lost.  A right held after
    [makeMove] was held before.  A move other than an en-passant capture
    that starts on the home square of a king removes both rights of that
    colour; one that starts on the home square of a rook, and a simple
    move or promotion that ends there, removes the right of that
    corner. *)
Theorem castling_rights_only_shrink (zk : ZobristKeys) (m : Z) (b : Board) :
  let before := castleRight (state b) in
  let after := castleRight (state (makeMove zk m b)) in
  let from := Move.getFrom m in
  let to := Move.getTo m in
  let mt := Move.getMoveType m in
  let rel := Square.makeRelativeSquare in
  (forall castle c, castle <> Castle.CASTLE_DONE ->
     Castle.hasCastleRight after castle c = true ->
     Castle.hasCastleRight before castle c = true)
  /\ (forall c, mt <> MoveType.ENPASSANT -> from = rel c Square.E1 ->
        Castle.hasCastleRight after Castle.KING_CASTLE c = false
        /\ Castle.hasCastleRight after Castle.QUEEN_CASTLE c = false)
  /\ (forall c,
        (mt <> MoveType.ENPASSANT /\ from = rel c Square.H1)
        \/ ((mt = MoveType.SIMPLE \/ mt = MoveType.PROMOTION) /\ to = rel c Square.H1) ->
        Castle.hasCastleRight after Castle.KING_CASTLE c = false)
  /\ (forall c,
        (mt <> MoveType.ENPASSANT /\ from = rel c Square.A1)
        \/ ((mt = MoveType.SIMPLE \/ mt = MoveType.PROMOTION) /\ to = rel c Square.A1) ->
        Castle.hasCastleRight after Castle.QUEEN_CASTLE c = false).
Proof.
  cbv zeta. destruct (castleRight_cut_by_table zk m b) as (Hkeep & Hfrom & Hto).
  split; [exact Hkeep |]. split; [| split].
  - intros c Hmt Hf. split; apply Hfrom; try exact Hmt; rewrite Hf; now destruct c.
  - intros c [[Hmt Hf] | [Hmt Ht]].
    + apply Hfrom; [exact Hmt |]. rewrite Hf. now destruct c.
    + apply Hto; [exact Hmt |]. rewrite Ht. now destruct c.
  - intros c [[Hmt Hf] | [Hmt Ht]].
    + apply Hfrom; [exact Hmt |]. rewrite Hf. now destruct c.
    + apply Hto; [exact Hmt |]. rewrite Ht. now destruct c.
Qed.

(** X6: the fifty-move counter and the en-passant square after a move.
    The counter is zero after a capturing simple move, a simple move of
    an own pawn, a promotion and an en-passant capture, and one more than
    before (in 8 bits) after any other move, castling included.  The
    en-passant square is set only by a simple move of an own pawn onto an
    empty square two ranks away, and is then the square the pawn
    skipped. *)
Theorem fifty_rule_and_en_passant_after_move (zk : ZobristKeys) (m : Z) (b : Board) :
  let side := m_side b in
  let from := Move.getFrom m in
  let to := Move.getTo m in
  let mt := Move.getMoveType m in
  let after := state (makeMove zk m b) in
  let pawnMove := rd (m_board b) from =? Piece.make side PieceType.PAWN in
  let capture := negb (rd (m_board b) to =? Piece.NONE) in
  fiftyRule after
  = (if ((mt =? MoveType.SIMPLE) && (capture || pawnMove))
        || (mt =? MoveType.PROMOTION) || (mt =? MoveType.ENPASSANT)
     then 0 else Int.u8 (fiftyRule (state b) + 1))
  /\ ep after
     = (if (mt =? MoveType.SIMPLE) && negb capture && pawnMove
           && (Square.distance from to =? 2)
        then match side with
             | Color.WHITE => Square.forward from 8
             | Color.BLACK => Square.backward from 8
             end
        else Square.NO_POS).
Proof.
  cbv zeta. rewrite makeMove_eq, fiftyRule_makeMove_side, ep_makeMove_side.
  unfold fiftyRuleAfter, epAfter. cbv zeta.
  pose proof (getMoveType_range m) as Hmt.
  unfold MoveType.SIMPLE, MoveType.PROMOTION, MoveType.ENPASSANT, MoveType.CASTLE.
  destruct (Z.eqb_spec (Move.getMoveType m) 0) as [E0 | E0];
    destruct (Z.eqb_spec (Move.getMoveType m) 1) as [E1 | E1];
    destruct (Z.eqb_spec (Move.getMoveType m) 2) as [E2 | E2];
    try (exfalso; lia); cbn [orb andb negb].
  - destruct (rd (m_board b) (Move.getTo m) =? Piece.NONE); cbn [orb andb negb];
      [| now split].
    destruct (rd (m_board b) (Move.getFrom m) =? _); cbn [orb andb negb]; now split.
  - now split.
  - now split.
  - now split.
Qed.

(* ===================================================================== *)
(** ** BitBoard: the lowest square, the loop over the squares, shifts *)
(* ===================================================================== *)

From Stdlib Require Import Sorted.

Lemma low_bits_zero (bb k : Z) :
  0 <= k -> (forall j, 0 <= j < k -> Z.testbit bb j = false) -> bb mod 2 ^ k = 0.
Proof.
  intros Hk Hlow. apply Z.bits_inj'. intros j Hj. rewrite Z.bits_0.
  destruct (Z.lt_ge_cases j k).
  - rewrite Z.mod_pow2_bits_low by lia. apply Hlow. lia.
  - apply Z.mod_pow2_bits_high. lia.
Qed.

(** [m_value &= (m_value - 1)] erases the lowest set bit and nothing
    else. *)
Lemma pop_clears_lowest (bb k j : Z) :
  0 <= k -> Z.testbit bb k = true -> (forall i, 0 <= i < k -> Z.testbit bb i = false) ->
  0 <= j ->
  Z.testbit (Z.land bb (bb - 1)) j = Z.testbit bb j && negb (j =? k).
Proof.
  intros Hk Hbit Hlow Hj. rewrite Z.land_spec.
  pose proof (low_bits_zero bb k Hk Hlow) as Hmod.
  assert (Hpk : 0 < 2 ^ k) by (apply Z.pow_pos_nonneg; lia).
  destruct (Z.lt_trichotomy j k) as [Hlt | [-> | Hgt]].
  - rewrite Hlow by lia. reflexivity.
  - rewrite Hbit, Z.eqb_refl. cbn.
    (* bb = 2^k * q with q odd, so bb - 1 = 2^k * (q - 1) + (2^k - 1) *)
    pose proof (Z.div_mod bb (2 ^ k) ltac:(lia)) as Hdm. rewrite Hmod in Hdm.
    set (q := bb / 2 ^ k) in *.
    assert (Hq : q mod 2 = 1).
    { apply Z.testbit_true in Hbit; [exact Hbit | lia]. }
    apply Z.testbit_false; [lia |].
    replace ((bb - 1) / 2 ^ k) with (q - 1).
    + pose proof (Z.div_mod q 2 ltac:(lia)) as Hq2.
      replace (q - 1) with (2 * (q / 2)) by lia.
      rewrite Z.mul_comm. apply Z.mod_mul. lia.
    + apply Z.div_unique with (r := 2 ^ k - 1); lia.
  - replace (j =? k) with false by (symmetry; apply Z.eqb_neq; lia).
    rewrite andb_true_r.
    assert (Hpj : 0 < 2 ^ j) by (apply Z.pow_pos_nonneg; lia).
    assert (Hr : bb mod 2 ^ j <> 0).
    { intros E. assert (Hb : Z.testbit (bb mod 2 ^ j) k = true)
        by (rewrite Z.mod_pow2_bits_low by lia; exact Hbit).
      rewrite E, Z.bits_0 in Hb. discriminate. }
    pose proof (Z.div_mod bb (2 ^ j) ltac:(lia)) as Hdm.
    pose proof (Z.mod_pos_bound bb (2 ^ j) Hpj) as Hb.
    assert (Hdiv : (bb - 1) / 2 ^ j = bb / 2 ^ j).
    { symmetry. apply Z.div_unique with (r := bb mod 2 ^ j - 1); lia. }
    destruct (Z.testbit bb j) eqn:E.
    + apply Z.testbit_true in E; [| lia]. cbn. apply Z.testbit_true; [lia |].
      now rewrite Hdiv.
    + reflexivity.
Qed.

Lemma lsb_lowest (bb : Z) :
  inU64 bb = true -> bb <> 0 ->
  0 <= BitBoard.lsb bb < 64
  /\ Z.testbit bb (BitBoard.lsb bb) = true
  /\ forall j, 0 <= j < BitBoard.lsb bb -> Z.testbit bb j = false.
Proof.
  intros Hu Hnz. destruct (lsb_spec bb Hu Hnz) as [Hr Hb].
  split; [exact Hr |]. split; [exact Hb |].
  unfold BitBoard.lsb in *. destruct (countr_zero_spec 64 0 bb) as (_ & Hlow & _).
  exact Hlow.
Qed.

Lemma pop_spec (bb j : Z) :
  inU64 bb = true -> bb <> 0 -> 0 <= j ->
  Z.testbit (snd (BitBoard.pop bb)) j = Z.testbit bb j && negb (j =? BitBoard.lsb bb).
Proof.
  intros Hu Hnz Hj. destruct (lsb_lowest bb Hu Hnz) as (Hr & Hb & Hlow).
  unfold BitBoard.pop. cbn [snd]. apply pop_clears_lowest; auto; lia.
Qed.

(** The loop visits the set squares from the lowest to the highest. *)
Lemma squares_loop_complete (fuel : nat) (bb lo : Z) :
  inU64 bb = true -> 0 <= lo ->
  (forall j, 0 <= j -> Z.testbit bb j = true -> lo <= j) ->
  64 - lo <= Z.of_nat fuel ->
  (forall sq, 0 <= sq < 64 -> Z.testbit bb sq = true -> In sq (BitBoard.squares_loop fuel bb))
  /\ StronglySorted Z.lt (BitBoard.squares_loop fuel bb)
  /\ Forall (fun sq => lo <= sq) (BitBoard.squares_loop fuel bb).
Proof.
  revert bb lo. induction fuel as [| fuel IH]; intros bb lo Hu Hlo Hmin Hfuel.
  - cbn. split; [| split; constructor].
    intros sq Hsq Hb. specialize (Hmin sq ltac:(lia) Hb). lia.
  - cbn [BitBoard.squares_loop]. destruct (Z.eqb_spec bb 0) as [-> | Hnz].
    + split; [| split; constructor]. intros sq _ Hb. rewrite Z.bits_0 in Hb. discriminate.
    + destruct (lsb_lowest bb Hu Hnz) as (Hr & Hb & Hlow).
      pose proof (pop_spec bb) as Hpop. unfold BitBoard.pop in *. cbn [snd] in Hpop.
      remember (BitBoard.lsb bb) as k eqn:Ek.
      assert (Hk : lo <= k) by (apply Hmin; [lia | exact Hb]).
      destruct (IH (Z.land bb (bb - 1)) (k + 1)) as (Hin & Hsorted & Hall).
      * now apply inU64_land_l.
      * lia.
      * intros j Hj Hbj. rewrite Hpop in Hbj by assumption.
        apply andb_true_iff in Hbj as [Hbj Hne]. apply negb_true_iff, Z.eqb_neq in Hne.
        destruct (Z.lt_ge_cases j k) as [Hlt | Hge]; [| lia].
        rewrite Hlow in Hbj by lia. discriminate.
      * lia.
      * split; [| split].
        -- intros sq Hsq Hbsq. destruct (Z.eq_dec sq k) as [Heq | Hne]; [left; symmetry; exact Heq |].
           right. apply Hin; [exact Hsq |]. rewrite Hpop by (assumption || lia).
           rewrite Hbsq. cbn [andb]. apply negb_true_iff, Z.eqb_neq. exact Hne.
        -- constructor; [exact Hsorted |].
           eapply Forall_impl; [exact Hall |]. cbn. intros a Ha. lia.
        -- constructor; [exact Hk |].
           eapply Forall_impl; [exact Hall |]. cbn. intros a Ha. lia.
Qed.

Lemma BB_FOR_EACH_visits_the_squares_lemma (bb : Z) :
  inU64 bb = true ->
  (forall sq, In sq (BitBoard.squares bb) <-> 0 <= sq < 64 /\ Z.testbit bb sq = true)
  /\ StronglySorted Z.lt (BitBoard.squares bb)
  /\ NoDup (BitBoard.squares bb).
Proof.
  intros Hu.
  destruct (squares_loop_complete 64 bb 0 Hu ltac:(lia)) as (Hin & Hsorted & _).
  { intros j Hj _. exact Hj. }
  { cbn. lia. }
  split; [| split].
  - intros sq. split; [now apply squares_sound | intros [Hsq Hb]; now apply Hin].
  - exact Hsorted.
  - clear Hin. unfold BitBoard.squares. induction Hsorted as [| a l Hs IH Ha];
      constructor; [| exact IH].
    intros Hina. rewrite Forall_forall in Ha. specialize (Ha a Hina). lia.
Qed.

(** X7: the loop [BB_FOR_EACH] over a 64-bit board visits exactly the
    squares of the board, each once, from the lowest to the highest. *)
Theorem BB_FOR_EACH_visits_the_squares (bb : Z) :
  inU64 bb = true ->
  (forall sq, In sq (BitBoard.squares bb) <-> 0 <= sq < 64 /\ Z.testbit bb sq = true)
  /\ StronglySorted Z.lt (BitBoard.squares bb)
  /\ NoDup (BitBoard.squares bb).
Proof. apply BB_FOR_EACH_visits_the_squares_lemma. Qed.

Lemma BB_FOR_EACH_visits_the_squares_witness :
  (forall sq, In sq (BitBoard.squares 40) <-> 0 <= sq < 64 /\ Z.testbit 40 sq = true)
  /\ StronglySorted Z.lt (BitBoard.squares 40)
  /\ NoDup (BitBoard.squares 40).
Proof. apply (BB_FOR_EACH_visits_the_squares 40). reflexivity. Defined.

(** X8: [pop()] on a non-empty 64-bit board returns the lowest square
    of the board (the one [lsb()] gives: a square of the board with no
    square of the board below it) and erases that square only;
    [hasMoreThanOne()] holds exactly when two different squares are on
    the board. *)
Theorem pop_and_hasMoreThanOne (bb : Z) :
  inU64 bb = true -> bb <> 0 ->
  fst (BitBoard.pop bb) = BitBoard.lsb bb
  /\ 0 <= BitBoard.lsb bb < 64
  /\ Z.testbit bb (BitBoard.lsb bb) = true
  /\ (forall j, 0 <= j < BitBoard.lsb bb -> Z.testbit bb j = false)
  /\ (forall j, 0 <= j ->
        Z.testbit (snd (BitBoard.pop bb)) j
        = Z.testbit bb j && negb (j =? BitBoard.lsb bb))
  /\ (BitBoard.hasMoreThanOne bb = true <->
      exists i j, 0 <= i < j /\ Z.testbit bb i = true /\ Z.testbit bb j = true).
Proof.
  intros Hu Hnz. split; [reflexivity |].
  destruct (lsb_lowest bb Hu Hnz) as (Hr & Hb & Hlow).
  split; [exact Hr |]. split; [exact Hb |]. split; [exact Hlow |].
  split; [intros j Hj; now apply pop_spec |].
  pose proof (pop_spec bb) as Hpop. unfold BitBoard.pop in Hpop. cbn [snd] in Hpop.
  unfold BitBoard.hasMoreThanOne. rewrite negb_true_iff, Z.eqb_neq. split.
  - intros Hne.
    destruct (Z.eq_dec (Z.land bb (bb - 1)) 0) as [E | _]; [contradiction |].
    assert (Hex : exists j, 0 <= j /\ Z.testbit (Z.land bb (bb - 1)) j = true).
    { destruct (Z.land bb (bb - 1)) eqn:E; [contradiction | |].
      - exists (Z.log2 (Z.pos p)). split; [apply Z.log2_nonneg |].
        apply Z.bit_log2. lia.
      - exfalso. pose proof (inU64_land_l bb (bb - 1) Hu) as Hl.
        rewrite E in Hl. discriminate. }
    destruct Hex as (j & Hj & Hbj). rewrite Hpop in Hbj by assumption.
    apply andb_true_iff in Hbj as [Hbj Hnej]. apply negb_true_iff, Z.eqb_neq in Hnej.
    exists (BitBoard.lsb bb), j. split; [| split; assumption].
    destruct (Z.lt_ge_cases j (BitBoard.lsb bb)) as [Hlt | Hge]; [| lia].
    rewrite Hlow in Hbj by lia. discriminate.
  - intros (i & j & Hij & Hi & Hj) E.
    assert (Hbj : Z.testbit (Z.land bb (bb - 1)) j = true).
    { rewrite Hpop by (assumption || lia). rewrite Hj. cbn [andb].
      apply negb_true_iff, Z.eqb_neq. intros ->.
      rewrite Hlow in Hi by lia. discriminate. }
    rewrite E, Z.bits_0 in Hbj. discriminate.
Qed.

Lemma pop_and_hasMoreThanOne_witness :
  fst (BitBoard.pop 40) = BitBoard.lsb 40
  /\ 0 <= BitBoard.lsb 40 < 64
  /\ Z.testbit 40 (BitBoard.lsb 40) = true
  /\ (forall j, 0 <= j < BitBoard.lsb 40 -> Z.testbit 40 j = false)
  /\ (forall j, 0 <= j ->
        Z.testbit (snd (BitBoard.pop 40)) j
        = Z.testbit 40 j && negb (j =? BitBoard.lsb 40))
  /\ (BitBoard.hasMoreThanOne 40 = true <->
      exists i j, 0 <= i < j /\ Z.testbit 40 i = true /\ Z.testbit 40 j = true).
Proof. apply (pop_and_hasMoreThanOne 40); [reflexivity | discriminate]. Defined.

(** Whether a step in direction [d] that arrives on [sq] has wrapped
    around the edge of the board: a step to the left cannot arrive on the
    h-file, a step to the right cannot arrive on the a-file. *)
Definition wraps (d : Direction.t) (sq : Z) : bool :=
  match d with
  | Direction.UP | Direction.DOWN => false
  | Direction.LEFT | Direction.UPLEFT | Direction.DOWNLEFT => Square.getFile sq =? File.H
  | Direction.RIGHT | Direction.UPRIGHT | Direction.DOWNRIGHT => Square.getFile sq =? File.A
  end.

Lemma file_mask_testbit (sq : Z) :
  0 <= sq < 64 ->
  Z.testbit (BitBoard.b_not (BitBoard.fromFile File.H)) sq = negb (Square.getFile sq =? File.H)
  /\ Z.testbit (BitBoard.b_not (BitBoard.fromFile File.A)) sq
     = negb (Square.getFile sq =? File.A).
Proof.
  intros Hsq.
  assert (H : forallb (fun sq =>
      Bool.eqb (Z.testbit (BitBoard.b_not (BitBoard.fromFile File.H)) sq)
               (negb (Square.getFile sq =? File.H))
      && Bool.eqb (Z.testbit (BitBoard.b_not (BitBoard.fromFile File.A)) sq)
                  (negb (Square.getFile sq =? File.A))) Square.iter = true)
    by (vm_compute; reflexivity).
  rewrite forallb_forall in H. specialize (H sq (In_Square_iter sq Hsq)).
  apply andb_true_iff in H as [H1 H2]. split; now apply eqb_prop.
Qed.

Lemma testbit_u64 (x sq : Z) : 0 <= sq < 64 -> Z.testbit (Int.u64 x) sq = Z.testbit x sq.
Proof.
  intros Hsq. unfold Int.u64. rewrite Z.land_spec, Z.ones_spec_low by lia. apply andb_true_r.
Qed.

(** X9: [shift(dir)] moves every square of a 64-bit board one step in
    the direction and drops the squares that would leave the board: the
    result is a 64-bit board, and a square is on it exactly when the square one step back
    is on the board and the step does not wrap around the a- or the
    h-file. *)
Theorem shift_moves_every_square (bb : Z) (d : Direction.t) (sq : Z) :
  inU64 bb = true -> 0 <= sq < 64 ->
  inU64 (BitBoard.shift bb d) = true
  /\ Z.testbit (BitBoard.shift bb d) sq
     = Z.testbit bb (sq - dirOffset d) && negb (wraps d sq).
Proof.
  intros Hu Hsq. split; [now apply inU64_shift |].
  destruct (file_mask_testbit sq Hsq) as [HH HA].
  destruct d; cbn [BitBoard.shift dirOffset wraps];
    rewrite ?Z.land_spec, ?HH, ?HA, ?testbit_u64, ?Z.shiftl_spec, ?Z.shiftr_spec by lia;
    rewrite ?andb_true_r; f_equal; f_equal; lia.
Qed.

Lemma shift_moves_every_square_witness :
  inU64 (BitBoard.shift 128 Direction.RIGHT) = true
  /\ Z.testbit (BitBoard.shift 128 Direction.RIGHT) 8
  = Z.testbit 128 (8 - dirOffset Direction.RIGHT) && negb (wraps Direction.RIGHT 8).
Proof. apply (shift_moves_every_square 128 Direction.RIGHT 8); [reflexivity | lia]. Defined.

(* ===================================================================== *)
(** ** Move: the 16-bit word *)
(* ===================================================================== *)

Definition moveWordOK (f t mt p : Z) : bool :=
  let m := Move.make f t mt p in
  (Move.getFrom m =? f) && (Move.getTo m =? t) && (Move.getMoveType m =? mt)
  && (Move.getPromotedPiece m =? p)
  && (Move.getData m =? m)
  && Bool.eqb (Move.isNullMove m)
       ((f =? 0) && (t =? 0) && (mt =? MoveType.SIMPLE) && (p =? PieceType.KNIGHT)).

Lemma move_words :
  forallb (fun f => forallb (fun t => forallb (fun mt => forallb (fun p =>
      moveWordOK f t mt p) [2; 3; 4; 5]) [0; 1; 2; 3]) Square.iter) Square.iter = true.
Proof. vm_compute. reflexivity. Qed.

(** X10: the move word is a faithful record: a move built from two
    squares, a move type and a promotion piece from knight to queen gives
    back the four of them, its high half (the ordering score) is zero,
    and it is the null move only as the simple move a1-a1 with the
    default piece.  The two-square constructor builds the simple move. *)
Theorem move_word_round_trip (f t mt p : Z) :
  0 <= f < 64 -> 0 <= t < 64 -> 0 <= mt < 4 ->
  PieceType.KNIGHT <= p <= PieceType.QUEEN ->
  let m := Move.make f t mt p in
  Move.getFrom m = f /\ Move.getTo m = t /\ Move.getMoveType m = mt
  /\ Move.getPromotedPiece m = p
  /\ Move.getData m = m
  /\ (Move.isNullMove m = true
      <-> f = 0 /\ t = 0 /\ mt = MoveType.SIMPLE /\ p = PieceType.KNIGHT)
  /\ Move.make2 f t = Move.make f t MoveType.SIMPLE PieceType.KNIGHT.
Proof.
  intros Hf Ht Hmt Hp. cbv zeta.
  pose proof move_words as H. rewrite forallb_forall in H.
  specialize (H f (In_Square_iter f Hf)). rewrite forallb_forall in H.
  specialize (H t (In_Square_iter t Ht)). rewrite forallb_forall in H.
  assert (Hmt' : In mt [0; 1; 2; 3]) by (cbn; lia).
  specialize (H mt Hmt'). rewrite forallb_forall in H.
  assert (Hp' : In p [2; 3; 4; 5])
    by (unfold PieceType.KNIGHT, PieceType.QUEEN in Hp; cbn; lia).
  specialize (H p Hp'). unfold moveWordOK in H. cbv zeta in H.
  rewrite !andb_true_iff, !Z.eqb_eq in H.
  destruct H as [[[[[H1 H2] H3] H4] H5] H6]. apply eqb_prop in H6.
  split; [exact H1 |]. split; [exact H2 |]. split; [exact H3 |]. split; [exact H4 |].
  split; [exact H5 |]. split.
  - rewrite H6, !andb_true_iff, !Z.eqb_eq. tauto.
  - unfold Move.make2, Move.make.
    change (Int.u32 (Z.shiftl (Int.u32 (PieceType.KNIGHT - PieceType.KNIGHT)) 12)) with 0.
    change (Z.shiftl MoveType.SIMPLE 14) with 0. now rewrite !Z.lor_0_r.
Qed.

Lemma move_word_round_trip_witness :
  let m := Move.make 12 28 MoveType.SIMPLE PieceType.KNIGHT in
  Move.getFrom m = 12 /\ Move.getTo m = 28 /\ Move.getMoveType m = MoveType.SIMPLE
  /\ Move.getPromotedPiece m = PieceType.KNIGHT
  /\ Move.getData m = m
  /\ (Move.isNullMove m = true
      <-> 12 = 0 /\ 28 = 0 /\ MoveType.SIMPLE = MoveType.SIMPLE
          /\ PieceType.KNIGHT = PieceType.KNIGHT)
  /\ Move.make2 12 28 = Move.make 12 28 MoveType.SIMPLE PieceType.KNIGHT.
Proof.
  apply (move_word_round_trip 12 28 MoveType.SIMPLE PieceType.KNIGHT);
    unfold MoveType.SIMPLE, PieceType.KNIGHT, PieceType.QUEEN; lia.
Defined.

(* ===================================================================== *)
(** ** TranspositionTable: what is written is found *)
(* ===================================================================== *)

(** X11: mate values are stored relative to the node.  A mate in [n]
    plies from the root, stored in the main entry at ply [p] and read at
    ply [p'], is a mate in [n - p + p'] plies from the root there; a
    value that is no mate value is stored and read unchanged. *)
Theorem mate_value_is_stored_relative_to_the_node (n p p' : Z) :
  0 <= p <= n -> n < 198 -> 0 <= p' < 198 ->
  fixMateValueForProbe (TT.fixMateValueForStore (engine.MATE - n) p) p'
  = engine.MATE - (n - p + p')
  /\ fixMateValueForProbe (TT.fixMateValueForStore (- engine.MATE + n) p) p'
     = - engine.MATE + (n - p + p')
  /\ (forall v ply, engine.isMateValue v = false ->
        TT.fixMateValueForStore v ply = v /\ fixMateValueForProbe v ply = v).
Proof.
  intros Hp Hn Hp'. split; [| split].
  - rewrite mate_value_store_probe_win by assumption. f_equal. lia.
  - rewrite mate_value_store_probe_loss by assumption. f_equal. lia.
  - intros v ply Hv. unfold TT.fixMateValueForStore, fixMateValueForProbe.
    now rewrite Hv.
Qed.

Lemma mate_value_is_stored_relative_to_the_node_witness :
  fixMateValueForProbe (TT.fixMateValueForStore (engine.MATE - 10) 4) 6
  = engine.MATE - (10 - 4 + 6)
  /\ fixMateValueForProbe (TT.fixMateValueForStore (- engine.MATE + 10) 4) 6
     = - engine.MATE + (10 - 4 + 6)
  /\ (forall v ply, engine.isMateValue v = false ->
        TT.fixMateValueForStore v ply = v /\ fixMateValueForProbe v ply = v).
Proof. apply (mate_value_is_stored_relative_to_the_node 10 4 6); lia. Defined.

(** X12: after [tryRecord] the position is in the table: [probe] with
    the same hash finds an entry of that hash, which is the new entry in
    the main slot (with the mate value made relative), the new entry in
    the auxiliary slot, or the main entry that was kept because it has
    this hash and is not to be replaced.  The other clusters are not
    touched, and [probe] never returns an entry of another hash. *)
Theorem probe_finds_what_tryRecord_wrote (ty h mv v a dep ply : Z) (t : TT.Table) :
  0 < TT.s_tableSize t -> Z.of_nat (length (TT.s_table t)) = TT.s_tableSize t ->
  let t' := TT.tryRecord ty h mv v a dep ply t in
  (exists e, TT.probe t' h = Some e /\ TT.hash e = h
     /\ (e = TT.mkTableEntry h mv (TT.fixMateValueForStore v ply) a dep ty
         \/ e = TT.mkTableEntry h mv v a dep ty
         \/ (e = TT.mainEntry (TT.cluster t h)
             /\ TT.replacesMain t (TT.mainEntry (TT.cluster t h)) ty dep = false)))
  /\ (forall h', h' mod TT.s_tableSize t <> h mod TT.s_tableSize t ->
        TT.cluster t' h' = TT.cluster t h')
  /\ (forall h' e, TT.probe t' h' = Some e -> TT.hash e = h').
Proof.
  intros Hsize Hlen. cbv zeta.
  assert (Hidx : 0 <= h mod TT.s_tableSize t < Z.of_nat (length (TT.s_table t)))
    by (rewrite Hlen; apply Z.mod_pos_bound; lia).
  split; [| split].
  - unfold TT.tryRecord, TT.probe, TT.cluster. cbv zeta.
    destruct (TT.replacesMain t _ ty dep) eqn:Hrep; cbn [TT.s_table TT.s_tableSize].
    + rewrite rd_wr_eq by exact Hidx. cbn [TT.mainEntry TT.hash]. rewrite Z.eqb_refl.
      eexists. split; [reflexivity |]. split; [reflexivity | now left].
    + destruct (Z.eqb_spec (TT.hash (TT.mainEntry (rd (TT.s_table t) (h mod TT.s_tableSize t)))) h)
        as [E | E]; cbn [negb TT.s_table TT.s_tableSize].
      * rewrite E, Z.eqb_refl. eexists. split; [reflexivity |]. split; [exact E |].
        right. right. split; reflexivity.
      * rewrite rd_wr_eq by exact Hidx. cbn [TT.mainEntry TT.auxEntry TT.hash].
        destruct (Z.eqb_spec (TT.hash (TT.mainEntry (rd (TT.s_table t) (h mod TT.s_tableSize t)))) h)
          as [E' | _]; [contradiction |].
        rewrite Z.eqb_refl. eexists. split; [reflexivity |]. split; [reflexivity |].
        right. now left.
  - intros h' Hne. unfold TT.cluster.
    destruct (tryRecord_shape ty h mv v a dep ply t) as [-> _].
    unfold TT.tryRecord. cbv zeta.
    assert (Hh' : 0 <= h' mod TT.s_tableSize t) by (apply Z.mod_pos_bound; lia).
    destruct (TT.replacesMain t _ ty dep); cbn [TT.s_table];
      [now rewrite rd_wr_ne by lia |].
    destruct (negb _); cbn [TT.s_table]; [now rewrite rd_wr_ne by lia | reflexivity].
  - intros h' e. unfold TT.probe. cbv zeta.
    set (cl := TT.cluster _ h').
    destruct (Z.eqb_spec (TT.hash (TT.mainEntry cl)) h') as [E | _];
      [now intros [= <-] |].
    destruct (Z.eqb_spec (TT.hash (TT.auxEntry cl)) h') as [E | _];
      [now intros [= <-] | discriminate].
Qed.

Lemma probe_finds_what_tryRecord_wrote_witness :
  let t := TT.mkTable [TT.zeroCluster; TT.zeroCluster] 2 0 in
  let t' := TT.tryRecord EntryType.EXACT 7 0 25 1 3 2 t in
  (exists e, TT.probe t' 7 = Some e /\ TT.hash e = 7
     /\ (e = TT.mkTableEntry 7 0 (TT.fixMateValueForStore 25 2) 1 3 EntryType.EXACT
         \/ e = TT.mkTableEntry 7 0 25 1 3 EntryType.EXACT
         \/ (e = TT.mainEntry (TT.cluster t 7)
             /\ TT.replacesMain t (TT.mainEntry (TT.cluster t 7)) EntryType.EXACT 3 = false)))
  /\ (forall h', h' mod TT.s_tableSize t <> 7 mod TT.s_tableSize t ->
        TT.cluster t' h' = TT.cluster t h')
  /\ (forall h' e, TT.probe t' h' = Some e -> TT.hash e = h').
Proof.
  apply (probe_finds_what_tryRecord_wrote EntryType.EXACT 7 0 25 1 3 2
           (TT.mkTable [TT.zeroCluster; TT.zeroCluster] 2 0));
    [cbn; lia | reflexivity].
Defined.

(* ===================================================================== *)
(** ** Utils/CommandHandlingUtils.h : the hash of a command word *)
(* ===================================================================== *)

(** [Hash(ch)]: the character converted to 64 bits; [char] is signed on
    the targets of the project, so a character above 127 is extended
    with ones. *)
Definition charHash (ch : ascii) : Z :=
  let n := Z.of_nat (nat_of_ascii ch) in
  if n <? 128 then n else Int.u64 (n - 256).

(** [_computeDynamicHash]: every character is folded in seven bits above
    the one before; after nine characters the offset starts again at
    zero. *)
Fixpoint computeDynamicHash_loop (str : string) (result offset : Z) : Z :=
  match str with
  | EmptyString => result
  | String ch rest =>
      let result := Z.lxor result (Int.u64 (Z.shiftl (charHash ch) offset)) in
      let offset := Int.u8 (offset + 7) in
      let offset := if offset >? 57 then 0 else offset in
      computeDynamicHash_loop rest result offset
  end.

Definition _computeDynamicHash (str : string) : Z := computeDynamicHash_loop str 0 0.

(** A word of characters 1 to 127. *)
Fixpoint plainWord (str : string) : bool :=
  match str with
  | EmptyString => true
  | String ch rest =>
      (1 <=? Z.of_nat (nat_of_ascii ch)) && (Z.of_nat (nat_of_ascii ch) <? 128)
      && plainWord rest
  end.

(** The characters of a word as the digits of a number in base 128. *)
Fixpoint packWord (str : string) : Z :=
  match str with
  | EmptyString => 0
  | String ch rest => Z.of_nat (nat_of_ascii ch) + 128 * packWord rest
  end.

Lemma packWord_nonneg (s : string) : 0 <= packWord s.
Proof. induction s as [| ch s IH]; cbn [packWord]; lia. Qed.

Lemma packWord_bound (s : string) :
  plainWord s = true -> packWord s < 2 ^ (7 * Z.of_nat (String.length s)).
Proof.
  induction s as [| ch s IH]; cbn [packWord plainWord String.length]; intros Hp.
  - cbn. lia.
  - rewrite !andb_true_iff, Z.leb_le, Z.ltb_lt in Hp. destruct Hp as [[H1 H2] Hs].
    specialize (IH Hs).
    replace (7 * Z.of_nat (S (String.length s))) with (7 + 7 * Z.of_nat (String.length s))
      by lia.
    rewrite Z.pow_add_r by lia. change (2 ^ 7) with 128. lia.
Qed.

Lemma land_disjoint (r c o : Z) :
  0 <= o -> 0 <= r < 2 ^ o -> Z.land r (c * 2 ^ o) = 0.
Proof.
  intros Ho Hr. apply Z.bits_inj'. intros i Hi.
  rewrite Z.land_spec, Z.bits_0.
  destruct (Z.lt_ge_cases i o) as [Hlt | Hge].
  - rewrite Z.mul_pow2_bits_low by lia. apply andb_false_r.
  - destruct (Z.eq_dec r 0) as [-> | Hnz]; [now rewrite Z.bits_0 |].
    rewrite (Z.bits_above_log2 r i); [reflexivity | lia |].
    assert (Z.log2 r < o) by (apply Z.log2_lt_pow2; lia). lia.
Qed.

Lemma lxor_disjoint_add (r c o : Z) :
  0 <= o -> 0 <= r < 2 ^ o -> 0 <= c -> Z.lxor r (Z.shiftl c o) = r + c * 2 ^ o.
Proof.
  intros Ho Hr Hc. rewrite Z.shiftl_mul_pow2 by lia. symmetry.
  apply Z.add_nocarry_lxor. now apply land_disjoint.
Qed.

Lemma lor_disjoint_add (r c o : Z) :
  0 <= o -> 0 <= r < 2 ^ o -> Z.lor r (c * 2 ^ o) = r + c * 2 ^ o.
Proof.
  intros Ho Hr. rewrite <- Z.lxor_lor by now apply land_disjoint.
  symmetry. apply Z.add_nocarry_lxor. now apply land_disjoint.
Qed.

Lemma computeDynamicHash_loop_pack (s : string) (k r : Z) :
  plainWord s = true -> 0 <= k -> k + Z.of_nat (String.length s) <= 9 ->
  0 <= r < 2 ^ (7 * k) ->
  computeDynamicHash_loop s r (7 * k) = r + 2 ^ (7 * k) * packWord s.
Proof.
  revert k r. induction s as [| ch s IH]; intros k r Hp Hk Hlen Hr;
    cbn [computeDynamicHash_loop packWord plainWord String.length] in *.
  - lia.
  - rewrite !andb_true_iff, Z.leb_le, Z.ltb_lt in Hp. destruct Hp as [[H1 H2] Hs].
    set (c := Z.of_nat (nat_of_ascii ch)) in *.
    assert (Hch : charHash ch = c).
    { unfold charHash. fold c. destruct (Z.ltb_spec c 128); [reflexivity | lia]. }
    rewrite Hch.
    assert (Hpow : 0 < 2 ^ (7 * k)) by (apply Z.pow_pos_nonneg; lia).
    assert (Hsh : Int.u64 (Z.shiftl c (7 * k)) = Z.shiftl c (7 * k)).
    { apply u64_id. apply inU64_spec. rewrite Z.shiftl_mul_pow2 by lia.
      split; [lia |].
      assert (2 ^ (7 * k) <= 2 ^ 56) by (apply Z.pow_le_mono_r; lia).
      change (2 ^ 64) with (256 * 2 ^ 56). nia. }
    rewrite Hsh, lxor_disjoint_add by lia.
    destruct s as [| ch' s'].
    + cbn [computeDynamicHash_loop packWord]. lia.
    + cbn [String.length] in Hlen.
      assert (Hoff : (if Int.u8 (7 * k + 7) >? 57 then 0 else Int.u8 (7 * k + 7))
                     = 7 * (k + 1)).
      { unfold Int.u8. rewrite Z.mod_small by lia.
        destruct (Z.gtb_spec (7 * k + 7) 57); lia. }
      rewrite Hoff, IH; try assumption; try lia.
      * replace (7 * (k + 1)) with (7 * k + 7) by lia.
        rewrite Z.pow_add_r by lia. change (2 ^ 7) with 128. lia.
      * cbn [String.length]. lia.
      * replace (7 * (k + 1)) with (7 * k + 7) by lia.
        rewrite Z.pow_add_r by lia. change (2 ^ 7) with 128. nia.
Qed.

Lemma packWord_inj (s t : string) :
  plainWord s = true -> plainWord t = true -> packWord s = packWord t -> s = t.
Proof.
  revert t. induction s as [| a s IH]; intros [| b t] Hs Ht;
    cbn [packWord plainWord] in *; try reflexivity.
  - rewrite !andb_true_iff, Z.leb_le, Z.ltb_lt in Ht.
    pose proof (packWord_nonneg t). lia.
  - rewrite !andb_true_iff, Z.leb_le, Z.ltb_lt in Hs.
    pose proof (packWord_nonneg s). lia.
  - rewrite !andb_true_iff, Z.leb_le, Z.ltb_lt in Hs, Ht.
    destruct Hs as [[Ha1 Ha2] Hs]. destruct Ht as [[Hb1 Hb2] Ht]. intros E.
    assert (Hab : Z.of_nat (nat_of_ascii a) = Z.of_nat (nat_of_ascii b)) by lia.
    assert (Hrest : packWord s = packWord t) by lia.
    f_equal; [| now apply IH].
    apply Nat2Z.inj in Hab.
    rewrite <- (ascii_nat_embedding a), <- (ascii_nat_embedding b). now rewrite Hab.
Qed.

(** X13: the command hash tells apart any two words of at most nine
    characters (of codes 1 to 127): equal hashes mean equal words, as the
    comment in the source promises. *)
Theorem command_hash_has_no_collision_up_to_nine (s t : string) :
  plainWord s = true -> plainWord t = true ->
  (String.length s <= 9)%nat -> (String.length t <= 9)%nat ->
  _computeDynamicHash s = _computeDynamicHash t -> s = t.
Proof.
  intros Hs Ht Hls Hlt. unfold _computeDynamicHash.
  change 0 with (7 * 0) at 2 4.
  rewrite !computeDynamicHash_loop_pack by (try assumption; cbn; lia).
  cbn. intros E. apply packWord_inj; try assumption. lia.
Qed.

Lemma command_hash_has_no_collision_up_to_nine_witness :
  "ucinewgam"%string = "ucinewgam"%string.
Proof.
  apply (command_hash_has_no_collision_up_to_nine "ucinewgam" "ucinewgam");
    vm_compute; try reflexivity; intros H; discriminate H.
Defined.

(** With ten characters the offset has started again, and two different
    words can have the same hash. *)
Remark command_hash_collision_with_ten :
  _computeDynamicHash "abbbbbbbbc" = _computeDynamicHash "cbbbbbbbba".
Proof. vm_compute. reflexivity. Qed.

(* ===================================================================== *)
(** ** Utils/StringUtils.cpp : split *)
(* ===================================================================== *)

(** A [std::string_view] is the list of its characters; an iterator into
    it is the rest of the list from there on. *)
Module split_utils.
(** [delimiters.find(ch) != npos] *)
Definition isDelimiter (delimiters : list ascii) (ch : ascii) : bool :=
  existsb (Ascii.eqb ch) delimiters.

(** [while (delimiters.find( *it) != npos && ++it != str.end());] *)
Fixpoint skipDelimiters (delimiters : list ascii) (it : list ascii) : list ascii :=
  match it with
  | [] => []
  | ch :: rest => if isDelimiter delimiters ch then skipDelimiters delimiters rest else it
  end.

(** [while (delimiters.find( *it) == npos && ++it != str.end());]: the
    characters passed and the rest. *)
Fixpoint readElement (delimiters : list ascii) (it : list ascii)
  : list ascii * list ascii :=
  match it with
  | [] => ([], [])
  | ch :: rest =>
      if isDelimiter delimiters ch then ([], it)
      else let '(e, r) := readElement delimiters rest in (ch :: e, r)
  end.

Fixpoint split_loop (fuel : nat) (delimiters : list ascii) (it : list ascii)
  : list (list ascii) :=
  match fuel with
  | O => []
  | S fuel' =>
      match it with
      | [] => []
      | _ :: _ =>
          match skipDelimiters delimiters it with
          | [] => []
          | first =>
              let '(e, it') := readElement delimiters first in
              e :: split_loop fuel' delimiters it'
          end
      end
  end.

(** [split(str, delimiters, vec)]: [vec] is cleared first. *)
Definition split (str delimiters : list ascii) (vec : list (list ascii))
  : list (list ascii) :=
  split_loop (S (length str)) delimiters str.
End split_utils.

Section Split.
Import split_utils.
Context (delimiters : list ascii).

Let delim := isDelimiter delimiters.

(** An element: not empty, and without a delimiter. *)
Definition element (e : list ascii) : Prop :=
  e <> [] /\ Forall (fun ch => delim ch = false) e.

Lemma skipDelimiters_spec (s : list ascii) :
  List.filter (fun ch => negb (delim ch)) (skipDelimiters delimiters s)
  = List.filter (fun ch => negb (delim ch)) s
  /\ (length (skipDelimiters delimiters s) <= length s)%nat
  /\ match skipDelimiters delimiters s with
     | [] => True
     | ch :: _ => delim ch = false
     end.
Proof.
  induction s as [| ch s IH]; cbn [skipDelimiters List.filter length]; [auto |].
  fold (delim ch). destruct (delim ch) eqn:E; cbn [negb].
  - destruct IH as (H1 & H2 & H3). split; [exact H1 |]. split; [lia | exact H3].
  - cbn [List.filter length]. fold (delim ch). rewrite E. cbn [negb]. auto.
Qed.

Lemma readElement_spec (s : list ascii) :
  let '(e, r) := readElement delimiters s in
  s = e ++ r /\ Forall (fun ch => delim ch = false) e
  /\ match r with [] => True | ch :: _ => delim ch = true end.
Proof.
  induction s as [| ch s IH]; cbn [readElement]; [auto |].
  fold (delim ch). destruct (delim ch) eqn:E.
  - split; [reflexivity |]. split; [constructor | exact E].
  - destruct (readElement delimiters s) as [e r]. destruct IH as (H1 & H2 & H3).
    split; [cbn; now rewrite H1 |]. split; [now constructor | exact H3].
Qed.

Lemma filter_element (e : list ascii) :
  Forall (fun ch => delim ch = false) e -> List.filter (fun ch => negb (delim ch)) e = e.
Proof.
  induction 1 as [| ch e Hch _ IH]; cbn [List.filter]; [reflexivity |].
  rewrite Hch. cbn [negb]. now rewrite IH.
Qed.

Lemma split_loop_spec (fuel : nat) (s : list ascii) :
  (length s < fuel)%nat ->
  Forall element (split_loop fuel delimiters s)
  /\ concat (split_loop fuel delimiters s) = List.filter (fun ch => negb (delim ch)) s.
Proof.
  revert s. induction fuel as [| fuel IH]; intros s Hlen; [lia |].
  cbn [split_loop]. destruct s as [| c0 s0]; [split; [constructor | reflexivity] |].
  destruct (skipDelimiters_spec (c0 :: s0)) as (Hf & Hl & Hhead).
  destruct (skipDelimiters delimiters (c0 :: s0)) as [| ch first] eqn:Eskip.
  - split; [constructor |]. now rewrite <- Hf.
  - pose proof (readElement_spec (ch :: first)) as Hread.
    cbn [readElement] in Hread |- *. fold (delim ch) in Hread |- *.
    rewrite Hhead in Hread |- *.
    destruct (readElement delimiters first) as [e r].
    destruct Hread as (Hs & He & Hr).
    assert (Hlr : (length r < fuel)%nat).
    { apply (f_equal (@length ascii)) in Hs. rewrite length_app in Hs.
      cbn [length] in Hs, Hl, Hlen. lia. }
    destruct (IH r Hlr) as (IH1 & IH2).
    split.
    + constructor; [| exact IH1]. split; [discriminate | exact He].
    + cbn [concat]. rewrite IH2, <- Hf, Hs, List.filter_app.
      now rewrite (filter_element _ He).
Qed.

(** The elements joined by one delimiter. *)
Fixpoint join (d : ascii) (elements : list (list ascii)) : list ascii :=
  match elements with
  | [] => []
  | [e] => e
  | e :: rest => e ++ d :: join d rest
  end.

Lemma join_cons (d : ascii) (e e2 : list ascii) (rest : list (list ascii)) :
  join d (e :: e2 :: rest) = e ++ d :: join d (e2 :: rest).
Proof. reflexivity. Qed.

Lemma readElement_app (e r : list ascii) :
  Forall (fun ch => delim ch = false) e ->
  match r with [] => True | ch :: _ => delim ch = true end ->
  readElement delimiters (e ++ r) = (e, r).
Proof.
  intros He Hr. induction He as [| ch e Hch _ IH]; cbn [app readElement].
  - destruct r as [| ch r]; cbn [readElement]; [reflexivity |]. fold (delim ch). now rewrite Hr.
  - fold (delim ch). rewrite Hch, IH. reflexivity.
Qed.

Lemma split_loop_join (d : ascii) (elements : list (list ascii)) (fuel : nat) :
  delim d = true -> Forall element elements ->
  (length (join d elements) < fuel)%nat ->
  split_loop fuel delimiters (join d elements) = elements.
Proof.
  intros Hd Hall. revert fuel.
  induction Hall as [| e rest [Hne He] Hrest IH]; intros fuel Hlen.
  - destruct fuel; reflexivity.
  - destruct fuel as [| fuel]; [lia |].
    destruct e as [| c e']; [contradiction |].
    assert (Hc : delim c = false) by now inversion He.
    destruct rest as [| e2 rest'].
    + cbn [join split_loop skipDelimiters]. fold (delim c). rewrite Hc.
      rewrite <- (app_nil_r (c :: e')) at 1. rewrite readElement_app by (auto; exact I).
      f_equal. destruct fuel; reflexivity.
    + rewrite (join_cons d (c :: e') e2 rest') in Hlen |- *.
      cbn [app split_loop skipDelimiters].
      fold (delim c). rewrite Hc, app_comm_cons.
      rewrite readElement_app by (auto; exact Hd).
      f_equal.
      (* the next round skips the delimiter [d] *)
      destruct fuel as [| fuel].
      { rewrite length_app in Hlen. cbn [length] in Hlen. lia. }
      assert (Hnext : split_loop (S fuel) delimiters (d :: join d (e2 :: rest'))
                      = split_loop (S fuel) delimiters (join d (e2 :: rest'))).
      { inversion Hrest as [| ? ? [Hne2 He2] _]; subst.
        destruct e2 as [| c2 e2']; [contradiction |].
        assert (Hc2 : delim c2 = false) by now inversion He2.
        assert (Hj : exists tl, join d ((c2 :: e2') :: rest') = c2 :: tl)
          by (destruct rest'; cbn [join app]; eauto).
        destruct Hj as [tl ->].
        cbn [split_loop skipDelimiters]. fold (delim d) (delim c2).
        now rewrite Hd, Hc2. }
      rewrite Hnext. apply IH.
      rewrite length_app in Hlen. cbn [length] in Hlen. lia.
Qed.

(** X14: [split] cuts a text at the delimiters: every element it yields
    is non-empty and free of delimiters, the elements together are the
    text without its delimiters, in order, and elements joined by one
    delimiter are split into themselves again.  What [vec] held before
    is discarded. *)
Theorem split_cuts_at_the_delimiters (str : list ascii) (vec : list (list ascii)) :
  Forall element (split str delimiters vec)
  /\ concat (split str delimiters vec) = List.filter (fun ch => negb (delim ch)) str
  /\ (forall d elements, delim d = true -> Forall element elements ->
        split (join d elements) delimiters vec = elements).
Proof.
  unfold split. destruct (split_loop_spec (S (length str)) str ltac:(lia)) as [H1 H2].
  split; [exact H1 |]. split; [exact H2 |].
  intros d elements Hd Hall. apply split_loop_join; auto.
Qed.
End Split.

(* ===================================================================== *)
(** ** Chess/Score.h : collapsing a score by the material *)
(* ===================================================================== *)

(** [Material(value)]: the material clamped to [MIN, MAX], counted from
    [MIN]. *)
Definition Material_make (value : Z) : Z :=
  (if value >? Material.MAX then Material.MAX
   else if value <? Material.MIN then Material.MIN else value) - Material.MIN.

(** [interpolate<Value>(a, b)]: computed in [i32], divided with
    truncation, and cut to a [Value]. *)
Definition interpolate (m_value a b : Z) : Z :=
  Int.i16 (Int.cdiv (Int.i32 (Int.i32 (a * m_value)
                              + Int.i32 (b * (Material.RANGE - m_value))))
                    Material.RANGE).

(** [Score::collapse(material)] *)
Definition collapse (s : Score) (material : Z) : Z :=
  interpolate material (middlegame s) (endgame s).

Lemma i32_small (z : Z) : - 2 ^ 31 <= z < 2 ^ 31 -> Int.i32 z = z.
Proof. intros H. unfold Int.i32. rewrite Z.mod_small; lia. Qed.

(** X15: the value of a score lies between its endgame and its
    middlegame value: [collapse] returns the middlegame value from a
    material of [MAX] on, the endgame value up to a material of [MIN],
    and in between a value between the two. *)
Theorem collapse_is_between_the_two_values (s : Score) (material : Z) :
  scoreInRange s ->
  let v := collapse s (Material_make material) in
  Z.min (middlegame s) (endgame s) <= v <= Z.max (middlegame s) (endgame s)
  /\ (Material.MAX <= material -> v = middlegame s)
  /\ (material <= Material.MIN -> v = endgame s).
Proof.
  intros Hs. cbv zeta. unfold collapse, interpolate.
  assert (Ha : - 2 ^ 15 <= middlegame s < 2 ^ 15 /\ - 2 ^ 15 <= endgame s < 2 ^ 15).
  { revert Hs. unfold scoreInRange. lia. }
  destruct Ha as [Ha Hb]. set (a := middlegame s) in *. set (b := endgame s) in *.
  assert (Hm : 0 <= Material_make material <= 64).
  { unfold Material_make, Material.MAX, Material.MIN, Material.RANGE.
    destruct (Z.gtb_spec material (8 + 64)); [lia |].
    destruct (Z.ltb_spec material 8); lia. }
  set (m := Material_make material) in *.
  unfold Material.RANGE.
  rewrite (i32_small (a * m)), (i32_small (b * (64 - m))), i32_small by nia.
  assert (Hlo : 64 * Z.min a b <= a * m + b * (64 - m)) by nia.
  assert (Hhi : a * m + b * (64 - m) <= 64 * Z.max a b) by nia.
  unfold Int.cdiv.
  assert (Hq : Z.min a b <= Z.quot (a * m + b * (64 - m)) 64 <= Z.max a b).
  { split.
    - rewrite <- (Z.quot_mul (Z.min a b) 64) by lia. apply Z.quot_le_mono; lia.
    - apply Z.le_trans with (Z.quot (Z.max a b * 64) 64);
        [apply Z.quot_le_mono; lia | rewrite Z.quot_mul; lia]. }
  rewrite i16_small by lia.
  split; [exact Hq |]. split.
  - intros Hmax. assert (m = 64).
    { subst m. unfold Material_make, Material.MAX, Material.MIN, Material.RANGE in *.
      destruct (Z.gtb_spec material (8 + 64)); [lia |].
      destruct (Z.ltb_spec material 8); lia. }
    replace (a * m + b * (64 - m)) with (a * 64) by nia. apply Z.quot_mul. lia.
  - intros Hmin. assert (m = 0).
    { subst m. unfold Material_make, Material.MAX, Material.MIN, Material.RANGE in *.
      destruct (Z.gtb_spec material (8 + 64)); [lia |].
      destruct (Z.ltb_spec material 8); lia. }
    replace (a * m + b * (64 - m)) with (b * 64) by nia. apply Z.quot_mul. lia.
Qed.

Lemma collapse_is_between_the_two_values_witness :
  let s := mkScore 100 130 in
  let v := collapse s (Material_make 40) in
  Z.min (middlegame s) (endgame s) <= v <= Z.max (middlegame s) (endgame s)
  /\ (Material.MAX <= 40 -> v = middlegame s)
  /\ (40 <= Material.MIN -> v = endgame s).
Proof.
  apply (collapse_is_between_the_two_values (mkScore 100 130) 40).
  vm_compute. repeat split; discriminate.
Defined.

(* ===================================================================== *)
(** ** Utils/BitUtils.h : parallelExtract *)
(* ===================================================================== *)

Module bit_utils.
(** The loop of [parallelExtract]; the mask is held as its 64-bit
    pattern.  The body runs once before the mask is tested. *)
Fixpoint parallelExtract_loop (fuel : nat) (value mask result bit : Z) : Z :=
  match fuel with
  | O => result
  | S fuel' =>
      let lsb := Int.u64 (Z.land mask (Int.u64 (- mask))) in
      let mask := Z.land mask (BitBoard.b_not lsb) in
      let result := Z.lor result ((if negb (Z.land value lsb =? 0) then 1 else 0) * bit) in
      let bit := Int.u64 (Z.shiftl bit 1) in
      if negb (mask =? 0) then parallelExtract_loop fuel' value mask result bit
      else result
  end.

Definition parallelExtract (value mask : Z) : Z :=
  parallelExtract_loop 64 value mask 0 1.
End bit_utils.

(** The bits of [value] on the given squares, packed from bit 0 on. *)
Fixpoint gather (value : Z) (sqs : list Z) : Z :=
  match sqs with
  | [] => 0
  | sq :: rest => Z.b2z (Z.testbit value sq) + 2 * gather value rest
  end.

Lemma gather_range (value : Z) (sqs : list Z) :
  0 <= gather value sqs < 2 ^ Z.of_nat (length sqs).
Proof.
  induction sqs as [| sq sqs IH]; cbn [gather length]; [cbn; lia |].
  rewrite Nat2Z.inj_succ, Z.pow_succ_r by lia.
  destruct (Z.testbit value sq); cbn [Z.b2z]; lia.
Qed.

(** [mask & -mask] is the lowest set bit, [mask & ~lsb] the rest. *)
Lemma lowest_bit (mask : Z) :
  inU64 mask = true -> mask <> 0 ->
  Int.u64 (Z.land mask (Int.u64 (- mask))) = 2 ^ BitBoard.lsb mask
  /\ Z.land mask (BitBoard.b_not (2 ^ BitBoard.lsb mask)) = Z.land mask (mask - 1).
Proof.
  intros Hu Hnz. destruct (lsb_lowest mask Hu Hnz) as (Hr & Hb & Hlow).
  pose proof (pop_clears_lowest mask (BitBoard.lsb mask)) as Hpop.
  set (k := BitBoard.lsb mask) in *.
  assert (Hpred : forall j, 0 <= j -> Z.testbit mask j = true ->
                    Z.testbit (mask - 1) j = negb (j =? k)).
  { intros j Hj Hbj. specialize (Hpop j ltac:(lia) Hb Hlow Hj).
    rewrite Z.land_spec, Hbj in Hpop. exact Hpop. }
  split.
  - apply Z.bits_inj'. intros j Hj.
    unfold Int.u64. rewrite !Z.land_spec.
    replace (- mask) with (Z.lnot (mask - 1)) by (unfold Z.lnot; lia).
    rewrite Z.lnot_spec by lia.
    destruct (Z.eqb_spec j k) as [-> | Hne].
    + rewrite Z.pow2_bits_true, Hb, (Hpred k) by (lia || exact Hb).
      rewrite Z.eqb_refl, Z.ones_spec_low by lia. reflexivity.
    + rewrite Z.pow2_bits_false by lia.
      destruct (Z.testbit mask j) eqn:Hbj; [| reflexivity].
      rewrite (Hpred j Hj Hbj).
      replace (j =? k) with false by (symmetry; apply Z.eqb_neq; exact Hne).
      cbn [negb andb]. reflexivity.
  - apply Z.bits_inj'. intros j Hj.
    rewrite (Hpop j ltac:(lia) Hb Hlow Hj), Z.land_spec, b_not_testbit.
    destruct (Z.testbit mask j) eqn:Hbj; [| reflexivity]. cbn [andb].
    assert (Hj64 : j < 64).
    { destruct (Z.lt_ge_cases j 64); [assumption |].
      rewrite (inU64_testbit_high mask j Hu) in Hbj by lia. discriminate. }
    replace (0 <=? j) with true by (symmetry; apply Z.leb_le; lia).
    replace (j <? 64) with true by (symmetry; apply Z.ltb_lt; lia).
    cbn [andb]. f_equal.
    destruct (Z.eqb_spec j k) as [-> | Hne];
      [apply Z.pow2_bits_true; lia | apply Z.pow2_bits_false; lia].
Qed.

Lemma parallelExtract_loop_S (fuel : nat) (value mask result bit : Z) :
  bit_utils.parallelExtract_loop (S fuel) value mask result bit
  = let lsb := Int.u64 (Z.land mask (Int.u64 (- mask))) in
    let mask := Z.land mask (BitBoard.b_not lsb) in
    let result := Z.lor result ((if negb (Z.land value lsb =? 0) then 1 else 0) * bit) in
    let bit := Int.u64 (Z.shiftl bit 1) in
    if negb (mask =? 0) then bit_utils.parallelExtract_loop fuel value mask result bit
    else result.
Proof. reflexivity. Qed.

Lemma squares_loop_S (fuel : nat) (bb : Z) :
  BitBoard.squares_loop (S fuel) bb
  = if bb =? 0 then [] else BitBoard.lsb bb :: BitBoard.squares_loop fuel (Z.land bb (bb - 1)).
Proof. reflexivity. Qed.

Lemma parallelExtract_loop_gather (fuel : nat) (value mask result j : Z) :
  inU64 mask = true -> mask <> 0 -> 0 <= value ->
  0 <= j -> (forall i, 0 <= i -> Z.testbit mask i = true -> j <= i) ->
  0 <= result < 2 ^ j ->
  bit_utils.parallelExtract_loop (S fuel) value mask result (2 ^ j)
  = result + 2 ^ j * gather value (BitBoard.squares_loop (S fuel) mask).
Proof.
  revert mask result j. induction fuel as [| fuel IH];
    intros mask result j Hu Hnz Hv Hj Hmin Hres.
  all: rewrite parallelExtract_loop_S, squares_loop_S; cbv zeta.
  all: destruct (Z.eqb_spec mask 0) as [| _]; [contradiction |].
  all: destruct (lowest_bit mask Hu Hnz) as [Hlsb Hrest]; rewrite Hlsb, Hrest.
  all: destruct (lsb_lowest mask Hu Hnz) as (Hr & Hb & Hlow).
  all: cbn [gather].
  all: assert (Hjk : j <= BitBoard.lsb mask) by (apply Hmin; [lia | exact Hb]).
  all: assert (Hbitv : (if negb (Z.land value (2 ^ BitBoard.lsb mask) =? 0) then 1 else 0)
                       = Z.b2z (Z.testbit value (BitBoard.lsb mask))).
  1, 3: destruct (Z.testbit value (BitBoard.lsb mask)) eqn:E;
        [ destruct (Z.eqb_spec (Z.land value (2 ^ BitBoard.lsb mask)) 0) as [E0 | _];
            [| reflexivity];
          apply (f_equal (fun z => Z.testbit z (BitBoard.lsb mask))) in E0;
          rewrite Z.land_spec, E, Z.pow2_bits_true, Z.bits_0 in E0 by lia; discriminate
        | destruct (Z.eqb_spec (Z.land value (2 ^ BitBoard.lsb mask)) 0) as [_ | E0];
            [reflexivity |];
          exfalso; apply E0; apply Z.bits_inj'; intros i Hi;
          rewrite Z.land_spec, Z.bits_0;
          destruct (Z.eq_dec i (BitBoard.lsb mask)) as [-> | Hne];
            [now rewrite E | rewrite Z.pow2_bits_false by lia; apply andb_false_r] ].
  all: rewrite Hbitv.
  all: assert (Hpj : 0 < 2 ^ j) by (apply Z.pow_pos_nonneg; lia).
  all: assert (Hadd : Z.lor result (Z.b2z (Z.testbit value (BitBoard.lsb mask)) * 2 ^ j)
                      = result + Z.b2z (Z.testbit value (BitBoard.lsb mask)) * 2 ^ j).
  1, 3: apply lor_disjoint_add; lia.
  all: rewrite Hadd.
  - (* no fuel left *)
    cbn [bit_utils.parallelExtract_loop BitBoard.squares_loop gather].
    destruct (negb (Z.land mask (mask - 1) =? 0)); lia.
  - destruct (Z.eqb_spec (Z.land mask (mask - 1)) 0) as [E0 | Hnz'].
    + rewrite E0. cbn [negb].
      change (BitBoard.squares_loop (S fuel) 0) with (@nil Z). cbn [gather]. lia.
    + cbn [negb].
      assert (Hk62 : BitBoard.lsb mask < 63).
      { destruct (lsb_lowest (Z.land mask (mask - 1)) (inU64_land_l _ _ Hu) Hnz')
          as (Hr' & Hb' & _).
        rewrite (pop_clears_lowest mask (BitBoard.lsb mask)) in Hb' by (auto; lia).
        apply andb_true_iff in Hb' as [Hb1 Hb2]. apply negb_true_iff, Z.eqb_neq in Hb2.
        destruct (Z.lt_ge_cases (BitBoard.lsb (Z.land mask (mask - 1))) (BitBoard.lsb mask))
          as [Hlt | Hge]; [| lia].
        rewrite Hlow in Hb1 by lia. discriminate. }
      assert (Hbit' : Int.u64 (Z.shiftl (2 ^ j) 1) = 2 ^ (j + 1)).
      { rewrite Z.shiftl_mul_pow2 by lia. rewrite <- Z.pow_add_r by lia.
        apply u64_id, inU64_spec. split; [apply Z.pow_nonneg; lia |].
        apply Z.pow_lt_mono_r; lia. }
      rewrite Hbit'.
      pose proof (pop_clears_lowest mask (BitBoard.lsb mask)) as Hpop.
      rewrite (IH (Z.land mask (mask - 1))
                  (result + Z.b2z (Z.testbit value (BitBoard.lsb mask)) * 2 ^ j) (j + 1)).
      * rewrite Z.pow_add_r by lia. change (2 ^ 1) with 2.
        set (g := gather value _). lia.
      * now apply inU64_land_l.
      * exact Hnz'.
      * exact Hv.
      * lia.
      * intros i Hi Hbi. rewrite (Hpop i ltac:(lia) Hb Hlow Hi) in Hbi.
        apply andb_true_iff in Hbi as [Hbi Hne]. apply negb_true_iff, Z.eqb_neq in Hne.
        destruct (Z.lt_ge_cases i (BitBoard.lsb mask)) as [Hlt | Hge]; [| lia].
        rewrite Hlow in Hbi by lia. discriminate.
      * rewrite Z.pow_add_r by lia. change (2 ^ 1) with 2.
        destruct (Z.testbit value (BitBoard.lsb mask)); cbn [Z.b2z]; lia.
Qed.

Lemma gather_inj (b1 b2 : Z) (sqs : list Z) :
  gather b1 sqs = gather b2 sqs ->
  forall sq, In sq sqs -> Z.testbit b1 sq = Z.testbit b2 sq.
Proof.
  induction sqs as [| a sqs IH]; cbn [gather]; intros E sq Hin; [destruct Hin |].
  assert (Hbit : Z.testbit b1 a = Z.testbit b2 a /\ gather b1 sqs = gather b2 sqs).
  { destruct (Z.testbit b1 a), (Z.testbit b2 a); cbn [Z.b2z] in E; split;
      try reflexivity; lia. }
  destruct Hbit as [Ha Hrest]. destruct Hin as [<- | Hin]; [exact Ha | now apply IH].
Qed.

Lemma gather_ext (b1 b2 : Z) (sqs : list Z) :
  (forall sq, In sq sqs -> Z.testbit b1 sq = Z.testbit b2 sq) ->
  gather b1 sqs = gather b2 sqs.
Proof.
  induction sqs as [| a sqs IH]; cbn [gather]; intros H; [reflexivity |].
  rewrite (H a) by now left. rewrite IH; [reflexivity |].
  intros sq Hin. apply H. now right.
Qed.

(** X16: [parallelExtract] packs the bits of [value] that stand on the
    squares of the mask, from the lowest square of the mask on, into the
    low bits of the result; so the result is below two to the number of
    squares of the mask, the bits of [value] outside the mask make no
    difference, and two subsets of the mask with the same result are
    equal: the index of the magic tables tells the relevant occupancies
    apart.  (The mask is a non-negative [i64].) *)
Theorem parallelExtract_packs_the_masked_bits (value mask : Z) :
  0 <= mask < 2 ^ 63 -> 0 <= value ->
  bit_utils.parallelExtract value mask = gather value (BitBoard.squares mask)
  /\ 0 <= bit_utils.parallelExtract value mask
       < 2 ^ Z.of_nat (length (BitBoard.squares mask))
  /\ bit_utils.parallelExtract (Z.land value mask) mask
     = bit_utils.parallelExtract value mask
  /\ (forall b1 b2, 0 <= b1 -> 0 <= b2 ->
        Z.land b1 mask = b1 -> Z.land b2 mask = b2 ->
        bit_utils.parallelExtract b1 mask = bit_utils.parallelExtract b2 mask ->
        b1 = b2).
Proof.
  intros Hm Hv.
  assert (Hu : inU64 mask = true).
  { apply inU64_spec. split; [lia |].
    assert (2 ^ 63 < 2 ^ 64) by (apply Z.pow_lt_mono_r; lia). lia. }
  assert (Heq : forall v, 0 <= v ->
            bit_utils.parallelExtract v mask = gather v (BitBoard.squares mask)).
  { intros v Hv0. unfold bit_utils.parallelExtract, BitBoard.squares.
    destruct (Z.eq_dec mask 0) as [-> | Hnz].
    - rewrite parallelExtract_loop_S. cbv zeta.
      change (Int.u64 (Z.land 0 (Int.u64 (- 0)))) with 0.
      rewrite Z.land_0_r. reflexivity.
    - change 1 with (2 ^ 0) at 1.
      rewrite parallelExtract_loop_gather; try assumption; try lia. }
  destruct (BB_FOR_EACH_visits_the_squares_lemma mask Hu) as (Hin & _).
  split; [now apply Heq |]. split; [rewrite Heq by exact Hv; apply gather_range |].
  split.
  { rewrite !Heq by (try apply Z.land_nonneg; auto). apply gather_ext.
    intros sq Hsq. apply Hin in Hsq as [_ Hb]. rewrite Z.land_spec, Hb.
    apply andb_true_r. }
  intros b1 b2 H1 H2 Hs1 Hs2 E. rewrite !Heq in E by assumption.
  pose proof (gather_inj b1 b2 _ E) as Hbits.
  apply Z.bits_inj'. intros i Hi.
  destruct (Z.testbit mask i) eqn:Hmi.
  - apply Hbits, Hin. split; [| exact Hmi].
    destruct (Z.lt_ge_cases i 64); [lia |].
    rewrite (inU64_testbit_high mask i Hu) in Hmi by lia. discriminate.
  - rewrite <- Hs1, <- Hs2, !Z.land_spec, Hmi. now rewrite !andb_false_r.
Qed.

Lemma parallelExtract_packs_the_masked_bits_witness :
  bit_utils.parallelExtract 210 170 = gather 210 (BitBoard.squares 170)
  /\ 0 <= bit_utils.parallelExtract 210 170
       < 2 ^ Z.of_nat (length (BitBoard.squares 170))
  /\ bit_utils.parallelExtract (Z.land 210 170) 170
     = bit_utils.parallelExtract 210 170
  /\ (forall b1 b2, 0 <= b1 -> 0 <= b2 ->
        Z.land b1 170 = b1 -> Z.land b2 170 = b2 ->
        bit_utils.parallelExtract b1 170 = bit_utils.parallelExtract b2 170 ->
        b1 = b2).
Proof. apply (parallelExtract_packs_the_masked_bits 210 170); lia. Defined.

(** The example of the source: [value = 0b11010010], [mask = 0b10101010]
    give [0b1001]. *)
Remark parallelExtract_example : bit_utils.parallelExtract 210 170 = 9.
Proof. reflexivity. Qed.

(* ===================================================================== *)
(** ** BitBoard: the magic tables give the sliding attacks *)
(* ===================================================================== *)

(** The board after [n] steps in a direction. *)
Fixpoint shifted (n : nat) (d : Direction.t) (bb : Z) : Z :=
  match n with
  | O => bb
  | S n' => shifted n' d (BitBoard.shift bb d)
  end.

(** A square of a ray is in the mask, or it is the last of the ray. *)
Definition relevantOrLast (d : Direction.t) (mask bb : Z) : bool :=
  (Z.land mask bb =? bb) || (BitBoard.shift bb d =? 0).

Definition slidingDirections (pt : Z) : list Direction.t :=
  if pt =? PieceType.ROOK
  then [Direction.UP; Direction.DOWN; Direction.RIGHT; Direction.LEFT]
  else [Direction.UPLEFT; Direction.DOWNLEFT; Direction.UPRIGHT; Direction.DOWNRIGHT].

Lemma masks_leave_out_last_squares :
  forallb (fun pt => forallb (fun sq => forallb (fun d => forallb (fun n =>
      relevantOrLast d (BitBoard.magicMask pt sq) (shifted n d (BitBoard.fromSquare sq)))
    (seq 1 8)) (slidingDirections pt)) Square.iter) [PieceType.ROOK; PieceType.BISHOP]
  = true.
Proof. vm_compute. reflexivity. Qed.

Lemma slide_dead (fuel : nat) (d : Direction.t) (occ bb r : Z) :
  BitBoard.shift bb d = 0 -> BitBoard.slide fuel d occ bb r = r.
Proof. intros H. destruct fuel; cbn [BitBoard.slide]; [reflexivity |]. now rewrite H. Qed.

Lemma slide_masked (d : Direction.t) (mask occ : Z) (fuel : nat) (bb r : Z) :
  (forall n, (1 <= n <= fuel)%nat -> relevantOrLast d mask (shifted n d bb) = true) ->
  BitBoard.slide fuel d (Z.land occ mask) bb r = BitBoard.slide fuel d occ bb r.
Proof.
  revert bb r. induction fuel as [| fuel IH]; intros bb r Hall; [reflexivity |].
  cbn [BitBoard.slide].
  destruct (Z.eqb_spec (BitBoard.shift bb d) 0) as [| Hnz]; [reflexivity |].
  pose proof (Hall 1%nat ltac:(lia)) as H1. cbn [shifted] in H1.
  assert (Hrest : forall n, (1 <= n <= fuel)%nat ->
            relevantOrLast d mask (shifted n d (BitBoard.shift bb d)) = true).
  { intros n Hn. apply (Hall (S n)). lia. }
  unfold relevantOrLast in H1. apply orb_true_iff in H1 as [H1 | H1].
  - apply Z.eqb_eq in H1. rewrite <- Z.land_assoc, H1. rewrite IH by exact Hrest.
    reflexivity.
  - apply Z.eqb_eq in H1. rewrite !(slide_dead fuel d _ _ _ H1).
    destruct (negb (Z.land (Z.land occ mask) _ =? 0)), (negb (Z.land occ _ =? 0));
      reflexivity.
Qed.

(** X17: the magic tables give the sliding attacks.  The entry read for
    an occupancy (the one written for the part of the occupancy inside
    the mask of the square) is the sliding attack computed with the whole
    occupancy: the squares left out of the mask, the last of each ray,
    make no difference.  So [attacksOf] of a bishop, rook or queen walks
    every ray of the piece up to and including the first occupied
    square. *)
Theorem magic_lookup_is_the_sliding_attack (pt sq occ : Z) :
  0 <= sq < 64 ->
  BitBoard.magicLookup pt sq occ = BitBoard.slidingAttack pt sq occ
  /\ BitBoard.attacksOf PieceType.BISHOP sq occ
     = BitBoard.slidingAttack PieceType.BISHOP sq occ
  /\ BitBoard.attacksOf PieceType.ROOK sq occ
     = BitBoard.slidingAttack PieceType.ROOK sq occ
  /\ BitBoard.attacksOf PieceType.QUEEN sq occ
     = Z.lor (BitBoard.slidingAttack PieceType.ROOK sq occ)
             (BitBoard.slidingAttack PieceType.BISHOP sq occ).
Proof.
  intros Hsq.
  assert (Hray : forall p d, In p [PieceType.ROOK; PieceType.BISHOP] ->
            In d (slidingDirections p) -> forall r,
            BitBoard.slide 8 d (Z.land occ (BitBoard.magicMask p sq))
              (BitBoard.fromSquare sq) r
            = BitBoard.slide 8 d occ (BitBoard.fromSquare sq) r).
  { intros p d Hp Hd r. apply slide_masked. intros n Hn.
    pose proof masks_leave_out_last_squares as H. rewrite forallb_forall in H.
    specialize (H p Hp). rewrite forallb_forall in H.
    specialize (H sq (In_Square_iter sq Hsq)). rewrite forallb_forall in H.
    specialize (H d Hd). rewrite forallb_forall in H.
    apply H. apply in_seq. lia. }
  assert (Hlook : forall p, BitBoard.magicLookup p sq occ = BitBoard.slidingAttack p sq occ).
  { intros p. unfold BitBoard.magicLookup, BitBoard.slidingAttack.
    destruct (Z.eqb_spec p PieceType.ROOK) as [-> | _].
    - cbn [fold_left].
      rewrite !(Hray PieceType.ROOK) by (cbn; auto). reflexivity.
    - destruct (Z.eqb_spec p PieceType.BISHOP) as [-> | _]; [| reflexivity].
      cbn [fold_left].
      rewrite !(Hray PieceType.BISHOP) by (cbn; auto). reflexivity. }
  split; [apply Hlook |].
  unfold BitBoard.attacksOf.
  change (PieceType.BISHOP =? PieceType.BISHOP) with true.
  change (PieceType.ROOK =? PieceType.BISHOP) with false.
  change (PieceType.ROOK =? PieceType.ROOK) with true.
  change (PieceType.QUEEN =? PieceType.BISHOP) with false.
  change (PieceType.QUEEN =? PieceType.ROOK) with false.
  change (PieceType.QUEEN =? PieceType.QUEEN) with true.
  cbv iota. rewrite (Hlook PieceType.BISHOP), (Hlook PieceType.ROOK).
  split; [reflexivity |]. split; reflexivity.
Qed.

Lemma magic_lookup_is_the_sliding_attack_witness :
  BitBoard.magicLookup PieceType.ROOK 0 129 = BitBoard.slidingAttack PieceType.ROOK 0 129
  /\ BitBoard.attacksOf PieceType.BISHOP 0 129
     = BitBoard.slidingAttack PieceType.BISHOP 0 129
  /\ BitBoard.attacksOf PieceType.ROOK 0 129
     = BitBoard.slidingAttack PieceType.ROOK 0 129
  /\ BitBoard.attacksOf PieceType.QUEEN 0 129
     = Z.lor (BitBoard.slidingAttack PieceType.ROOK 0 129)
             (BitBoard.slidingAttack PieceType.BISHOP 0 129).
Proof. apply (magic_lookup_is_the_sliding_attack PieceType.ROOK 0 129). lia. Defined.

(* ===================================================================== *)
(** ** Board::makeMoveFromString: what a text is read as *)
(* ===================================================================== *)

(** The loop returns the null move, or it stops at the first generated
    move with the two squares, which is legal. *)
Lemma matchMove_cases (b : Board) (str : string) (from to : Z) (l : list Z) :
  matchMove b str from to l = Move.makeNullMove
  \/ exists m, In m l /\ Move.getFrom m = from /\ Move.getTo m = to
       /\ isLegal b m = true
       /\ (Move.getMoveType m <> MoveType.PROMOTION -> matchMove b str from to l = m)
       /\ (Move.getMoveType m = MoveType.PROMOTION ->
           matchMove b str from to l
           = Move.make from to MoveType.PROMOTION
               (if size str >? 4 then Piece.getType (Piece.fromFENChar (char_at str 4))
                else PieceType.KNIGHT)).
Proof.
  induction l as [| x l IH]; [now left |].
  cbn [matchMove].
  destruct (Z.eqb_spec (Move.getFrom x) from) as [Hf | Hf]; cbn [andb].
  - destruct (Z.eqb_spec (Move.getTo x) to) as [Ht | Ht].
    + destruct (isLegal b x) eqn:Hl; cbn [negb]; [| now left].
      right. exists x. split; [now left |]. split; [exact Hf |]. split; [exact Ht |].
      split; [exact Hl |].
      destruct (Z.eqb_spec (Move.getMoveType x) MoveType.PROMOTION) as [E | E];
        split; intros H; congruence.
    + destruct IH as [IH | (m & Hin & IH)]; [now left |].
      right. exists m. split; [now right | exact IH].
  - destruct IH as [IH | (m & Hin & IH)]; [now left |].
    right. exists m. split; [now right | exact IH].
Qed.

Lemma makeMoveFromString_cases (b : Board) (str : string) :
  makeMoveFromString b str = Move.makeNullMove
  \/ exists m, In m (generateMoves movegen.ALL_MOVES b []) /\ isLegal b m = true
       /\ BitBoard.test (byColor b (m_side b)) (Move.getFrom m) = true
       /\ BitBoard.test (byColor b (m_side b)) (Move.getTo m) = false
       /\ (str = "0-0"%string ->
           Move.getFrom m = Square.makeRelativeSquare (m_side b) Square.E1
           /\ Move.getTo m = Square.makeRelativeSquare (m_side b) Square.G1)
       /\ (str = "0-0-0"%string ->
           Move.getFrom m = Square.makeRelativeSquare (m_side b) Square.E1
           /\ Move.getTo m = Square.makeRelativeSquare (m_side b) Square.C1)
       /\ (str <> "0-0"%string -> str <> "0-0-0"%string ->
           Move.getFrom m = Square.fromChars (char_at str 0) (char_at str 1)
           /\ Move.getTo m = Square.fromChars (char_at str 2) (char_at str 3))
       /\ (Move.getMoveType m <> MoveType.PROMOTION -> makeMoveFromString b str = m)
       /\ (Move.getMoveType m = MoveType.PROMOTION ->
           makeMoveFromString b str
           = Move.make (Move.getFrom m) (Move.getTo m) MoveType.PROMOTION
               (if size str >? 4 then Piece.getType (Piece.fromFENChar (char_at str 4))
                else PieceType.KNIGHT)).
Proof.
  unfold makeMoveFromString.
  destruct ((size str <? 4) && negb (str =? "0-0")%string); [now left |].
  cbv zeta.
  set (sqs := if (str =? "0-0")%string then _ else _).
  assert (Hsqs :
    (str = "0-0"%string ->
       sqs = (Square.makeRelativeSquare (m_side b) Square.E1,
              Square.makeRelativeSquare (m_side b) Square.G1))
    /\ (str = "0-0-0"%string ->
       sqs = (Square.makeRelativeSquare (m_side b) Square.E1,
              Square.makeRelativeSquare (m_side b) Square.C1))
    /\ (str <> "0-0"%string -> str <> "0-0-0"%string ->
       sqs = (Square.fromChars (char_at str 0) (char_at str 1),
              Square.fromChars (char_at str 2) (char_at str 3)))).
  { subst sqs. destruct (String.eqb_spec str "0-0") as [-> | H1].
    - split; [reflexivity |]. split; [discriminate | congruence].
    - destruct (String.eqb_spec str "0-0-0") as [-> | H2].
      + split; [congruence |]. split; [reflexivity | congruence].
      + split; [congruence |]. split; [congruence | reflexivity]. }
  clearbody sqs. destruct sqs as [from to].
  destruct (BitBoard.test (byColor b (m_side b)) from) eqn:Hown; cbn [negb orb];
    [| now left].
  destruct (BitBoard.test (byColor b (m_side b)) to) eqn:Hto; cbn [orb]; [now left |].
  destruct (from =? to); [now left |].
  destruct (matchMove_cases b str from to (generateMoves movegen.ALL_MOVES b []))
    as [H | (m & Hin & Hf & Ht & Hl & Hnp & Hp)]; [now left |].
  right. exists m. subst from to.
  destruct Hsqs as (H1 & H2 & H3).
  repeat split; try assumption.
  - now injection (H1 H).
  - now injection (H1 H).
  - now injection (H2 H).
  - now injection (H2 H).
  - now injection (H3 H H0).
  - now injection (H3 H H0).
Qed.

(** X18: [makeMoveFromString] never makes up a move.  It returns the
    null move, or there is a generated move that is legal, goes from a
    piece of the side to move to a square without one, and has the two
    squares the text names (those of the king for the castling texts);
    the result is that move, or, when that move is a promotion, the
    promotion on its squares with the piece taken from the text.  A text
    of fewer than four characters other than [0-0] gives the null
    move. *)
Theorem makeMoveFromString_returns_a_generated_legal_move (b : Board) (str : string) :
  (makeMoveFromString b str = Move.makeNullMove
   \/ exists m, In m (generateMoves movegen.ALL_MOVES b []) /\ isLegal b m = true
        /\ BitBoard.test (byColor b (m_side b)) (Move.getFrom m) = true
        /\ BitBoard.test (byColor b (m_side b)) (Move.getTo m) = false
        /\ (str = "0-0"%string ->
            Move.getFrom m = Square.makeRelativeSquare (m_side b) Square.E1
            /\ Move.getTo m = Square.makeRelativeSquare (m_side b) Square.G1)
        /\ (str = "0-0-0"%string ->
            Move.getFrom m = Square.makeRelativeSquare (m_side b) Square.E1
            /\ Move.getTo m = Square.makeRelativeSquare (m_side b) Square.C1)
        /\ (str <> "0-0"%string -> str <> "0-0-0"%string ->
            Move.getFrom m = Square.fromChars (char_at str 0) (char_at str 1)
            /\ Move.getTo m = Square.fromChars (char_at str 2) (char_at str 3))
        /\ (Move.getMoveType m <> MoveType.PROMOTION -> makeMoveFromString b str = m)
        /\ (Move.getMoveType m = MoveType.PROMOTION ->
            makeMoveFromString b str
            = Move.make (Move.getFrom m) (Move.getTo m) MoveType.PROMOTION
                (if size str >? 4 then Piece.getType (Piece.fromFENChar (char_at str 4))
                 else PieceType.KNIGHT)))
  /\ ((String.length str < 4)%nat -> str <> "0-0"%string ->
      makeMoveFromString b str = Move.makeNullMove).
Proof.
  split; [apply makeMoveFromString_cases |].
  intros Hlen Hne. unfold makeMoveFromString.
  replace (size str <? 4) with true by (symmetry; apply Z.ltb_lt; unfold size; lia).
  destruct (String.eqb_spec str "0-0"); [contradiction | reflexivity].
Qed.

(** The word of a promotion built with each piece type. *)
Lemma promotion_letter_words :
  forallb (fun f => forallb (fun t =>
    let word pt := Move.make f t MoveType.PROMOTION pt in
    forallb (fun pt =>
      (Move.getFrom (word pt) =? f) && (Move.getTo (word pt) =? t)) [0; 1; 2; 3; 4; 5; 6]
    && forallb (fun pt =>
         (Move.getMoveType (word pt) =? MoveType.PROMOTION)
         && (Move.getPromotedPiece (word pt) =? pt)) [2; 3; 4; 5]
    && (Move.getData (word PieceType.KING) =? Move.getData (word PieceType.KNIGHT))
    && (Move.getMoveType (word PieceType.PAWN) =? MoveType.CASTLE)
    && (Move.getMoveType (word PieceType.NONE) =? MoveType.CASTLE))
    Square.iter) Square.iter = true.
Proof. vm_compute. reflexivity. Qed.

Lemma fromFENChar_type (c : ascii) :
  In (Piece.getType (Piece.fromFENChar c)) [0; 1; 2; 3; 4; 5; 6].
Proof.
  unfold Piece.fromFENChar.
  repeat match goal with
  | |- context [Ascii.eqb c ?x] => destruct (Ascii.eqb c x); [cbn; tauto |]
  end.
  cbn; tauto.
Qed.




(** The three cases on a board: [d7d8q] is the promotion to a queen,
    [d7d8k] the promotion to a knight, and [d7d8p] and [d7d8x] are words
    with the type of a castling. *)
Remark promotion_letter_examples :
  Move.getMoveType (makeMoveFromString C9_board "d7d8q") = MoveType.PROMOTION
  /\ Move.getPromotedPiece (makeMoveFromString C9_board "d7d8q") = PieceType.QUEEN
  /\ Move.getMoveType (makeMoveFromString C9_board "d7d8k") = MoveType.PROMOTION
  /\ Move.getPromotedPiece (makeMoveFromString C9_board "d7d8k") = PieceType.KNIGHT
  /\ Move.getMoveType (makeMoveFromString C9_board "d7d8p") = MoveType.CASTLE
  /\ Move.getMoveType (makeMoveFromString C9_board "d7d8x") = MoveType.CASTLE.
Proof. vm_compute. repeat split; reflexivity. Qed.

(* ===================================================================== *)
(** ** Board::makeMove keeps the placement consistent *)
(* ===================================================================== *)

Lemma testbit_change (bb from to sq : Z) :
  0 <= from < 64 -> 0 <= to < 64 -> 0 <= sq < 64 ->
  Z.testbit (Z.lxor bb (change_of from to)) sq
  = xorb (Z.testbit bb sq) ((sq =? from) || (sq =? to)).
Proof.
  intros Hf Ht Hs. unfold change_of.
  now rewrite Z.lxor_spec, Z.lor_spec, !fromSquare_testbit.
Qed.

Lemma testbit_set_sq (bb t sq : Z) :
  0 <= t < 64 -> 0 <= sq < 64 ->
  Z.testbit (BitBoard.set bb t) sq = Z.testbit bb sq || (sq =? t).
Proof. intros Ht Hs. unfold BitBoard.set. now rewrite Z.lor_spec, fromSquare_testbit. Qed.

Lemma testbit_clear_sq (bb t sq : Z) :
  0 <= t < 64 -> 0 <= sq < 64 ->
  Z.testbit (BitBoard.clear bb t) sq = Z.testbit bb sq && negb (sq =? t).
Proof.
  intros Ht Hs. unfold BitBoard.clear.
  rewrite Z.land_spec, b_not_testbit, fromSquare_testbit by assumption.
  replace (0 <=? sq) with true by (symmetry; apply Z.leb_le; lia).
  replace (sq <? 64) with true by (symmetry; apply Z.ltb_lt; lia).
  reflexivity.
Qed.

Lemma inU64_fromSquare (sq : Z) : inU64 (BitBoard.fromSquare sq) = true.
Proof. apply inU64_u64. Qed.

Lemma inU64_change (bb from to : Z) :
  inU64 bb = true -> inU64 (Z.lxor bb (change_of from to)) = true.
Proof.
  intros H. apply inU64_lxor; [exact H |]. unfold change_of.
  apply inU64_lor; apply inU64_fromSquare.
Qed.

Lemma inU64_clear (bb sq : Z) : inU64 bb = true -> inU64 (BitBoard.clear bb sq) = true.
Proof. intros H. unfold BitBoard.clear. now apply inU64_land_l. Qed.

Lemma inU64_set_any (bb sq : Z) : inU64 bb = true -> inU64 (BitBoard.set bb sq) = true.
Proof. intros H. unfold BitBoard.set. apply inU64_lor; [exact H | apply inU64_fromSquare]. Qed.

Lemma scoreInRange_add (a c : Score) : scoreInRange (ScoreOps.add a c).
Proof. unfold scoreInRange, ScoreOps.add. cbn [middlegame endgame]. split; wrap_lia. Qed.

Lemma scoreInRange_sub (a c : Score) : scoreInRange (ScoreOps.sub a c).
Proof. unfold scoreInRange, ScoreOps.sub. cbn [middlegame endgame]. split; wrap_lia. Qed.

Lemma i32_range (z : Z) : -2147483648 <= Int.i32 z < 2147483648.
Proof. wrap_lia. Qed.

(** Reading a cell of an array after writes. *)
Lemma rd_wr_if {A} `{Inhabited A} (l : list A) (i j : Z) (v : A) :
  0 <= i < Z.of_nat (length l) -> 0 <= j ->
  rd (wr l i v) j = if j =? i then v else rd l j.
Proof.
  intros Hi Hj. destruct (Z.eqb_spec j i) as [-> | Hne];
    [now apply rd_wr_eq | apply rd_wr_ne; lia].
Qed.

(** The placement arrays of a board, cell by cell. *)
Definition placed (bd pc cl : list Z) : Prop :=
  length bd = 64%nat /\ length pc = 14%nat /\ length cl = 2%nat
  /\ (forall q, 0 <= q < 14 -> inU64 (rd pc q) = true)
  /\ (forall c, inU64 (rdc cl c) = true)
  /\ (forall sq, 0 <= sq < 64 -> rd bd sq = Piece.NONE \/ isPieceCode (rd bd sq) = true)
  /\ (forall sq q, 0 <= sq < 64 -> isPieceCode q = true ->
        Z.testbit (rd pc q) sq = (rd bd sq =? q))
  /\ (forall sq c, 0 <= sq < 64 ->
        Z.testbit (rdc cl c) sq
        = isPieceCode (rd bd sq) && Color.eqb (Piece.getColor (rd bd sq)) c).

Lemma PiecesOK_placed (b : Board) :
  PiecesOK b -> placed (m_board b) (m_pieces b) (m_piecesByColor b).
Proof.
  intros OK. unfold placed.
  repeat split; try apply OK.
Qed.

(** Compare two squares or two pieces. *)
Ltac split_on a b :=
  destruct (Z.eqb_spec a b); try (exfalso; (lia || congruence)).

Ltac rd_if := rewrite ?rd_wr_if by (rewrite ?length_wr; lia).

Lemma testbit_change2 (bb a c d e sq : Z) :
  0 <= a < 64 -> 0 <= c < 64 -> 0 <= d < 64 -> 0 <= e < 64 -> 0 <= sq < 64 ->
  Z.testbit (Z.lxor bb (Z.lor (change_of a c) (change_of d e))) sq
  = xorb (Z.testbit bb sq) (((sq =? a) || (sq =? c)) || ((sq =? d) || (sq =? e))).
Proof.
  intros Ha Hc Hd He Hs. unfold change_of.
  now rewrite Z.lxor_spec, !Z.lor_spec, !fromSquare_testbit.
Qed.

Lemma inU64_change2 (bb a c d e : Z) :
  inU64 bb = true -> inU64 (Z.lxor bb (Z.lor (change_of a c) (change_of d e))) = true.
Proof.
  intros H. apply inU64_lxor; [exact H |]. unfold change_of.
  repeat apply inU64_lor; apply inU64_fromSquare.
Qed.

Ltac bits_if :=
  rewrite ?testbit_change2, ?testbit_change, ?testbit_set_sq, ?testbit_clear_sq by lia.

Ltac in_u64_cell :=
  repeat first [ apply inU64_change2 | apply inU64_change | apply inU64_clear
               | apply inU64_set_any ];
  auto with zarith.

Lemma isPieceCode_of_range (p : Z) : 2 <= p < 14 -> isPieceCode p = true.
Proof.
  intros H. unfold isPieceCode. apply andb_true_iff. split; [apply Z.leb_le | apply Z.ltb_lt]; lia.
Qed.

Lemma opposite_colour (p q : Z) (side : Color.t) :
  Piece.getColor p = side -> Piece.getColor q = Color.getOpposite side -> p <> q.
Proof. intros Hp Hq ->. rewrite Hp in Hq. destruct side; discriminate. Qed.

(** The colour of a piece code, and the two pieces of a type. *)
Lemma colour_of_code (p : Z) :
  Color.eqb (Piece.getColor p) Color.WHITE = Z.odd p
  /\ Color.eqb (Piece.getColor p) Color.BLACK = Z.even p.
Proof.
  unfold Piece.getColor.
  replace (Z.land p 1) with (p mod 2)
    by (change 1 with (Z.ones 1); now rewrite Z.land_ones by lia).
  rewrite Zmod_odd, <- Z.negb_odd.
  destruct (Z.odd p); cbn; split; reflexivity.
Qed.

(** The placement arrays with the colours read by index. *)
Lemma placed_intro (bd pc cl : list Z) :
  length bd = 64%nat -> length pc = 14%nat -> length cl = 2%nat ->
  (forall q, 0 <= q < 14 -> inU64 (rd pc q) = true) ->
  inU64 (rd cl 0) = true -> inU64 (rd cl 1) = true ->
  (forall sq, 0 <= sq < 64 -> rd bd sq = Piece.NONE \/ 2 <= rd bd sq < 14) ->
  (forall sq q, 0 <= sq < 64 -> 2 <= q < 14 ->
     Z.testbit (rd pc q) sq = (rd bd sq =? q)) ->
  (forall sq, 0 <= sq < 64 ->
     Z.testbit (rd cl 0) sq
     = isPieceCode (rd bd sq) && Z.even (rd bd sq)) ->
  (forall sq, 0 <= sq < 64 ->
     Z.testbit (rd cl 1) sq
     = isPieceCode (rd bd sq) && Z.odd (rd bd sq)) ->
  placed bd pc cl.
Proof.
  intros L1 L2 L3 Hpc H0 H1 Hcode Hbp Hb0 Hb1. unfold placed.
  split; [exact L1 |]. split; [exact L2 |]. split; [exact L3 |]. split; [exact Hpc |].
  split; [intros []; assumption |].
  split; [| split].
  - intros sq Hsq. destruct (Hcode sq Hsq) as [E | R];
      [now left | right; now apply isPieceCode_of_range].
  - intros sq q Hsq Hq. apply Hbp; [exact Hsq | now apply isPieceCode_range].
  - intros sq c Hsq. destruct (colour_of_code (rd bd sq)) as [Hw Hb].
    destruct c; cbv [rdc Color.toZ]; [rewrite Hb; now apply Hb0 | rewrite Hw; now apply Hb1].
Qed.

Lemma placed_elim (bd pc cl : list Z) :
  placed bd pc cl ->
  length bd = 64%nat /\ length pc = 14%nat /\ length cl = 2%nat
  /\ (forall q, 0 <= q < 14 -> inU64 (rd pc q) = true)
  /\ inU64 (rd cl 0) = true /\ inU64 (rd cl 1) = true
  /\ (forall sq, 0 <= sq < 64 -> rd bd sq = Piece.NONE \/ 2 <= rd bd sq < 14)
  /\ (forall sq q, 0 <= sq < 64 -> 2 <= q < 14 ->
        Z.testbit (rd pc q) sq = (rd bd sq =? q))
  /\ (forall sq, 0 <= sq < 64 ->
        Z.testbit (rd cl 0) sq
        = isPieceCode (rd bd sq) && Z.even (rd bd sq))
  /\ (forall sq, 0 <= sq < 64 ->
        Z.testbit (rd cl 1) sq
        = isPieceCode (rd bd sq) && Z.odd (rd bd sq)).
Proof.
  intros (L1 & L2 & L3 & Hpc & Hcl & Hcode & Hbp & Hbc).
  split; [exact L1 |]. split; [exact L2 |]. split; [exact L3 |]. split; [exact Hpc |].
  split; [exact (Hcl Color.BLACK) |]. split; [exact (Hcl Color.WHITE) |].
  split; [| split; [| split]].
  - intros sq Hsq. destruct (Hcode sq Hsq) as [E | R];
      [now left | right; now apply isPieceCode_range].
  - intros sq q Hsq Hq. apply Hbp; [exact Hsq | now apply isPieceCode_of_range].
  - intros sq Hsq. destruct (colour_of_code (rd bd sq)) as [_ Hb].
    rewrite <- Hb. exact (Hbc sq Color.BLACK Hsq).
  - intros sq Hsq. destruct (colour_of_code (rd bd sq)) as [Hw _].
    rewrite <- Hw. exact (Hbc sq Color.WHITE Hsq).
Qed.

(** Solve one cell of the placement after an operation: the cells of the
    arrays are read, the bits of the changed boards are computed from
    the bits before, which the placement gives, and the comparisons of
    squares and pieces are decided. *)
Ltac is_atom t :=
  first [ is_var t
        | lazymatch t with Zpos _ => idtac | Z0 => idtac | Zneg _ => idtac end ].

Ltac cell_cases :=
  repeat match goal with
  | |- context [Z.eqb ?a ?b] => is_atom a; is_atom b; split_on a b; cbv iota
  end.

Ltac any_cases :=
  repeat match goal with
  | |- context [Z.eqb ?a ?b] => split_on a b; cbv iota
  end.

Ltac use_facts :=
  repeat match goal with
  | H : rd ?l ?i = _ |- context [rd ?l ?i] => rewrite H
  | H : isPieceCode ?p = _ |- context [isPieceCode ?p] => rewrite H
  | H : Z.odd ?p = _ |- context [Z.odd ?p] => rewrite H
  | H : Z.even ?p = _ |- context [Z.even ?p] => rewrite H
  end.

Ltac cell_done :=
  subst; use_facts; change (isPieceCode Piece.NONE) with false;
  unfold Piece.NONE in *; any_cases; cbn [andb orb xorb negb];
  rewrite ?xorb_false_r, ?orb_false_r, ?andb_true_r, ?andb_false_r;
  try reflexivity; try congruence; try lia.

(** One cell of the arrays after an operation, given the cells before. *)
Ltac cell Hbp Hb0 Hb1 :=
  intros; rd_if; cbn [Z.eqb Pos.eqb]; cbv iota; cell_cases; bits_if;
  rewrite ?Hbp, ?Hb0, ?Hb1 by lia; cell_cases; cell_done.

Lemma colour_facts (p : Z) (side : Color.t) :
  Piece.getColor p = side ->
  Z.odd p = Color.eqb side Color.WHITE /\ Z.even p = Color.eqb side Color.BLACK.
Proof. intros <-. destruct (colour_of_code p). split; congruence. Qed.

Lemma PiecesOK_of_placed (b : Board) :
  placed (m_board b) (m_pieces b) (m_piecesByColor b) ->
  length (m_material b) = 2%nat -> length (m_score b) = 2%nat ->
  (forall c, -2147483648 <= rdc (m_material b) c < 2147483648) ->
  (forall c, scoreInRange (rdc (m_score b) c)) ->
  PiecesOK b.
Proof.
  intros (L1 & L2 & L3 & Hpc & Hcl & Hcode & Hbp & Hbc) L4 L5 Hm Hs.
  constructor; assumption.
Qed.

(** The counters of a board after an operation stay in range. *)
Ltac counters :=
  let c := fresh "c" in
  intros c; destruct c; cbv [rdc wrc Color.toZ Color.getOpposite];
  rd_if; cbn [Z.eqb Pos.eqb]; cbv iota;
  first [ apply i32_range | apply scoreInRange_add | apply scoreInRange_sub
        | match goal with H : forall c : Color.t, _ |- _ =>
            first [ exact (H Color.BLACK) | exact (H Color.WHITE) ] end ].

(** The placement after an operation: the board is opened, the
    operation is run, and every cell is checked. *)
Ltac placement Hbp Hb0 Hb1 :=
  apply placed_intro; rewrite ?length_wr; try assumption;
  try (intros; rd_if; cbn [Z.eqb Pos.eqb]; cbv iota; cell_cases; in_u64_cell; fail);
  try (cell Hbp Hb0 Hb1; fail).

Ltac open_placed OK b Hbp Hb0 Hb1 :=
  let Hpl := fresh "Hpl" in
  pose proof (PiecesOK_placed b OK) as Hpl;
  apply placed_elim in Hpl as (?L & ?L & ?L & ?Hpc & ?H0 & ?H1 & ?Hcode & Hbp & Hb0 & Hb1);
  pose proof (ok_len_material b OK); pose proof (ok_len_score b OK);
  pose proof (ok_material b OK); pose proof (ok_score b OK);
  clear OK; open_board b.

Lemma PiecesOK_move (side : Color.t) (piece from to : Z) (b : Board) :
  PiecesOK b -> 0 <= from < 64 -> 0 <= to < 64 -> from <> to ->
  rd (m_board b) from = piece ->
  isPieceCode piece = true -> Piece.getColor piece = side ->
  (rd (m_board b) to = Piece.NONE
   \/ (isPieceCode (rd (m_board b) to) = true
       /\ Piece.getColor (rd (m_board b) to) = Color.getOpposite side)) ->
  PiecesOK (fst (movePieceWithCapture side piece from to b)).
Proof.
  intros OK Hf Ht Hne Hpiece Hp Hcol Hcap.
  pose proof (isPieceCode_range _ Hp) as Hpr.
  destruct (colour_facts piece side Hcol) as [Hodd Hev].
  remember (rd (m_board b) to) as cap eqn:Hcapd. symmetry in Hcapd.
  open_placed OK b Hbp Hb0 Hb1.
  cbv [movePieceWithCapture]. board_simpl. rewrite Hcapd.
  destruct Hcap as [Hcap | [Hc Hcc]].
  - rewrite Hcap in *. change (negb (Piece.NONE =? Piece.NONE)) with false. cbv iota.
    destruct side; cbv [wrc rdc Color.toZ Color.getOpposite Color.eqb] in *;
      (apply PiecesOK_of_placed; board_simpl; rewrite ?length_wr;
       try assumption; try counters); placement Hbp Hb0 Hb1.
  - pose proof (isPieceCode_range _ Hc) as Hcr.
    destruct (colour_facts _ _ Hcc) as [Hcodd Hcev].
    pose proof (opposite_colour _ _ side Hcol Hcc) as Hpc'.
    replace (cap =? Piece.NONE) with false
      by (symmetry; apply Z.eqb_neq; unfold Piece.NONE; lia).
    cbn [negb]. cbv iota. board_simpl.
    destruct side; cbv [wrc rdc Color.toZ Color.getOpposite Color.eqb] in *;
      (apply PiecesOK_of_placed; board_simpl; rewrite ?length_wr;
       try assumption; try counters); placement Hbp Hb0 Hb1.
Qed.

Lemma PiecesOK_promoteCapture (side : Color.t) (promoted from to : Z) (b : Board) :
  PiecesOK b -> 0 <= from < 64 -> 0 <= to < 64 -> from <> to ->
  rd (m_board b) from = Piece.make side PieceType.PAWN ->
  isPieceCode promoted = true -> Piece.getColor promoted = side ->
  promoted <> Piece.make side PieceType.PAWN ->
  isPieceCode (rd (m_board b) to) = true ->
  Piece.getColor (rd (m_board b) to) = Color.getOpposite side ->
  PiecesOK (fst (promotePawnWithCapture side promoted from to b)).
Proof.
  intros OK Hf Ht Hne Hpawn Hq Hqc Hqp Hc Hcc.
  pose proof (isPieceCode_range _ Hq) as Hqr.
  destruct (colour_facts promoted side Hqc) as [Hodd Hev].
  remember (rd (m_board b) to) as cap eqn:Hcapd. symmetry in Hcapd.
  pose proof (isPieceCode_range _ Hc) as Hcr.
  destruct (colour_facts _ _ Hcc) as [Hcodd Hcev].
  pose proof (opposite_colour _ _ side Hqc Hcc) as Hpc'.
  open_placed OK b Hbp Hb0 Hb1.
  cbv [promotePawnWithCapture]. board_simpl. rewrite Hcapd.
  replace (cap =? Piece.NONE) with false
    by (symmetry; apply Z.eqb_neq; unfold Piece.NONE; lia).
  cbn [negb]. cbv iota. board_simpl.
  destruct side; cbv [wrc rdc Color.toZ Color.getOpposite Color.eqb] in *;
    change (Piece.make Color.WHITE PieceType.PAWN) with 3 in *;
    change (Piece.make Color.BLACK PieceType.PAWN) with 2 in *;
    (apply PiecesOK_of_placed; board_simpl; rewrite ?length_wr;
     try assumption; try counters); placement Hbp Hb0 Hb1.
Qed.

Lemma PiecesOK_promote (side : Color.t) (promoted from to : Z) (b : Board) :
  PiecesOK b -> 0 <= from < 64 -> 0 <= to < 64 -> from <> to ->
  rd (m_board b) from = Piece.make side PieceType.PAWN ->
  isPieceCode promoted = true -> Piece.getColor promoted = side ->
  promoted <> Piece.make side PieceType.PAWN ->
  rd (m_board b) to = Piece.NONE ->
  PiecesOK (promotePawn side true promoted from to b).
Proof.
  intros OK Hf Ht Hne Hpawn Hq Hqc Hqp Hcapd.
  pose proof (isPieceCode_range _ Hq) as Hqr.
  destruct (colour_facts promoted side Hqc) as [Hodd Hev].
  open_placed OK b Hbp Hb0 Hb1.
  cbv [promotePawn]. board_simpl.
  destruct side; cbv [wrc rdc Color.toZ Color.getOpposite Color.eqb] in *;
    change (Piece.make Color.WHITE PieceType.PAWN) with 3 in *;
    change (Piece.make Color.BLACK PieceType.PAWN) with 2 in *;
    (apply PiecesOK_of_placed; board_simpl; rewrite ?length_wr;
     try assumption; try counters); placement Hbp Hb0 Hb1.
Qed.

Lemma PiecesOK_enpassant (side : Color.t) (from to : Z) (b : Board) :
  PiecesOK b -> 0 <= from < 64 -> 0 <= to < 64 -> from <> to ->
  rd (m_board b) from = Piece.make side PieceType.PAWN ->
  rd (m_board b) to = Piece.NONE ->
  0 <= enpassantCapturedSq side to < 64 ->
  rd (m_board b) (enpassantCapturedSq side to)
  = Piece.make (Color.getOpposite side) PieceType.PAWN ->
  PiecesOK (doEnpassant side true from to b).
Proof.
  intros OK Hf Ht Hne Hpawn Hempty Hcs Hcp.
  remember (enpassantCapturedSq side to) as csq eqn:Hcsq.
  open_placed OK b Hbp Hb0 Hb1.
  cbv [doEnpassant]. board_simpl. rewrite <- Hcsq.
  destruct side; cbv [wrc rdc Color.toZ Color.getOpposite Color.eqb] in *;
    change (Piece.make Color.WHITE PieceType.PAWN) with 3 in *;
    change (Piece.make Color.BLACK PieceType.PAWN) with 2 in *;
    (apply PiecesOK_of_placed; board_simpl; rewrite ?length_wr;
     try assumption; try counters); placement Hbp Hb0 Hb1.
Qed.

Ltac castle_squares :=
  repeat match goal with
  | |- context [castlingRookSquares ?s ?d ?k] => eval_head (castlingRookSquares s d k)
  | H : context [castlingRookSquares ?s ?d ?k] |- _ => eval_head (castlingRookSquares s d k)
  | |- context [Piece.make ?s ?p] => eval_head (Piece.make s p)
  | H : context [Piece.make ?s ?p] |- _ => eval_head (Piece.make s p)
  | |- context [Square.makeRelativeSquare ?s ?q] => eval_head (Square.makeRelativeSquare s q)
  | H : context [Square.makeRelativeSquare ?s ?q] |- _ =>
      eval_head (Square.makeRelativeSquare s q)
  end.

Lemma PiecesOK_castling (side : Color.t) (from to : Z) (b : Board) :
  PiecesOK b ->
  from = Square.makeRelativeSquare side Square.E1 ->
  (to = Square.makeRelativeSquare side Square.G1
   \/ to = Square.makeRelativeSquare side Square.C1) ->
  rd (m_board b) from = Piece.make side PieceType.KING ->
  rd (m_board b) to = Piece.NONE ->
  rd (m_board b) (fst (castlingRookSquares side true (Square.getFile to =? File.G)))
    = Piece.make side PieceType.ROOK ->
  rd (m_board b) (snd (castlingRookSquares side true (Square.getFile to =? File.G)))
    = Piece.NONE ->
  PiecesOK (doCastling side true from to b).
Proof.
  intros OK -> Hto Hk He Hr Hre.
  open_placed OK b Hbp Hb0 Hb1.
  cbv [doCastling].
  destruct side, Hto as [-> | ->]; castle_squares; cbn [fst snd] in *;
    cbv beta iota zeta;
    change (BitBoard.fromSquares [?a; ?c]) with (change_of a c);
    board_simpl; cbv [wrc rdc Color.toZ Color.getOpposite Color.eqb] in *;
    (apply PiecesOK_of_placed; board_simpl; rewrite ?length_wr;
     try assumption; try counters); placement Hbp Hb0 Hb1.
Qed.

(** *** From the cells back to the invariant *)

Lemma forallb_of_rd {A} `{Inhabited A} (P : A -> bool) (l : list A) :
  (forall i, 0 <= i < Z.of_nat (length l) -> P (rd l i) = true) -> forallb P l = true.
Proof.
  intros Hall. apply forallb_forall. intros x Hin.
  apply list_elem_of_In, list_elem_of_lookup in Hin as [n Hn].
  pose proof (lookup_lt_Some _ _ _ Hn) as Hlt.
  specialize (Hall (Z.of_nat n) ltac:(lia)). unfold rd in Hall.
  rewrite Nat2Z.id in Hall.
  now rewrite (list_lookup_total_correct l n x Hn) in Hall.
Qed.

Lemma Square_iter_range (sq : Z) : In sq Square.iter -> 0 <= sq < 64.
Proof.
  unfold Square.iter. intros Hin. apply in_map_iff in Hin as (n & <- & Hn).
  apply in_seq in Hn. lia.
Qed.

Lemma pieceCodes_range (q : Z) : In q pieceCodes -> isPieceCode q = true.
Proof.
  unfold pieceCodes. intros Hin. apply in_map_iff in Hin as (n & <- & Hn).
  apply in_seq in Hn. apply isPieceCode_of_range. lia.
Qed.

Lemma PiecesOK_boardInvariant (b : Board) :
  PiecesOK b -> 0 <= m_moveCount b < 4294967296 -> boardInvariant b = true.
Proof.
  intros OK Hn. cells OK b.
  unfold boardInvariant, wellTyped. rewrite !andb_true_iff, !Nat.eqb_eq.
  pose proof toZ_range as Hz.
  repeat split; try assumption.
  - apply forallb_of_rd. intros i Hi. apply (ok_pieces b OK). lia.
  - apply forallb_of_rd. intros i Hi.
    assert (Hi' : i = 0 \/ i = 1) by lia.
    destruct Hi' as [-> | ->];
      [exact (ok_color b OK Color.BLACK) | exact (ok_color b OK Color.WHITE)].
  - apply forallb_of_rd. intros i Hi. unfold inI32.
    assert (Hi' : i = 0 \/ i = 1) by lia.
    apply andb_true_iff. rewrite Z.leb_le, Z.ltb_lt.
    destruct Hi' as [-> | ->];
      [exact (ok_material b OK Color.BLACK) | exact (ok_material b OK Color.WHITE)].
  - apply forallb_of_rd. intros i Hi. unfold inI16.
    assert (Hi' : i = 0 \/ i = 1) by lia.
    rewrite !andb_true_iff, !Z.leb_le, !Z.ltb_lt.
    destruct Hi' as [-> | ->];
      [exact (ok_score b OK Color.BLACK) | exact (ok_score b OK Color.WHITE)].
  - unfold inU32. apply andb_true_iff. rewrite Z.leb_le, Z.ltb_lt. exact Hn.
  - apply forallb_forall. intros sq Hin. apply Square_iter_range in Hin.
    unfold squareConsistent. cbv zeta. rewrite !andb_true_iff. repeat split.
    + destruct (ok_code b OK sq Hin) as [E | E]; rewrite E;
        [reflexivity | apply orb_true_r].
    + apply forallb_forall. intros q Hq. apply pieceCodes_range in Hq.
      unfold byPiece. rewrite (ok_bit_piece b OK) by assumption. apply eqb_reflx.
    + apply forallb_forall. intros c _.
      unfold byColor. rewrite (ok_bit_color b OK) by assumption. apply eqb_reflx.
Qed.

Lemma PiecesOK_movedOn (Side : Color.t) (b : Board) : PiecesOK b -> PiecesOK (movedOn Side b).
Proof. intros OK. constructor; apply OK. Qed.

Lemma PiecesOK_applyMove (Side : Color.t) (m : Z) (b : Board) :
  PiecesOK b -> m_side b = Side -> pseudoLegal b m = true ->
  PiecesOK (applyMove Side m b).
Proof.
  intros OK Hs Hpl.
  unfold pseudoLegal in Hpl. cbv zeta in Hpl. rewrite Hs in Hpl.
  rewrite !andb_true_iff in Hpl. destruct Hpl as [[[Hne Hp] Hc] Hcase].
  apply negb_true_iff, Z.eqb_neq in Hne. apply Color_eqb_eq in Hc.
  pose proof (getFrom_range m) as Hf. pose proof (getTo_range m) as Ht.
  pose proof (PiecesOK_movedOn Side b OK) as OK0.
  unfold applyMove. cbv zeta.
  destruct (Move.getMoveType m =? MoveType.SIMPLE) eqn:E0.
  { apply PiecesOK_move; auto.
    apply orb_true_iff in Hcase as [Hcase | Hcase];
      [left; now apply Z.eqb_eq | right; now apply enemy_spec]. }
  destruct (Move.getMoveType m =? MoveType.PROMOTION) eqn:E1.
  { apply andb_true_iff in Hcase as [Hpawn Hcase]. apply Z.eqb_eq in Hpawn.
    destruct (promoted_piece Side (Move.getPromotedPiece m) (getPromotedPiece_range m))
      as (Hq & Hqc & Hqp).
    destruct (Move.getTo m - Move.getFrom m =? _) eqn:Edir; cbn [negb].
    - apply Z.eqb_eq in Hcase. now apply PiecesOK_promote.
    - apply enemy_spec in Hcase. destruct Hcase as [Hcap Hcapc].
      now apply PiecesOK_promoteCapture. }
  destruct (Move.getMoveType m =? MoveType.ENPASSANT) eqn:E2.
  { rewrite !andb_true_iff in Hcase. destruct Hcase as [[[Hpawn Hto] Hcs] Hcp].
    apply Z.eqb_eq in Hpawn, Hto, Hcp. apply Z.ltb_lt in Hcs.
    pose proof (enpassantCapturedSq_nonneg Side (Move.getTo m)).
    apply PiecesOK_enpassant; auto. }
  assert (E3 : (Move.getMoveType m =? MoveType.CASTLE) = true).
  { apply Z.eqb_eq. apply Z.eqb_neq in E0, E1, E2. pose proof (getMoveType_range m).
    unfold MoveType.SIMPLE, MoveType.PROMOTION, MoveType.ENPASSANT, MoveType.CASTLE in *. lia. }
  rewrite E3.
  rewrite !andb_true_iff, orb_true_iff in Hcase.
  destruct Hcase as [[[[[Hking Hfrom] Hto] Hempty] Hrook] Hrto].
  rewrite !Z.eqb_eq in Hto. apply Z.eqb_eq in Hking, Hfrom, Hempty, Hrook, Hrto.
  now apply PiecesOK_castling.
Qed.

Lemma boardInvariant_makeMove (zk : ZobristKeys) (m : Z) (b : Board) :
  boardInvariant b = true -> pseudoLegal b m = true ->
  boardInvariant (makeMove zk m b) = true.
Proof.
  intros Hinv Hpl. apply boardInvariant_PiecesOK in Hinv as [OK Hn].
  assert (Hside : forall Side, m_side b = Side ->
            boardInvariant (makeMove_side zk Side m b) = true).
  { intros Side Hs.
    apply PiecesOK_boardInvariant.
    - destruct (makeMove_side_pushed zk Side m b) as [HF _]. rewrite HF.
      pose proof (PiecesOK_applyMove Side m b OK Hs Hpl) as OK'.
      constructor; apply OK'.
    - rewrite m_moveCount_makeMove_side. wrap_lia. }
  unfold makeMove. destruct (m_side b) eqn:Hs; now apply Hside.
Qed.

(** X20: [makeMove] keeps the position consistent.  When the board
    satisfies the consistency invariant (every member holds a value of
    its type, and on every square the square-to-piece array, the
    bitboards by piece and the bitboards by colour say the same) and the
    move is pseudo-legal, the board after [makeMove] satisfies the
    invariant again, for every kind of move: simple moves and captures,
    promotions, en-passant captures and castlings. *)
Theorem makeMove_keeps_the_position_consistent (zk : ZobristKeys) (m : Z) (b : Board) :
  boardInvariant b = true -> pseudoLegal b m = true ->
  boardInvariant (makeMove zk m b) = true.
Proof. apply boardInvariant_makeMove. Qed.

Lemma makeMove_keeps_the_position_consistent_witness :
  boardInvariant (makeMove C1_keys C1_move C1_board) = true.
Proof.
  apply (makeMove_keeps_the_position_consistent C1_keys C1_move C1_board);
    vm_compute; reflexivity.
Defined.

(* ===================================================================== *)
(** ** Board::makeMove: the hash follows the placement *)
(* ===================================================================== *)

From Stdlib Require Import Btauto.

(** The key of the piece on a square, as [fromFEN] folds it into the
    hash: an empty square has none. *)
Definition pieceKey (zk : ZobristKeys) (p sq : Z) : Z :=
  if isPieceCode p then zPIECE zk p sq else 0.

(** The keys of all the pieces on the board. *)
Definition placementHash (zk : ZobristKeys) (bd : list Z) : Z :=
  fold_right (fun sq acc => Z.lxor (pieceKey zk (rd bd sq) sq) acc) 0 Square.iter.

(** What the hash of the top state holds besides the placement. *)
Definition hashRest (zk : ZobristKeys) (b : Board) : Z :=
  Z.lxor (hash (state b)) (placementHash zk (m_board b)).

Ltac xor_solve :=
  apply Z.bits_inj'; intros ? ?; rewrite ?Z.lxor_spec, ?Z.bits_0; btauto.

Lemma xor_fold_wr (g : Z -> Z -> Z) (L : list Z) (bd : list Z) (i v : Z) :
  List.NoDup L -> (forall x, In x L -> 0 <= x) -> 0 <= i < Z.of_nat (length bd) ->
  fold_right (fun sq acc => Z.lxor (g (rd (wr bd i v) sq) sq) acc) 0 L
  = if existsb (Z.eqb i) L
    then Z.lxor (Z.lxor (fold_right (fun sq acc => Z.lxor (g (rd bd sq) sq) acc) 0 L)
                        (g (rd bd i) i)) (g v i)
    else fold_right (fun sq acc => Z.lxor (g (rd bd sq) sq) acc) 0 L.
Proof.
  intros Hnd Hpos Hi. induction L as [| a L IH]; [reflexivity |].
  apply List.NoDup_cons_iff in Hnd as [Hna Hnd].
  specialize (IH Hnd (fun x Hx => Hpos x (or_intror Hx))).
  cbn [fold_right existsb]. rewrite IH.
  destruct (Z.eqb_spec i a) as [<- | Hne]; cbn [orb].
  - rewrite rd_wr_eq by exact Hi.
    replace (existsb (Z.eqb i) L) with false.
    + xor_solve.
    + symmetry. apply not_true_is_false. intros H.
      apply existsb_exists in H as (x & Hx & E). apply Z.eqb_eq in E. now subst.
  - rewrite rd_wr_ne; [| lia | apply Hpos; now left | exact Hne].
    destruct (existsb (Z.eqb i) L); [xor_solve | reflexivity].
Qed.

Lemma NoDup_of_nat_seq (n a : nat) : List.NoDup (map Z.of_nat (seq a n)).
Proof.
  revert a. induction n as [| n IH]; intros a; cbn [seq map]; constructor; [| apply IH].
  intros Hin. apply in_map_iff in Hin as (x & E & Hx). apply in_seq in Hx. lia.
Qed.

Lemma NoDup_Square_iter : List.NoDup Square.iter.
Proof. apply NoDup_of_nat_seq. Qed.

Lemma placementHash_wr (zk : ZobristKeys) (bd : list Z) (i v : Z) :
  length bd = 64%nat -> 0 <= i < 64 ->
  placementHash zk (wr bd i v)
  = Z.lxor (Z.lxor (placementHash zk bd) (pieceKey zk (rd bd i) i)) (pieceKey zk v i).
Proof.
  intros Hlen Hi. unfold placementHash.
  rewrite (xor_fold_wr (pieceKey zk)); [| apply NoDup_Square_iter | | lia].
  - replace (existsb (Z.eqb i) Square.iter) with true; [reflexivity |].
    symmetry. apply existsb_exists. exists i. split; [now apply In_Square_iter | apply Z.eqb_refl].
  - intros x Hx. apply Square_iter_range in Hx. lia.
Qed.

(** The board array after each kind of move. *)
Lemma m_board_move (side : Color.t) (piece from to : Z) (b : Board) :
  m_board (fst (movePieceWithCapture side piece from to b))
  = wr (wr (m_board b) from Piece.NONE) to piece.
Proof. cbv [movePieceWithCapture]. board_simpl. now destruct (negb _). Qed.

Lemma m_board_promoteCapture (side : Color.t) (promoted from to : Z) (b : Board) :
  m_board (fst (promotePawnWithCapture side promoted from to b))
  = wr (wr (m_board b) from Piece.NONE) to promoted.
Proof. cbv [promotePawnWithCapture]. board_simpl. now destruct (negb _). Qed.

Lemma m_board_makeMove_side (zk : ZobristKeys) (Side : Color.t) (m : Z) (b : Board) :
  m_board (makeMove_side zk Side m b) = m_board (applyMove Side m b).
Proof. destruct (makeMove_side_pushed zk Side m b) as [HF _]. now rewrite HF. Qed.

Lemma pieceKey_code (zk : ZobristKeys) (p sq : Z) :
  isPieceCode p = true -> pieceKey zk p sq = zPIECE zk p sq.
Proof. intros H. unfold pieceKey. now rewrite H. Qed.

Lemma pieceKey_NONE (zk : ZobristKeys) (sq : Z) : pieceKey zk Piece.NONE sq = 0.
Proof. reflexivity. Qed.

Lemma isPieceCode_make (side : Color.t) (pt : Z) :
  1 <= pt <= 6 -> isPieceCode (Piece.make side pt) = true.
Proof.
  intros H. assert (Hpt : pt = 1 \/ pt = 2 \/ pt = 3 \/ pt = 4 \/ pt = 5 \/ pt = 6) by lia.
  destruct side, Hpt as [-> | [-> | [-> | [-> | [-> | ->]]]]]; reflexivity.
Qed.

Section HashRest.
Context (zk : ZobristKeys).

Lemma hashRest_makeMove_side (Side : Color.t) (m : Z) (b : Board) :
  PiecesOK b -> m_side b = Side -> pseudoLegal b m = true ->
  hashRest zk (makeMove_side zk Side m b)
  = Z.lxor (Z.lxor (hashRest zk b) zobrist.MOVE_KEY)
      (if Move.getMoveType m =? MoveType.ENPASSANT
       then zPIECE zk (Piece.make (Color.getOpposite Side) PieceType.PAWN)
              (enpassantCapturedSq Side (Move.getTo m))
       else 0).
Proof.
  intros OK Hs Hpl.
  unfold pseudoLegal in Hpl. cbv zeta in Hpl. rewrite Hs in Hpl.
  rewrite !andb_true_iff in Hpl. destruct Hpl as [[[Hne Hp] Hc] Hcase].
  apply negb_true_iff, Z.eqb_neq in Hne. apply Color_eqb_eq in Hc.
  pose proof (getFrom_range m) as Hf. pose proof (getTo_range m) as Ht.
  pose proof (ok_len_board b OK) as Hlen.
  unfold hashRest. rewrite hash_makeMove_side, m_board_makeMove_side.
  unfold hashAfter, applyMove. cbv zeta.
  change (m_board (movedOn Side b)) with (m_board b).
  destruct (Move.getMoveType m =? MoveType.SIMPLE) eqn:E0.
  { assert (E2 : (Move.getMoveType m =? MoveType.ENPASSANT) = false).
    { apply Z.eqb_eq in E0. rewrite E0. reflexivity. }
    rewrite E2, m_board_move. change (m_board (movedOn Side b)) with (m_board b).
    rewrite !placementHash_wr by (rewrite ?length_wr; lia).
    rewrite rd_wr_ne by lia.
    rewrite (pieceKey_code zk _ (Move.getFrom m) Hp), (pieceKey_code zk _ (Move.getTo m) Hp).
    rewrite pieceKey_NONE.
    apply orb_true_iff in Hcase as [Hcase | Hcase].
    - apply Z.eqb_eq in Hcase. rewrite Hcase.
      change (negb (Piece.NONE =? Piece.NONE)) with false. cbv iota.
      rewrite pieceKey_NONE. xor_solve.
    - apply enemy_spec in Hcase as [Hcap _].
      replace (rd (m_board b) (Move.getTo m) =? Piece.NONE) with false
        by (symmetry; apply Z.eqb_neq; apply isPieceCode_range in Hcap;
            unfold Piece.NONE; lia).
      cbn [negb]. rewrite (pieceKey_code zk _ _ Hcap). xor_solve. }
  destruct (Move.getMoveType m =? MoveType.PROMOTION) eqn:E1.
  { assert (E2 : (Move.getMoveType m =? MoveType.ENPASSANT) = false).
    { apply Z.eqb_eq in E1. rewrite E1. reflexivity. }
    rewrite E2.
    apply andb_true_iff in Hcase as [Hpawn Hcase]. apply Z.eqb_eq in Hpawn.
    destruct (promoted_piece Side (Move.getPromotedPiece m) (getPromotedPiece_range m))
      as (Hq & Hqc & Hqp).
    assert (Hbd : m_board
              (if negb (Move.getTo m - Move.getFrom m
                        =? match Side with Color.WHITE => 8 | Color.BLACK => -8 end)
               then fst (promotePawnWithCapture Side
                           (Piece.make Side (Move.getPromotedPiece m))
                           (Move.getFrom m) (Move.getTo m) (movedOn Side b))
               else promotePawn Side true (Piece.make Side (Move.getPromotedPiece m))
                      (Move.getFrom m) (Move.getTo m) (movedOn Side b))
            = wr (wr (m_board b) (Move.getFrom m) Piece.NONE) (Move.getTo m)
                (Piece.make Side (Move.getPromotedPiece m))).
    { destruct (negb _); [now rewrite m_board_promoteCapture | reflexivity]. }
    rewrite Hbd.
    rewrite !placementHash_wr by (rewrite ?length_wr; lia).
    rewrite rd_wr_ne by lia.
    rewrite Hpawn.
    rewrite (pieceKey_code zk (Piece.make Side PieceType.PAWN))
      by (apply isPieceCode_make; cbv; split; congruence).
    rewrite (pieceKey_code zk _ (Move.getTo m) Hq).
    rewrite pieceKey_NONE.
    destruct (Move.getTo m - Move.getFrom m =? _) eqn:Edir; cbn [negb andb].
    - apply Z.eqb_eq in Hcase. rewrite Hcase. rewrite pieceKey_NONE. xor_solve.
    - apply enemy_spec in Hcase as [Hcap _].
      replace (rd (m_board b) (Move.getTo m) =? Piece.NONE) with false
        by (symmetry; apply Z.eqb_neq; apply isPieceCode_range in Hcap;
            unfold Piece.NONE; lia).
      cbn [negb]. rewrite (pieceKey_code zk _ _ Hcap). xor_solve. }
  destruct (Move.getMoveType m =? MoveType.ENPASSANT) eqn:E2.
  { rewrite !andb_true_iff in Hcase. destruct Hcase as [[[Hpawn Hto] Hcs] Hcp].
    apply Z.eqb_eq in Hpawn, Hto, Hcp. apply Z.ltb_lt in Hcs.
    pose proof (enpassantCapturedSq_nonneg Side (Move.getTo m)) as Hcs0.
    assert (Hbd : m_board (doEnpassant Side true (Move.getFrom m) (Move.getTo m)
                             (movedOn Side b))
            = wr (wr (wr (m_board b) (Move.getTo m) (Piece.make Side PieceType.PAWN))
                     (Move.getFrom m) Piece.NONE)
                 (enpassantCapturedSq Side (Move.getTo m)) Piece.NONE)
      by reflexivity.
    rewrite Hbd.
    assert (Hcf : enpassantCapturedSq Side (Move.getTo m) <> Move.getFrom m).
    { intros E. rewrite E, Hpawn in Hcp. destruct Side; discriminate. }
    assert (Hct : enpassantCapturedSq Side (Move.getTo m) <> Move.getTo m).
    { intros E. rewrite E, Hto in Hcp. destruct Side; discriminate. }
    rewrite !placementHash_wr by (rewrite ?length_wr; lia).
    rewrite !rd_wr_ne by lia.
    rewrite Hpawn, Hto, Hcp.
    rewrite !(pieceKey_code zk (Piece.make _ PieceType.PAWN))
      by (apply isPieceCode_make; cbv; split; congruence).
    rewrite !pieceKey_NONE. xor_solve. }
  assert (E3 : (Move.getMoveType m =? MoveType.CASTLE) = true).
  { apply Z.eqb_eq. apply Z.eqb_neq in E0, E1, E2. pose proof (getMoveType_range m).
    unfold MoveType.SIMPLE, MoveType.PROMOTION, MoveType.ENPASSANT, MoveType.CASTLE in *. lia. }
  rewrite E3.
  rewrite !andb_true_iff, orb_true_iff in Hcase.
  destruct Hcase as [[[[[Hking Hfrom] Hto] Hempty] Hrook] Hrto].
  rewrite !Z.eqb_eq in Hto. apply Z.eqb_eq in Hking, Hfrom, Hempty, Hrook, Hrto.
  assert (Hbd : m_board (doCastling Side true (Move.getFrom m) (Move.getTo m)
                           (movedOn Side b))
          = let sqs := castlingRookSquares Side true (Square.getFile (Move.getTo m) =? File.G) in
            wr (wr (wr (wr (m_board b) (Move.getFrom m) Piece.NONE) (Move.getTo m)
                      (Piece.make Side PieceType.KING))
                  (fst sqs) Piece.NONE)
               (snd sqs) (Piece.make Side PieceType.ROOK)).
  { cbv [doCastling]. destruct (castlingRookSquares _ _ _). reflexivity. }
  rewrite Hbd. cbv zeta.
  revert Hking Hempty Hrook Hrto.
  generalize (m_board b) Hlen. intros bd Hlen' Hking Hempty Hrook Hrto.
  rewrite Hfrom in *.
  destruct Side, Hto as [Hto | Hto]; rewrite Hto in *; castle_squares; cbn [fst snd] in *.
  all: rewrite !placementHash_wr by (rewrite ?length_wr; lia).
  all: rewrite !rd_wr_ne by lia.
  all: rewrite Hking, Hempty, Hrook, Hrto.
  all: rewrite ?pieceKey_NONE.
  all: rewrite !pieceKey_code by reflexivity.
  all: xor_solve.
Qed.
End HashRest.

(** X21: [makeMove] updates the hash in step with the placement.  Set
    the keys of the pieces that stand on the board aside: what is left of
    the hash changes by [MOVE_KEY] and nothing else when a pseudo-legal
    move is made in a consistent position; except at an en-passant
    capture, where the key of the captured pawn is not taken out of the
    hash and stays in it. *)
Theorem hash_follows_the_placement (zk : ZobristKeys) (m : Z) (b : Board) :
  boardInvariant b = true -> pseudoLegal b m = true ->
  hashRest zk (makeMove zk m b)
  = Z.lxor (Z.lxor (hashRest zk b) zobrist.MOVE_KEY)
      (if Move.getMoveType m =? MoveType.ENPASSANT
       then zPIECE zk (Piece.make (Color.getOpposite (m_side b)) PieceType.PAWN)
              (enpassantCapturedSq (m_side b) (Move.getTo m))
       else 0).
Proof.
  intros Hinv Hpl. apply boardInvariant_PiecesOK in Hinv as [OK _].
  rewrite makeMove_eq. now apply hashRest_makeMove_side.
Qed.

Lemma hash_follows_the_placement_witness :
  hashRest C1_keys (makeMove C1_keys C1_move C1_board)
  = Z.lxor (Z.lxor (hashRest C1_keys C1_board) zobrist.MOVE_KEY)
      (if Move.getMoveType C1_move =? MoveType.ENPASSANT
       then zPIECE C1_keys (Piece.make (Color.getOpposite (m_side C1_board)) PieceType.PAWN)
              (enpassantCapturedSq (m_side C1_board) (Move.getTo C1_move))
       else 0).
Proof. apply (hash_follows_the_placement C1_keys C1_move C1_board); vm_compute; reflexivity. Defined.

(** [fromFEN] starts the hash as the keys of the pieces and the key of
    the side to move.  After the en-passant capture c4xd3 the hash holds,
    besides [MOVE_KEY], the key of the white pawn that stood on d4. *)
Definition enpassantBoard : Board :=
  fst (fromFEN C1_keys "rnbqkbnr/pp1ppppp/8/8/2pPP3/5P2/PPP3PP/RNBQKBNR b KQkq d3 0 1" false).

Remark hash_after_enpassant :
  let m := makeMoveFromString enpassantBoard "c4d3" in
  hashRest C1_keys enpassantBoard = zSIDE C1_keys Color.BLACK
  /\ Move.getMoveType m = MoveType.ENPASSANT
  /\ hashRest C1_keys (makeMove C1_keys m enpassantBoard)
     = Z.lxor (Z.lxor (zSIDE C1_keys Color.BLACK) zobrist.MOVE_KEY)
              (zPIECE C1_keys Piece.PAWN_WHITE 27).
Proof. vm_compute. repeat split; reflexivity. Qed.

(* ===================================================================== *)
(** ** Board::makeMove: material and scores follow the placement *)
(* ===================================================================== *)

(** A piece of the colour. *)
Definition ownedBy (c : Color.t) (p : Z) : bool :=
  isPieceCode p && Color.eqb (Piece.getColor p) c.

(** The sum of a value of the piece on every square. *)
Definition sumOver (g : Z -> Z -> Z) (bd : list Z) : Z :=
  fold_right (fun sq acc => g (rd bd sq) sq + acc) 0 Square.iter.

(** The material and the two halves of the piece-square score of a
    colour, counted from the board array. *)
Definition materialOn (c : Color.t) (bd : list Z) : Z :=
  sumOver (fun p _ => if ownedBy c p then Material.materialOf (Piece.getType p) else 0) bd.

Definition scoreOn (part : Score -> Z) (c : Color.t) (bd : list Z) : Z :=
  sumOver (fun p sq => if ownedBy c p then part (scores.PST p sq) else 0) bd.

(** The counters [m_material] and [m_score] hold what the board array
    gives; the scores are 16-bit values and hold the sum as it wraps. *)
Definition countersOK (b : Board) : bool :=
  forallb (fun c =>
    (rdc (m_material b) c =? materialOn c (m_board b))
    && (middlegame (rdc (m_score b) c) =? Int.i16 (scoreOn middlegame c (m_board b)))
    && (endgame (rdc (m_score b) c) =? Int.i16 (scoreOn endgame c (m_board b))))
    Color.iter.

Lemma countersOK_spec (b : Board) :
  countersOK b = true <->
  forall c, rdc (m_material b) c = materialOn c (m_board b)
    /\ middlegame (rdc (m_score b) c) = Int.i16 (scoreOn middlegame c (m_board b))
    /\ endgame (rdc (m_score b) c) = Int.i16 (scoreOn endgame c (m_board b)).
Proof.
  unfold countersOK. rewrite forallb_forall. split.
  - intros H c. specialize (H c ltac:(destruct c; cbn; tauto)).
    rewrite !andb_true_iff, !Z.eqb_eq in H. tauto.
  - intros H c _. specialize (H c). rewrite !andb_true_iff, !Z.eqb_eq. tauto.
Qed.

Lemma sum_fold_wr (g : Z -> Z -> Z) (L : list Z) (bd : list Z) (i v : Z) :
  List.NoDup L -> (forall x, In x L -> 0 <= x) -> 0 <= i < Z.of_nat (length bd) ->
  fold_right (fun sq acc => g (rd (wr bd i v) sq) sq + acc) 0 L
  = fold_right (fun sq acc => g (rd bd sq) sq + acc) 0 L
    + (if existsb (Z.eqb i) L then g v i - g (rd bd i) i else 0).
Proof.
  intros Hnd Hpos Hi. induction L as [| a L IH]; [reflexivity |].
  apply List.NoDup_cons_iff in Hnd as [Hna Hnd].
  specialize (IH Hnd (fun x Hx => Hpos x (or_intror Hx))).
  cbn [fold_right existsb]. rewrite IH.
  destruct (Z.eqb_spec i a) as [<- | Hne]; cbn [orb].
  - rewrite rd_wr_eq by exact Hi.
    replace (existsb (Z.eqb i) L) with false; [lia |].
    symmetry. apply not_true_is_false. intros H.
    apply existsb_exists in H as (x & Hx & E). apply Z.eqb_eq in E. now subst.
  - rewrite rd_wr_ne; [| lia | apply Hpos; now left | exact Hne].
    destruct (existsb (Z.eqb i) L); lia.
Qed.

Lemma sumOver_wr (g : Z -> Z -> Z) (bd : list Z) (i v : Z) :
  length bd = 64%nat -> 0 <= i < 64 ->
  sumOver g (wr bd i v) = sumOver g bd - g (rd bd i) i + g v i.
Proof.
  intros Hlen Hi. unfold sumOver.
  rewrite (sum_fold_wr g); [| apply NoDup_Square_iter | | lia].
  - replace (existsb (Z.eqb i) Square.iter) with true; [lia |].
    symmetry. apply existsb_exists. exists i.
    split; [now apply In_Square_iter | apply Z.eqb_refl].
  - intros x Hx. apply Square_iter_range in Hx. lia.
Qed.

Lemma sumOver_bound (g : Z -> Z -> Z) (K : Z) (bd : list Z) :
  (forall p sq, 0 <= g p sq <= K) -> 0 <= sumOver g bd <= 64 * K.
Proof.
  intros Hg. unfold sumOver.
  assert (H : forall L, 0 <= fold_right (fun sq acc => g (rd bd sq) sq + acc) 0 L
                        <= Z.of_nat (length L) * K).
  { induction L as [| a L IH]; cbn [fold_right length]; [lia |].
    specialize (Hg (rd bd a) a). nia. }
  specialize (H Square.iter). change (Z.of_nat (length Square.iter)) with 64 in H. exact H.
Qed.

Lemma materialOf_piece (p : Z) :
  isPieceCode p = true -> 0 <= Material.materialOf (Piece.getType p) <= 10.
Proof.
  intros H. apply isPieceCode_range in H.
  assert (Hp : p = 2 \/ p = 3 \/ p = 4 \/ p = 5 \/ p = 6 \/ p = 7 \/ p = 8 \/ p = 9
               \/ p = 10 \/ p = 11 \/ p = 12 \/ p = 13) by lia.
  repeat (destruct Hp as [-> | Hp]; [vm_compute; split; discriminate |]).
  subst. vm_compute. split; discriminate.
Qed.

Lemma materialOn_bound (c : Color.t) (bd : list Z) : 0 <= materialOn c bd <= 640.
Proof.
  unfold materialOn. apply (sumOver_bound _ 10). intros p _.
  unfold ownedBy. destruct (isPieceCode p) eqn:E; cbn [andb]; [| lia].
  destruct (Color.eqb _ c); [now apply materialOf_piece | lia].
Qed.

(** Two sums that differ by a multiple of 2^16 wrap to the same value. *)
Lemma i16_unwrap (z : Z) : exists k, Int.i16 z = z + 65536 * k.
Proof. destruct (i16_spec z) as (k & Hk & _). now exists k. Qed.

Lemma i16_shift (x k : Z) : Int.i16 (x + 65536 * k) = Int.i16 x.
Proof.
  unfold Int.i16. f_equal.
  replace (x + 65536 * k + 32768) with (x + 32768 + k * 65536) by lia.
  apply Z_mod_plus_full.
Qed.

Ltac i16_open :=
  repeat match goal with
  | |- Int.i16 ?A = Int.i16 ?B =>
      match A with
      | context [Int.i16 ?z] =>
          let k := fresh "k" in let Hk := fresh "Hk" in
          destruct (i16_unwrap z) as [k Hk]; rewrite Hk; clear Hk
      end
  | |- Int.i16 ?A = Int.i16 ?B =>
      match B with
      | context [Int.i16 ?z] =>
          let k := fresh "k" in let Hk := fresh "Hk" in
          destruct (i16_unwrap z) as [k Hk]; rewrite Hk; clear Hk
      end
  end.

(** Drop the multiples of 2^16 from a sum under [Int.i16]. *)
Ltac i16_drop :=
  repeat match goal with
  | k : Z |- Int.i16 ?A = _ =>
      lazymatch A with context [k] => idtac end;
      let f := eval pattern k in A in
      lazymatch f with
      | ?g _ =>
          let A0 := eval cbv beta in (g 0) in
          first [ replace A with (A0 + 65536 * k) by lia
                | replace A with (A0 + 65536 * (- k)) by lia ];
          rewrite i16_shift
      end
  end.

Ltac i16_solve :=
  i16_open; i16_drop; symmetry; i16_drop; apply (f_equal Int.i16); lia.

(** The counters of a board agree with its board array. *)
Definition counted (b : Board) : Prop :=
  forall c, rdc (m_material b) c = materialOn c (m_board b)
    /\ middlegame (rdc (m_score b) c) = Int.i16 (scoreOn middlegame c (m_board b))
    /\ endgame (rdc (m_score b) c) = Int.i16 (scoreOn endgame c (m_board b)).

Lemma ownedBy_colour (p : Z) (side : Color.t) :
  isPieceCode p = true -> Piece.getColor p = side ->
  ownedBy side p = true /\ ownedBy (Color.getOpposite side) p = false.
Proof.
  intros Hp Hc. unfold ownedBy. rewrite Hp, Hc. now destruct side.
Qed.

Lemma i32_small_range (z : Z) : -2147483648 <= z < 2147483648 -> Int.i32 z = z.
Proof. intros H. unfold Int.i32. rewrite Z.mod_small; lia. Qed.

(** Open the board and the facts about its counters. *)
Ltac open_counted Hcnt b :=
  let Hw := fresh "Hw" in let Hb := fresh "Hb" in
  pose proof (Hcnt Color.WHITE) as Hw; pose proof (Hcnt Color.BLACK) as Hb;
  destruct Hw as (?Hmw & ?Hgw & ?Hew); destruct Hb as (?Hmb & ?Hgb & ?Heb);
  clear Hcnt.

Ltac use_cells :=
  repeat match goal with
  | H : rd ?l ?i = _ |- context [rd ?l ?i] => rewrite H
  | H : ownedBy ?c ?p = _ |- context [ownedBy ?c ?p] => rewrite H
  | H : middlegame (rd ?l ?i) = _ |- context [middlegame (rd ?l ?i)] => rewrite H
  | H : endgame (rd ?l ?i) = _ |- context [endgame (rd ?l ?i)] => rewrite H
  end.

Lemma materialOn_wr (c : Color.t) (bd : list Z) (i v : Z) :
  length bd = 64%nat -> 0 <= i < 64 ->
  materialOn c (wr bd i v)
  = materialOn c bd
    - (if ownedBy c (rd bd i) then Material.materialOf (Piece.getType (rd bd i)) else 0)
    + (if ownedBy c v then Material.materialOf (Piece.getType v) else 0).
Proof. intros Hlen Hi. unfold materialOn. now rewrite sumOver_wr. Qed.

Lemma scoreOn_wr (part : Score -> Z) (c : Color.t) (bd : list Z) (i v : Z) :
  length bd = 64%nat -> 0 <= i < 64 ->
  scoreOn part c (wr bd i v)
  = scoreOn part c bd
    - (if ownedBy c (rd bd i) then part (scores.PST (rd bd i) i) else 0)
    + (if ownedBy c v then part (scores.PST v i) else 0).
Proof. intros Hlen Hi. unfold scoreOn. now rewrite sumOver_wr. Qed.

(** One counter after an operation. *)
Ltac counter_done :=
  rewrite ?materialOn_wr, ?scoreOn_wr by (rewrite ?length_wr; lia);
  rewrite ?rd_wr_ne by lia;
  use_cells;
  repeat match goal with
  | |- context [ownedBy ?c ?p] =>
      let v := eval vm_compute in (ownedBy c p) in
      lazymatch v with true => idtac | false => idtac end;
      change (ownedBy c p) with v
  end;
  cbv iota;
  change (Material.materialOf PieceType.PAWN) with 1 in *;
  change (Material.materialOf (Piece.getType 2)) with 1 in *;
  change (Material.materialOf (Piece.getType 3)) with 1 in *;
  first [ reflexivity
        | rewrite ?i32_small_range by lia; lia
        | i16_solve ].

Ltac counter_cells :=
  let c := fresh "c" in
  intros c; destruct c; cbv [rdc wrc Color.toZ Color.getOpposite];
  board_simpl; rd_if; cbn [Z.eqb Pos.eqb]; cbv iota;
  cbn [middlegame endgame ScoreOps.add ScoreOps.sub];
  (split; [| split]); counter_done.

Lemma counted_move (side : Color.t) (piece from to : Z) (b : Board) :
  PiecesOK b -> counted b -> 0 <= from < 64 -> 0 <= to < 64 -> from <> to ->
  rd (m_board b) from = piece ->
  isPieceCode piece = true -> Piece.getColor piece = side ->
  (rd (m_board b) to = Piece.NONE
   \/ (isPieceCode (rd (m_board b) to) = true
       /\ Piece.getColor (rd (m_board b) to) = Color.getOpposite side)) ->
  counted (fst (movePieceWithCapture side piece from to b)).
Proof.
  intros OK Hcnt Hf Ht Hne Hpiece Hp Hcol Hcap.
  destruct (ownedBy_colour piece side Hp Hcol) as [Hown Hnown].
  remember (rd (m_board b) to) as cap eqn:Hcapd. symmetry in Hcapd.
  pose proof (ok_len_board b OK) as Hlen. pose proof (ok_len_material b OK) as Hlm.
  pose proof (ok_len_score b OK) as Hls.
  unfold counted in *. open_counted Hcnt b.
  pose proof (materialOn_bound Color.WHITE (m_board b)).
  pose proof (materialOn_bound Color.BLACK (m_board b)).
  clear OK. open_board b.
  cbv [movePieceWithCapture]. board_simpl. rewrite Hcapd.
  destruct Hcap as [Hcap | [Hc Hcc]].
  - rewrite Hcap in *. change (negb (Piece.NONE =? Piece.NONE)) with false. cbv iota.
    destruct side; cbv [rdc wrc Color.toZ Color.getOpposite] in *; counter_cells.
  - pose proof (isPieceCode_range _ Hc) as Hcr.
    destruct (ownedBy_colour cap _ Hc Hcc) as [Hcown Hcnown].
    pose proof (materialOf_piece cap Hc).
    replace (cap =? Piece.NONE) with false
      by (symmetry; apply Z.eqb_neq; unfold Piece.NONE; lia).
    cbn [negb]. cbv iota.
    destruct side; cbv [rdc wrc Color.toZ Color.getOpposite] in *; counter_cells.
Qed.

Lemma counted_promoteCapture (side : Color.t) (promoted from to : Z) (b : Board) :
  PiecesOK b -> counted b -> 0 <= from < 64 -> 0 <= to < 64 -> from <> to ->
  rd (m_board b) from = Piece.make side PieceType.PAWN ->
  isPieceCode promoted = true -> Piece.getColor promoted = side ->
  isPieceCode (rd (m_board b) to) = true ->
  Piece.getColor (rd (m_board b) to) = Color.getOpposite side ->
  counted (fst (promotePawnWithCapture side promoted from to b)).
Proof.
  intros OK Hcnt Hf Ht Hne Hpawn Hq Hqc Hc Hcc.
  destruct (ownedBy_colour promoted side Hq Hqc) as [Hown Hnown].
  remember (rd (m_board b) to) as cap eqn:Hcapd. symmetry in Hcapd.
  pose proof (isPieceCode_range _ Hc) as Hcr.
  destruct (ownedBy_colour cap _ Hc Hcc) as [Hcown Hcnown].
  pose proof (materialOf_piece cap Hc). pose proof (materialOf_piece promoted Hq).
  pose proof (ok_len_board b OK) as Hlen. pose proof (ok_len_material b OK) as Hlm.
  pose proof (ok_len_score b OK) as Hls.
  unfold counted in *. open_counted Hcnt b.
  pose proof (materialOn_bound Color.WHITE (m_board b)).
  pose proof (materialOn_bound Color.BLACK (m_board b)).
  clear OK. open_board b.
  cbv [promotePawnWithCapture promotionMaterial]. board_simpl. rewrite Hcapd.
  replace (cap =? Piece.NONE) with false
    by (symmetry; apply Z.eqb_neq; unfold Piece.NONE; lia).
  cbn [negb]. cbv iota.
  destruct side; cbv [rdc wrc Color.toZ Color.getOpposite] in *;
    change (Piece.make Color.WHITE PieceType.PAWN) with 3 in *;
    change (Piece.make Color.BLACK PieceType.PAWN) with 2 in *;
    counter_cells.
Qed.

Lemma counted_promote (side : Color.t) (promoted from to : Z) (b : Board) :
  PiecesOK b -> counted b -> 0 <= from < 64 -> 0 <= to < 64 -> from <> to ->
  rd (m_board b) from = Piece.make side PieceType.PAWN ->
  isPieceCode promoted = true -> Piece.getColor promoted = side ->
  rd (m_board b) to = Piece.NONE ->
  counted (promotePawn side true promoted from to b).
Proof.
  intros OK Hcnt Hf Ht Hne Hpawn Hq Hqc Hcapd.
  destruct (ownedBy_colour promoted side Hq Hqc) as [Hown Hnown].
  pose proof (materialOf_piece promoted Hq).
  pose proof (ok_len_board b OK) as Hlen. pose proof (ok_len_material b OK) as Hlm.
  pose proof (ok_len_score b OK) as Hls.
  unfold counted in *. open_counted Hcnt b.
  pose proof (materialOn_bound Color.WHITE (m_board b)).
  pose proof (materialOn_bound Color.BLACK (m_board b)).
  clear OK. open_board b.
  cbv [promotePawn promotionMaterial]. board_simpl.
  destruct side; cbv [rdc wrc Color.toZ Color.getOpposite] in *;
    change (Piece.make Color.WHITE PieceType.PAWN) with 3 in *;
    change (Piece.make Color.BLACK PieceType.PAWN) with 2 in *;
    counter_cells.
Qed.

Lemma counted_enpassant (side : Color.t) (from to : Z) (b : Board) :
  PiecesOK b -> counted b -> 0 <= from < 64 -> 0 <= to < 64 -> from <> to ->
  rd (m_board b) from = Piece.make side PieceType.PAWN ->
  rd (m_board b) to = Piece.NONE ->
  0 <= enpassantCapturedSq side to < 64 ->
  rd (m_board b) (enpassantCapturedSq side to)
  = Piece.make (Color.getOpposite side) PieceType.PAWN ->
  counted (doEnpassant side true from to b).
Proof.
  intros OK Hcnt Hf Ht Hne Hpawn Hempty Hcs Hcp.
  remember (enpassantCapturedSq side to) as csq eqn:Hcsq.
  assert (Hcf : csq <> from).
  { intros E. rewrite E, Hpawn in Hcp. destruct side; discriminate. }
  assert (Hct : csq <> to).
  { intros E. rewrite E, Hempty in Hcp. destruct side; discriminate. }
  pose proof (ok_len_board b OK) as Hlen. pose proof (ok_len_material b OK) as Hlm.
  pose proof (ok_len_score b OK) as Hls.
  unfold counted in *. open_counted Hcnt b.
  pose proof (materialOn_bound Color.WHITE (m_board b)).
  pose proof (materialOn_bound Color.BLACK (m_board b)).
  clear OK. open_board b.
  cbv [doEnpassant]. board_simpl. rewrite <- Hcsq.
  destruct side; cbv [rdc wrc Color.toZ Color.getOpposite] in *;
    change (Piece.make Color.WHITE PieceType.PAWN) with 3 in *;
    change (Piece.make Color.BLACK PieceType.PAWN) with 2 in *;
    counter_cells.
Qed.

Lemma counted_castling (side : Color.t) (from to : Z) (b : Board) :
  PiecesOK b -> counted b ->
  from = Square.makeRelativeSquare side Square.E1 ->
  (to = Square.makeRelativeSquare side Square.G1
   \/ to = Square.makeRelativeSquare side Square.C1) ->
  rd (m_board b) from = Piece.make side PieceType.KING ->
  rd (m_board b) to = Piece.NONE ->
  rd (m_board b) (fst (castlingRookSquares side true (Square.getFile to =? File.G)))
    = Piece.make side PieceType.ROOK ->
  rd (m_board b) (snd (castlingRookSquares side true (Square.getFile to =? File.G)))
    = Piece.NONE ->
  counted (doCastling side true from to b).
Proof.
  intros OK Hcnt -> Hto Hk He Hr Hre.
  pose proof (ok_len_board b OK) as Hlen. pose proof (ok_len_material b OK) as Hlm.
  pose proof (ok_len_score b OK) as Hls.
  unfold counted in *. open_counted Hcnt b.
  clear OK. open_board b.
  cbv [doCastling].
  destruct side, Hto as [-> | ->]; castle_squares; cbn [fst snd] in *;
    cbv beta iota zeta; board_simpl; cbv [rdc wrc Color.toZ Color.getOpposite] in *;
    counter_cells.
Qed.

Lemma counted_applyMove (Side : Color.t) (m : Z) (b : Board) :
  PiecesOK b -> counted b -> m_side b = Side -> pseudoLegal b m = true ->
  counted (applyMove Side m b).
Proof.
  intros OK Hcnt Hs Hpl.
  unfold pseudoLegal in Hpl. cbv zeta in Hpl. rewrite Hs in Hpl.
  rewrite !andb_true_iff in Hpl. destruct Hpl as [[[Hne Hp] Hc] Hcase].
  apply negb_true_iff, Z.eqb_neq in Hne. apply Color_eqb_eq in Hc.
  pose proof (getFrom_range m) as Hf. pose proof (getTo_range m) as Ht.
  pose proof (PiecesOK_movedOn Side b OK) as OK0.
  assert (Hcnt0 : counted (movedOn Side b)) by exact Hcnt.
  unfold applyMove. cbv zeta.
  destruct (Move.getMoveType m =? MoveType.SIMPLE) eqn:E0.
  { apply counted_move; auto.
    apply orb_true_iff in Hcase as [Hcase | Hcase];
      [left; now apply Z.eqb_eq | right; now apply enemy_spec]. }
  destruct (Move.getMoveType m =? MoveType.PROMOTION) eqn:E1.
  { apply andb_true_iff in Hcase as [Hpawn Hcase]. apply Z.eqb_eq in Hpawn.
    destruct (promoted_piece Side (Move.getPromotedPiece m) (getPromotedPiece_range m))
      as (Hq & Hqc & Hqp).
    destruct (Move.getTo m - Move.getFrom m =? _) eqn:Edir; cbn [negb].
    - apply Z.eqb_eq in Hcase. now apply counted_promote.
    - apply enemy_spec in Hcase. destruct Hcase as [Hcap Hcapc].
      now apply counted_promoteCapture. }
  destruct (Move.getMoveType m =? MoveType.ENPASSANT) eqn:E2.
  { rewrite !andb_true_iff in Hcase. destruct Hcase as [[[Hpawn Hto] Hcs] Hcp].
    apply Z.eqb_eq in Hpawn, Hto, Hcp. apply Z.ltb_lt in Hcs.
    pose proof (enpassantCapturedSq_nonneg Side (Move.getTo m)).
    apply counted_enpassant; auto. }
  assert (E3 : (Move.getMoveType m =? MoveType.CASTLE) = true).
  { apply Z.eqb_eq. apply Z.eqb_neq in E0, E1, E2. pose proof (getMoveType_range m).
    unfold MoveType.SIMPLE, MoveType.PROMOTION, MoveType.ENPASSANT, MoveType.CASTLE in *. lia. }
  rewrite E3.
  rewrite !andb_true_iff, orb_true_iff in Hcase.
  destruct Hcase as [[[[[Hking Hfrom] Hto] Hempty] Hrook] Hrto].
  rewrite !Z.eqb_eq in Hto. apply Z.eqb_eq in Hking, Hfrom, Hempty, Hrook, Hrto.
  now apply counted_castling.
Qed.

Lemma countersOK_makeMove (zk : ZobristKeys) (m : Z) (b : Board) :
  boardInvariant b = true -> countersOK b = true -> pseudoLegal b m = true ->
  countersOK (makeMove zk m b) = true.
Proof.
  intros Hinv Hcnt Hpl. apply boardInvariant_PiecesOK in Hinv as [OK _].
  pose proof (proj1 (countersOK_spec b) Hcnt) as Hcnt'. apply (proj2 (countersOK_spec _)).
  rewrite makeMove_eq.
  destruct (makeMove_side_pushed zk (m_side b) m b) as [HF _]. rewrite HF.
  exact (counted_applyMove (m_side b) m b OK Hcnt' eq_refl Hpl).
Qed.

(** X22: [makeMove] keeps the material and the piece-square scores in
    step with the board.  When, in a consistent position, the material
    counter of each colour is the material of its pieces on the board
    and the two halves of its score are the sums of the piece-square
    values of its pieces (as 16-bit values), the same holds after
    [makeMove] of a pseudo-legal move: the incremental updates of
    captures, promotions, en-passant captures and castlings add up. *)
Theorem makeMove_keeps_the_counters_in_step (zk : ZobristKeys) (m : Z) (b : Board) :
  boardInvariant b = true -> countersOK b = true -> pseudoLegal b m = true ->
  countersOK (makeMove zk m b) = true
  /\ (forall c, rdc (m_material (makeMove zk m b)) c
                = materialOn c (m_board (makeMove zk m b))
                /\ 0 <= rdc (m_material (makeMove zk m b)) c <= 640).
Proof.
  intros Hinv Hcnt Hpl.
  pose proof (countersOK_makeMove zk m b Hinv Hcnt Hpl) as H.
  split; [exact H |]. intros c. pose proof (proj1 (countersOK_spec _) H) as H'.
  destruct (H' c) as [Hm _]. split; [exact Hm |]. rewrite Hm. apply materialOn_bound.
Qed.

Lemma makeMove_keeps_the_counters_in_step_witness :
  countersOK (makeMove C1_keys C1_move C1_board) = true
  /\ (forall c, rdc (m_material (makeMove C1_keys C1_move C1_board)) c
                = materialOn c (m_board (makeMove C1_keys C1_move C1_board))
                /\ 0 <= rdc (m_material (makeMove C1_keys C1_move C1_board)) c <= 640).
Proof.
  apply (makeMove_keeps_the_counters_in_step C1_keys C1_move C1_board);
    vm_compute; reflexivity.
Defined.

(** The boards [fromFEN] builds start with the counters in step; here
    the start position, a position with an en-passant square and one
    with a promotion at hand. *)
Remark countersOK_fromFEN :
  countersOK C1_board = true /\ countersOK enpassantBoard = true
  /\ countersOK C9_board = true.
Proof. vm_compute. repeat split; reflexivity. Qed.

(* ===================================================================== *)
(** ** Engine.cpp : making and taking back moves given as text *)
(* ===================================================================== *)

Module engine_cpp.
(** The globals [g_board], [g_moveHistory] and [g_errorMessage]. *)
Record Globals : Set := mkGlobals {
  g_board : Board;
  g_moveHistory : list Z;
  g_errorMessage : string }.

Section WithKeys.
Context (zk : ZobristKeys).

(** [engine::makeMove(move)]: [g_board.makeMove(m)] is [Board::makeMove]. *)
Definition makeMove (move : string) (g : Globals) : bool * Globals :=
  let m := makeMoveFromString (g_board g) move in
  if Move.isNullMove m then
    (false, mkGlobals (g_board g) (g_moveHistory g) move)
  else
    (true, mkGlobals (makeMove zk m (g_board g)) (g_moveHistory g ++ [m])
             (g_errorMessage g)).

(** [engine::unmakeMove()] *)
Definition unmakeMove (g : Globals) : bool * Globals :=
  match g_moveHistory g with
  | [] => (false, mkGlobals (g_board g) (g_moveHistory g) "No move to unmake")
  | _ :: _ =>
      (true, mkGlobals (unmakeMove (List.last (g_moveHistory g) Move.makeNullMove)
                          (g_board g))
               (removelast (g_moveHistory g)) (g_errorMessage g))
  end.
End WithKeys.
End engine_cpp.

Lemma pseudoLegal_ext (b : Board) (m m' : Z) :
  Move.getFrom m = Move.getFrom m' -> Move.getTo m = Move.getTo m' ->
  Move.getMoveType m = Move.getMoveType m' -> pseudoLegal b m = pseudoLegal b m'.
Proof. intros Hf Ht Hty. unfold pseudoLegal. now rewrite Hf, Ht, Hty. Qed.

(** A promotion word built with a piece type from knight to king. *)
Lemma promotion_word_fields (f t pt : Z) :
  0 <= f < 64 -> 0 <= t < 64 -> PieceType.KNIGHT <= pt <= PieceType.KING ->
  Move.getFrom (Move.make f t MoveType.PROMOTION pt) = f
  /\ Move.getTo (Move.make f t MoveType.PROMOTION pt) = t
  /\ Move.getMoveType (Move.make f t MoveType.PROMOTION pt) = MoveType.PROMOTION.
Proof.
  intros Hf Ht Hpt.
  pose proof promotion_letter_words as H. rewrite forallb_forall in H.
  specialize (H f (In_Square_iter f Hf)). rewrite forallb_forall in H.
  specialize (H t (In_Square_iter t Ht)). cbv zeta in H.
  apply andb_true_iff in H as [H _]. apply andb_true_iff in H as [H _].
  apply andb_true_iff in H as [H Hking]. apply andb_true_iff in H as [H Hprom].
  rewrite forallb_forall in H. rewrite forallb_forall in Hprom.
  assert (Hin : In pt [0; 1; 2; 3; 4; 5; 6])
    by (unfold PieceType.KNIGHT, PieceType.KING in Hpt; cbn; lia).
  specialize (H pt Hin). apply andb_true_iff in H as [H1 H2]. apply Z.eqb_eq in H1, H2.
  split; [exact H1 |]. split; [exact H2 |].
  destruct (Z.eq_dec pt PieceType.KING) as [-> | Hk].
  - apply Z.eqb_eq in Hking. unfold Move.getMoveType. rewrite Hking.
    specialize (Hprom 2 ltac:(cbn; tauto)). apply andb_true_iff in Hprom as [P _].
    now apply Z.eqb_eq in P.
  - assert (Hin4 : In pt [2; 3; 4; 5])
      by (unfold PieceType.KNIGHT, PieceType.KING in *; cbn; lia).
    specialize (Hprom pt Hin4). apply andb_true_iff in Hprom as [P _].
    now apply Z.eqb_eq in P.
Qed.

(** A text whose promotion letter, if there is one, names a piece from
    knight to king; the queen-side castling text has five characters too
    and is taken with the king on its home square. *)
Definition plainMoveText (b : Board) (str : string) : Prop :=
  size str <= 4
  \/ PieceType.KNIGHT <= Piece.getType (Piece.fromFENChar (char_at str 4))
  \/ (str = "0-0-0"%string
      /\ rd (m_board b) (Square.makeRelativeSquare (m_side b) Square.E1)
         = Piece.make (m_side b) PieceType.KING).

Lemma makeMoveFromString_pseudoLegal (b : Board) (str : string) :
  boardInvariant b = true -> stateConsistent b = true -> plainMoveText b str ->
  Move.isNullMove (makeMoveFromString b str) = false ->
  pseudoLegal b (makeMoveFromString b str) = true.
Proof.
  intros Hinv Hst Htext Hnn.
  destruct (makeMoveFromString_cases b str)
    as [H | (m & Hin & Hl & _ & _ & _ & H000 & _ & Hnp & Hp)];
    [rewrite H in Hnn; discriminate |].
  assert (Hpl : pseudoLegal b m = true).
  { destruct (generateMoves_sound b movegen.ALL_MOVES [] m Hinv Hst Hin) as [[] | H]. exact H. }
  destruct (Z.eq_dec (Move.getMoveType m) MoveType.PROMOTION) as [E | E];
    [| now rewrite (Hnp E)].
  rewrite (Hp E).
  assert (Hpt : PieceType.KNIGHT
                <= (if size str >? 4 then Piece.getType (Piece.fromFENChar (char_at str 4))
                    else PieceType.KNIGHT) <= PieceType.KING).
  { pose proof (fromFENChar_type (char_at str 4)) as Hty.
    assert (Hmax : Piece.getType (Piece.fromFENChar (char_at str 4)) <= PieceType.KING).
    { unfold PieceType.KING. cbn [In] in Hty. lia. }
    destruct (Z.gtb_spec (size str) 4) as [Hgt | Hle];
      [| unfold PieceType.KNIGHT, PieceType.KING; lia].
    split; [| exact Hmax].
    destruct Htext as [Hs | [Hk | [H0 Hking]]]; [lia | exact Hk |].
    exfalso. destruct (H000 H0) as [Hf _].
    unfold pseudoLegal in Hpl. cbv zeta in Hpl.
    rewrite E in Hpl.
    change (MoveType.PROMOTION =? MoveType.SIMPLE) with false in Hpl.
    change (MoveType.PROMOTION =? MoveType.PROMOTION) with true in Hpl. cbv iota in Hpl.
    rewrite !andb_true_iff in Hpl. destruct Hpl as [_ [Hpawn _]].
    apply Z.eqb_eq in Hpawn. rewrite Hf, Hking in Hpawn.
    destruct (m_side b); discriminate. }
  destruct (promotion_word_fields (Move.getFrom m) (Move.getTo m) _
              (getFrom_range m) (getTo_range m) Hpt) as (Hf & Ht & Hty).
  rewrite <- Hpl. apply pseudoLegal_ext; congruence.
Qed.

Lemma last_snoc {A} (l : list A) (x d : A) : List.last (l ++ [x]) d = x.
Proof. induction l as [| a l IH]; [reflexivity |]. cbn [app]. destruct (l ++ [x]) eqn:E;
  [destruct l; discriminate | exact IH]. Qed.

(** X23: the moves of the driver.  [engine::makeMove] with a text that
    [makeMoveFromString] does not accept fails, stores the text as the
    error message and leaves board and history alone; an accepted move
    is made on the board and appended to the history.  [engine::unmakeMove]
    with an empty history fails with its message and changes nothing
    else.  In a consistent position, after a move given by a plain text
    is accepted, [engine::unmakeMove] succeeds and gives back the board,
    the history and the error message of before. *)
Theorem driver_takes_back_what_it_made
  (zk : ZobristKeys) (move : string) (g : engine_cpp.Globals) :
  let b := engine_cpp.g_board g in
  let m := makeMoveFromString b move in
  let r := engine_cpp.makeMove zk move g in
  (Move.isNullMove m = true ->
     r = (false, engine_cpp.mkGlobals b (engine_cpp.g_moveHistory g) move))
  /\ (Move.isNullMove m = false ->
      r = (true, engine_cpp.mkGlobals (makeMove zk m b)
                   (engine_cpp.g_moveHistory g ++ [m]) (engine_cpp.g_errorMessage g)))
  /\ (engine_cpp.g_moveHistory g = [] ->
      engine_cpp.unmakeMove g
      = (false, engine_cpp.mkGlobals b [] "No move to unmake"))
  /\ (boardInvariant b = true -> stateConsistent b = true -> plainMoveText b move ->
      fst r = true -> engine_cpp.unmakeMove (snd r) = (true, g)).
Proof.
  cbv zeta. unfold engine_cpp.makeMove. cbv zeta.
  split; [intros H; now rewrite H |].
  split; [intros H; now rewrite H |].
  split; [intros H; unfold engine_cpp.unmakeMove; now rewrite H |].
  intros Hinv Hst Htext.
  destruct (Move.isNullMove _) eqn:Hnn; cbn [fst snd]; [discriminate |]. intros _.
  pose proof (makeMoveFromString_pseudoLegal _ _ Hinv Hst Htext Hnn) as Hpl.
  unfold engine_cpp.unmakeMove. cbn [engine_cpp.g_moveHistory engine_cpp.g_board
    engine_cpp.g_errorMessage].
  destruct (engine_cpp.g_moveHistory g ++ [_]) eqn:Eh;
    [destruct (engine_cpp.g_moveHistory g); discriminate |].
  rewrite <- Eh. rewrite last_snoc, removelast_last.
  rewrite (unmakeMove_makeMove zk _ _ Hinv Hpl).
  now destruct g.
Qed.

(** The start position with nothing played yet. *)
Definition driver_start : engine_cpp.Globals :=
  engine_cpp.mkGlobals C1_board [] EmptyString.

Lemma driver_takes_back_what_it_made_witness :
  fst (engine_cpp.makeMove C1_keys "e2e4" driver_start) = true
  /\ engine_cpp.unmakeMove (snd (engine_cpp.makeMove C1_keys "e2e4" driver_start))
     = (true, driver_start).
Proof.
  split; [vm_compute; reflexivity |].
  apply (driver_takes_back_what_it_made C1_keys "e2e4" driver_start).
  - vm_compute; reflexivity.
  - vm_compute; reflexivity.
  - left. vm_compute. discriminate.
  - vm_compute; reflexivity.
Defined.
